(* ===== verification/_CoqProject ===== *)
-Q . S2P
Prelude.v
Text.v
Wire.v
JpegScan.v
Envelope.v
Modes.v
Fnv.v
Frame.v
Pipeline.v
Concurrency.v
Jpeg.v
Cli.v
Decode.v
Simulate.v
Screencast.v
Usb.v
Observe.v
Display.v
Signals.v
Main.v
JpegDecode.v
UnitTests.v
Header.v
Threads.v
Guard.v
GuardSafety.v
Daemon.v
DaemonSafety.v
DaemonLiveness.v
DaemonTermination.v
Vmap.v
VmapSafety.v
Probe.v
