(* ===== verification/Prelude.v ===== *)
(** * Verification of smiusb

    A model and correctness proofs of an open driver for the Silicon Motion SM768 USB
    display adapter: the Rust daemon under rust/src (offline decoder, frame pipeline,
    JPEG boundary and passive observer), the C and C++ programs under src (the libusb
    guard, the session daemon, the probe), and the patch under kernel/evdi.

    ** The program and its model

    Packets come from captures; the protocol module parses and builds them
    without I/O.  Frames are produced (today by a test-pattern generator), queued
    per device generation in a bounded pipeline behind a mutex, taken by an
    encoder that calls TurboJPEG, and gated by generation in front of the sink.
    A USB observer numbers the generations of hot-plugged devices.  main parses
    the command line and runs one of these paths.

    Beside the crate, the guard is preloaded into the vendor's daemon and stands
    between its threads and libusb; the C++ daemon opens the adapters that arrive,
    with a worker thread that owns the sessions; the probe prints descriptors.  The
    kernel patch serialises the mapping of a buffer in EVDI, the module through which
    the desktop's pixels come.

    - [Prelude] (this file): the platform's widths, executions that return, fail,
      panic or run out of fuel, effects ([io]) and the protocols of foreign
      resources ([run_protocol]), machine arithmetic, slices, the shared tactics
      and hint databases.
    - [Text]: what the program uses of Rust's strings (number rendering and
      parsing, UTF-8).
    - [Wire]: protocol.rs, constants, [parse_header],
      [parse_canonical_command_request], the request builders, [parse_frame_ack].
    - [JpegScan]: protocol.rs, [parse_jpeg_end], the JPEG marker scanner.
    - [Envelope]: protocol.rs, [align_payload_length], [parse_frame_envelope].
    - [Modes]: protocol.rs, [parse_observed_modes].
    - [Fnv]: jpeg.rs, [fnv1a64].
    - [Frame]: frame.rs, [FrameLayout], [Frame], the test pattern, the checksum.
    - [Pipeline]: frame.rs, the methods of [FramePipeline] as functions on
      [PipelineState], and histories of calls.
    - [Concurrency]: frame.rs, the mutex of [FramePipeline], [lock_state], and
      threads that call the methods, with sinks that run and panic under the lock.
    - [Jpeg]: jpeg.rs, [Compressor] with its [Drop], and [EncodedFrame], against
      the interface class [TurboJpeg], with the library calls in order.
    - [Cli]: main.rs, [parse_hex], [read_hex_text], [read_hex_file],
      [parse_args], [parse_pattern_args].
    - [Decode]: main.rs, [decode] and [print_protocol_info], with their output.
    - [Simulate]: main.rs, [simulate_pattern], with its output.
    - [Screencast]: screencast.rs, [parse_version_output] and [discover].
    - [Usb]: usb.rs, [Speed::from], [UsbContext] and [DeviceList] with their
      [Drop]s, [target_devices], [error_name], [format_bcd], with the libusb
      calls in order.
    - [Observe]: main.rs, [observe].
    - [Display]: the [Display] implementations of protocol.rs and frame.rs, and
      the messages that main.rs, jpeg.rs, usb.rs and screencast.rs format.
    - [Signals]: main.rs, [request_stop] and [install_signal_handlers], and
      [observe] under a schedule of signals.
    - [Main]: main.rs, [main] and [print_screen_cast_version], from the bytes of the
      arguments to the lines on the standard streams.
    - [JpegDecode]: jpeg.rs, the [Decompressor] of its tests, against the interface
      class [TurboJpegDecompress].
    - [UnitTests]: the crate's own tests, run on the model.
    - [Header]: include/smiusb/protocol.h, and its agreement with [Wire].
    - [Threads]: C and C++ functions as trees of atomic operations ([prog]), their
      interleavings ([trun]), a rely-guarantee rule for them ([safe]), and what a fair
      schedule reaches ([fair_reaches]).
    - [Guard], [GuardSafety]: src/guard/smiusb_guard.c, every replaced libusb
      function; its variables, resolved symbols and hotplug records as [state]; any
      number of vendor threads.
    - [Daemon], [DaemonSafety], [DaemonLiveness], [DaemonTermination]:
      src/daemon/smiusbd.cpp, [parse_options], [SessionManager], [main]; the members,
      the condition variable and who owns which reference and handle as [state]; the
      main thread and the worker.
    - [Vmap], [VmapSafety]: kernel/evdi/patches/0001-serialize-persistent-vmap.patch,
      [evdi_gem_vmap], [evdi_gem_vunmap], [evdi_gem_free_object] and their callers, with
      the patch and without; the fields of the object, the counter of its dma-buf and
      the holders of references as [state]; any number of users.
    - [Probe]: src/probe/smiusb_probe.c, whole, with what libusb handed out as part
      of its [state].

    A Rust function is a Rocq function of the same name (a method carries its
    type's name where the bare name is taken: [FrameLayout_new],
    [Compressor_new]); [Result] is [exec], [?] is [let!], a [u8] to [usize] is a
    [Z] that the theorems bound by [in_width], [+] that may overflow is [add_at],
    an index that may be out of range is [slice_index].  Error strings that the
    source formats are error constructors with the values they print, and
    [Display] has the text of each.  A function with visible effects is an [io]:
    the lines it prints and its calls into a C library, in order, beside its
    result.

    ** What the theorems show

    - Parsing: each parser returns on every byte slice, without a panic or an
      overflow; what it accepts is characterised by an independent description of
      the bytes ([wire], the marker grammar [jpeg_image], [envelope_layout],
      [mode_table]); each error states a fact of the packet, and an error of an image
      what had been parsed in front of it ([jpeg_parsed]).  Builders round-trip
      through the parsers.
    - Frames: layouts within bounds exactly, the test pattern pixel by pixel,
      checksums that detect a changed byte.
    - Pipeline: the invariant, the case specification of [submit], order of
      delivery, the generation fence, exact accounting, newest frames kept on
      overflow, for every history; and for every interleaving of threads, whose
      methods read and write the state in separate steps under the mutex,
      linearizability, mutual exclusion with poisoning, sinks atomic with respect
      to generation changes, and completion of pending calls.
    - JPEG boundary: the C library is only called with buffers of the announced
      sizes; success exactly when its answer is a JPEG in the buffer.
    - Handles: on every path of the simulation and of the observer, the TurboJPEG
      handle, the libusb context and each device list are used only while live
      and are released exactly once.
    - Signals: from the installation of the handlers on, a signal ends the
      observer at its next test, in order.
    - Messages: an error of protocol.rs or frame.rs can be read back from its
      message.
    - Command line, decoder, simulation, observer: accepted inputs, printed
      output and errors, round trips between what is printed and what is parsed.
    - The whole program panics exactly for an argument that is not Unicode or a line
      that a stream refuses, and its exit code classifies every other outcome.
    - Guard: under every interleaving, libusb is never reached with a null handle or
      through an unresolved pointer, records are not used after they are freed, null
      handles get their error, and with the fence on no transfer and no callback
      shows the vendor a disconnect; and for one thread, what every function, the
      registration of a callback and the dispatch of an event do on every branch, the
      lookup of the real functions included.
    - Daemon: for arguments with a program name and a clock to which the duration can
      be added, under every interleaving, no undefined behaviour or data race, events in
      order, sessions paired and numbered, references and handles balanced at every
      moment and all released when [main] returns; no deadlock and no lost wake-up;
      under every fair schedule a requested stop ends the process.
    - Kernel patch: for any users and any interleaving, the kernel's checks never fire,
      a mapping is held once exactly if the object has one, nothing is left when the
      object is freed, and under a fair schedule it is; the code without the patch
      fails under the schedule that docs/kernel-panic-2026-09-02.md suspects.
    - Probe: for arguments that C gives a meaning, it terminates, prints exactly the
      reports of the devices present and then of those that come and go, and gives
      everything back to libusb.
    - The unit tests of the crate and the C tests pass on the model.

    ** Bounds and fuel

    Every theorem holds on 32 and 64 bit platforms ([Platform]).  Loops that are
    not structural carry fuel: [skip_fill], [scan_loop] and [jpeg_loop] take one
    more than the length of the input, since each turn moves the cursor;
    [chunks_exact] the length; [render] the number of bits; [from_utf8] one
    more than the length; [drain_loop] one more than the queue.  The totality theorems show
    that [NoFuel] does not arise.  The counting loops of [Probe] take one more than
    their bound, and its watching loop is proved to end within the readings of the
    clock that reach the deadline.  The blocks of [Threads] name their successors, so
    the guard, the daemon and the users of a buffer need no fuel: a run is a schedule
    of any length, and termination is accessibility in the step relation.

    ** Outside the model

    TurboJPEG, libusb, [gdbus], the file system, the clock, the arrival of
    signals, the Unicode tables and the allocator are parameters, with what their
    documentation promises as laws of a class or hypotheses, each instantiated in
    a witness; so are the kernel's allocators, the dma-buf and the lines of EVDI that
    the patch does not show ([EvdiBuild]).  Not modelled: the sleep between polls,
    [Send] and [Sync], addresses of vectors; the declarations of foreign functions;
    exceptions of the C++ library (allocation, creation of a thread) and memory orders
    weaker than the interleaving of atomic steps (the guard's counter and the daemon's
    stop flag are relaxed); the cursor's and the painter's own locks in EVDI, of which
    the patch shows one call each; the scripts and the build files, which only run
    other programs.  Signals that arrive while a command other than the observer runs
    have their default action and are not modelled. *)

From Stdlib Require Export ZArith Lia.
From stdpp Require Export base tactics option list numbers.

#[export] Set Default Goal Selector "!".

Open Scope Z_scope.

(** ** The platform

    [usize] is as wide as a pointer.  The crate's [usize] constants (256 MiB,
    512 MiB) need at least 32 bits, so the widths it compiles for are 32 and
    64.  [c_ulong] is 32 or 64 bits independently of [usize] (LP64, ILP32 and
    LLP64 targets). *)
Class Platform := {
  usize_bits : Z;
  c_ulong_bits : Z;
  usize_bits_ok : usize_bits = 32 \/ usize_bits = 64;
  c_ulong_bits_ok : c_ulong_bits = 32 \/ c_ulong_bits = 64;
}.

(** The platform the driver is built for. *)
#[export] Program Instance x86_64_linux : Platform :=
  {| usize_bits := 64; c_ulong_bits := 64 |}.
Solve Obligations with lia.

Definition u8_max : Z := 255.
Definition u16_max : Z := 65535.
Definition u32_max : Z := 4294967295.
Definition u64_max : Z := 18446744073709551615.
Definition c_int_max : Z := 2147483647.
Definition usize_max `{Platform} : Z := 2 ^ usize_bits - 1.
Definition isize_max `{Platform} : Z := 2 ^ (usize_bits - 1) - 1.
Definition c_ulong_max `{Platform} : Z := 2 ^ c_ulong_bits - 1.

Definition in_width (max v : Z) : Prop := 0 <= v <= max.

#[export] Instance in_width_dec max v : Decision (in_width max v).
Proof. unfold in_width. apply _. Defined.

(** ** Executions

    A Rust function that returns [Result<A, E>] ends with [Ok] or [Err]; it
    may also panic (an index out of range, an overflowing [+] in a checked
    build, a failed [expect]).  [NoFuel] is the outcome of a loop whose fuel
    is exhausted; it is not an outcome of the program, and the components
    prove that it never arises. *)
Inductive exec (E A : Type) : Type :=
| Ok (a : A)
| Err (e : E)
| Panic
| NoFuel.
Arguments Ok {E A} a.
Arguments Err {E A} e.
Arguments Panic {E A}.
Arguments NoFuel {E A}.

Definition exec_bind {E A B} (m : exec E A) (k : A -> exec E B) : exec E B :=
  match m with
  | Ok a => k a
  | Err e => Err e
  | Panic => Panic
  | NoFuel => NoFuel
  end.

(** [Result::map_err] *)
Definition map_err {E F A} (f : E -> F) (m : exec E A) : exec F A :=
  match m with
  | Ok a => Ok a
  | Err e => Err (f e)
  | Panic => Panic
  | NoFuel => NoFuel
  end.

(** [Option::ok_or] and [Option::expect] *)
Definition ok_or {E A} (o : option A) (e : E) : exec E A :=
  match o with Some a => Ok a | None => Err e end.

Definition expect {E A} (o : option A) : exec E A :=
  match o with Some a => Ok a | None => Panic end.

(** A result that the environment provides, with its error in the program's
    type. *)
Definition from_env {E F A} (f : E -> F) (r : E + A) : exec F A :=
  match r with inr a => Ok a | inl e => Err (f e) end.

Declare Scope exec_scope.
Delimit Scope exec_scope with exec.
Notation "'let!' x ':=' m 'in' k" := (exec_bind m (fun x => k))
  (at level 10, x pattern, m at level 100, k at level 200) : exec_scope.
Open Scope exec_scope.

(** Weakest precondition of an execution: it returns, with a value in [Q] or
    an error in [QE]; it neither panics nor runs out of fuel. *)
Definition exec_wp {E A} (m : exec E A) (Q : A -> Prop) (QE : E -> Prop) : Prop :=
  match m with
  | Ok a => Q a
  | Err e => QE e
  | Panic | NoFuel => False
  end.

(** An execution that returns, whatever it returns. *)
Definition returns {E A} (m : exec E A) : Prop :=
  exec_wp m (fun _ => True) (fun _ => True).

(** ** Effects

    A computation with visible effects yields what it did, in order, beside its
    outcome: lines printed, calls into a C library. *)
Definition io (W E A : Type) : Type := list W * exec E A.

Definition io_bind {W E A B} (m : io W E A) (k : A -> io W E B) : io W E B :=
  match m with
  | (ws, Ok a) => let '(more, r) := k a in (ws ++ more, r)
  | (ws, Err e) => (ws, Err e)
  | (ws, Panic) => (ws, Panic)
  | (ws, NoFuel) => (ws, NoFuel)
  end.

Notation "'let*' x ':=' m 'in' k" := (io_bind m (fun x => k))
  (at level 10, x pattern, m at level 100, k at level 200) : exec_scope.

(** A computation without effects, and effects alone. *)
Definition lift {W E A} (m : exec E A) : io W E A := ([], m).
Definition emit {W E} (ws : list W) : io W E unit := (ws, Ok tt).

(** The effects and the errors of a component as those of its client. *)
Definition io_map {W W' E E' A} (f : W -> W') (g : E -> E') (m : io W E A) : io W' E' A :=
  (f <$> m.1, map_err g m.2).

(** Run destructors when a computation ends, however it ends. *)
Definition finally {W E A} (drops : list W) (m : io W E A) : io W E A := (m.1 ++ drops, m.2).

(** A state threaded through the effects by a partial step function: the
    protocol of a foreign resource. *)
Section protocol.
Context {S W : Type} (pstep : S -> W -> option S).

Fixpoint run_protocol (s : S) (ws : list W) : option S :=
  match ws with
  | [] => Some s
  | w :: ws => pstep s w ≫= fun s => run_protocol s ws
  end.

Lemma run_protocol_app s ws ws' s' :
  run_protocol s ws = Some s' -> run_protocol s (ws ++ ws') = run_protocol s' ws'.
Proof.
  revert s. induction ws as [|w ws IH]; intros s H; cbn in H |- *; [by simplify_eq|].
  destruct (pstep s w) as [s1|]; cbn in H |- *; [by apply IH|done].
Qed.
End protocol.

(** ** Machine arithmetic *)

(** [usize::checked_add], [usize::checked_mul], [usize::checked_sub] *)
Definition checked_add `{Platform} (a b : Z) : option Z :=
  if a + b <=? usize_max then Some (a + b) else None.
Definition checked_mul `{Platform} (a b : Z) : option Z :=
  if a * b <=? usize_max then Some (a * b) else None.
Definition checked_sub (a b : Z) : option Z :=
  if b <=? a then Some (a - b) else None.

(** [usize::saturating_sub] and [u64::saturating_add] *)
Definition saturating_sub (a b : Z) : Z := Z.max 0 (a - b).
Definition saturating_add_u64 (a b : Z) : Z := Z.min u64_max (a + b).

(** The operators [+], [-] and [*] on an unsigned type of maximum [max]: a
    checked build panics on overflow, a release build wraps. The components
    prove that no execution reaches the panic, so both builds agree. *)
Definition add_at {E} (max a b : Z) : exec E Z :=
  if a + b <=? max then Ok (a + b) else Panic.
Definition sub_at {E} (a b : Z) : exec E Z :=
  if b <=? a then Ok (a - b) else Panic.
Definition mul_at {E} (max a b : Z) : exec E Z :=
  if a * b <=? max then Ok (a * b) else Panic.

(** [T::try_from] between unsigned types: the value fits or it does not. *)
Definition try_from (max v : Z) : option Z :=
  if v <=? max then Some v else None.

(** [u64::wrapping_mul] *)
Definition wrapping_mul_u64 (a b : Z) : Z := (a * b) mod 2 ^ 64.

(** [n.to_le_bytes()] on [n] bytes, [T::from_le_bytes], [T::from_be_bytes] *)
Fixpoint to_le_bytes (n : nat) (v : Z) : list Z :=
  match n with
  | O => []
  | S n => v mod 256 :: to_le_bytes n (v / 256)
  end.

Fixpoint from_le_bytes (bs : list Z) : Z :=
  match bs with
  | [] => 0
  | b :: bs => b + 256 * from_le_bytes bs
  end.

Definition from_be_bytes (bs : list Z) : Z :=
  fold_left (fun acc b => 256 * acc + b) bs 0.

(** ** Slices

    A [&[T]] is a list; lengths and indices are [usize] values, kept in [Z]. *)
Definition len {A} (s : list A) : Z := Z.of_nat (length s).

(** [s.get(i)] *)
Definition slice_get {A} (s : list A) (i : Z) : option A :=
  if i <? 0 then None else s !! Z.to_nat i.

(** [s[i]] *)
Definition slice_index {E A} (s : list A) (i : Z) : exec E A :=
  expect (slice_get s i).

(** The bytes of [s] from [a] up to [b], without the bounds checks. *)
Definition subslice {A} (s : list A) (a b : Z) : list A :=
  take (Z.to_nat (b - a)) (drop (Z.to_nat a) s).

(** [s[a..b]] *)
Definition slice_range {E A} (s : list A) (a b : Z) : exec E (list A) :=
  if (0 <=? a) && (a <=? b) && (b <=? len s) then Ok (subslice s a b) else Panic.

(** [s[a..]] *)
Definition slice_from {E A} (s : list A) (a : Z) : exec E (list A) :=
  slice_range s a (len s).

(** [s[..b]] *)
Definition slice_to {E A} (s : list A) (b : Z) : exec E (list A) :=
  slice_range s 0 b.

(** [s[i] = v] *)
Definition slice_set {E A} (s : list A) (i : Z) (v : A) : exec E (list A) :=
  if (0 <=? i) && (i <? len s) then Ok (<[Z.to_nat i := v]> s) else Panic.

(** [s[a..b].copy_from_slice(src)]: panics on a bad range and on a source of
    another length. *)
Definition copy_from_slice {E A} (s : list A) (a b : Z) (src : list A) : exec E (list A) :=
  if (0 <=? a) && (a <=? b) && (b <=? len s) && (len src =? b - a)
  then Ok (take (Z.to_nat a) s ++ src ++ drop (Z.to_nat b) s)
  else Panic.

(** [s.try_into()] to an array of [n] elements. *)
Definition try_into_array {A} (n : Z) (s : list A) : option (list A) :=
  if len s =? n then Some s else None.

(** [s.iter().position(p)] *)
Fixpoint position {A} (p : A -> bool) (s : list A) : option Z :=
  match s with
  | [] => None
  | x :: s => if p x then Some 0 else Z.succ <$> position p s
  end.

(** [s.chunks_exact(n)]: full chunks, a shorter rest is dropped.  Every chunk
    removes [n >= 1] elements, so [length s] turns are enough. *)
Fixpoint chunks_fuel {A} (fuel n : nat) (s : list A) : list (list A) :=
  match fuel with
  | O => []
  | S fuel => if (n <=? length s)%nat then take n s :: chunks_fuel fuel n (drop n s) else []
  end.

Definition chunks_exact {A} (n : nat) (s : list A) : list (list A) :=
  chunks_fuel (length s) n s.

(** [s.starts_with(t)] *)
Definition starts_with (s t : list Z) : bool :=
  bool_decide (take (length t) s = t).

(** A byte slice that a program can hold: every element is a [u8] and the
    length is within the limit Rust puts on an allocation. *)
Definition byte_slice `{Platform} (s : list Z) : Prop :=
  Forall (in_width u8_max) s /\ len s <= isize_max.

(** ** Tactics and hint databases *)

Create HintDb exec.
Create HintDb slices.
Create Rewrite HintDb slices.

(** Facts about the platform's widths, for [lia]. *)
Section platform_facts.
Context `{Platform}.

Lemma usize_max_bounds : u32_max <= usize_max <= u64_max.
Proof.
  unfold usize_max, u32_max, u64_max.
  destruct usize_bits_ok as [-> | ->]; lia.
Qed.

Lemma isize_usize_max : usize_max = 2 * isize_max + 1.
Proof. unfold usize_max, isize_max. destruct usize_bits_ok as [-> | ->]; lia. Qed.

Lemma c_ulong_max_bounds : u32_max <= c_ulong_max <= u64_max.
Proof.
  unfold c_ulong_max, u32_max, u64_max.
  destruct c_ulong_bits_ok as [-> | ->]; lia.
Qed.
End platform_facts.

(** [platform_lia] closes a linear goal that depends on the widths of the
    platform or on a machine bound. *)
Ltac platform_lia :=
  let H1 := fresh in let H2 := fresh in let H3 := fresh in
  pose proof usize_max_bounds as H1; pose proof isize_usize_max as H2;
  pose proof c_ulong_max_bounds as H3;
  unfold in_width, len, u8_max, u16_max, u32_max, u64_max, c_int_max in *; lia.

(** Reflect the boolean tests of the code into propositions. *)
Ltac reflect_bool :=
  repeat match goal with
  | H : _ && _ = true |- _ => apply andb_true_iff in H as [? ?]
  | H : _ || _ = false |- _ => apply orb_false_iff in H as [? ?]
  | H : negb _ = true |- _ => apply negb_true_iff in H
  | H : negb _ = false |- _ => apply negb_false_iff in H
  | H : (_ =? _) = true |- _ => apply Z.eqb_eq in H
  | H : (_ =? _) = false |- _ => apply Z.eqb_neq in H
  | H : (_ <? _) = true |- _ => apply Z.ltb_lt in H
  | H : (_ <? _) = false |- _ => apply Z.ltb_ge in H
  | H : (_ <=? _) = true |- _ => apply Z.leb_le in H
  | H : (_ <=? _) = false |- _ => apply Z.leb_gt in H
  | H : bool_decide _ = true |- _ => apply bool_decide_eq_true in H
  | H : bool_decide _ = false |- _ => apply bool_decide_eq_false in H
  end.

(** Case analysis on the next test of the code in the goal, reflected. *)
Ltac case_test :=
  match goal with
  | |- context [if ?b then _ else _] => destruct b eqn:?; reflect_bool
  end.

(** The same for a test that is not compound, naming its reflection. *)
Ltac reflect_in H :=
  lazymatch type of H with
  | negb _ = true => apply negb_true_iff in H; reflect_in H
  | negb _ = false => apply negb_false_iff in H; reflect_in H
  | (_ =? _) = true => apply Z.eqb_eq in H
  | (_ =? _) = false => apply Z.eqb_neq in H
  | (_ <? _) = true => apply Z.ltb_lt in H
  | (_ <? _) = false => apply Z.ltb_ge in H
  | (_ <=? _) = true => apply Z.leb_le in H
  | (_ <=? _) = false => apply Z.leb_gt in H
  | bool_decide _ = true => apply bool_decide_eq_true in H
  | bool_decide _ = false => apply bool_decide_eq_false in H
  | _ => idtac
  end.
Tactic Notation "case_test" "as" ident(H) :=
  match goal with
  | |- context [if ?b then _ else _] => destruct b eqn:H; reflect_in H
  end.

(** Decide a boolean test whose truth follows by arithmetic. *)
Ltac bool_lia :=
  first [ lia
        | apply Z.ltb_ge; lia | apply Z.ltb_lt; lia
        | apply Z.leb_le; lia | apply Z.leb_gt; lia
        | apply Z.eqb_eq; lia | apply Z.eqb_neq; lia
        | rewrite ?andb_true_iff, ?Z.leb_le, ?Z.ltb_lt, ?Z.eqb_eq; lia
        | platform_lia ].
Ltac test_true b := replace b with true by (symmetry; bool_lia).
Ltac test_false b := replace b with false by (symmetry; bool_lia).

(** ** Executions *)

Section exec_lemmas.
Context {E A B : Type}.

Lemma bind_Ok (m : exec E A) (k : A -> exec E B) b :
  exec_bind m k = Ok b <-> exists a, m = Ok a /\ k a = Ok b.
Proof. destruct m; cbn; naive_solver. Qed.

Lemma bind_Err (m : exec E A) (k : A -> exec E B) e :
  exec_bind m k = Err e <-> m = Err e \/ exists a, m = Ok a /\ k a = Err e.
Proof. destruct m; cbn; naive_solver. Qed.

Lemma ok_or_Ok (o : option A) (e : E) a : ok_or o e = Ok a <-> o = Some a.
Proof. destruct o; cbn; naive_solver. Qed.

Lemma ok_or_Err (o : option A) (e e' : E) : ok_or o e = Err e' <-> o = None /\ e = e'.
Proof. destruct o; cbn; naive_solver. Qed.

Lemma map_err_Ok {F} (f : E -> F) (m : exec E A) a : map_err f m = Ok a <-> m = Ok a.
Proof. destruct m; cbn; naive_solver. Qed.

Lemma map_err_Err {F} (f : E -> F) (m : exec E A) e' :
  map_err f m = Err e' <-> exists e, m = Err e /\ e' = f e.
Proof. destruct m; cbn; naive_solver. Qed.

Lemma wp_bind (m : exec E A) (k : A -> exec E B) Q QE :
  exec_wp m (fun a => exec_wp (k a) Q QE) QE -> exec_wp (exec_bind m k) Q QE.
Proof. by destruct m. Qed.

Lemma wp_mono (m : exec E A) (Q Q' : A -> Prop) (QE QE' : E -> Prop) :
  exec_wp m Q QE -> (forall a, Q a -> Q' a) -> (forall e, QE e -> QE' e) ->
  exec_wp m Q' QE'.
Proof. destruct m; cbn; auto. Qed.

Lemma wp_ok_or (o : option A) (e : E) Q (QE : E -> Prop) :
  (forall a, o = Some a -> Q a) -> (o = None -> QE e) -> exec_wp (ok_or o e) Q QE.
Proof. destruct o; cbn; auto. Qed.

Lemma wp_map_err {F} (f : E -> F) (m : exec E A) Q (QE : F -> Prop) :
  exec_wp m Q (fun e => QE (f e)) -> exec_wp (map_err f m) Q QE.
Proof. by destruct m. Qed.

Lemma wp_Ok_elim (m : exec E A) Q QE a : exec_wp m Q QE -> m = Ok a -> Q a.
Proof. by intros H ->. Qed.

Lemma wp_Err_elim (m : exec E A) Q QE e : exec_wp m Q QE -> m = Err e -> QE e.
Proof. by intros H ->. Qed.

Lemma wp_returns (m : exec E A) Q QE : exec_wp m Q QE -> returns m.
Proof. by destruct m. Qed.

Lemma returns_cases (m : exec E A) :
  returns m <-> (exists a, m = Ok a) \/ (exists e, m = Err e).
Proof. destruct m; cbn; naive_solver. Qed.

Lemma returns_bind (m : exec E A) (k : A -> exec E B) :
  returns m -> (forall a, m = Ok a -> returns (k a)) -> returns (exec_bind m k).
Proof. destruct m; cbn; auto. Qed.
End exec_lemmas.

#[export] Hint Resolve wp_returns : exec.

(** Step through the binds of an execution whose steps are known. *)
Ltac exec_cbn := cbn [exec_bind exec_wp map_err ok_or from_env expect negb andb orb].

(** Split an equation on an execution into the equations of its steps. *)
Ltac exec_inv :=
  repeat match goal with
  | H : exec_bind _ _ = Ok _ |- _ => apply bind_Ok in H as (? & ? & ?)
  | H : ok_or _ _ = Ok _ |- _ => apply ok_or_Ok in H
  | H : map_err _ _ = Ok _ |- _ => apply map_err_Ok in H
  | H : (if ?b then _ else _) = _ |- _ => destruct b eqn:?; [try discriminate | try discriminate]; reflect_bool
  | H : Ok _ = Ok _ |- _ => injection H as H; subst
  | H : Err _ = Err _ |- _ => injection H as H; subst
  | H : Some _ = Some _ |- _ => injection H as H; subst
  end.

(** ** Lists *)

Lemma Forall_weaken {A} (P Q : A -> Prop) l :
  (forall x, P x -> Q x) -> Forall P l -> Forall Q l.
Proof. induction 2; constructor; auto. Qed.

(** ** Byte words *)

Lemma length_to_le_bytes n v : length (to_le_bytes n v) = n.
Proof. revert v; induction n; intros; cbn; auto. Qed.

Lemma to_le_bytes_u8 n v : Forall (in_width u8_max) (to_le_bytes n v).
Proof.
  revert v; induction n as [|n IH]; intros v; cbn; constructor; [|apply IH].
  unfold in_width, u8_max. pose proof (Z.mod_pos_bound v 256). lia.
Qed.

Lemma from_to_le_bytes n v :
  from_le_bytes (to_le_bytes n v) = v mod 256 ^ Z.of_nat n.
Proof.
  revert v; induction n as [|n IH]; intros v; cbn [to_le_bytes from_le_bytes].
  - by rewrite Z.mod_1_r.
  - rewrite IH, Nat2Z.inj_succ, Z.pow_succ_r by lia.
    rewrite Z.rem_mul_r by lia. lia.
Qed.

Lemma from_to_le_bytes_small n v :
  0 <= v < 256 ^ Z.of_nat n -> from_le_bytes (to_le_bytes n v) = v.
Proof. intros. rewrite from_to_le_bytes. by apply Z.mod_small. Qed.

Lemma from_le_bytes_bounds bs :
  Forall (in_width u8_max) bs -> 0 <= from_le_bytes bs < 256 ^ len bs.
Proof.
  unfold len, in_width, u8_max.
  induction 1 as [|b bs Hb _ IH]; cbn [from_le_bytes length]; [lia|].
  rewrite Nat2Z.inj_succ, Z.pow_succ_r by lia. lia.
Qed.

Lemma to_from_le_bytes bs :
  Forall (in_width u8_max) bs -> to_le_bytes (length bs) (from_le_bytes bs) = bs.
Proof.
  unfold in_width, u8_max.
  induction 1 as [|b bs Hb _ IH]; cbn [from_le_bytes length to_le_bytes]; [done|].
  replace (b + 256 * from_le_bytes bs) with (b + from_le_bytes bs * 256) by lia.
  rewrite Z.mod_add, Z.div_add, Z.mod_small, Z.div_small by lia.
  by rewrite Z.add_0_l, IH.
Qed.

(** A little-endian word determines its bytes. *)
Lemma from_le_bytes_eq bs n v :
  Forall (in_width u8_max) bs -> length bs = n ->
  from_le_bytes bs = v -> bs = to_le_bytes n v.
Proof. intros Hb <- <-. by rewrite to_from_le_bytes. Qed.

(** ** Slices *)

Section slice_lemmas.
Context {A : Type}.
Implicit Types s l k : list A.

Lemma len_nonneg s : 0 <= len s.
Proof. unfold len. lia. Qed.

Lemma len_cons x s : len (x :: s) = 1 + len s.
Proof. unfold len. cbn [length]. lia. Qed.

Lemma len_app l k : len (l ++ k) = len l + len k.
Proof. unfold len. rewrite length_app. lia. Qed.

Lemma len_replicate n (x : A) : len (replicate n x) = Z.of_nat n.
Proof. unfold len. by rewrite length_replicate. Qed.

Lemma to_nat_len s : Z.to_nat (len s) = length s.
Proof. unfold len. lia. Qed.

Lemma slice_get_Some s i x :
  slice_get s i = Some x <-> 0 <= i /\ s !! Z.to_nat i = Some x.
Proof. unfold slice_get. destruct (Z.ltb_spec i 0); naive_solver lia. Qed.

Lemma slice_get_bounds s i x : slice_get s i = Some x -> 0 <= i < len s.
Proof.
  rewrite slice_get_Some. intros [? Hx%lookup_lt_Some]. unfold len. lia.
Qed.

Lemma slice_get_None s i : 0 <= i -> slice_get s i = None <-> len s <= i.
Proof.
  unfold slice_get, len. intros. destruct (Z.ltb_spec i 0); [lia|].
  rewrite lookup_ge_None. lia.
Qed.

Lemma slice_get_is_Some s i : 0 <= i < len s -> exists x, slice_get s i = Some x.
Proof.
  intros. destruct (slice_get s i) eqn:E; [eauto|].
  apply slice_get_None in E; lia.
Qed.

Lemma slice_get_app_r l k i :
  len l <= i -> slice_get (l ++ k) i = slice_get k (i - len l).
Proof.
  intros. unfold slice_get. pose proof (len_nonneg l).
  destruct (Z.ltb_spec i 0), (Z.ltb_spec (i - len l) 0); [lia..|].
  unfold len in *. rewrite lookup_app_r by lia. f_equal; lia.
Qed.

Lemma slice_get_app_l l k i : i < len l -> slice_get (l ++ k) i = slice_get l i.
Proof.
  intros. unfold slice_get. destruct (Z.ltb_spec i 0); [done|].
  unfold len in *. by rewrite lookup_app_l by lia.
Qed.

Lemma slice_get_middle l x k : slice_get (l ++ x :: k) (len l) = Some x.
Proof. by rewrite slice_get_app_r, Z.sub_diag by lia. Qed.

Lemma slice_index_eq {E} s i x : slice_get s i = Some x -> slice_index (E := E) s i = Ok x.
Proof. unfold slice_index. by intros ->. Qed.

Lemma slice_index_Ok {E} s i x : slice_index (E := E) s i = Ok x <-> slice_get s i = Some x.
Proof. unfold slice_index. destruct (slice_get s i); cbn; naive_solver. Qed.

Lemma wp_slice_index {E} s i (Q : A -> Prop) (QE : E -> Prop) :
  0 <= i < len s -> (forall x, slice_get s i = Some x -> Q x) ->
  exec_wp (slice_index s i) Q QE.
Proof.
  intros [x Hx]%slice_get_is_Some HQ. rewrite (slice_index_eq _ _ _ Hx). by apply HQ.
Qed.

Lemma slice_range_eq {E} s a b :
  0 <= a <= b -> b <= len s -> slice_range (E := E) s a b = Ok (subslice s a b).
Proof.
  intros. unfold slice_range.
  by test_true ((0 <=? a) && (a <=? b) && (b <=? len s)).
Qed.

Lemma slice_from_eq {E} s a :
  0 <= a <= len s -> slice_from (E := E) s a = Ok (drop (Z.to_nat a) s).
Proof.
  intros. unfold slice_from. rewrite slice_range_eq by lia.
  unfold subslice. rewrite take_ge; [done|]. rewrite length_drop. unfold len in *. lia.
Qed.

Lemma slice_to_eq {E} s b :
  0 <= b <= len s -> slice_to (E := E) s b = Ok (take (Z.to_nat b) s).
Proof.
  intros. unfold slice_to. rewrite slice_range_eq by lia.
  unfold subslice. by rewrite Z.sub_0_r, drop_0.
Qed.

Lemma len_subslice s a b : 0 <= a <= b -> b <= len s -> len (subslice s a b) = b - a.
Proof. unfold subslice, len. rewrite length_take, length_drop. lia. Qed.

Lemma len_drop s a : 0 <= a <= len s -> len (drop (Z.to_nat a) s) = len s - a.
Proof. unfold len. rewrite length_drop. lia. Qed.

Lemma len_take s b : 0 <= b <= len s -> len (take (Z.to_nat b) s) = b.
Proof. unfold len. rewrite length_take. lia. Qed.

(** The middle of a concatenation. *)
Lemma subslice_app l k r a b :
  a = len l -> b = len l + len k -> subslice (l ++ k ++ r) a b = k.
Proof.
  intros -> ->. unfold subslice, len.
  rewrite drop_app_length' by lia. by rewrite take_app_length' by lia.
Qed.

(** Three consecutive parts rebuild a slice. *)
Lemma subslice_split s a b :
  0 <= a <= b -> b <= len s ->
  s = take (Z.to_nat a) s ++ subslice s a b ++ drop (Z.to_nat b) s.
Proof.
  intros. unfold subslice, len in *.
  replace (drop (Z.to_nat b) s)
    with (drop (Z.to_nat (b - a)) (drop (Z.to_nat a) s)).
  { by rewrite !take_drop. }
  rewrite drop_drop. f_equal. lia.
Qed.

Lemma subslice_drop s a b c :
  0 <= a -> 0 <= c <= b -> subslice (drop (Z.to_nat a) s) c b = subslice s (a + c) (a + b).
Proof.
  intros. unfold subslice. rewrite drop_drop. f_equal; [lia|]. f_equal; lia.
Qed.

Lemma copy_from_slice_eq {E} l k r src a b :
  a = len l -> b = len l + len k -> len src = len k ->
  copy_from_slice (E := E) (l ++ k ++ r) a b src = Ok (l ++ src ++ r).
Proof.
  intros -> -> Hsrc. unfold copy_from_slice.
  pose proof (len_nonneg l); pose proof (len_nonneg k); pose proof (len_nonneg r).
  rewrite !len_app.
  test_true ((0 <=? len l) && (len l <=? len l + len k) &&
             (len l + len k <=? len l + (len k + len r)) && (len src =? len l + len k - len l)).
  rewrite take_app_length' by (unfold len; lia). do 3 f_equal.
  rewrite app_assoc, drop_app_length'; [done|].
  rewrite length_app. unfold len in *. lia.
Qed.

Lemma slice_set_eq {E} l x r i v :
  i = len l -> slice_set (E := E) (l ++ x :: r) i v = Ok (l ++ v :: r).
Proof.
  intros ->. unfold slice_set. rewrite len_app, len_cons.
  pose proof (len_nonneg l); pose proof (len_nonneg r).
  test_true ((0 <=? len l) && (len l <? len l + (1 + len r))).
  do 2 f_equal. rewrite to_nat_len.
  rewrite insert_app_r_alt, Nat.sub_diag by lia. done.
Qed.

Lemma try_into_array_eq n s : len s = n -> try_into_array n s = Some s.
Proof. unfold try_into_array. intros ->. by rewrite Z.eqb_refl. Qed.

Lemma position_Some (p : A -> bool) s i :
  position p s = Some i <->
  exists l x r, s = l ++ x :: r /\ i = len l /\ p x = true /\ Forall (fun y => p y = false) l.
Proof.
  revert i. induction s as [|y s IH]; intros i; cbn [position].
  - split; [done|]. intros (l & x & r & Hs & _). by destruct l.
  - destruct (p y) eqn:Hy.
    + split.
      * intros [= <-]. exists [], y, s. by repeat split.
      * intros (l & x & r & Hs & -> & Hx & Hl). destruct l as [|z l]; [done|].
        cbn in Hs. simplify_eq. apply Forall_cons_1 in Hl as [? _]. congruence.
    + rewrite fmap_Some. split.
      * intros (j & (l & x & r & -> & -> & Hx & Hl)%IH & ->).
        exists (y :: l), x, r. rewrite len_cons. repeat split; [lia|done|by constructor].
      * intros (l & x & r & Hs & -> & Hx & Hl). destruct l as [|z l].
        { cbn in Hs. simplify_eq. congruence. }
        cbn in Hs. simplify_eq. apply Forall_cons_1 in Hl as [? Hl].
        exists (len l). rewrite len_cons. split; [|lia]. apply IH. by exists l, x, r.
Qed.

Lemma position_None (p : A -> bool) s :
  position p s = None <-> Forall (fun y => p y = false) s.
Proof.
  induction s as [|y s IH]; cbn [position]; [done|].
  destruct (p y) eqn:Hy.
  - split; [done|]. intros [? _]%Forall_cons_1. congruence.
  - rewrite fmap_None, IH. split; [by constructor|]. by intros [_ ?]%Forall_cons_1.
Qed.
End slice_lemmas.

Section chunks_lemmas.
Context {A : Type} (n : nat) (Hn : (0 < n)%nat).
Implicit Types s c : list A.

Lemma chunks_fuel_enough f f' s :
  (length s <= f)%nat -> (length s <= f')%nat -> chunks_fuel f n s = chunks_fuel f' n s.
Proof using Hn.
  revert f' s. induction f as [|f IH]; intros [|f'] s Hf Hf'; cbn [chunks_fuel];
    [done|destruct (Nat.leb_spec n (length s)); [lia|done]..|].
  destruct (Nat.leb_spec n (length s)); [|done].
  f_equal. apply IH; rewrite length_drop; lia.
Qed.

Lemma chunks_exact_short s : (length s < n)%nat -> chunks_exact n s = [].
Proof using Hn.
  intros. unfold chunks_exact. destruct (length s) eqn:E; [done|]. cbn [chunks_fuel].
  by rewrite (proj2 (Nat.leb_gt _ _)) by lia.
Qed.

Lemma chunks_exact_app c s : length c = n -> chunks_exact n (c ++ s) = c :: chunks_exact n s.
Proof using Hn.
  intros Hc. unfold chunks_exact. rewrite length_app.
  destruct (length c + length s)%nat as [|f] eqn:E; [lia|]. cbn [chunks_fuel].
  rewrite length_app, (proj2 (Nat.leb_le _ _)) by lia.
  rewrite take_app_length', drop_app_length' by done. f_equal. apply chunks_fuel_enough; lia.
Qed.
End chunks_lemmas.

Lemma starts_with_true (s t : list Z) :
  starts_with s t = true <-> exists r, s = t ++ r.
Proof.
  unfold starts_with. rewrite bool_decide_eq_true. split.
  - intros H. exists (drop (length t) s). by rewrite <- H at 1; rewrite take_drop.
  - intros [r ->]. by rewrite take_app_length.
Qed.

(** Right-associate concatenations. *)
Ltac app_norm := repeat first [rewrite <- app_assoc | rewrite <- app_comm_cons].

#[export] Hint Rewrite @len_cons @len_app @len_replicate @to_nat_len : slices.
#[export] Hint Resolve len_nonneg : slices.

(** Normalise the lengths of concatenations and close by arithmetic. *)
Ltac len_nil :=
  repeat match goal with
  | |- context [@len ?A []] => change (@len A []) with 0
  | H : context [@len ?A []] |- _ => change (@len A []) with 0 in H
  end.

Ltac len_simpl := autorewrite with slices in *; len_nil.

Ltac len_lia :=
  len_simpl;
  repeat match goal with
  | |- context [len ?s] => lazymatch goal with
      | _ : 0 <= len s |- _ => fail
      | _ => pose proof (len_nonneg s) end
  | _ : context [len ?s] |- _ => lazymatch goal with
      | _ : 0 <= len s |- _ => fail
      | _ => pose proof (len_nonneg s) end
  end; lia.

(** ** Byte slices *)

Section byte_slices.
Context `{Platform}.

Lemma byte_slice_drop s n : byte_slice s -> byte_slice (drop n s).
Proof.
  intros [H1 H2]. split; [by apply Forall_drop|].
  unfold len in *. rewrite length_drop. lia.
Qed.

Lemma byte_slice_take s n : byte_slice s -> byte_slice (take n s).
Proof.
  intros [H1 H2]. split; [by apply Forall_take|].
  unfold len in *. rewrite length_take. lia.
Qed.

Lemma byte_slice_subslice s a b : byte_slice s -> byte_slice (subslice s a b).
Proof. intros. by apply byte_slice_take, byte_slice_drop. Qed.

Lemma byte_slice_get s i b : byte_slice s -> slice_get s i = Some b -> in_width u8_max b.
Proof.
  intros [Hs _] [_ Hb]%slice_get_Some. by apply (Forall_lookup_1 _ _ _ _ Hs Hb).
Qed.

(** A decision procedure for concrete slices, at every platform. *)
Lemma byte_slice_check s :
  forallb (fun b => (0 <=? b) && (b <=? 255)) s && (len s <=? c_int_max) = true ->
  byte_slice s.
Proof.
  intros [Hs Hl]%andb_true_iff. split; [|apply Z.leb_le in Hl; platform_lia].
  apply Forall_forall. intros b Hb. unfold in_width, u8_max.
  rewrite forallb_forall in Hs. specialize (Hs b Hb). lia.
Qed.

Lemma byte_slice_len s : byte_slice s -> 0 <= len s <= isize_max.
Proof. intros [_ ?]. unfold len in *. lia. Qed.
End byte_slices.

#[export] Hint Resolve byte_slice_drop byte_slice_take byte_slice_subslice : slices.
