(* ===== verification/Text.v ===== *)
(** * Text: Rust strings, number rendering and number parsing

    A Rust [&str] or [String] is a list of Unicode scalar values, one [Z] per
    [char].  This file models what the driver uses of the standard library on
    text: [to_string] of an unsigned integer, the [{:x}] and [{:02x}]
    formats, [str::parse] at the unsigned types, the two UTF-8 decoders
    and the [Utf8Error] that locates an invalid sequence.  Each number renderer
    comes with the parser that inverts it. *)

From stdpp Require Export strings.
From S2P Require Import Prelude.

#[export] Set Default Goal Selector "!".

Open Scope Z_scope.

(** A string literal of the source. *)
Fixpoint lit (s : string) : list Z :=
  match s with
  | EmptyString => []
  | String c s => Z.of_N (Ascii.N_of_ascii c) :: lit s
  end.

Arguments lit s%_string.

(** ** Rendering *)

(** The digit character of [d] in a base up to 16, lower case. *)
Definition digit_char (d : Z) : Z := if d <? 10 then 48 + d else 87 + d.

(** Digits of [n] in [base], most significant first, pushed in front of
    [acc]. *)
Fixpoint push_digits (base : Z) (fuel : nat) (n : Z) (acc : list Z) : list Z :=
  match fuel with
  | O => acc
  | S fuel =>
      if n <? base then digit_char n :: acc
      else push_digits base fuel (n / base) (digit_char (n mod base) :: acc)
  end.

Definition render (base n : Z) : list Z :=
  push_digits base (S (Z.to_nat (Z.log2 n))) n [].

(** [n.to_string()], the [{}] format of an unsigned integer. *)
Definition dec (n : Z) : list Z := render 10 n.

(** The [{:x}] format, and [{:0wx}], zero-padded to width [w]. *)
Definition hex (n : Z) : list Z := render 16 n.
Definition hex_pad (w : nat) (n : Z) : list Z :=
  replicate (w - length (hex n)) 48 ++ hex n.

(** ** Parsing *)

(** [char::to_digit] for bases up to 16. *)
Definition to_digit (base c : Z) : option Z :=
  let d := if (48 <=? c) && (c <=? 57) then c - 48
           else if (97 <=? c) && (c <=? 122) then c - 87
           else if (65 <=? c) && (c <=? 90) then c - 55
           else base in
  if d <? base then Some d else None.

(** The accumulation loop of [from_str_radix(10)] at a type of maximum [max]:
    every multiplication and addition is checked. *)
Fixpoint parse_digits (max acc : Z) (s : list Z) : option Z :=
  match s with
  | [] => Some acc
  | c :: s =>
      match to_digit 10 c with
      | None => None
      | Some d =>
          if acc * 10 <=? max then
            if acc * 10 + d <=? max then parse_digits max (acc * 10 + d) s else None
          else None
      end
  end.

(** [s.parse::<T>()] at an unsigned type: one optional ['+'], then at least one
    digit. *)
Definition parse_uint (max : Z) (s : list Z) : option Z :=
  match s with
  | [] => None
  | [c] => if (c =? 43) || (c =? 45) then None else parse_digits max 0 [c]
  | c :: r => if c =? 43 then parse_digits max 0 r else parse_digits max 0 s
  end.

(** ** Characters *)

Definition is_ascii_digit (c : Z) : bool := (48 <=? c) && (c <=? 57).

Definition is_ascii_hexdigit (c : Z) : bool :=
  is_ascii_digit c || ((97 <=? c) && (c <=? 102)) || ((65 <=? c) && (c <=? 70)).

(** [char::is_ascii_whitespace]: space, tab, LF, FF, CR (not VT). *)
Definition is_ascii_whitespace (c : Z) : bool :=
  (c =? 32) || (c =? 9) || (c =? 10) || (c =? 12) || (c =? 13).

(** ** UTF-8 *)

(** [std::str::from_utf8]: the well-formed byte sequences of the Unicode
    standard, table 3-7. *)
Definition continuation (b : Z) : bool := (128 <=? b) && (b <=? 191).

Fixpoint from_utf8 (fuel : nat) (s : list Z) : option (list Z) :=
  match fuel with
  | O => None
  | S fuel =>
      match s with
      | [] => Some []
      | a :: s =>
          if a <=? 127 then cons a <$> from_utf8 fuel s else
          match s with
          | [] => None
          | b :: s =>
              if (194 <=? a) && (a <=? 223) && continuation b then
                cons ((a - 192) * 64 + (b - 128)) <$> from_utf8 fuel s else
              match s with
              | [] => None
              | c :: s =>
                  if ((a =? 224) && (160 <=? b) && (b <=? 191)
                      || (225 <=? a) && (a <=? 236) && continuation b
                      || (a =? 237) && (128 <=? b) && (b <=? 159)
                      || (238 <=? a) && (a <=? 239) && continuation b) && continuation c then
                    cons ((a - 224) * 4096 + (b - 128) * 64 + (c - 128)) <$> from_utf8 fuel s else
                  match s with
                  | [] => None
                  | d :: s =>
                      if ((a =? 240) && (144 <=? b) && (b <=? 191)
                          || (241 <=? a) && (a <=? 243) && continuation b
                          || (a =? 244) && (128 <=? b) && (b <=? 143))
                         && continuation c && continuation d then
                        cons ((a - 240) * 262144 + (b - 128) * 4096 + (c - 128) * 64 + (d - 128))
                          <$> from_utf8 fuel s
                      else None
                  end
              end
          end
      end
  end.

(** [String::from_utf8_lossy] and [CStr::to_string_lossy]: each maximal
    ill-formed prefix becomes one replacement character. *)
Definition REPLACEMENT : Z := 0xfffd.

(** The second byte that may follow the first of a sequence of three or four. *)
Definition second_byte (a b : Z) : bool :=
  if a =? 224 then (160 <=? b) && (b <=? 191)
  else if a =? 237 then (128 <=? b) && (b <=? 159)
  else if a =? 240 then (144 <=? b) && (b <=? 191)
  else if a =? 244 then (128 <=? b) && (b <=? 143)
  else continuation b.

Fixpoint from_utf8_lossy (fuel : nat) (s : list Z) : list Z :=
  match fuel, s with
  | O, _ | _, [] => []
  | S fuel, a :: s =>
      if a <=? 127 then a :: from_utf8_lossy fuel s
      else if (194 <=? a) && (a <=? 223) then
        match s with
        | b :: r =>
            if continuation b then (a - 192) * 64 + (b - 128) :: from_utf8_lossy fuel r
            else REPLACEMENT :: from_utf8_lossy fuel s
        | [] => [REPLACEMENT]
        end
      else if (224 <=? a) && (a <=? 239) then
        match s with
        | b :: r =>
            if second_byte a b then
              match r with
              | c :: r' =>
                  if continuation c
                  then (a - 224) * 4096 + (b - 128) * 64 + (c - 128) :: from_utf8_lossy fuel r'
                  else REPLACEMENT :: from_utf8_lossy fuel r
              | [] => [REPLACEMENT]
              end
            else REPLACEMENT :: from_utf8_lossy fuel s
        | [] => [REPLACEMENT]
        end
      else if (240 <=? a) && (a <=? 244) then
        match s with
        | b :: r =>
            if second_byte a b then
              match r with
              | c :: r' =>
                  if continuation c then
                    match r' with
                    | d :: r'' =>
                        if continuation d
                        then (a - 240) * 262144 + (b - 128) * 4096 + (c - 128) * 64 + (d - 128)
                             :: from_utf8_lossy fuel r''
                        else REPLACEMENT :: from_utf8_lossy fuel r'
                    | [] => [REPLACEMENT]
                    end
                  else REPLACEMENT :: from_utf8_lossy fuel r
              | [] => [REPLACEMENT]
              end
            else REPLACEMENT :: from_utf8_lossy fuel s
        | [] => [REPLACEMENT]
        end
      else REPLACEMENT :: from_utf8_lossy fuel s
  end.

Definition to_string_lossy (s : list Z) : list Z := from_utf8_lossy (length s) s.

(** [Utf8Error]: where the valid prefix ends and how many bytes are invalid,
    [None] when the input ends within a sequence. *)
Record Utf8Error := {
  valid_up_to : Z;
  error_len : option Z;
}.

(** The validation loop of [from_utf8], from the byte at [index] on; [None] when
    the rest is valid.  Each turn takes a byte, so the length is enough fuel. *)
Fixpoint utf8_error (fuel : nat) (index : Z) (s : list Z) : option Utf8Error :=
  match fuel, s with
  | O, _ | _, [] => None
  | S fuel, a :: s =>
      let err n := Some {| valid_up_to := index; error_len := n |} in
      if a <=? 127 then utf8_error fuel (index + 1) s
      else if (194 <=? a) && (a <=? 223) then
        match s with
        | [] => err None
        | b :: s => if continuation b then utf8_error fuel (index + 2) s else err (Some 1)
        end
      else if (224 <=? a) && (a <=? 239) then
        match s with
        | [] => err None
        | b :: s =>
            if negb (second_byte a b) then err (Some 1) else
            match s with
            | [] => err None
            | c :: s => if continuation c then utf8_error fuel (index + 3) s else err (Some 2)
            end
        end
      else if (240 <=? a) && (a <=? 244) then
        match s with
        | [] => err None
        | b :: s =>
            if negb (second_byte a b) then err (Some 1) else
            match s with
            | [] => err None
            | c :: s =>
                if negb (continuation c) then err (Some 2) else
                match s with
                | [] => err None
                | d :: s => if continuation d then utf8_error fuel (index + 4) s else err (Some 3)
                end
            end
        end
      else err (Some 1)
  end.

(** [std::str::from_utf8] with its error. *)
Definition str_from_utf8 (s : list Z) : exec Utf8Error (list Z) :=
  match from_utf8 (S (length s)) s, utf8_error (length s) 0 s with
  | Some text, _ => Ok text
  | None, Some e => Err e
  | None, None => Panic
  end.

(** The [{}] format of a signed integer. *)
Definition dec_signed (n : Z) : list Z :=
  (if n <? 0 then lit "-" else []) ++ dec (Z.abs n).

(** The value of a string of digits, as a reference definition. *)
Definition digits_value (base : Z) (ds : list Z) : Z :=
  fold_left (fun acc d => acc * base + d) ds 0.

(** ** Lemmas *)

Create Rewrite HintDb text.

Lemma digits_value_app base l k :
  digits_value base (l ++ k) = digits_value base l * base ^ len k + digits_value base k.
Proof.
  unfold digits_value. rewrite fold_left_app.
  generalize (fold_left (fun acc d => acc * base + d) l 0). intros a.
  assert (forall x y, fold_left (fun acc d => acc * base + d) k (x * 1 + y)
    = x * base ^ len k + fold_left (fun acc d => acc * base + d) k y) as Hk.
  { induction k as [|d k IH]; intros x y; cbn [fold_left].
    - len_lia.
    - replace ((x * 1 + y) * base + d) with ((x * base) * 1 + (y * base + d)) by lia.
      rewrite IH, len_cons, Z.pow_add_r by len_lia. lia. }
  specialize (Hk a 0). by replace (a * 1 + 0) with a in Hk by lia.
Qed.

Lemma digits_value_nonneg base ds :
  0 <= base -> Forall (fun d => 0 <= d < base) ds -> 0 <= digits_value base ds.
Proof.
  intros Hb Hds. induction ds as [|d ds IH] using rev_ind; [done|].
  apply Forall_app in Hds as [Hds [Hd _]%Forall_cons_1].
  rewrite digits_value_app. change (len [d]) with 1. rewrite Z.pow_1_r.
  specialize (IH Hds). change (digits_value base [d]) with (0 * base + d). nia.
Qed.

Lemma push_digits_S base fuel n acc :
  push_digits base (S fuel) n acc =
  if n <? base then digit_char n :: acc
  else push_digits base fuel (n / base) (digit_char (n mod base) :: acc).
Proof. done. Qed.

(** What [push_digits] pushes: the digits of [n], most significant first, with
    no leading zero. *)
Lemma push_digits_spec base fuel n acc :
  2 <= base -> 0 <= n < 2 ^ Z.of_nat (S fuel) ->
  exists ds, push_digits base (S fuel) n acc = (digit_char <$> ds) ++ acc /\
    Forall (fun d => 0 <= d < base) ds /\
    digits_value base ds = n /\
    0 < len ds /\ n < base ^ len ds /\ (1 < len ds -> base ^ (len ds - 1) <= n).
Proof.
  intros Hb. revert n acc. induction fuel as [|fuel IH]; intros n acc Hn;
    rewrite push_digits_S; case_test.
  1, 3: exists [n]; change (len [n]) with 1; cbn; split_and!; try lia; [done|];
    by constructor; [lia|].
  { lia. }
  rewrite Nat2Z.inj_succ, Z.pow_succ_r in Hn by lia.
  pose proof (Z.div_mod n base ltac:(lia)) as Hdm.
  pose proof (Z.mod_pos_bound n base ltac:(lia)).
  destruct (IH (n / base) (digit_char (n mod base) :: acc)) as (ds & -> & H1 & H2 & H3 & H4 & H5).
  { split; [nia|]. apply Z.div_lt_upper_bound; nia. }
  assert (base ^ len ds = base * base ^ (len ds - 1)) as Hpow.
  { rewrite <- Z.pow_succ_r by lia. f_equal. lia. }
  exists (ds ++ [n mod base]).
  rewrite fmap_app, <- app_assoc, digits_value_app, len_app, H2.
  change (len [n mod base]) with 1.
  change (digits_value base [n mod base]) with (0 * base + n mod base). split_and!; try done.
  - apply Forall_app; split; [done|]. by constructor.
  - cbn. lia.
  - lia.
  - rewrite Z.pow_add_r by lia. nia.
  - intros _. replace (len ds + 1 - 1) with (len ds) by lia.
    destruct (Z.ltb_spec 1 (len ds)); [nia|].
    replace (len ds) with 1 in * by lia. nia.
Qed.

Lemma render_spec base n :
  2 <= base -> 0 <= n ->
  exists ds, render base n = digit_char <$> ds /\
    Forall (fun d => 0 <= d < base) ds /\
    digits_value base ds = n /\
    0 < len ds /\ n < base ^ len ds /\ (1 < len ds -> base ^ (len ds - 1) <= n).
Proof.
  intros Hb Hn. unfold render.
  destruct (push_digits_spec base (Z.to_nat (Z.log2 n)) n []) as (ds & Hds & H); [done| |].
  { split; [done|]. rewrite Nat2Z.inj_succ, Z2Nat.id by apply Z.log2_nonneg.
    destruct (Z.eq_dec n 0) as [->|]; [cbn; lia|]. apply Z.log2_spec; lia. }
  exists ds. by rewrite app_nil_r in Hds.
Qed.

(** The number of characters of a rendered number decides its magnitude. *)
Lemma render_len base n k :
  2 <= base -> 0 <= n -> 0 < k -> len (render base n) <= k <-> n < base ^ k.
Proof.
  intros Hb Hn Hk. destruct (render_spec base n) as (ds & -> & _ & _ & H3 & H4 & H5); [done..|].
  unfold len in *. rewrite length_fmap. split.
  - intros. eapply Z.lt_le_trans; [exact H4|]. apply Z.pow_le_mono_r; lia.
  - intros. destruct (Z.leb_spec (Z.of_nat (length ds)) k); [done|].
    assert (base ^ k <= base ^ (Z.of_nat (length ds) - 1)) by (apply Z.pow_le_mono_r; lia).
    lia.
Qed.

Lemma to_digit_digit_char base d :
  base <= 16 -> 0 <= d < base -> to_digit base (digit_char d) = Some d.
Proof.
  intros. unfold to_digit, digit_char. destruct (Z.ltb_spec d 10).
  - test_true ((48 <=? 48 + d) && (48 + d <=? 57)).
    test_true (48 + d - 48 <? base). f_equal. lia.
  - test_false ((48 <=? 87 + d) && (87 + d <=? 57)).
    test_true ((97 <=? 87 + d) && (87 + d <=? 122)).
    test_true (87 + d - 87 <? base). f_equal. lia.
Qed.

Lemma digit_char_ascii d : 0 <= d < 16 -> 48 <= digit_char d <= 102.
Proof. unfold digit_char. case_test; lia. Qed.

Lemma digit_char_is_digit d : 0 <= d < 10 -> is_ascii_digit (digit_char d) = true.
Proof. unfold digit_char, is_ascii_digit. case_test; lia. Qed.

Lemma digit_char_is_hexdigit d : 0 <= d < 16 -> is_ascii_hexdigit (digit_char d) = true.
Proof. unfold digit_char, is_ascii_hexdigit, is_ascii_digit. case_test; lia. Qed.

(** The checked accumulation computes the value when it fits and fails when it
    does not. *)
Lemma parse_digits_spec max acc ds :
  0 <= acc -> Forall (fun d => 0 <= d < 10) ds ->
  let v := acc * 10 ^ len ds + digits_value 10 ds in
  acc <= max ->
  parse_digits max acc (digit_char <$> ds) = if v <=? max then Some v else None.
Proof.
  intros Hacc Hds. revert acc Hacc. induction Hds as [|d ds Hd Hds IH]; intros acc Hacc v Hmax.
  - subst v. cbn. rewrite Z.mul_1_r, Z.add_0_r. by test_true (acc <=? max).
  - cbn [fmap list_fmap parse_digits]. rewrite to_digit_digit_char by lia.
    assert (v = (acc * 10 + d) * 10 ^ len ds + digits_value 10 ds) as Hv.
    { subst v. change (d :: ds) with ([d] ++ ds). rewrite digits_value_app, len_app.
      rewrite Z.pow_add_r by len_lia. change (len [d]) with 1.
      change (digits_value 10 [d]) with (0 * 10 + d). ring. }
    rewrite Hv. clear Hv v. pose proof (digits_value_nonneg 10 ds ltac:(lia) Hds).
    assert (1 <= 10 ^ len ds) by (pose proof (Z.pow_pos_nonneg 10 (len ds)); len_lia).
    destruct (Z.leb_spec (acc * 10 + d) max).
    + test_true (acc * 10 <=? max). apply IH; lia.
    + case_test; [|by rewrite (proj2 (Z.leb_gt _ _)) by nia].
      by rewrite (proj2 (Z.leb_gt _ _)) by nia.
Qed.

Lemma dec_chars n :
  0 <= n -> Forall (fun c => is_ascii_digit c = true) (dec n) /\ 0 < len (dec n).
Proof.
  intros Hn. destruct (render_spec 10 n) as (ds & Hr & Hds & _ & Hlen & _); [lia|done|].
  unfold dec. rewrite Hr. split.
  - apply Forall_fmap. eapply Forall_weaken; [|exact Hds]. intros. by apply digit_char_is_digit.
  - unfold len in *. by rewrite length_fmap.
Qed.

(** Rendering a number in decimal and parsing it at a type that holds it gives
    the number back; at a narrower type the parse fails. *)
Lemma parse_uint_dec max n :
  0 <= n -> 0 <= max -> parse_uint max (dec n) = if n <=? max then Some n else None.
Proof.
  intros Hn Hmax. destruct (dec_chars n Hn) as [Hc _].
  assert (parse_uint max (dec n) = parse_digits max 0 (dec n)) as ->.
  { revert Hc. destruct (dec_chars n Hn) as [_ Hl]. revert Hl.
    destruct (dec n) as [|c [|c' r]]; [done|..]; unfold parse_uint;
      intros _ [Hc _]%Forall_cons_1; unfold is_ascii_digit in Hc; reflect_bool.
    - by test_false ((c =? 43) || (c =? 45)).
    - by test_false (c =? 43). }
  destruct (render_spec 10 n) as (ds & Hr & Hds & Hv & _); [lia|done|].
  unfold dec. rewrite Hr, parse_digits_spec by (done || lia). by rewrite Hv.
Qed.

(** A parsed number is within its type. *)
Lemma parse_digits_bounds max acc s v :
  0 <= acc <= max -> parse_digits max acc s = Some v -> 0 <= v <= max.
Proof.
  revert acc. induction s as [|c s IH]; intros acc Ha H; cbn in H; [by simplify_eq|].
  destruct (to_digit 10 c) as [d|] eqn:Hd; [|done].
  assert (0 <= d) by (unfold to_digit in Hd; repeat case_match; simplify_eq; lia).
  repeat case_match; try done. reflect_bool. eapply IH; [|exact H]. lia.
Qed.

Lemma parse_uint_bounds max s v : 0 <= max -> parse_uint max s = Some v -> in_width max v.
Proof.
  intros Hm H. unfold parse_uint in H. unfold in_width.
  repeat case_match; try done; (eapply (parse_digits_bounds max 0); [lia|exact H]).
Qed.

(** A decidable property of bytes, checked on all of them. *)
Lemma all_bytes (P : Z -> bool) b :
  forallb P (seqZ 0 256) = true -> in_width u8_max b -> P b = true.
Proof.
  intros H Hb. rewrite forallb_forall in H. apply H.
  apply list_elem_of_In, elem_of_seqZ. unfold in_width, u8_max in Hb. lia.
Qed.

(** The two hex digits of a byte. *)
Lemma hex_pad_byte b :
  in_width u8_max b -> hex_pad 2 b = [digit_char (b / 16); digit_char (b mod 16)].
Proof.
  intros Hb. apply (bool_decide_eq_true (_ = _)).
  revert b Hb. refine (fun b => all_bytes (fun b => bool_decide _) b _). vm_compute. reflexivity.
Qed.

(** The two readings of UTF-8 agree: there is an error to report exactly when
    the bytes do not decode. *)
Lemma utf8_error_iff fuel s index :
  Forall (in_width u8_max) s -> (length s <= fuel)%nat ->
  from_utf8 (S fuel) s = None <-> is_Some (utf8_error fuel index s).
Proof.
  revert s index. induction fuel as [|fuel IH]; intros s index Hs Hl.
  { destruct s; [|cbn in Hl; lia]. cbn. split; [done|]. by intros [? ?]. }
  destruct s as [|a s]; [cbn; split; [done|by intros [? ?]]|].
  apply Forall_cons_1 in Hs as [Ha Hs]. cbn [length] in Hl.
  assert (Hnext : forall r v i, Forall (in_width u8_max) r -> (length r <= fuel)%nat ->
    (cons v <$> from_utf8 (S fuel) r) = None <-> is_Some (utf8_error fuel i r)).
  { intros r v i Hr Hlr. rewrite <- (IH r i Hr Hlr). by destruct (from_utf8 (S fuel) r). }
  assert (Herr : forall e : Utf8Error, (None : option (list Z)) = None <-> is_Some (Some e)) by done.
  revert Hnext. generalize (S fuel) at 1 2 as F. clear IH. intros F Hnext.
  cbn [from_utf8 utf8_error]. unfold second_byte, continuation.
  unfold in_width, u8_max in Ha.
  destruct (Z.leb_spec a 127); [apply Hnext; [done|lia]|].
  destruct s as [|b s].
  { repeat case_match; apply Herr. }
  apply Forall_cons_1 in Hs as [Hb Hs]. cbn [length] in Hl.
  destruct s as [|c s]; [|apply Forall_cons_1 in Hs as [Hc Hs]; cbn [length] in Hl;
    destruct s as [|d s]; [|apply Forall_cons_1 in Hs as [Hd Hs]; cbn [length] in Hl]].
  all: repeat match goal with
    | |- context [if ?t then _ else _] =>
        lazymatch t with context [if _ then _ else _] => fail | _ => destruct t eqn:? end
    end; first [apply Herr | apply Hnext; [by auto|cbn [length]; lia] | exfalso; lia].
Qed.

Lemma str_from_utf8_eq s :
  Forall (in_width u8_max) s ->
  match from_utf8 (S (length s)) s with
  | Some text => str_from_utf8 s = Ok text
  | None => exists e, str_from_utf8 s = Err e
  end.
Proof.
  intros Hs. unfold str_from_utf8. pose proof (utf8_error_iff (length s) s 0 Hs (le_n _)) as H.
  destruct (from_utf8 _ s); [done|]. destruct (proj1 H eq_refl) as [e ->]. by exists e.
Qed.

(** A text has at most as many characters as bytes. *)
Lemma from_utf8_length fuel s t : from_utf8 fuel s = Some t -> (length t <= length s)%nat.
Proof.
  revert s t. induction fuel as [|fuel IH]; intros s t; [done|]. cbn [from_utf8].
  destruct s as [|a s]; [by intros [= <-]|].
  repeat (case_test || match goal with |- context [match ?l with [] => _ | _ :: _ => _ end] => is_var l; destruct l end);
    try done; intros (u & Hu & ->)%fmap_Some; apply IH in Hu; cbn; lia.
Qed.
