(* ===== verification/Wire.v ===== *)
(** * Wire: the SM768 packet header, command requests and frame ACKs

    Models rust/src/protocol.rs: the wire constants, [parse_header],
    [parse_canonical_command_request], the request builders
    ([build_zeroed_request], [build_capabilities_request],
    [build_bulk_heartbeat_request]) and [parse_frame_ack].

    The reference description of a packet is [wire w12 w16 body]: the magic,
    two little-endian words and the bytes from offset 20 on.  Every parser is
    specified on all its branches against it, and every builder is shown to
    produce a packet its parser accepts. *)

From S2P Require Import Prelude Text.

Open Scope Z_scope.

(** ** Constants *)

Definition VENDOR_ID : Z := 0x090c.
Definition SM768_PRODUCT_ID : Z := 0x0768.
(** [b"smifalconsta"] *)
Definition WIRE_MAGIC : list Z := lit "smifalconsta".
Arguments WIRE_MAGIC : simpl never.
Definition HEADER_SIZE : Z := 48.
Definition HEARTBEAT_SIZE : Z := 44.
Definition COMMAND_CLASS : Z := 6.
Definition CAPABILITIES_OPCODE : Z := 0x65.
Definition BULK_HEARTBEAT_OPCODE : Z := 0xec.
Definition DISPLAY_INTERFACE : Z := 4.
Definition DISPLAY_ALT_SETTING : Z := 1.
Definition INTERRUPT_IN_ENDPOINT : Z := 0x81.
Definition INTERRUPT_OUT_ENDPOINT : Z := 0x01.
Definition BULK_OUT_ENDPOINT : Z := 0x02.
Definition HEARTBEAT_TAG_OFFSET : Z := 35.
Definition HEARTBEAT_TAG_CAPACITY : Z := HEARTBEAT_SIZE - HEARTBEAT_TAG_OFFSET - 1.
Definition FRAME_SIGNATURE : Z := 0xa0000002.
Definition FRAME_TYPE : Z := 0x04.
Definition FRAME_SUBTYPE : Z := 0x01.
Definition JPEG_DECODER_METADATA_SIZE : Z := 0x5000.
Definition HIGH_SPEED_MAX_PACKET_SIZE : Z := 512.
Definition SUPER_SPEED_MAX_PACKET_SIZE : Z := 1024.
Definition FRAME_ACK_SIZE : Z := 1024.
Definition FRAME_ACK_SIGNATURE : Z := 0x010001e9.

(** ** Data *)

Record WireHeader := {
  word12 : Z;
  word16 : Z;
  byte20 : Z;
}.

Record CommandRequest := {
  req_length : Z;
  req_opcode : Z;
}.

Record FrameAck := {
  ack_sequence : Z;
  unclassified_bytes21_23 : list Z;
}.

Module ParseError.
Inductive ParseError :=
| TooShort (actual minimum : Z)
| BadMagic
| InvalidRequestLength (declared actual : Z)
| InvalidRequestClass (class : Z).
End ParseError.
Abbreviation ParseError := ParseError.ParseError.

Module FrameAckParseError.
Inductive FrameAckParseError :=
| InvalidPacketLength (actual expected : Z)
| BadMagic
| InvalidDeclaredLength (declared : Z)
| InvalidSignature (signature : Z).
End FrameAckParseError.
Abbreviation FrameAckParseError := FrameAckParseError.FrameAckParseError.

Inductive BuildError :=
| ClientTagTooLong (digits maximum : Z).

(** ** Operations *)

Section operations.
Context `{Platform}.

Definition read_u32_le {E} (bytes : list Z) (offset : Z) : exec E Z :=
  let! stop := add_at usize_max offset 4 in
  let! word := slice_range bytes offset stop in
  let! word := expect (try_into_array 4 word) in
  Ok (from_le_bytes word).

Definition read_u16_be {E} (bytes : list Z) (offset : Z) : exec E Z :=
  let! stop := add_at usize_max offset 2 in
  let! word := slice_range bytes offset stop in
  let! word := expect (try_into_array 2 word) in
  Ok (from_be_bytes word).

(** [&packet[..WIRE_MAGIC.len()] != WIRE_MAGIC] *)
Definition bad_magic {E} (packet : list Z) : exec E bool :=
  let! head := slice_to packet (len WIRE_MAGIC) in
  Ok (negb (bool_decide (head = WIRE_MAGIC))).

Definition parse_header (packet : list Z) : exec ParseError WireHeader :=
  if len packet <? 21 then Err (ParseError.TooShort (len packet) 21) else
  let! bad := bad_magic packet in
  if bad then Err ParseError.BadMagic else
  let! w12 := read_u32_le packet 12 in
  let! w16 := read_u32_le packet 16 in
  let! b20 := slice_index packet 20 in
  Ok {| word12 := w12; word16 := w16; byte20 := b20 |}.

(** [as usize] and [as u32] *)
Definition as_usize (v : Z) : Z := v mod (usize_max + 1).
Definition as_u32 (v : Z) : Z := v mod 2 ^ 32.

Definition parse_canonical_command_request (packet : list Z) : exec ParseError CommandRequest :=
  let! header := parse_header packet in
  let declared := as_usize (word12 header) in
  if negb (declared =? len packet)
  then Err (ParseError.InvalidRequestLength declared (len packet)) else
  if negb (word16 header =? COMMAND_CLASS)
  then Err (ParseError.InvalidRequestClass (word16 header)) else
  Ok {| req_length := declared; req_opcode := byte20 header |}.

(** [build_zeroed_request::<N>]: the stores into a zeroed array, each of which
    panics when [N] is too small for it. *)
Definition build_zeroed_request {E} (N : nat) (opcode : Z) : exec E (list Z) :=
  let packet := replicate N 0 in
  let! packet := copy_from_slice packet 0 (len WIRE_MAGIC) WIRE_MAGIC in
  let! packet := copy_from_slice packet 12 16 (to_le_bytes 4 (as_u32 (Z.of_nat N))) in
  let! packet := copy_from_slice packet 16 20 (to_le_bytes 4 COMMAND_CLASS) in
  slice_set packet 20 opcode.

Definition build_bulk_heartbeat_request (client_tag : Z) : exec BuildError (list Z) :=
  let text := dec client_tag in
  if HEARTBEAT_TAG_CAPACITY <? len text
  then Err (ClientTagTooLong (len text) HEARTBEAT_TAG_CAPACITY) else
  let! packet := build_zeroed_request (Z.to_nat HEARTBEAT_SIZE) BULK_HEARTBEAT_OPCODE in
  let! stop := add_at usize_max HEARTBEAT_TAG_OFFSET (len text) in
  copy_from_slice packet HEARTBEAT_TAG_OFFSET stop text.

Definition build_capabilities_request {E} : exec E (list Z) :=
  build_zeroed_request (Z.to_nat HEADER_SIZE) CAPABILITIES_OPCODE.

Definition parse_frame_ack (packet : list Z) : exec FrameAckParseError FrameAck :=
  if negb (len packet =? FRAME_ACK_SIZE)
  then Err (FrameAckParseError.InvalidPacketLength (len packet) FRAME_ACK_SIZE) else
  let! bad := bad_magic packet in
  if bad then Err FrameAckParseError.BadMagic else
  let! declared_length := read_u32_le packet 12 in
  if negb (declared_length =? as_u32 FRAME_ACK_SIZE)
  then Err (FrameAckParseError.InvalidDeclaredLength declared_length) else
  let! signature := read_u32_le packet 16 in
  if negb (signature =? FRAME_ACK_SIGNATURE)
  then Err (FrameAckParseError.InvalidSignature signature) else
  let! sequence := slice_index packet 20 in
  let! rest := slice_range packet 21 24 in
  let! rest := expect (try_into_array 3 rest) in
  Ok {| ack_sequence := sequence; unclassified_bytes21_23 := rest |}.

End operations.

(** ** Reference description of a packet *)

(** The layout shared by every packet: magic, two words, bytes from 20 on. *)
Definition wire (w12 w16 : Z) (body : list Z) : list Z :=
  WIRE_MAGIC ++ to_le_bytes 4 w12 ++ to_le_bytes 4 w16 ++ body.

(** The words and the first body byte of a packet that carries the magic. *)
Definition word_at (packet : list Z) (offset : Z) : Z :=
  from_le_bytes (subslice packet offset (offset + 4)).

(** The NUL-terminated decimal tag that a receiver reads at offset 35. *)
Definition heartbeat_tag (packet : list Z) : option Z :=
  let field := drop (Z.to_nat HEARTBEAT_TAG_OFFSET) packet in
  match position (Z.eqb 0) field with
  | Some n => parse_uint u32_max (take (Z.to_nat n) field)
  | None => None
  end.

(** ** Lemmas on words and layouts *)

Section layout.
Context `{Platform}.

Lemma read_u32_le_eq {E} p off :
  len p <= isize_max -> 0 <= off -> off + 4 <= len p ->
  read_u32_le (E := E) p off = Ok (word_at p off).
Proof.
  intros Hp Hoff Hin. unfold read_u32_le, add_at, word_at.
  replace (off + 4 <=? usize_max) with true by (symmetry; apply Z.leb_le; platform_lia).
  cbn [exec_bind]. rewrite slice_range_eq by lia. cbn [exec_bind].
  by rewrite try_into_array_eq by (rewrite len_subslice; lia).
Qed.

Lemma read_u16_be_eq {E} p off :
  len p <= isize_max -> 0 <= off -> off + 2 <= len p ->
  read_u16_be (E := E) p off = Ok (from_be_bytes (subslice p off (off + 2))).
Proof.
  intros Hp Hoff Hin. unfold read_u16_be, add_at.
  replace (off + 2 <=? usize_max) with true by (symmetry; apply Z.leb_le; platform_lia).
  cbn [exec_bind]. rewrite slice_range_eq by lia. cbn [exec_bind].
  by rewrite try_into_array_eq by (rewrite len_subslice; lia).
Qed.

Lemma bad_magic_eq {E} p :
  12 <= len p ->
  bad_magic (E := E) p = Ok (negb (bool_decide (take 12 p = WIRE_MAGIC))).
Proof.
  intros. unfold bad_magic. change (len WIRE_MAGIC) with 12.
  by rewrite slice_to_eq by lia.
Qed.

Lemma word_at_u32 p off :
  byte_slice p -> 0 <= off -> off + 4 <= len p -> in_width u32_max (word_at p off).
Proof.
  intros Hp Hoff Hin. unfold word_at.
  assert (byte_slice (subslice p off (off + 4))) as [Hb _] by auto with slices.
  pose proof (from_le_bytes_bounds _ Hb) as Hw. rewrite len_subslice in Hw by lia.
  replace (off + 4 - off) with 4 in Hw by lia. unfold in_width, u32_max. lia.
Qed.

Lemma as_usize_u32 v : in_width u32_max v -> as_usize v = v.
Proof. intros. unfold as_usize. apply Z.mod_small. platform_lia. Qed.
End layout.

Lemma len_wire w12 w16 body : len (wire w12 w16 body) = 20 + len body.
Proof.
  unfold wire. rewrite !len_app. change (len WIRE_MAGIC) with 12.
  unfold len. rewrite !length_to_le_bytes. lia.
Qed.
#[export] Hint Rewrite len_wire : slices.

Lemma take_wire w12 w16 body : take 12 (wire w12 w16 body) = WIRE_MAGIC.
Proof. apply (take_app_length WIRE_MAGIC). Qed.

Lemma drop_wire w12 w16 body : drop 20 (wire w12 w16 body) = body.
Proof.
  unfold wire. rewrite !app_assoc. apply drop_app_length'.
  by rewrite !length_app, !length_to_le_bytes.
Qed.

Lemma slice_get_wire w12 w16 body i :
  20 <= i -> slice_get (wire w12 w16 body) i = slice_get body (i - 20).
Proof.
  intros. unfold wire. rewrite !app_assoc, slice_get_app_r.
  - rewrite !len_app. unfold len. by rewrite !length_to_le_bytes.
  - rewrite !len_app. unfold len. rewrite !length_to_le_bytes. change (length WIRE_MAGIC) with 12%nat. lia.
Qed.

Lemma subslice_wire w12 w16 body a b :
  20 <= a <= b -> subslice (wire w12 w16 body) a b = subslice body (a - 20) (b - 20).
Proof.
  intros. rewrite <- (drop_wire w12 w16 body) at 2. change 20%nat with (Z.to_nat 20).
  rewrite subslice_drop by lia. f_equal; lia.
Qed.

Lemma word12_wire w12 w16 body : word_at (wire w12 w16 body) 12 = w12 mod 2 ^ 32.
Proof.
  unfold word_at, wire. rewrite subslice_app; [apply from_to_le_bytes|done|].
  unfold len. by rewrite length_to_le_bytes.
Qed.

Lemma word16_wire w12 w16 body : word_at (wire w12 w16 body) 16 = w16 mod 2 ^ 32.
Proof.
  unfold word_at, wire. rewrite app_assoc, subslice_app; [apply from_to_le_bytes| |];
    rewrite len_app; unfold len; by rewrite !length_to_le_bytes.
Qed.

Lemma to_le_bytes_word_at p off :
  Forall (in_width u8_max) p -> 0 <= off -> off + 4 <= len p ->
  to_le_bytes 4 (word_at p off) = subslice p off (off + 4).
Proof.
  intros. unfold word_at. symmetry. apply from_le_bytes_eq; [by apply Forall_take, Forall_drop| |done].
  pose proof (len_subslice p off (off + 4)). unfold len in *. lia.
Qed.

(** Every packet with the magic has the layout, and its words are its own. *)
Lemma wire_of_packet p :
  Forall (in_width u8_max) p -> 20 <= len p -> take 12 p = WIRE_MAGIC ->
  p = wire (word_at p 12) (word_at p 16) (drop 20 p).
Proof.
  intros Hp Hlen Hm. unfold wire. rewrite !to_le_bytes_word_at by (done || lia).
  rewrite (subslice_split p 12 16) at 1 by lia.
  change (Z.to_nat 12) with 12%nat. rewrite Hm. do 2 f_equal.
  rewrite (subslice_split (drop (Z.to_nat 16) p) 0 4) at 1 by (rewrite ?len_drop; lia).
  rewrite subslice_drop, drop_drop by lia. done.
Qed.

(** ** Closed forms of the operations *)

Section closed_forms.
Context `{Platform}.

Lemma slice_index_total {E} (p : list Z) i :
  0 <= i < len p -> slice_index (E := E) p i = Ok (p !!! Z.to_nat i).
Proof.
  intros Hi. apply slice_index_eq, slice_get_Some. split; [lia|].
  apply list_lookup_lookup_total_lt. unfold len in Hi. lia.
Qed.

Lemma parse_header_eq p :
  len p <= isize_max ->
  parse_header p =
    if len p <? 21 then Err (ParseError.TooShort (len p) 21)
    else if bool_decide (take 12 p = WIRE_MAGIC)
    then Ok {| word12 := word_at p 12; word16 := word_at p 16; byte20 := p !!! 20%nat |}
    else Err ParseError.BadMagic.
Proof.
  intros Hp. unfold parse_header. case_test; [done|].
  rewrite bad_magic_eq by lia. cbn [exec_bind]. case_bool_decide; [|done].
  cbn [negb]. rewrite !read_u32_le_eq by lia. cbn [exec_bind].
  by rewrite slice_index_total by lia.
Qed.

Lemma wire_lookup_20 w12 w16 b body : wire w12 w16 (b :: body) !!! 20%nat = b.
Proof.
  apply list_lookup_total_correct.
  assert (slice_get (wire w12 w16 (b :: body)) 20 = Some b) as Hg
    by by rewrite slice_get_wire.
  by apply slice_get_Some in Hg as [_ ?].
Qed.

Lemma parse_header_wire w12 w16 b body :
  in_width u32_max w12 -> in_width u32_max w16 ->
  len (wire w12 w16 (b :: body)) <= isize_max ->
  parse_header (wire w12 w16 (b :: body)) =
    Ok {| word12 := w12; word16 := w16; byte20 := b |}.
Proof.
  intros H12 H16 Hl. rewrite parse_header_eq by done.
  rewrite word12_wire, word16_wire, wire_lookup_20, take_wire, bool_decide_true by done.
  replace (len (wire w12 w16 (b :: body)) <? 21) with false
    by (symmetry; apply Z.ltb_ge; len_lia).
  unfold in_width, u32_max in *. by rewrite !Z.mod_small by lia.
Qed.

(** A packet of at least 21 bytes with the magic, decomposed. *)
Lemma wire_decompose p :
  byte_slice p -> 21 <= len p -> take 12 p = WIRE_MAGIC ->
  exists body, p = wire (word_at p 12) (word_at p 16) (p !!! 20%nat :: body) /\
    in_width u32_max (word_at p 12) /\ in_width u32_max (word_at p 16) /\
    in_width u8_max (p !!! 20%nat).
Proof.
  intros Hp Hl Hm. destruct Hp as [Hb Hmax].
  exists (drop 21 p). split_and!; [|apply word_at_u32; (done || lia)..|].
  - rewrite (wire_of_packet p) at 1 by (done || lia). f_equal.
    apply drop_S, list_lookup_lookup_total_lt. unfold len in Hl. lia.
  - apply (Forall_lookup_total_1 _ p); [done|]. unfold len in Hl. lia.
Qed.

(** The builder fills the layout and zeroes the rest. *)
Lemma build_zeroed_request_eq {E} N opcode :
  (21 <= N)%nat -> Z.of_nat N <= u32_max ->
  build_zeroed_request (E := E) N opcode =
    Ok (wire (Z.of_nat N) COMMAND_CLASS (opcode :: replicate (N - 21) 0)).
Proof.
  intros HN Hmax. unfold build_zeroed_request, wire.
  replace (as_u32 (Z.of_nat N)) with (Z.of_nat N)
    by (unfold as_u32, u32_max in *; symmetry; apply Z.mod_small; lia).
  replace (replicate N 0)
    with ([] ++ replicate 12 0 ++ replicate 4 0 ++ replicate 4 0 ++ 0 :: replicate (N - 21) 0).
  2: { cbn [app]. change (0 :: replicate (N - 21) 0) with (replicate (1 + (N - 21)) 0).
       rewrite <- !replicate_add. f_equal. lia. }
  rewrite copy_from_slice_eq by done. cbn [exec_bind app].
  rewrite copy_from_slice_eq by (rewrite ?len_replicate; unfold len; by rewrite ?length_to_le_bytes).
  cbn [exec_bind].
  set (w := to_le_bytes 4 (Z.of_nat N)).
  assert (len w = 4) by (unfold len, w; by rewrite length_to_le_bytes).
  rewrite (app_assoc WIRE_MAGIC).
  rewrite copy_from_slice_eq
    by (rewrite ?len_app; change (len WIRE_MAGIC) with 12; rewrite ?len_replicate; unfold len in *;
        rewrite ?length_to_le_bytes; lia).
  cbn [exec_bind].
  rewrite (app_assoc (WIRE_MAGIC ++ w)). rewrite slice_set_eq.
  - by rewrite <- !app_assoc.
  - rewrite !len_app. change (len WIRE_MAGIC) with 12. unfold len in *.
    rewrite ?length_to_le_bytes. lia.
Qed.

Lemma build_bulk_heartbeat_request_eq tag :
  in_width u32_max tag ->
  build_bulk_heartbeat_request tag =
    if tag <? 10 ^ 8 then
      Ok (wire 44 COMMAND_CLASS (BULK_HEARTBEAT_OPCODE ::
            replicate 14 0 ++ dec tag ++ replicate (9 - length (dec tag)) 0))
    else Err (ClientTagTooLong (len (dec tag)) 8).
Proof.
  intros Htag. unfold build_bulk_heartbeat_request.
  change HEARTBEAT_TAG_CAPACITY with 8.
  pose proof (render_len 10 tag 8) as Hlen. unfold in_width in Htag.
  destruct (Z.ltb_spec tag (10 ^ 8)).
  2: { by rewrite (proj2 (Z.ltb_lt _ _)) by (apply Z.nle_gt; rewrite Hlen; lia). }
  assert (len (dec tag) <= 8) as Hl by (apply Hlen; lia).
  rewrite (proj2 (Z.ltb_ge _ _)) by done.
  rewrite build_zeroed_request_eq by (vm_compute; (lia || discriminate)). cbn [exec_bind].
  unfold add_at. change HEARTBEAT_TAG_OFFSET with 35.
  replace (35 + len (dec tag) <=? usize_max) with true
    by (symmetry; apply Z.leb_le; platform_lia).
  cbn [exec_bind]. change (Z.of_nat (Z.to_nat HEARTBEAT_SIZE)) with 44.
  change (Z.to_nat HEARTBEAT_SIZE - 21)%nat with 23%nat.
  replace 23%nat with (14 + (length (dec tag) + (9 - length (dec tag))))%nat
    by (unfold len in Hl; lia).
  rewrite !replicate_add. unfold wire. rewrite !(app_comm_cons (replicate 14 0)).
  rewrite !app_assoc. rewrite <- (app_assoc _ (replicate (length (dec tag)) 0)).
  rewrite <- (app_assoc _ (dec tag)). apply copy_from_slice_eq; rewrite ?len_replicate; unfold len.
  1, 2: rewrite !length_app, !length_to_le_bytes; cbn [length]; rewrite length_replicate;
    change (length WIRE_MAGIC) with 12%nat; lia.
  done.
Qed.
End closed_forms.

Section ack_form.
Context `{Platform}.

Lemma parse_frame_ack_eq p :
  len p <= isize_max ->
  parse_frame_ack p =
    if negb (len p =? FRAME_ACK_SIZE)
    then Err (FrameAckParseError.InvalidPacketLength (len p) FRAME_ACK_SIZE)
    else if bool_decide (take 12 p = WIRE_MAGIC) then
      if negb (word_at p 12 =? FRAME_ACK_SIZE)
      then Err (FrameAckParseError.InvalidDeclaredLength (word_at p 12))
      else if negb (word_at p 16 =? FRAME_ACK_SIGNATURE)
      then Err (FrameAckParseError.InvalidSignature (word_at p 16))
      else Ok {| ack_sequence := p !!! 20%nat; unclassified_bytes21_23 := subslice p 21 24 |}
    else Err FrameAckParseError.BadMagic.
Proof.
  intros Hp. unfold parse_frame_ack. unfold FRAME_ACK_SIZE in *.
  case_test; [done|]. rewrite bad_magic_eq by lia. cbn [exec_bind].
  case_bool_decide; [|done]. cbn [negb].
  rewrite read_u32_le_eq by lia. cbn [exec_bind].
  change (as_u32 1024) with 1024. case_test; [done|].
  rewrite read_u32_le_eq by lia. cbn [exec_bind]. case_test; [done|].
  rewrite slice_index_total by lia. cbn [exec_bind].
  rewrite slice_range_eq by lia. cbn [exec_bind].
  by rewrite try_into_array_eq by (rewrite len_subslice; lia).
Qed.
End ack_form.

(** What a receiver reads from the tag field of a heartbeat. *)
Lemma heartbeat_tag_wire w12 w16 b tag n :
  0 <= tag -> len (dec tag) <= 8 ->
  heartbeat_tag (wire w12 w16 (b :: replicate 14 0 ++ dec tag ++ replicate (n - length (dec tag)) 0)) =
    if (length (dec tag) <? n)%nat then
      if tag <=? u32_max then Some tag else None
    else None.
Proof.
  intros Htag Hl. unfold heartbeat_tag. change (Z.to_nat HEARTBEAT_TAG_OFFSET) with (20 + 15)%nat.
  rewrite <- drop_drop, drop_wire. cbn [drop]. rewrite drop_app_length' by done.
  destruct (dec_chars tag Htag) as [Hc _].
  assert (Forall (fun y => (0 =? y) = false) (dec tag)) as Hnz.
  { eapply Forall_weaken; [|exact Hc]. unfold is_ascii_digit. intros c Hc'. lia. }
  destruct (Nat.ltb_spec (length (dec tag)) n).
  - replace (n - length (dec tag))%nat with (S (n - length (dec tag) - 1)) by lia. cbn [replicate].
    rewrite (proj2 (position_Some _ _ (len (dec tag)))) by eauto 10.
    rewrite to_nat_len, take_app_length. apply parse_uint_dec; [done|]. unfold u32_max; lia.
  - replace (n - length (dec tag))%nat with O by lia. cbn [replicate]. rewrite app_nil_r.
    by rewrite (proj2 (position_None _ _)).
Qed.

(** ** Properties *)

Section properties.
Context `{Platform}.

(** [parse_header] on every byte slice: it returns; a header it accepts is
    exactly the packet's magic, words 12 and 16 and byte 20, and it rejects a
    packet only for being shorter than 21 bytes or, when long enough, for not
    starting with the magic. *)
Theorem parse_header_correct p :
  byte_slice p ->
  exec_wp (parse_header p)
    (fun h => exists body,
       p = wire (word12 h) (word16 h) (byte20 h :: body) /\
       in_width u32_max (word12 h) /\ in_width u32_max (word16 h) /\ in_width u8_max (byte20 h))
    (fun e => match e with
       | ParseError.TooShort actual minimum => actual = len p /\ minimum = 21 /\ len p < 21
       | ParseError.BadMagic => 21 <= len p /\ take 12 p <> WIRE_MAGIC
       | _ => False
       end).
Proof.
  intros Hp. rewrite parse_header_eq by apply Hp. case_test; exec_cbn; [lia|].
  case_bool_decide; exec_cbn; [by apply wire_decompose|]. by split; [lia|].
Qed.

(** C32 [parse_canonical_command_request] accepts exactly the packets whose word
    12 is their own length and whose word 16 is the command class, and reports
    that length and byte 20; otherwise it names the first check that fails. *)
Theorem parse_canonical_command_request_correct p :
  byte_slice p ->
  exec_wp (parse_canonical_command_request p)
    (fun r => req_length r = len p /\ exists body,
       p = wire (len p) COMMAND_CLASS (req_opcode r :: body))
    (fun e => match e with
       | ParseError.TooShort actual minimum => actual = len p /\ minimum = 21 /\ len p < 21
       | ParseError.BadMagic => 21 <= len p /\ take 12 p <> WIRE_MAGIC
       | ParseError.InvalidRequestLength declared actual =>
           exists w16 body, p = wire declared w16 body /\ actual = len p /\ declared <> len p
       | ParseError.InvalidRequestClass class =>
           exists body, p = wire (len p) class body /\ class <> COMMAND_CLASS
       end).
Proof.
  intros Hp. unfold parse_canonical_command_request.
  rewrite parse_header_eq by apply Hp. case_test; exec_cbn; [lia|].
  case_bool_decide as Hm; exec_cbn; [|by split; [lia|]].
  destruct (wire_decompose p) as (body & Hw & H12 & H16 & H20); [done..|].
  cbn [word12 word16 byte20]. rewrite as_usize_u32 by done.
  case_test as Hd; exec_cbn; [by eauto|]. rewrite Hd in Hw |- *.
  case_test as Hc; exec_cbn; [by eauto|]. rewrite Hc in Hw. by eauto.
Qed.

(** Every request the generic builder can produce (any packet size from 21
    bytes to the range of the length word) is accepted by the canonical request
    parser, which gives back its size and opcode; the bytes after the opcode
    are zero. *)
Theorem build_zeroed_request_roundtrip N opcode :
  (21 <= N)%nat -> Z.of_nat N <= u32_max -> Z.of_nat N <= isize_max ->
  exists p, build_zeroed_request (E := BuildError) N opcode = Ok p /\
    len p = Z.of_nat N /\
    parse_canonical_command_request p =
      Ok {| req_length := Z.of_nat N; req_opcode := opcode |} /\
    Forall (eq 0) (drop 21 p).
Proof.
  intros HN Hmax Hi. rewrite build_zeroed_request_eq by done.
  set (p := wire _ _ _). exists p. split; [done|].
  assert (len p = Z.of_nat N) as Hl.
  { subst p. rewrite len_wire, len_cons, len_replicate. lia. }
  split_and!; [done| |].
  - unfold parse_canonical_command_request. subst p.
    rewrite parse_header_wire by (unfold COMMAND_CLASS in *; platform_lia).
    cbn. rewrite as_usize_u32 by platform_lia. by rewrite Hl, Z.eqb_refl.
  - subst p. change 21%nat with (20 + 1)%nat. rewrite <- drop_drop, drop_wire.
    cbn. rewrite drop_0. by apply Forall_replicate.
Qed.

(** C33 [build_bulk_heartbeat_request] fails exactly for the tags of nine digits
    or more; otherwise the packet is a 44-byte heartbeat command from which a
    receiver reads back the client tag as a NUL-terminated decimal at offset
    35. *)
Theorem build_bulk_heartbeat_request_roundtrip tag :
  in_width u32_max tag ->
  exec_wp (build_bulk_heartbeat_request tag)
    (fun p => tag < 10 ^ 8 /\ len p = HEARTBEAT_SIZE /\
       parse_canonical_command_request p =
         Ok {| req_length := HEARTBEAT_SIZE; req_opcode := BULK_HEARTBEAT_OPCODE |} /\
       heartbeat_tag p = Some tag)
    (fun e => 10 ^ 8 <= tag /\ e = ClientTagTooLong (len (dec tag)) HEARTBEAT_TAG_CAPACITY).
Proof.
  intros Htag. rewrite build_bulk_heartbeat_request_eq by done.
  case_test; exec_cbn; [|done]. pose proof (render_len 10 tag 8) as Hl.
  assert (0 <= tag) by apply Htag. assert (len (dec tag) <= 8) by (apply Hl; lia).
  split; [done|]. rewrite heartbeat_tag_wire by done.
  assert (forall b, len (wire 44 COMMAND_CLASS (b :: replicate 14 0 ++ dec tag ++
    replicate (9 - length (dec tag)) 0)) = 44) as Hw by (intros; len_simpl; unfold len in *; lia).
  rewrite Hw. split_and!; [done| |].
  2: { rewrite (proj2 (Nat.ltb_lt _ _)) by (unfold len in *; lia).
       by rewrite (proj2 (Z.leb_le _ _)) by apply Htag. }
  unfold parse_canonical_command_request.
  rewrite parse_header_wire by (rewrite ?Hw; unfold COMMAND_CLASS; platform_lia).
  cbn [exec_bind word12 word16 byte20]. rewrite as_usize_u32 by platform_lia.
  by rewrite Hw.
Qed.

(** C34 [parse_frame_ack] accepts exactly the 1024-byte packets with the magic,
    length word 1024 and the ACK signature, reports byte 20 and bytes 21 to 23
    verbatim, ignores the rest of the packet, and otherwise names the first
    check that fails. *)
Theorem parse_frame_ack_correct p :
  byte_slice p ->
  exec_wp (parse_frame_ack p)
    (fun a => len (unclassified_bytes21_23 a) = 3 /\ exists tail, len tail = 1000 /\
       p = wire FRAME_ACK_SIZE FRAME_ACK_SIGNATURE
             (ack_sequence a :: unclassified_bytes21_23 a ++ tail))
    (fun e => match e with
       | FrameAckParseError.InvalidPacketLength actual expected =>
           actual = len p /\ expected = 1024 /\ len p <> 1024
       | FrameAckParseError.BadMagic => len p = 1024 /\ take 12 p <> WIRE_MAGIC
       | FrameAckParseError.InvalidDeclaredLength declared =>
           len p = 1024 /\ exists w16 body, p = wire declared w16 body /\ declared <> 1024
       | FrameAckParseError.InvalidSignature signature =>
           exists body, len body = 1004 /\ p = wire 1024 signature body /\
             signature <> FRAME_ACK_SIGNATURE
       end).
Proof.
  intros Hp. rewrite parse_frame_ack_eq by apply Hp. unfold FRAME_ACK_SIZE.
  case_test; exec_cbn; [done|]. case_bool_decide as Hm; exec_cbn; [|done].
  destruct (wire_decompose p) as (body & Hw & H12 & H16 & H20); [done|lia|done|].
  assert (len body = 1003) as Hb by (apply (f_equal len) in Hw; len_lia).
  case_test as Hd; exec_cbn; [by eauto|]. rewrite Hd in Hw.
  case_test as Hs; exec_cbn; cbn [ack_sequence unclassified_bytes21_23].
  - eexists. split; [|split; [exact Hw|done]]. len_lia.
  - rewrite Hs in Hw. rewrite len_subslice by lia. split; [done|].
    exists (drop 3 body). split.
    { change 3%nat with (Z.to_nat 3). rewrite len_drop; lia. }
    rewrite Hw at 1. do 2 f_equal. rewrite Hw, subslice_wire by lia.
    change (subslice (p !!! 20%nat :: body) (21 - 20) (24 - 20)) with (take 3 (drop 0 body)).
    by rewrite drop_0, take_drop.
Qed.
End properties.

(** ** Witnesses *)

(** An observed request: opcode 0x45 with word 12 equal to 8 in 44 bytes. *)
Definition observed_request : list Z := wire 8 COMMAND_CLASS (0x45 :: replicate 23 0).

(** An ACK for sequence 0x89 with a nonzero opaque tail. *)
Definition observed_ack : list Z :=
  wire FRAME_ACK_SIZE FRAME_ACK_SIGNATURE (0x89 :: [0; 0; 0] ++ replicate 1000 0xa5).

Lemma parse_header_correct_witness :
  byte_slice observed_request /\
  parse_header observed_request = Ok {| word12 := 8; word16 := 6; byte20 := 0x45 |} /\
  exists body, observed_request = wire 8 6 (0x45 :: body) /\
    in_width u32_max 8 /\ in_width u32_max 6 /\ in_width u8_max 0x45.
Proof.
  assert (byte_slice observed_request) as Hb by by apply byte_slice_check.
  split; [exact Hb|]. split; [vm_compute; reflexivity|].
  exact (parse_header_correct observed_request Hb).
Defined.

Lemma parse_canonical_command_request_correct_witness :
  byte_slice observed_request /\
  parse_canonical_command_request observed_request =
    Err (ParseError.InvalidRequestLength 8 44) /\
  exists w16 body, observed_request = wire 8 w16 body /\ 44 = len observed_request /\
    8 <> len observed_request.
Proof.
  assert (byte_slice observed_request) as Hb by by apply byte_slice_check.
  split; [exact Hb|]. split; [vm_compute; reflexivity|].
  exact (parse_canonical_command_request_correct observed_request Hb).
Defined.

Lemma build_zeroed_request_roundtrip_witness :
  exists p, build_zeroed_request (E := BuildError) 48 CAPABILITIES_OPCODE = Ok p /\
    len p = 48 /\
    parse_canonical_command_request p =
      Ok {| req_length := 48; req_opcode := CAPABILITIES_OPCODE |} /\
    Forall (eq 0) (drop 21 p).
Proof.
  apply (build_zeroed_request_roundtrip 48 CAPABILITIES_OPCODE);
    [lia | vm_compute; discriminate | vm_compute; discriminate].
Defined.

Lemma build_bulk_heartbeat_request_roundtrip_witness :
  exec_wp (build_bulk_heartbeat_request 10346)
    (fun p => 10346 < 10 ^ 8 /\ len p = HEARTBEAT_SIZE /\
       parse_canonical_command_request p =
         Ok {| req_length := HEARTBEAT_SIZE; req_opcode := BULK_HEARTBEAT_OPCODE |} /\
       heartbeat_tag p = Some 10346)
    (fun e => 10 ^ 8 <= 10346 /\ e = ClientTagTooLong (len (dec 10346)) HEARTBEAT_TAG_CAPACITY) /\
  build_bulk_heartbeat_request 100000000 = Err (ClientTagTooLong 9 8).
Proof.
  split; [|vm_compute; reflexivity].
  apply (build_bulk_heartbeat_request_roundtrip 10346).
  unfold in_width, u32_max. lia.
Defined.

Lemma parse_frame_ack_correct_witness :
  byte_slice observed_ack /\
  parse_frame_ack observed_ack =
    Ok {| ack_sequence := 0x89; unclassified_bytes21_23 := [0; 0; 0] |} /\
  len [0; 0; 0] = 3 /\ exists tail, len tail = 1000 /\
    observed_ack = wire FRAME_ACK_SIZE FRAME_ACK_SIGNATURE (0x89 :: [0; 0; 0] ++ tail).
Proof.
  assert (byte_slice observed_ack) as Hb by by apply byte_slice_check.
  split; [exact Hb|]. split; [vm_compute; reflexivity|].
  exact (parse_frame_ack_correct observed_ack Hb).
Defined.
