(* ===== verification/JpegScan.v ===== *)
(** * JpegScan: finding the structural end of a JPEG image

    Models [parse_jpeg_end] of rust/src/protocol.rs, the scanner that decides
    where the JPEG part of a captured frame ends: it walks marker segments and
    entropy-coded scan data and stops at the first structural EOI, so that an
    [ff d9] byte pair inside a segment or in the decoder metadata is not
    mistaken for the end.

    The reference is the grammar [jpeg_image]: a declarative description of the
    byte strings that the scanner is to accept as a prefix.  The theorems show
    that the scanner returns on every slice, that it accepts exactly the
    grammar, that what follows the image is never looked at, and that every
    error points at the bytes it describes.

    The source's loops run with fuel [S (length s)]; each turn consumes at
    least one byte, and the scanner is shown never to exhaust it. *)

From S2P Require Import Prelude Text Wire.

Open Scope Z_scope.

(** ** Errors *)

Module FrameParseError.
Inductive FrameParseError :=
| InvalidMaxPacketSize (actual : Z)
| TooShort (actual minimum : Z)
| BadMagic
| DeclaredLengthDoesNotFit (declared : Z)
| DeclaredLengthMismatch (declared actual : Z)
| InvalidSignature (actual : Z)
| InvalidFrameType (byte20 byte21 : Z)
| MissingJpegStart
| ExpectedJpegMarker (offset byte : Z)
| TruncatedJpegMarker (offset : Z)
| TruncatedJpegSegmentLength (offset marker : Z)
| InvalidJpegSegmentLength (offset marker length : Z)
| TruncatedJpegSegment (offset marker length available : Z)
| InvalidJpegScanHeader (offset length components : Z)
| UnexpectedJpegMarker (offset marker : Z)
| JpegEndBeforeScan (offset : Z)
| MissingJpegEnd
| LengthOverflow
| TruncatedDecoderMetadata (actual expected : Z)
| PaddingTooLong (actual maximum : Z)
| NonZeroPadding (offset value : Z)
| UnalignedPayload (actual expected max_packet_size : Z).
End FrameParseError.
Abbreviation FrameParseError := FrameParseError.FrameParseError.
Import FrameParseError.

(** ** The scanner *)

(** [0x00 | 0xd0..=0xd7]: stuffed bytes and restart markers, which do not end
    the entropy-coded data. *)
Definition entropy_marker (m : Z) : bool := (m =? 0) || ((0xd0 <=? m) && (m <=? 0xd7)).

(** [0x00 | 0x01 | 0xd0..=0xd8]: markers that may not start a segment. *)
Definition unexpected_marker (m : Z) : bool :=
  (m =? 0) || (m =? 1) || ((0xd0 <=? m) && (m <=? 0xd8)).

Section scanner.
Context `{Platform}.

(** [cursor.checked_add(n).ok_or(LengthOverflow)?] *)
Definition advance (cursor n : Z) : exec FrameParseError Z :=
  ok_or (checked_add cursor n) LengthOverflow.

(** [while jpeg_and_tail.get(cursor) == Some(&0xff) { cursor += 1 }] *)
Fixpoint skip_fill (fuel : nat) (s : list Z) (cursor : Z) : exec FrameParseError Z :=
  match fuel with
  | O => NoFuel
  | S fuel =>
      if bool_decide (slice_get s cursor = Some 0xff)
      then let! cursor := advance cursor 1 in skip_fill fuel s cursor
      else Ok cursor
  end.

(** From the [0xff] at [marker_offset]: skip the fill bytes and read the marker
    byte; gives the marker and the cursor behind it. *)
Definition take_marker (s : list Z) (marker_offset : Z) : exec FrameParseError (Z * Z) :=
  let! cursor := advance marker_offset 1 in
  let! cursor := skip_fill (S (length s)) s cursor in
  let! marker := ok_or (slice_get s cursor) (TruncatedJpegMarker marker_offset) in
  let! cursor := advance cursor 1 in
  Ok (marker, cursor).

(** The inner loop over entropy-coded data: the first marker that ends it. *)
Fixpoint scan_loop (fuel : nat) (s : list Z) (cursor : Z) : exec FrameParseError (Z * Z * Z) :=
  match fuel with
  | O => NoFuel
  | S fuel =>
      let! tail := slice_from s cursor in
      match position (Z.eqb 0xff) tail with
      | None => Err MissingJpegEnd
      | Some relative =>
          let! marker_offset := advance cursor relative in
          let! (marker, cursor) := take_marker s marker_offset in
          if entropy_marker marker then scan_loop fuel s cursor
          else Ok (marker_offset, marker, cursor)
      end
  end.

(** Outside a scan the next byte has to start a marker. *)
Definition header_marker (s : list Z) (cursor : Z) (saw_scan : bool)
    : exec FrameParseError (Z * Z * Z) :=
  let marker_offset := cursor in
  let! prefix := ok_or (slice_get s cursor)
    (if saw_scan then MissingJpegEnd else TruncatedJpegMarker marker_offset) in
  if negb (prefix =? 0xff) then Err (ExpectedJpegMarker marker_offset prefix) else
  let! (marker, cursor) := take_marker s marker_offset in
  Ok (marker_offset, marker, cursor).

(** What one turn of the outer loop decides: the image ends at a cursor, or the
    scan goes on with a new cursor, [in_scan] and [saw_scan]. *)
Inductive turn :=
| Return (cursor : Z)
| Continue (cursor : Z) (in_scan saw_scan : bool).

(** The part of a turn behind the marker: EOI, rejected markers, and the
    segment with its length word; SOS also checks its component count. *)
Definition segment (s : list Z) (marker_offset marker cursor : Z) (saw_scan : bool)
    : exec FrameParseError turn :=
  if marker =? 0xd9 then
    if saw_scan then Ok (Return cursor) else Err (JpegEndBeforeScan marker_offset)
  else if unexpected_marker marker then Err (UnexpectedJpegMarker marker_offset marker) else
  let available := saturating_sub (len s) cursor in
  if available <? 2 then Err (TruncatedJpegSegmentLength marker_offset marker) else
  let! segment_length := read_u16_be s cursor in
  if segment_length <? 2
  then Err (InvalidJpegSegmentLength marker_offset marker segment_length) else
  let! segment_end := advance cursor segment_length in
  if len s <? segment_end
  then Err (TruncatedJpegSegment marker_offset marker segment_length available) else
  if marker =? 0xda then
    let! components := if 3 <=? segment_length
                       then let! i := add_at usize_max cursor 2 in slice_index s i
                       else Ok 0 in
    let! expected_length :=
      ok_or (twice ← checked_mul components 2; checked_add twice 6) LengthOverflow in
    if (components =? 0) || negb (segment_length =? expected_length)
    then Err (InvalidJpegScanHeader marker_offset segment_length components)
    else Ok (Continue segment_end true true)
  else Ok (Continue segment_end false saw_scan).

Definition one_turn (s : list Z) (cursor : Z) (in_scan saw_scan : bool)
    : exec FrameParseError turn :=
  let! (marker_offset, marker, cursor) :=
    if in_scan then scan_loop (S (length s)) s cursor else header_marker s cursor saw_scan in
  segment s marker_offset marker cursor saw_scan.

Fixpoint jpeg_loop (fuel : nat) (s : list Z) (cursor : Z) (in_scan saw_scan : bool)
    : exec FrameParseError Z :=
  match fuel with
  | O => NoFuel
  | S fuel =>
      let! t := one_turn s cursor in_scan saw_scan in
      match t with
      | Return cursor => Ok cursor
      | Continue cursor in_scan saw_scan => jpeg_loop fuel s cursor in_scan saw_scan
      end
  end.

Definition parse_jpeg_end (jpeg_and_tail : list Z) : exec FrameParseError Z :=
  if negb (starts_with jpeg_and_tail [0xff; 0xd8]) then Err MissingJpegStart else
  jpeg_loop (S (length jpeg_and_tail)) jpeg_and_tail 2 false false.

End scanner.

(** ** The grammar *)

(** A marker: one or more [0xff] bytes and the marker byte. *)
Definition marker_bytes (n : nat) (m : Z) : list Z := replicate (S n) 0xff ++ [m].

(** A big-endian 16-bit word. *)
Definition be16 (v : Z) : list Z := [v / 256; v mod 256].

(** The markers inside a scan: stuffed zero bytes and restart markers RST0 to
    RST7. *)
Definition scan_marker (m : Z) : Prop := m = 0 \/ 0xd0 <= m <= 0xd7.

(** The markers that have no segment and are not allowed between segments: a
    stuffed byte, TEM, the restart markers and SOI. *)
Definition bare_marker (m : Z) : Prop := m = 0 \/ m = 1 \/ 0xd0 <= m <= 0xd8.

(** Bytes of a scan: anything but [0xff], except stuffed bytes and restart
    markers. *)
Inductive entropy_data : list Z -> Prop :=
| entropy_plain data :
    Forall (fun b => b <> 0xff) data -> entropy_data data
| entropy_more data n m rest :
    Forall (fun b => b <> 0xff) data -> scan_marker m -> entropy_data rest ->
    entropy_data (data ++ marker_bytes n m ++ rest).

(** What may follow SOI, up to and including EOI; [saw] says that a scan has
    been seen, without which EOI is not accepted. *)
Inductive jpeg_rest : bool -> list Z -> Prop :=
| rest_eoi n :
    jpeg_rest true (marker_bytes n 0xd9)
| rest_segment saw n m body rest :
    ~ bare_marker m -> m <> 0xd9 -> m <> 0xda -> m <> 0xff ->
    len body + 2 <= u16_max -> jpeg_rest saw rest ->
    jpeg_rest saw (marker_bytes n m ++ be16 (len body + 2) ++ body ++ rest)
| rest_scan saw n components params data rest :
    1 <= components -> len params = 2 * components + 3 ->
    entropy_data data -> jpeg_rest true rest ->
    jpeg_rest saw (marker_bytes n 0xda ++ be16 (2 * components + 6) ++
                   components :: params ++ data ++ rest).

(** A structurally complete image: SOI, segments, at least one scan, EOI. *)
Definition jpeg_image (j : list Z) : Prop :=
  exists rest, j = [0xff; 0xd8] ++ rest /\ jpeg_rest false rest.

(** ** What an error says about the bytes *)

(** What the scanner has read, from SOI on, when it looks for the next marker:
    whole segments, scan headers and the data behind them.  [in_scan] says that
    the last of them is a scan, whose data may go on; [saw] that one of them is a
    scan. *)
Inductive jpeg_parsed : bool -> bool -> list Z -> Prop :=
| parsed_soi :
    jpeg_parsed false false [0xff; 0xd8]
| parsed_segment in_scan saw pre n m body :
    jpeg_parsed in_scan saw pre ->
    ~ bare_marker m -> m <> 0xd9 -> m <> 0xda -> m <> 0xff -> len body + 2 <= u16_max ->
    jpeg_parsed false saw (pre ++ marker_bytes n m ++ be16 (len body + 2) ++ body)
| parsed_scan in_scan saw pre n components params :
    jpeg_parsed in_scan saw pre ->
    1 <= components -> len params = 2 * components + 3 ->
    jpeg_parsed true true
      (pre ++ marker_bytes n 0xda ++ be16 (2 * components + 6) ++ components :: params)
| parsed_data saw pre data :
    jpeg_parsed true saw pre -> entropy_data data -> jpeg_parsed true saw (pre ++ data).

(** The marker [m] stands at [offset], right behind what has been parsed, and
    its segment starts at [cursor].  Inside a scan it is a marker that ends the
    scan. *)
Definition marker_at (in_scan saw : bool) (s : list Z) (offset m cursor : Z) : Prop :=
  exists pre n rest, s = pre ++ marker_bytes n m ++ rest /\ jpeg_parsed in_scan saw pre /\
    m <> 0xff /\ (in_scan = true -> ~ scan_marker m) /\
    offset = len pre /\ cursor = len pre + len (marker_bytes n m).

(** The same for a marker that has to have a segment. *)
Definition segment_at (s : list Z) (offset m cursor : Z) : Prop :=
  ~ bare_marker m /\ m <> 0xd9 /\ exists in_scan saw, marker_at in_scan saw s offset m cursor.

(** Every error is found at the end of a parsed part of the slice.  Only
    [MissingJpegEnd] and [TruncatedJpegMarker] say that the slice ended where a
    marker had to follow: the first once a scan has been read, the second before
    any scan or inside a marker. *)
Definition jpeg_error (s : list Z) (e : FrameParseError) : Prop :=
  match e with
  | MissingJpegStart => take 2 s <> [0xff; 0xd8]
  | ExpectedJpegMarker offset byte =>
      exists saw pre rest, s = pre ++ byte :: rest /\ jpeg_parsed false saw pre /\
        offset = len pre /\ byte <> 0xff
  | TruncatedJpegMarker offset =>
      exists in_scan saw pre n, s = pre ++ replicate n 0xff /\ jpeg_parsed in_scan saw pre /\
        offset = len pre /\ (n = O -> in_scan = false /\ saw = false)
  | TruncatedJpegSegmentLength offset m =>
      exists cursor, segment_at s offset m cursor /\ len s < cursor + 2
  | InvalidJpegSegmentLength offset m l =>
      exists cursor, segment_at s offset m cursor /\ cursor + 2 <= len s /\ l < 2 /\
        l = from_be_bytes (subslice s cursor (cursor + 2))
  | TruncatedJpegSegment offset m l available =>
      exists cursor, segment_at s offset m cursor /\ cursor + 2 <= len s /\ 2 <= l /\
        l = from_be_bytes (subslice s cursor (cursor + 2)) /\
        available = len s - cursor /\ available < l
  | InvalidJpegScanHeader offset l components =>
      exists cursor, segment_at s offset 0xda cursor /\ 2 <= l <= len s - cursor /\
        l = from_be_bytes (subslice s cursor (cursor + 2)) /\
        (if 3 <=? l then slice_get s (cursor + 2) = Some components else components = 0) /\
        (components = 0 \/ l <> 2 * components + 6)
  | UnexpectedJpegMarker offset m =>
      bare_marker m /\ exists in_scan saw cursor, marker_at in_scan saw s offset m cursor
  | JpegEndBeforeScan offset => exists cursor, marker_at false false s offset 0xd9 cursor
  | MissingJpegEnd => exists in_scan, jpeg_parsed in_scan true s
  | _ => False
  end.

(** The code's marker tests decide the grammar's marker classes. *)
Lemma entropy_marker_true m : entropy_marker m = true <-> scan_marker m.
Proof. unfold entropy_marker, scan_marker. lia. Qed.

Lemma unexpected_marker_true m : unexpected_marker m = true <-> bare_marker m.
Proof. unfold unexpected_marker, bare_marker. lia. Qed.

Lemma unexpected_marker_false m : unexpected_marker m = false <-> ~ bare_marker m.
Proof. rewrite <- unexpected_marker_true. by destruct (unexpected_marker m). Qed.

(** ** Lemmas on the pieces *)

Lemma len_marker_bytes n m : len (marker_bytes n m) = Z.of_nat n + 2.
Proof. unfold marker_bytes. rewrite len_app, len_replicate, len_cons. len_nil. lia. Qed.
#[export] Hint Rewrite len_marker_bytes : slices.

Lemma len_be16 v : len (be16 v) = 2.
Proof. done. Qed.
#[export] Hint Rewrite len_be16 : slices.

Lemma marker_bytes_cons n m r :
  marker_bytes n m ++ r = 0xff :: replicate n 0xff ++ m :: r.
Proof. unfold marker_bytes. cbn. by rewrite <- app_assoc. Qed.

Lemma fill_split t : exists n r, t = replicate n 0xff ++ r /\ head r <> Some 0xff.
Proof.
  induction t as [|b t (n & r & -> & Hr)]; [by exists O, []|].
  destruct (Z.eq_dec b 0xff) as [->|].
  - by exists (S n), r.
  - exists O, (b :: replicate n 0xff ++ r). split; [done|]. cbn. congruence.
Qed.

Lemma from_be_bytes_be16 v : from_be_bytes (be16 v) = v.
Proof. unfold from_be_bytes, be16. cbn [fold_left]. pose proof (Z.div_mod v 256). lia. Qed.

Lemma be16_from_be_bytes w :
  Forall (in_width u8_max) w -> len w = 2 -> be16 (from_be_bytes w) = w.
Proof.
  intros Hw Hl. destruct w as [|a [|b [|]]]; try (unfold len in Hl; cbn in Hl; lia).
  apply Forall_cons_1 in Hw as [_ [Hb _]%Forall_cons_1]. unfold in_width, u8_max in Hb.
  unfold be16, from_be_bytes. cbn [fold_left].
  replace (256 * (256 * 0 + a) + b) with (b + a * 256) by lia.
  rewrite Z.div_add, Z.mod_add, Z.div_small, Z.mod_small by lia. done.
Qed.

Section pieces.
Context `{Platform}.
Context (s : list Z) (Hs : byte_slice s).

Lemma advance_eq cursor n : cursor + n <= usize_max -> advance cursor n = Ok (cursor + n).
Proof. intros. unfold advance, checked_add. by test_true (cursor + n <=? usize_max). Qed.

Lemma in_slice pre t : s = pre ++ t -> len pre + len t <= isize_max.
Proof. intros ->. destruct Hs as [_ Hl]. by rewrite len_app in Hl. Qed.

Lemma skip_fill_eq n pre r fuel :
  s = pre ++ replicate n 0xff ++ r -> head r <> Some 0xff -> (n < fuel)%nat ->
  skip_fill fuel s (len pre) = Ok (len pre + Z.of_nat n).
Proof.
  revert pre fuel. induction n as [|n IH]; intros pre fuel E Hr Hf;
    (destruct fuel as [|fuel]; [lia|]); cbn [skip_fill].
  - assert (slice_get s (len pre) = head r) as ->.
    { rewrite E. cbn. by rewrite slice_get_app_r, Z.sub_diag by lia; destruct r. }
    rewrite bool_decide_false by done. f_equal. lia.
  - assert (slice_get s (len pre) = Some 0xff) as -> by (rewrite E; apply slice_get_middle).
    rewrite bool_decide_true by done.
    rewrite advance_eq by (pose proof (in_slice _ _ E); platform_lia). exec_cbn.
    replace (len pre + 1) with (len (pre ++ [0xff])) by len_lia.
    rewrite IH; [f_equal; len_lia|by rewrite E, <- app_assoc|done|lia].
Qed.

(** Both outcomes of reading a marker. *)
Lemma take_marker_eq pre n m r :
  s = pre ++ marker_bytes n m ++ r -> m <> 0xff ->
  take_marker s (len pre) = Ok (m, len pre + len (marker_bytes n m)).
Proof.
  intros E Hm. pose proof (in_slice _ _ E) as Hb. rewrite marker_bytes_cons in E.
  unfold take_marker. rewrite advance_eq by (len_simpl; platform_lia). exec_cbn.
  replace (len pre + 1) with (len (pre ++ [0xff])) by len_lia.
  rewrite (skip_fill_eq n _ (m :: r)); [|by rewrite E, <- app_assoc|cbn; congruence|].
  2: { rewrite E, length_app. cbn. rewrite length_app, length_replicate. lia. }
  exec_cbn. replace (slice_get s _) with (Some m).
  2: { replace (len (pre ++ [0xff]) + Z.of_nat n)
         with (len (pre ++ 0xff :: replicate n 0xff)) by len_lia.
       rewrite E, (app_comm_cons (replicate n 0xff)), app_assoc. by rewrite slice_get_middle. }
  exec_cbn. rewrite advance_eq by (len_simpl; platform_lia). exec_cbn.
  do 2 f_equal. len_lia.
Qed.

Lemma take_marker_trunc pre n :
  s = pre ++ 0xff :: replicate n 0xff ->
  take_marker s (len pre) = Err (TruncatedJpegMarker (len pre)).
Proof.
  intros E. pose proof (in_slice _ _ E) as Hb.
  unfold take_marker. rewrite advance_eq by (len_simpl; platform_lia). exec_cbn.
  replace (len pre + 1) with (len (pre ++ [0xff])) by len_lia.
  rewrite (skip_fill_eq n _ []); [|by rewrite E, app_nil_r, <- app_assoc|done|].
  2: { rewrite E, length_app. cbn. rewrite length_replicate. lia. }
  exec_cbn. replace (slice_get s _) with (@None Z); [done|].
  symmetry. apply slice_get_None; [len_lia|]. rewrite E. len_lia.
Qed.

Lemma take_marker_spec in_scan saw pre t :
  s = pre ++ 0xff :: t -> jpeg_parsed in_scan saw pre ->
  exec_wp (take_marker s (len pre))
    (fun '(m, cursor) => exists n r, 0xff :: t = marker_bytes n m ++ r /\ m <> 0xff /\
       cursor = len pre + len (marker_bytes n m))
    (jpeg_error s).
Proof.
  intros E Hp. destruct (fill_split t) as (n & [|m r] & -> & Hr).
  - rewrite app_nil_r in E. rewrite (take_marker_trunc _ _ E). exec_cbn. cbn [jpeg_error].
    by exists in_scan, saw, pre, (S n).
  - rewrite <- marker_bytes_cons in E |- *. assert (m <> 0xff) by (cbn in Hr; congruence).
    rewrite (take_marker_eq _ _ _ _ E) by done. exec_cbn. by exists n, r.
Qed.

(** The entropy loop on data that ends with a marker. *)
Lemma scan_loop_eq fuel pre d n m r :
  entropy_data d -> s = pre ++ d ++ marker_bytes n m ++ r ->
  m <> 0xff -> entropy_marker m = false -> (length d < fuel)%nat ->
  scan_loop fuel s (len pre) =
    Ok (len pre + len d, m, len pre + len d + len (marker_bytes n m)).
Proof.
  intros Hd. revert pre fuel.
  induction Hd as [data Hdata|data n' m' rest Hdata Hm'%entropy_marker_true _ IH];
    intros pre fuel E Hm Hem Hf; (destruct fuel as [|fuel]; [lia|]); cbn [scan_loop];
    pose proof (in_slice _ _ E) as Hb;
    rewrite slice_from_eq by (rewrite E; len_lia); exec_cbn;
    rewrite to_nat_len; rewrite E at 1; rewrite drop_app_length.
  - rewrite (proj2 (position_Some _ _ (len data))).
    2: { rewrite marker_bytes_cons. do 3 eexists. split_and!; [done..|].
         eapply Forall_weaken; [|exact Hdata]. intros; by apply Z.eqb_neq. }
    rewrite advance_eq by (len_simpl; platform_lia). exec_cbn.
    rewrite <- len_app, (take_marker_eq _ n m r) by (done || by rewrite <- app_assoc).
    exec_cbn. by rewrite Hem.
  - rewrite <- !app_assoc. rewrite (proj2 (position_Some _ _ (len data))).
    2: { rewrite marker_bytes_cons. do 3 eexists. split_and!; [done..|].
         eapply Forall_weaken; [|exact Hdata]. intros; by apply Z.eqb_neq. }
    assert (m' <> 0xff) by (intros ->; done).
    rewrite advance_eq by (len_simpl; platform_lia). exec_cbn.
    rewrite <- len_app, (take_marker_eq _ n' m' (rest ++ marker_bytes n m ++ r))
      by (done || by rewrite E, <- !app_assoc).
    exec_cbn. rewrite Hm', <- len_app, IH.
    + f_equal. f_equal; [f_equal|]; len_lia.
    + by rewrite E, <- !app_assoc.
    + done.
    + done.
    + rewrite !length_app in Hf. unfold marker_bytes in Hf.
      rewrite length_app, length_replicate in Hf. lia.
Qed.

Lemma entropy_marker_data d n m :
  Forall (fun b => b <> 0xff) d -> scan_marker m -> entropy_data (d ++ marker_bytes n m).
Proof using Type.
  intros. rewrite <- (app_nil_r (marker_bytes n m)). apply entropy_more; [done..|].
  by apply entropy_plain.
Qed.

Lemma scan_loop_spec fuel pre t :
  s = pre ++ t -> jpeg_parsed true true pre -> (length t < fuel)%nat ->
  exec_wp (scan_loop fuel s (len pre))
    (fun '(off, m, cursor) => exists d n r, t = d ++ marker_bytes n m ++ r /\
       entropy_data d /\ m <> 0xff /\ ~ scan_marker m /\ off = len pre + len d /\
       cursor = off + len (marker_bytes n m))
    (jpeg_error s).
Proof.
  revert pre t. induction fuel as [|fuel IH]; intros pre t E Hp Hf; [lia|]. cbn [scan_loop].
  pose proof (in_slice _ _ E) as Hb.
  rewrite slice_from_eq by (rewrite E; len_lia). exec_cbn.
  rewrite to_nat_len; rewrite E at 1; rewrite drop_app_length.
  destruct (position (Z.eqb 0xff) t) as [i|] eqn:Hpos.
  2: { exists true. rewrite E. apply parsed_data; [done|]. apply entropy_plain.
       apply position_None in Hpos. eapply Forall_weaken; [|exact Hpos].
       intros ? ?%Z.eqb_neq. congruence. }
  apply position_Some in Hpos as (d & b & r & -> & -> & Hb' & Hd).
  apply Z.eqb_eq in Hb' as <-.
  assert (Forall (fun b => b <> 0xff) d) as Hd'
    by (eapply Forall_weaken; [|exact Hd]; intros ? ?%Z.eqb_neq; congruence).
  rewrite advance_eq by (len_simpl; platform_lia). exec_cbn.
  rewrite <- len_app. apply wp_bind. eapply wp_mono; [apply (take_marker_spec true true _ r)| |done].
  { by rewrite E, <- app_assoc. }
  { by apply parsed_data, entropy_plain. }
  intros [m cursor] (n & r' & Hr & Hm & ->). rewrite Hr in *.
  destruct (entropy_marker m) eqn:Hem.
  - rewrite <- len_app. eapply wp_mono; [apply (IH _ r')| |done].
    + by rewrite E, <- !app_assoc.
    + rewrite <- app_assoc. apply parsed_data; [done|].
      by apply entropy_marker_data, entropy_marker_true.
    + rewrite !length_app in Hf. unfold marker_bytes in Hf.
      rewrite length_app, length_replicate in Hf. lia.
    + intros [[off m'] cur] (d' & n' & r'' & -> & Hd'' & Hm' & Hs' & -> & ->).
      exists (d ++ marker_bytes n m ++ d'), n', r''. rewrite <- !app_assoc.
      split_and!; [done|by apply entropy_more; [|apply entropy_marker_true|]|done..|len_lia|len_lia].
  - exec_cbn. exists d, n, r'. rewrite <- entropy_marker_true, Hem.
    split_and!; [done|by apply entropy_plain|done|done|len_lia..].
Qed.

(** The header branch: the byte at the cursor starts a marker or is an error. *)
Lemma header_marker_eq pre n m r saw :
  s = pre ++ marker_bytes n m ++ r -> m <> 0xff ->
  header_marker s (len pre) saw = Ok (len pre, m, len pre + len (marker_bytes n m)).
Proof.
  intros E Hm. unfold header_marker.
  replace (slice_get s (len pre)) with (Some 0xff)
    by (rewrite E, marker_bytes_cons; by rewrite slice_get_middle).
  exec_cbn. rewrite Z.eqb_refl. exec_cbn. by rewrite (take_marker_eq _ _ _ _ E) by done.
Qed.

Lemma header_marker_spec pre t saw :
  s = pre ++ t -> jpeg_parsed false saw pre ->
  exec_wp (header_marker s (len pre) saw)
    (fun '(off, m, cursor) => exists n r, t = marker_bytes n m ++ r /\ m <> 0xff /\
       off = len pre /\ cursor = off + len (marker_bytes n m))
    (jpeg_error s).
Proof.
  intros E Hp. unfold header_marker. destruct t as [|b t].
  - rewrite (proj2 (slice_get_None _ _ (len_nonneg pre))) by (rewrite E; len_lia).
    rewrite app_nil_r in E. exec_cbn. destruct saw; cbn; [exists false; by rewrite E|].
    exists false, false, pre, O. by rewrite app_nil_r.
  - replace (slice_get s (len pre)) with (Some b) by (rewrite E; by rewrite slice_get_middle).
    exec_cbn. case_test as Hb; exec_cbn.
    + by exists saw, pre, t.
    + subst b. apply wp_bind. eapply wp_mono; [by apply (take_marker_spec false saw _ t)| |done].
      intros [m cursor] (n & r & Hr & Hm & ->). rewrite Hr. exec_cbn.
      by exists n, r.
Qed.

Lemma from_be_bytes_u16 w :
  Forall (in_width u8_max) w -> len w = 2 -> 0 <= from_be_bytes w <= u16_max.
Proof using Type.
  intros Hw Hl. destruct w as [|a [|b [|]]]; try (unfold len in Hl; cbn in Hl; lia).
  apply Forall_cons_1 in Hw as [Ha [Hb _]%Forall_cons_1].
  unfold from_be_bytes, in_width, u8_max, u16_max in *. cbn [fold_left]. lia.
Qed.

(** The length word at the start of a segment. *)
Lemma segment_word pm t :
  s = pm ++ t -> 2 <= len t ->
  read_u16_be (E := FrameParseError) s (len pm) = Ok (from_be_bytes (take 2 t)) /\
  subslice s (len pm) (len pm + 2) = take 2 t /\
  be16 (from_be_bytes (take 2 t)) = take 2 t /\
  0 <= from_be_bytes (take 2 t) <= u16_max.
Proof.
  intros E Ht.
  assert (subslice s (len pm) (len pm + 2) = take 2 t) as Hsub.
  { unfold subslice. rewrite to_nat_len, E, drop_app_length. f_equal. lia. }
  assert (Forall (in_width u8_max) (take 2 t)) as Hu.
  { rewrite <- Hsub. by destruct (byte_slice_subslice s (len pm) (len pm + 2) Hs). }
  assert (len (take 2 t) = 2) by (change 2%nat with (Z.to_nat 2); rewrite len_take; lia).
  split_and!; [|done|by apply be16_from_be_bytes|by apply from_be_bytes_u16..].
  assert (len s = len pm + len t) by (by rewrite E, len_app).
  rewrite read_u16_be_eq by (pose proof (byte_slice_len _ Hs); len_lia).
  by rewrite Hsub.
Qed.

(** What a segment whose length word is [l] looks like. *)
Lemma segment_split t :
  let l := from_be_bytes (take 2 t) in
  be16 l = take 2 t -> 2 <= l <= len t ->
  exists body r, t = be16 l ++ body ++ r /\ len body + 2 = l.
Proof using Type.
  intros l Hw Hl. exists (subslice t 2 l), (drop (Z.to_nat l) t).
  rewrite len_subslice by lia. split; [|lia]. rewrite Hw.
  by apply (subslice_split t 2 l); lia.
Qed.

Lemma expected_length_eq c :
  in_width u8_max c ->
  ok_or (twice ← checked_mul c 2; checked_add twice 6) LengthOverflow = Ok (c * 2 + 6).
Proof using Type.
  intros. unfold checked_mul, checked_add. rewrite (proj2 (Z.leb_le _ _)) by platform_lia.
  cbn [mbind option_bind]. by rewrite (proj2 (Z.leb_le _ _)) by platform_lia.
Qed.

Lemma segment_spec in_scan off m pm t saw :
  s = pm ++ t -> marker_at in_scan saw s off m (len pm) -> (in_scan = true -> saw = true) ->
  exec_wp (segment s off m (len pm) saw)
    (fun tr => match tr with
       | Return c => c = len pm /\ m = 0xd9 /\ saw = true
       | Continue c in_scan' saw' =>
           exists seg r, t = seg ++ r /\ c = len pm + len seg /\ 2 <= len seg /\
           if in_scan' then
             saw' = true /\ m = 0xda /\ exists comps params,
               seg = be16 (2 * comps + 6) ++ comps :: params /\
               1 <= comps /\ len params = 2 * comps + 3
           else
             saw' = saw /\ unexpected_marker m = false /\ m <> 0xd9 /\ m <> 0xda /\
             exists body, seg = be16 (len body + 2) ++ body /\ len body + 2 <= u16_max
       end)
    (jpeg_error s).
Proof.
  intros E Hm Hsaw. pose proof (byte_slice_len _ Hs) as Hlen.
  assert (len s = len pm + len t) as Hls by (by rewrite E, len_app).
  pose proof (len_nonneg pm). pose proof (len_nonneg t).
  unfold segment. case_test as H9.
  { destruct saw; exec_cbn; [done|]. subst m. exists (len pm).
    by destruct in_scan; [discriminate Hsaw|]. }
  case_test as Hun; exec_cbn; [apply unexpected_marker_true in Hun; cbn; eauto|].
  assert (segment_at s off m (len pm)) as Hsa
    by (split_and!; [by apply unexpected_marker_false|done|by exists in_scan, saw]).
  unfold saturating_sub. rewrite Hls. replace (Z.max 0 _) with (len t) by lia.
  case_test as Hav; exec_cbn; [cbn; exists (len pm); split; [done|lia]|].
  destruct (segment_word pm t E) as (Hrd & Hsub & Hbe & HL); [done|].
  pose proof (segment_split t Hbe) as Hseg. rewrite Hrd. exec_cbn.
  set (L := from_be_bytes (take 2 t)) in *.
  case_test as HL2; exec_cbn.
  { cbn. exists (len pm). split_and!; [done|lia|lia|by rewrite Hsub]. }
  rewrite advance_eq by platform_lia. exec_cbn.
  case_test as Hend; exec_cbn.
  { cbn. exists (len pm). split_and!; [done|lia|lia|by rewrite Hsub|lia|lia]. }
  destruct Hseg as (body & r & Ht & Hbody); [lia|].
  assert (len (be16 L) = 2) as Hbl by done.
  case_test as Hda; exec_cbn.
  2: { exists (be16 L ++ body), r. rewrite <- app_assoc, len_app. split_and!; [done|lia|len_lia|done..|].
       exists body. rewrite Hbody. by split; [|lia]. }
  subst m. destruct (Z.leb_spec 3 L) as [HL3|HL3].
  2: { exec_cbn. rewrite expected_length_eq by done. exec_cbn. cbn [Z.eqb jpeg_error orb exec_wp].
       exists (len pm). rewrite Hsub, (proj2 (Z.leb_gt _ _) HL3).
       split_and!; [done|lia|lia|done|done|by left]. }
  unfold add_at. replace (len pm + 2 <=? usize_max) with true
    by (symmetry; apply Z.leb_le; platform_lia).
  destruct body as [|comps params]; [unfold len in Hbody; cbn in Hbody; lia|].
  assert (slice_get s (len pm + 2) = Some comps) as Hget.
  { replace (len pm + 2) with (len (pm ++ be16 L)) by len_lia.
    rewrite E, Ht, app_assoc. apply slice_get_middle. }
  exec_cbn. rewrite (slice_index_eq _ _ _ Hget). exec_cbn.
  pose proof (byte_slice_get _ _ _ Hs Hget) as Hcomps.
  rewrite expected_length_eq by done. exec_cbn.
  case_test as Hbad; exec_cbn.
  - cbn. exists (len pm). rewrite Hsub, (proj2 (Z.leb_le _ _) HL3).
    split_and!; [done|lia|lia|done|done|].
    apply orb_true_iff in Hbad as [?|?]; reflect_bool; [by left|right; lia].
  - reflect_bool. unfold in_width in Hcomps. rewrite len_cons in Hbody.
    exists (be16 L ++ comps :: params), r. rewrite <- app_assoc, len_app, len_cons.
    split_and!; [done|lia|len_lia|done|done|]. exists comps, params.
    replace (2 * comps + 6) with L by lia. split_and!; [done|lia|lia].
Qed.

(** A segment that is complete. *)
Lemma segment_body_eq off m pm body r saw :
  s = pm ++ be16 (len body + 2) ++ body ++ r ->
  unexpected_marker m = false -> m <> 0xd9 -> m <> 0xda -> len body + 2 <= u16_max ->
  segment s off m (len pm) saw = Ok (Continue (len pm + (len body + 2)) false saw).
Proof.
  intros E Hun H9 Ha Hl. pose proof (in_slice _ _ E) as Hb.
  assert (len s = len pm + (2 + (len body + len r))) as Hls by (rewrite E; len_simpl; done).
  unfold segment. rewrite (proj2 (Z.eqb_neq _ _) H9), Hun. unfold saturating_sub.
  rewrite (proj2 (Z.ltb_ge _ _)) by len_lia.
  destruct (segment_word pm _ E) as (-> & _); [len_lia|]. exec_cbn.
  change (take 2 _) with (be16 (len body + 2)). rewrite from_be_bytes_be16.
  rewrite (proj2 (Z.ltb_ge _ _)) by len_lia.
  rewrite advance_eq by (unfold u16_max in *; platform_lia). exec_cbn.
  rewrite (proj2 (Z.ltb_ge _ _)) by len_lia. by rewrite (proj2 (Z.eqb_neq _ _) Ha).
Qed.

Lemma segment_scan_eq off pm comps params r saw :
  s = pm ++ be16 (2 * comps + 6) ++ comps :: params ++ r ->
  1 <= comps -> len params = 2 * comps + 3 ->
  segment s off 0xda (len pm) saw = Ok (Continue (len pm + (2 * comps + 6)) true true).
Proof.
  intros E Hc Hp. pose proof (in_slice _ _ E) as Hb.
  assert (len s = len pm + (2 + (1 + (len params + len r)))) as Hls by (rewrite E; len_simpl; done).
  assert (slice_get s (len pm + 2) = Some comps) as Hget.
  { change 2 with (len (be16 (2 * comps + 6))). rewrite <- len_app, E, app_assoc.
    apply slice_get_middle. }
  pose proof (byte_slice_get _ _ _ Hs Hget) as Hu.
  unfold segment. cbn [Z.eqb Pos.eqb unexpected_marker]. unfold saturating_sub.
  change (unexpected_marker 0xda) with false.
  rewrite (proj2 (Z.ltb_ge _ _)) by len_lia.
  destruct (segment_word pm _ E) as (-> & _); [len_lia|]. exec_cbn.
  change (take 2 _) with (be16 (2 * comps + 6)). rewrite from_be_bytes_be16.
  rewrite (proj2 (Z.ltb_ge _ _)) by lia.
  rewrite advance_eq by platform_lia. exec_cbn.
  rewrite (proj2 (Z.ltb_ge _ _)) by len_lia. rewrite (proj2 (Z.leb_le _ _)) by lia.
  unfold add_at. rewrite (proj2 (Z.leb_le _ _)) by (len_simpl; platform_lia). exec_cbn.
  rewrite (slice_index_eq _ _ _ Hget). exec_cbn. rewrite expected_length_eq by done. exec_cbn.
  by test_false ((comps =? 0) || negb (2 * comps + 6 =? comps * 2 + 6)).
Qed.

(** The first half of a turn: the marker, behind the data it skips. *)
Lemma marker_step_spec pre t (in_scan saw : bool) :
  s = pre ++ t -> jpeg_parsed in_scan saw pre -> (in_scan = true -> saw = true) ->
  exec_wp (if in_scan then scan_loop (S (length s)) s (len pre) else header_marker s (len pre) saw)
    (fun '(off, m, cursor) => exists d n r, t = d ++ marker_bytes n m ++ r /\
       (if in_scan then entropy_data d else d = []) /\ m <> 0xff /\
       (in_scan = true -> ~ scan_marker m) /\ off = len pre + len d /\
       cursor = off + len (marker_bytes n m))
    (jpeg_error s).
Proof.
  intros E Hp Hsaw. destruct in_scan.
  - rewrite (Hsaw eq_refl) in Hp.
    eapply wp_mono; [apply (scan_loop_spec _ _ t); [done..|rewrite E, length_app; lia]| |done].
    intros [[off m] cur] (d & n & r & ? & ? & ? & ? & ? & ?). by exists d, n, r.
  - eapply wp_mono; [by apply header_marker_spec| |done].
    intros [[off m] cur] (n & r & -> & Hm & -> & ->). exists [], n, r.
    split_and!; [done..|len_lia|done].
Qed.

(** What the loop accepts from a state. *)
Definition loop_accepts (in_scan saw : bool) (j : list Z) : Prop :=
  if in_scan then exists d k, j = d ++ k /\ entropy_data d /\ jpeg_rest true k
  else jpeg_rest saw j.

Lemma loop_accepts_skip in_scan saw d k :
  (in_scan = true -> saw = true) -> (if in_scan then entropy_data d else d = []) ->
  jpeg_rest saw k -> loop_accepts in_scan saw (d ++ k).
Proof using Type.
  destruct in_scan; cbn.
  - intros -> Hd Hk; [|done]. by exists d, k.
  - by intros _ -> ?.
Qed.

Lemma parsed_skip in_scan saw pre d :
  jpeg_parsed in_scan saw pre -> (if in_scan then entropy_data d else d = []) ->
  jpeg_parsed in_scan saw (pre ++ d).
Proof using Type.
  destruct in_scan; [by intros; apply parsed_data|]. intros ? ->. by rewrite app_nil_r.
Qed.

Lemma jpeg_loop_spec fuel pre t in_scan saw :
  s = pre ++ t -> jpeg_parsed in_scan saw pre -> (length t < fuel)%nat ->
  (in_scan = true -> saw = true) ->
  exec_wp (jpeg_loop fuel s (len pre) in_scan saw)
    (fun c => exists j r, t = j ++ r /\ c = len pre + len j /\ loop_accepts in_scan saw j)
    (jpeg_error s).
Proof.
  revert pre t in_scan saw.
  induction fuel as [|fuel IH]; intros pre t in_scan saw E Hpre Hf Hscan; [lia|]. cbn [jpeg_loop].
  unfold one_turn. do 2 apply wp_bind.
  eapply wp_mono; [by apply (marker_step_spec pre t)| |done].
  intros [[off m] cur] (d & n & r & -> & Hd & Hm & Hend & -> & ->).
  pose proof (parsed_skip _ _ _ _ Hpre Hd) as Hpd.
  set (pm := pre ++ d ++ marker_bytes n m).
  replace (len pre + len d + len (marker_bytes n m)) with (len pm) by (subst pm; len_lia).
  eapply wp_mono; [apply (segment_spec in_scan _ _ _ r)| |done].
  { subst pm. by rewrite E, <- !app_assoc. }
  { exists (pre ++ d), n, r. rewrite <- app_assoc. split_and!; [done..|len_lia|subst pm; len_lia]. }
  { done. }
  intros [c|c in_scan' saw'].
  - intros (-> & -> & ->). exec_cbn. exists (d ++ marker_bytes n 0xd9), r.
    rewrite <- app_assoc. split_and!; [done|subst pm; len_lia|].
    apply loop_accepts_skip; [done..|]. constructor.
  - intros (seg & r' & -> & -> & Hseg & Hkind). rewrite <- len_app.
    eapply wp_mono; [apply (IH _ r')| |done].
    { subst pm. by rewrite E, <- !app_assoc. }
    { replace (pm ++ seg) with ((pre ++ d) ++ marker_bytes n m ++ seg) by (subst pm; by app_norm).
      destruct in_scan'.
      - destruct Hkind as (-> & -> & comps & params & -> & Hc & Hp). by eapply parsed_scan.
      - destruct Hkind as (-> & Hun & H9 & Ha & body & -> & Hbody).
        apply unexpected_marker_false in Hun. by eapply parsed_segment. }
    { rewrite !length_app in Hf. unfold len in Hseg. lia. }
    { by destruct in_scan', Hkind as [-> _]. }
    intros c (j & r'' & -> & -> & Hj). exists (d ++ (marker_bytes n m ++ seg ++ j)), r''.
    rewrite <- !app_assoc. split_and!; [done|subst pm; len_lia|].
    apply loop_accepts_skip; [done..|]. destruct in_scan'; cbn in Hj.
    + destruct Hkind as (-> & -> & comps & params & -> & Hc & Hp).
      destruct Hj as (d' & k & -> & Hd' & Hk). rewrite <- !app_assoc.
      by apply (rest_scan saw n comps params d' k).
    + destruct Hkind as (-> & Hun & H9 & Ha & body & -> & Hbody).
      rewrite <- !app_assoc. apply unexpected_marker_false in Hun. by apply rest_segment.
Qed.

(** Everything the grammar allows after SOI starts with a marker that ends a
    scan. *)
Lemma jpeg_rest_marker saw j :
  jpeg_rest saw j ->
  exists n m k, j = marker_bytes n m ++ k /\ m <> 0xff /\ entropy_marker m = false.
Proof using Type.
  intros [n|saw' n m body rest Hun H9 Ha Hf _ _|saw' n c params data rest _ _ _ _].
  - exists n, 0xd9, []. by rewrite app_nil_r.
  - exists n, m, (be16 (len body + 2) ++ body ++ rest). split_and!; [done..|].
    apply unexpected_marker_false in Hun. unfold unexpected_marker, entropy_marker in *. lia.
  - by eexists n, 0xda, _.
Qed.

(** A turn inside a scan is the turn outside it, behind the scan's data. *)
Lemma one_turn_scan pre d j r :
  entropy_data d -> jpeg_rest true j -> s = pre ++ d ++ j ++ r ->
  one_turn s (len pre) true true = one_turn s (len (pre ++ d)) false true.
Proof.
  intros Hd (n & m & k & -> & Hm & He)%jpeg_rest_marker E. rewrite <- app_assoc in E.
  unfold one_turn.
  rewrite (scan_loop_eq _ pre d n m (k ++ r)) by
    (done || (rewrite E, !length_app; lia)).
  rewrite (header_marker_eq (pre ++ d) n m (k ++ r)) by (done || by rewrite <- app_assoc).
  exec_cbn. by rewrite len_app.
Qed.

Lemma jpeg_loop_eq saw j :
  jpeg_rest saw j -> forall fuel pre r, s = pre ++ j ++ r -> (length j < fuel)%nat ->
  jpeg_loop fuel s (len pre) false saw = Ok (len pre + len j).
Proof.
  induction 1 as [n|saw n m body rest Hun H9 Ha Hm Hlen Hrest IH
                 |saw n c params data rest Hc Hp Hd Hrest IH];
    intros [|fuel] pre r E Hf; [lia| |lia| |lia|]; cbn [jpeg_loop]; unfold one_turn.
  - rewrite (header_marker_eq pre n 0xd9 r) by done. exec_cbn. by rewrite <- len_app.
  - rewrite (header_marker_eq pre n m (be16 (len body + 2) ++ body ++ rest ++ r))
      by (done || by rewrite E, <- !app_assoc). exec_cbn. rewrite <- len_app.
    apply unexpected_marker_false in Hun.
    rewrite (segment_body_eq _ _ _ body (rest ++ r)) by (done || by rewrite E, <- !app_assoc).
    exec_cbn.
    replace (len (pre ++ marker_bytes n m) + (len body + 2))
      with (len (pre ++ marker_bytes n m ++ be16 (len body + 2) ++ body)) by len_lia.
    rewrite (IH _ _ r); [f_equal; len_lia|by rewrite E, <- !app_assoc|].
    rewrite !length_app in Hf. cbn in Hf. lia.
  - set (hd := be16 (2 * c + 6) ++ c :: params).
    assert (s = (pre ++ marker_bytes n 0xda) ++ hd ++ data ++ rest ++ r) as E0
      by (subst hd; rewrite E; by app_norm).
    assert (s = (pre ++ marker_bytes n 0xda ++ hd) ++ data ++ rest ++ r) as E1
      by (rewrite E0; by app_norm).
    rewrite (header_marker_eq pre n 0xda (hd ++ data ++ rest ++ r))
      by (done || by rewrite E0; app_norm). exec_cbn. rewrite <- len_app.
    rewrite (segment_scan_eq _ _ c params (data ++ rest ++ r))
      by (done || by rewrite E0; subst hd; app_norm). exec_cbn.
    replace (len (pre ++ marker_bytes n 0xda) + (2 * c + 6))
      with (len (pre ++ marker_bytes n 0xda ++ hd)) by (subst hd; len_lia).
    rewrite !length_app in Hf. cbn [length] in Hf. rewrite !length_app in Hf.
    transitivity (jpeg_loop fuel s (len ((pre ++ marker_bytes n 0xda ++ hd) ++ data)) false true).
    + destruct fuel as [|fuel]; [lia|]. cbn [jpeg_loop].
      by rewrite (one_turn_scan _ _ _ _ Hd Hrest E1).
    + rewrite (IH _ _ r); [subst hd; f_equal; len_lia|rewrite E1 at 1; by app_norm|lia].
Qed.
End pieces.

(** ** Properties *)

Section properties.
Context `{Platform}.

Lemma parse_jpeg_end_wp s :
  byte_slice s ->
  exec_wp (parse_jpeg_end s)
    (fun n => exists j r, s = j ++ r /\ n = len j /\ jpeg_image j) (jpeg_error s).
Proof.
  intros Hs. unfold parse_jpeg_end. destruct (starts_with s [0xff; 0xd8]) eqn:Hst; exec_cbn.
  2: { unfold starts_with in Hst. by reflect_bool. }
  apply starts_with_true in Hst as [t E]. change 2 with (len [0xff; 0xd8]).
  eapply wp_mono; [apply (jpeg_loop_spec s Hs _ _ t _ _ E parsed_soi); [|done]| |done].
  { rewrite E. cbn. lia. }
  intros n (j & r & -> & -> & Hj). exists ([0xff; 0xd8] ++ j), r.
  rewrite len_app. split_and!; [by app_norm|done|by exists j].
Qed.

Lemma parse_jpeg_end_image j r :
  byte_slice (j ++ r) -> jpeg_image j -> parse_jpeg_end (j ++ r) = Ok (len j).
Proof.
  intros Hs (k & -> & Hk). rewrite <- app_assoc in *. unfold parse_jpeg_end.
  rewrite (proj2 (starts_with_true _ _)) by by eexists. exec_cbn. change 2 with (len [0xff; 0xd8]).
  rewrite (jpeg_loop_eq _ Hs _ _ Hk _ _ r); [by rewrite len_app|done|].
  rewrite !length_app. lia.
Qed.

(** C31 [parse_jpeg_end] returns on every byte slice: it does not panic on an
    index, does not overflow a cursor and does not loop; an accepted end is
    within the slice, and every error is a fact of the bytes: what stands in
    front of the offset it reports parses as SOI, segments and scans, and the
    marker there, its length word or its scan header is as the error says.
    [JpegEndBeforeScan] means that no scan has been parsed, [MissingJpegEnd] that
    the whole slice parses, with a scan in it and no end, and a
    [TruncatedJpegMarker] at the end of the slice that it parses with no scan. *)
Theorem parse_jpeg_end_total s :
  byte_slice s ->
  exec_wp (parse_jpeg_end s) (fun n => 2 <= n <= len s) (jpeg_error s).
Proof.
  intros Hs. eapply wp_mono; [by apply parse_jpeg_end_wp| |done].
  intros n (j & r & -> & -> & k & -> & _). len_lia.
Qed.

(** C2 [parse_jpeg_end] implements the JPEG grammar: it returns [n] exactly
    when the first [n] bytes are a structurally complete image (SOI, marker
    segments, at least one scan whose stuffed bytes and restart markers do not
    end it, EOI). *)
Theorem parse_jpeg_end_iff s n :
  byte_slice s ->
  parse_jpeg_end s = Ok n <-> exists j r, s = j ++ r /\ n = len j /\ jpeg_image j.
Proof.
  intros Hs. split.
  - intros Hn. by apply (wp_Ok_elim _ _ _ _ (parse_jpeg_end_wp s Hs)).
  - intros (j & r & -> & -> & Hj). by apply parse_jpeg_end_image.
Qed.

(** The end of an image does not depend on what follows it: an accepted
    prefix is accepted with the same length whatever bytes (metadata, padding,
    a false EOI pair) are put behind it. *)
Theorem parse_jpeg_end_tail j r r' :
  byte_slice (j ++ r) -> byte_slice (j ++ r') ->
  parse_jpeg_end (j ++ r) = Ok (len j) -> parse_jpeg_end (j ++ r') = Ok (len j).
Proof.
  intros Hs Hs' Hj. apply (wp_Ok_elim _ _ _ _ (parse_jpeg_end_wp _ Hs)) in Hj
    as (k & q & E & Hl & Hk).
  assert (j = k) as -> by (apply (app_inj_1 _ _ _ _) in E as [-> _]; [done|];
    unfold len in Hl; lia).
  by apply parse_jpeg_end_image.
Qed.
End properties.

(** ** Witnesses *)

(** SOI, an APP1 segment that contains a false EOI pair, a one-component scan
    with a stuffed [0xff] and a restart marker, EOI. *)
Definition synthetic_jpeg : list Z :=
  [0xff; 0xd8;
   0xff; 0xe1; 0x00; 0x08; 0x11; 0xff; 0xd9; 0x22; 0x33; 0x44;
   0xff; 0xda; 0x00; 0x08; 0x01; 0x01; 0x00; 0x00; 0x3f; 0x00;
   0x10; 0xff; 0x00; 0xd9; 0x20;
   0xff; 0xd0; 0x30;
   0xff; 0xd9].

Example synthetic_jpeg_end : parse_jpeg_end synthetic_jpeg = Ok 32.
Proof. vm_compute. reflexivity. Qed.

Lemma synthetic_jpeg_image : jpeg_image synthetic_jpeg.
Proof.
  destruct (wp_Ok_elim _ _ _ _ (parse_jpeg_end_wp synthetic_jpeg
    (byte_slice_check synthetic_jpeg eq_refl)) synthetic_jpeg_end) as (j & r & E & Hl & Hj).
  assert (r = []) as ->.
  { apply nil_length_inv. apply (f_equal length) in E. rewrite length_app in E.
    change (length synthetic_jpeg) with 32%nat in E. unfold len in Hl. lia. }
  rewrite app_nil_r in E. by rewrite E.
Qed.

(** A scan header of length 2 with no component count. *)
Example empty_scan_header :
  parse_jpeg_end [0xff; 0xd8; 0xff; 0xda; 0x00; 0x02] = Err (InvalidJpegScanHeader 2 2 0).
Proof. vm_compute. reflexivity. Qed.

Lemma parse_jpeg_end_total_witness :
  byte_slice synthetic_jpeg /\ parse_jpeg_end synthetic_jpeg = Ok 32 /\
  2 <= 32 <= len synthetic_jpeg.
Proof.
  assert (byte_slice synthetic_jpeg) as Hb by by apply byte_slice_check.
  split; [exact Hb|]. split; [vm_compute; reflexivity|].
  exact (parse_jpeg_end_total synthetic_jpeg Hb).
Defined.

Lemma parse_jpeg_end_iff_witness :
  byte_slice synthetic_jpeg /\
  exists j r, synthetic_jpeg = j ++ r /\ 32 = len j /\ jpeg_image j.
Proof.
  assert (byte_slice synthetic_jpeg) as Hb by by apply byte_slice_check.
  split; [exact Hb|].
  apply (proj1 (parse_jpeg_end_iff synthetic_jpeg 32 Hb)). vm_compute. reflexivity.
Defined.

Lemma parse_jpeg_end_tail_witness :
  parse_jpeg_end (synthetic_jpeg ++ [0x00; 0xff; 0xd9; 0x7f]) = Ok 32.
Proof.
  apply (parse_jpeg_end_tail synthetic_jpeg [] [0x00; 0xff; 0xd9; 0x7f]).
  - by apply byte_slice_check.
  - by apply byte_slice_check.
  - vm_compute. reflexivity.
Defined.
