(* ===== verification/Envelope.v ===== *)
(** * Envelope: captured frame packets

    Models [align_payload_length] and [parse_frame_envelope] of
    rust/src/protocol.rs.  A frame packet is a 48-byte header, a JPEG image,
    0x5000 bytes of decoder metadata and zero padding up to a multiple of the
    endpoint's maximum packet size.

    The reference is [frame_packet], the byte layout written as a
    concatenation, with the side conditions [envelope_layout].  The parser is
    shown to accept exactly the packets of this form, to return the three
    ranges of the packet itself, and to explain every packet it rejects. *)

From S2P Require Import Prelude Text Wire JpegScan.
Import FrameParseError.

Open Scope Z_scope.

(** ** Data and operations *)

Record FrameEnvelope := {
  env_sequence : Z;
  unclassified_byte23 : Z;
  env_jpeg : list Z;
  decoder_metadata : list Z;
  env_padding : list Z;
}.

(** [s.iter().copied().enumerate().find(|(_, x)| p(x))] *)
Fixpoint enumerate_find {A} (p : A -> bool) (i : Z) (s : list A) : option (Z * A) :=
  match s with
  | [] => None
  | x :: s => if p x then Some (i, x) else enumerate_find p (i + 1) s
  end.

Section operations.
Context `{Platform}.

Definition align_payload_length (content_length max_packet_size : Z)
    : exec FrameParseError Z :=
  let remainder := content_length mod max_packet_size in
  if remainder =? 0 then Ok content_length
  else ok_or (checked_add content_length (max_packet_size - remainder)) LengthOverflow.

(** The second half of [parse_frame_envelope], behind the header checks: the
    JPEG image, the metadata and the padding. *)
Definition parse_frame_payload (packet : list Z) (max_packet_size sequence byte23 : Z)
    : exec FrameParseError FrameEnvelope :=
  let! payload := slice_from packet HEADER_SIZE in
  let! jpeg_length := parse_jpeg_end payload in
  let! jpeg_end := ok_or (checked_add HEADER_SIZE jpeg_length) LengthOverflow in
  let! decoder_end := ok_or (checked_add jpeg_end JPEG_DECODER_METADATA_SIZE) LengthOverflow in
  if len packet <? decoder_end
  then Err (TruncatedDecoderMetadata (saturating_sub (len packet) jpeg_end)
                                     JPEG_DECODER_METADATA_SIZE) else
  let! padding := slice_from packet decoder_end in
  if max_packet_size <=? len padding
  then Err (PaddingTooLong (len padding) (max_packet_size - 1)) else
  match enumerate_find (fun b => negb (b =? 0)) 0 padding with
  | Some (offset, value) => Err (NonZeroPadding offset value)
  | None =>
  let! content_length :=
    ok_or (checked_add jpeg_length JPEG_DECODER_METADATA_SIZE) LengthOverflow in
  let! expected_payload := align_payload_length content_length max_packet_size in
  let! actual_payload := ok_or (checked_sub (len packet) HEADER_SIZE) LengthOverflow in
  if negb (actual_payload =? expected_payload)
  then Err (UnalignedPayload actual_payload expected_payload max_packet_size) else
  let! jpeg := slice_range packet HEADER_SIZE jpeg_end in
  let! metadata := slice_range packet jpeg_end decoder_end in
  Ok {| env_sequence := sequence; unclassified_byte23 := byte23; env_jpeg := jpeg;
        decoder_metadata := metadata; env_padding := padding |}
  end.

Definition parse_frame_envelope (packet : list Z) (max_packet_size : Z)
    : exec FrameParseError FrameEnvelope :=
  if negb ((max_packet_size =? HIGH_SPEED_MAX_PACKET_SIZE) ||
           (max_packet_size =? SUPER_SPEED_MAX_PACKET_SIZE))
  then Err (InvalidMaxPacketSize max_packet_size) else
  if len packet <? HEADER_SIZE then Err (TooShort (len packet) HEADER_SIZE) else
  let! bad := bad_magic packet in
  if bad then Err BadMagic else
  let! declared_wire := read_u32_le packet 12 in
  let! declared := ok_or (try_from usize_max declared_wire)
                         (DeclaredLengthDoesNotFit declared_wire) in
  if negb (declared =? len packet)
  then Err (DeclaredLengthMismatch declared (len packet)) else
  let! signature := read_u32_le packet 16 in
  if negb (signature =? FRAME_SIGNATURE) then Err (InvalidSignature signature) else
  let! byte20 := slice_index packet 20 in
  let! byte21 := slice_index packet 21 in
  if negb (byte20 =? FRAME_TYPE) || negb (byte21 =? FRAME_SUBTYPE)
  then Err (InvalidFrameType byte20 byte21) else
  let! sequence := slice_index packet 22 in
  let! byte23 := slice_index packet 23 in
  parse_frame_payload packet max_packet_size sequence byte23.

End operations.

(** ** Reference layout *)

(** The packet that carries an envelope; bytes 24 to 47 are not interpreted. *)
Definition frame_packet (e : FrameEnvelope) (reserved : list Z) : list Z :=
  let payload := env_jpeg e ++ decoder_metadata e ++ env_padding e in
  wire (HEADER_SIZE + len payload) FRAME_SIGNATURE
    ([FRAME_TYPE; FRAME_SUBTYPE; env_sequence e; unclassified_byte23 e] ++ reserved ++ payload).

(** What makes an envelope well formed for a maximum packet size. *)
Definition envelope_layout (mps : Z) (e : FrameEnvelope) : Prop :=
  jpeg_image (env_jpeg e) /\
  len (decoder_metadata e) = JPEG_DECODER_METADATA_SIZE /\
  Forall (eq 0) (env_padding e) /\
  len (env_padding e) < mps /\
  (len (env_jpeg e) + JPEG_DECODER_METADATA_SIZE + len (env_padding e)) mod mps = 0.

Definition supported_mps (mps : Z) : Prop := mps = 512 \/ mps = 1024.

(** What an error found behind the header says about the packet. *)
Definition payload_error (p : list Z) (mps : Z) (e : FrameParseError) : Prop :=
  match e with
  | TruncatedDecoderMetadata actual expected =>
      exists jpeg rest, drop 48 p = jpeg ++ rest /\ jpeg_image jpeg /\
        actual = len rest /\ expected = 0x5000 /\ actual < expected
  | PaddingTooLong actual maximum =>
      exists jpeg metadata padding, drop 48 p = jpeg ++ metadata ++ padding /\
        jpeg_image jpeg /\ len metadata = 0x5000 /\
        actual = len padding /\ maximum = mps - 1 /\ maximum < actual
  | NonZeroPadding offset value =>
      exists jpeg metadata padding rest,
        drop 48 p = jpeg ++ metadata ++ padding ++ value :: rest /\
        jpeg_image jpeg /\ len metadata = 0x5000 /\
        Forall (eq 0) padding /\ offset = len padding /\ value <> 0 /\
        len padding + 1 + len rest < mps
  | UnalignedPayload actual expected m =>
      exists jpeg metadata padding, drop 48 p = jpeg ++ metadata ++ padding /\
        jpeg_image jpeg /\ len metadata = 0x5000 /\
        Forall (eq 0) padding /\ len padding < mps /\
        actual = len p - 48 /\ m = mps /\ actual mod mps <> 0 /\
        expected mod mps = 0 /\ len jpeg + 0x5000 <= expected < len jpeg + 0x5000 + mps
  | DeclaredLengthDoesNotFit _ | LengthOverflow => False
  | _ => jpeg_error (drop 48 p) e
  end.

(** The checks in front of the image, in the order of the code. *)
Definition frame_header (p : list Z) : Prop :=
  48 <= len p /\ take 12 p = WIRE_MAGIC /\ word_at p 12 = len p /\
  word_at p 16 = FRAME_SIGNATURE /\
  slice_get p 20 = Some FRAME_TYPE /\ slice_get p 21 = Some FRAME_SUBTYPE.

(** What each error says about the packet: the check it names fails, and the
    checks in front of that one hold. *)
Definition frame_error (p : list Z) (mps : Z) (e : FrameParseError) : Prop :=
  match e with
  | InvalidMaxPacketSize actual => actual = mps /\ ~ supported_mps mps
  | TooShort actual minimum =>
      supported_mps mps /\ actual = len p /\ minimum = 48 /\ len p < 48
  | BadMagic => supported_mps mps /\ 48 <= len p /\ take 12 p <> WIRE_MAGIC
  | DeclaredLengthMismatch declared actual =>
      supported_mps mps /\ 48 <= len p /\ take 12 p = WIRE_MAGIC /\
      declared = word_at p 12 /\ actual = len p /\ declared <> actual
  | InvalidSignature actual =>
      supported_mps mps /\ 48 <= len p /\ take 12 p = WIRE_MAGIC /\ word_at p 12 = len p /\
      actual = word_at p 16 /\ actual <> FRAME_SIGNATURE
  | InvalidFrameType b20 b21 =>
      supported_mps mps /\ 48 <= len p /\ take 12 p = WIRE_MAGIC /\ word_at p 12 = len p /\
      word_at p 16 = FRAME_SIGNATURE /\ slice_get p 20 = Some b20 /\ slice_get p 21 = Some b21 /\
      (b20 <> FRAME_TYPE \/ b21 <> FRAME_SUBTYPE)
  | _ => supported_mps mps /\ frame_header p /\ payload_error p mps e
  end.

Lemma payload_frame_error p mps e :
  supported_mps mps -> frame_header p -> payload_error p mps e -> frame_error p mps e.
Proof. by destruct e. Qed.

(** ** Lemmas *)

Lemma enumerate_find_Some {A} (p : A -> bool) i (l : list A) j x :
  enumerate_find p i l = Some (j, x) ->
  exists pre post, l = pre ++ x :: post /\ j = i + len pre /\ p x = true /\
    Forall (fun y => p y = false) pre.
Proof.
  revert i. induction l as [|y l IH]; intros i; cbn [enumerate_find]; [done|].
  destruct (p y) eqn:Hy.
  - intros [= <- <-]. exists [], l. split_and!; [done|len_lia|done..].
  - intros (pre & post & -> & -> & Hx & Hp)%IH. exists (y :: pre), post.
    split_and!; [done|len_lia|done|by constructor].
Qed.

Lemma enumerate_find_None {A} (p : A -> bool) i (l : list A) :
  enumerate_find p i l = None <-> Forall (fun y => p y = false) l.
Proof.
  revert i. induction l as [|y l IH]; intros i; cbn [enumerate_find]; [done|].
  destruct (p y) eqn:Hy.
  - split; [done|]. intros [? _]%Forall_cons_1. congruence.
  - rewrite IH. split; [by constructor|]. by intros [_ ?]%Forall_cons_1.
Qed.

Lemma zero_padding l : Forall (fun b => negb (b =? 0) = false) l <-> Forall (eq 0) l.
Proof. split; apply Forall_weaken; intros x ?; reflect_bool; [lia|]. subst. done. Qed.

(** A window of [m] consecutive integers holds one multiple of [m]. *)
Lemma multiple_unique m c a b :
  0 < m -> a mod m = 0 -> b mod m = 0 -> c <= a < c + m -> c <= b < c + m -> a = b.
Proof.
  intros Hm Ha Hb ? ?. pose proof (Z.div_mod a m ltac:(lia)) as Ea.
  pose proof (Z.div_mod b m ltac:(lia)) as Eb. rewrite Ha in Ea. rewrite Hb in Eb.
  assert (a / m = b / m) as Eq; [|by rewrite Ea, Eb, Eq].
  set (x := a / m) in *. set (y := b / m) in *. clearbody x y. subst a b. nia.
Qed.

Section alignment.
Context `{Platform}.

Lemma align_payload_length_wp c mps :
  in_width usize_max c -> 0 < mps ->
  exec_wp (align_payload_length c mps)
    (fun a => a mod mps = 0 /\ c <= a < c + mps /\ a <= usize_max)
    (fun e => e = LengthOverflow /\ forall a, c <= a -> a mod mps = 0 -> usize_max < a).
Proof.
  intros [H0 H1] Hm. unfold align_payload_length.
  pose proof (Z.mod_pos_bound c mps Hm) as Hr. pose proof (Z.div_mod c mps ltac:(lia)) as Hd.
  case_test as Hz; exec_cbn; [lia|].
  assert ((c + (mps - c mod mps)) mod mps = 0) as Hmod.
  { replace (c + (mps - c mod mps)) with ((c / mps + 1) * mps) by lia. apply Z.mod_mul. lia. }
  unfold checked_add. case_test as Hle; exec_cbn; [lia|]. split; [done|].
  intros a Ha Ham. pose proof (Z.div_mod a mps ltac:(lia)) as Ea. rewrite Ham in Ea.
  set (x := a / mps) in *. set (y := c / mps) in *. assert (y + 1 <= x) by nia. nia.
Qed.

Lemma align_payload_length_eq c mps a :
  in_width usize_max c -> 0 < mps -> a mod mps = 0 -> c <= a < c + mps -> a <= usize_max ->
  align_payload_length c mps = Ok a.
Proof.
  intros Hc Hm Ha Hw Hmax. pose proof (align_payload_length_wp c mps Hc Hm) as W.
  destruct (align_payload_length c mps) as [b|e| |]; cbn in W; try done.
  - f_equal. by apply (multiple_unique mps c b a); [|lia..|].
  - destruct W as [_ W]. specialize (W a). lia.
Qed.
End alignment.

(** ** The payload *)

Section payload.
Context `{Platform}.
Context (p : list Z) (Hp : byte_slice p) (Hlen : 48 <= len p).
Context (mps : Z) (Hmps : supported_mps mps).

Lemma mps_pos : 0 < mps <= 1024.
Proof using Hmps. destruct Hmps; lia. Qed.

(** The packet split at the end of its header. *)
Lemma payload_split t : drop 48 p = t -> exists hd, p = hd ++ t /\ len hd = 48.
Proof using Hlen.
  intros <-. exists (take 48 p). rewrite take_drop. split; [done|].
  change 48%nat with (Z.to_nat 48). by apply len_take; lia.
Qed.

(** From the padding on, with the image and the metadata located. *)
Lemma padding_wp hd jpeg metadata padding sequence byte23 :
  p = hd ++ jpeg ++ metadata ++ padding -> len hd = 48 ->
  jpeg_image jpeg -> len metadata = JPEG_DECODER_METADATA_SIZE ->
  exec_wp
    (if mps <=? len padding then Err (PaddingTooLong (len padding) (mps - 1)) else
     match enumerate_find (fun b => negb (b =? 0)) 0 padding with
     | Some (offset, value) => Err (NonZeroPadding offset value)
     | None =>
       let! content_length :=
         ok_or (checked_add (len jpeg) JPEG_DECODER_METADATA_SIZE) LengthOverflow in
       let! expected_payload := align_payload_length content_length mps in
       let! actual_payload := ok_or (checked_sub (len p) 48) LengthOverflow in
       if negb (actual_payload =? expected_payload)
       then Err (UnalignedPayload actual_payload expected_payload mps) else
       let! j := slice_range p 48 (48 + len jpeg) in
       let! m := slice_range p (48 + len jpeg)
                   (48 + len jpeg + JPEG_DECODER_METADATA_SIZE) in
       Ok {| env_sequence := sequence; unclassified_byte23 := byte23; env_jpeg := j;
             decoder_metadata := m; env_padding := padding |}
     end)
    (fun e => e = {| env_sequence := sequence; unclassified_byte23 := byte23; env_jpeg := jpeg;
                     decoder_metadata := metadata; env_padding := padding |} /\
       envelope_layout mps e)
    (payload_error p mps).
Proof using Hp Hlen Hmps.
  intros E Hh Hj Hm. pose proof (byte_slice_len p Hp) as Hmax. pose proof mps_pos as Hpos.
  assert (drop 48 p = jpeg ++ metadata ++ padding) as Hd
    by (rewrite E; apply drop_app_length'; unfold len in Hh; lia).
  assert (len p = 48 + (len jpeg + (JPEG_DECODER_METADATA_SIZE + len padding))) as Hl
    by (rewrite E; len_simpl; lia).
  pose proof (len_nonneg jpeg). pose proof (len_nonneg padding).
  unfold JPEG_DECODER_METADATA_SIZE in *. case_test as Hlong; exec_cbn.
  { exists jpeg, metadata, padding. split_and!; (done || lia). }
  destruct (enumerate_find _ 0 padding) as [[off v]|] eqn:Hf; exec_cbn.
  { apply enumerate_find_Some in Hf as (pre & post & -> & -> & Hv & Hz). reflect_bool.
    exists jpeg, metadata, pre, post. split_and!; [done..|by apply zero_padding|lia|done|len_simpl; len_lia]. }
  apply enumerate_find_None, zero_padding in Hf.
  unfold checked_add. rewrite (proj2 (Z.leb_le _ _)) by platform_lia. exec_cbn.
  apply wp_bind. eapply wp_mono; [apply align_payload_length_wp; [platform_lia|lia]| |].
  2: { intros e [_ Hov]. exfalso.
       set (c := len jpeg + 20480) in *. specialize (Hov (c + (mps - c mod mps))).
       pose proof (Z.mod_pos_bound c mps ltac:(lia)). pose proof (Z.div_mod c mps ltac:(lia)).
       assert ((c + (mps - c mod mps)) mod mps = 0).
       { replace (c + (mps - c mod mps)) with ((c / mps + 1) * mps) by lia.
         apply Z.mod_mul. lia. }
       subst c. platform_lia. }
  intros a (Ha & Hw & _). unfold checked_sub. test_true (48 <=? len p). exec_cbn.
  case_test as Hal; exec_cbn.
  { exists jpeg, metadata, padding. split_and!; [done..|lia|done| |done|lia|lia]. intros Hbad. apply Hal.
    apply (multiple_unique mps (len jpeg + 20480)); (done || lia). }
  do 2 (rewrite slice_range_eq by lia; exec_cbn).
  replace (subslice p 48 _) with jpeg by (symmetry; rewrite E; apply subslice_app; lia).
  replace (subslice p _ _) with metadata
    by (symmetry; rewrite E, app_assoc; apply subslice_app; len_lia).
  split; [done|]. split_and!; cbn [env_jpeg env_padding decoder_metadata]; [done..|].
  rewrite <- Ha. f_equal. unfold JPEG_DECODER_METADATA_SIZE. lia.
Qed.

Lemma payload_wp sequence byte23 :
  exec_wp (parse_frame_payload p mps sequence byte23)
    (fun e => drop 48 p = env_jpeg e ++ decoder_metadata e ++ env_padding e /\
       env_sequence e = sequence /\ unclassified_byte23 e = byte23 /\ envelope_layout mps e)
    (payload_error p mps).
Proof using Hp Hlen Hmps.
  pose proof (byte_slice_len p Hp) as Hmax. unfold parse_frame_payload, HEADER_SIZE.
  rewrite slice_from_eq by lia. exec_cbn. change (Z.to_nat 48) with 48%nat.
  apply wp_bind. eapply wp_mono; [by apply parse_jpeg_end_wp, byte_slice_drop| |].
  2: { intros e. by destruct e. }
  intros n (jpeg & rest & Hd & -> & Hj). destruct (payload_split _ Hd) as (hd & E & Hh).
  assert (len p = 48 + (len jpeg + len rest)) as Hl by (rewrite E; len_simpl; lia).
  pose proof (len_nonneg jpeg). pose proof (len_nonneg rest).
  unfold checked_add at 1 2. unfold JPEG_DECODER_METADATA_SIZE at 1 2 3.
  rewrite (proj2 (Z.leb_le _ _)) by platform_lia. exec_cbn.
  rewrite (proj2 (Z.leb_le _ _)) by platform_lia. exec_cbn.
  case_test as Hshort; exec_cbn.
  { exists jpeg, rest. unfold saturating_sub. split_and!; (done || lia). }
  rewrite slice_from_eq by lia. exec_cbn.
  pose proof (take_drop (Z.to_nat 20480) rest) as Hsplit.
  set (metadata := take (Z.to_nat 20480) rest) in *.
  set (padding := drop (Z.to_nat 20480) rest) in *.
  assert (len metadata = 20480) as Hm by (apply len_take; lia).
  replace (drop (Z.to_nat (48 + len jpeg + 20480)) p) with padding.
  2: { rewrite E, <- Hsplit, !app_assoc. symmetry. apply drop_app_length'.
       rewrite !length_app. unfold len in *. lia. }
  rewrite <- Hsplit in E, Hd.
  eapply wp_mono; [apply (padding_wp hd jpeg metadata padding sequence byte23 E Hh Hj Hm)| |done].
  intros e [-> Hlay]. by rewrite Hd.
Qed.

(** A payload of the layout is parsed into its parts. *)
Lemma payload_eq hd e :
  p = hd ++ env_jpeg e ++ decoder_metadata e ++ env_padding e -> len hd = 48 ->
  envelope_layout mps e ->
  parse_frame_payload p mps (env_sequence e) (unclassified_byte23 e) = Ok e.
Proof using Hp Hlen Hmps.
  intros E Hh (Hj & Hm & Hz & Hshort & Hal). destruct e as [sq b23 jpeg metadata padding].
  cbn [env_jpeg decoder_metadata env_padding env_sequence unclassified_byte23] in *.
  pose proof (byte_slice_len p Hp) as Hmax. pose proof mps_pos.
  unfold JPEG_DECODER_METADATA_SIZE in *.
  assert (len p = 48 + (len jpeg + (20480 + len padding))) as Hl by (rewrite E; len_simpl; lia).
  pose proof (len_nonneg jpeg). pose proof (len_nonneg padding).
  assert (drop 48 p = jpeg ++ metadata ++ padding) as Hd
    by (rewrite E; apply drop_app_length'; unfold len in Hh; lia).
  unfold parse_frame_payload, HEADER_SIZE, JPEG_DECODER_METADATA_SIZE.
  rewrite slice_from_eq by lia. exec_cbn. change (Z.to_nat 48) with 48%nat. rewrite Hd.
  rewrite parse_jpeg_end_image by (done || (rewrite <- Hd; by apply byte_slice_drop)). exec_cbn.
  unfold checked_add. do 2 (rewrite (proj2 (Z.leb_le _ _)) by platform_lia; exec_cbn).
  rewrite (proj2 (Z.ltb_ge _ _)) by lia. rewrite slice_from_eq by lia. exec_cbn.
  replace (drop _ p) with padding.
  2: { rewrite E, !app_assoc. symmetry. apply drop_app_length'.
       rewrite !length_app. unfold len in *. lia. }
  rewrite (proj2 (Z.leb_gt _ _)) by done.
  rewrite (proj2 (enumerate_find_None _ _ _)) by by apply zero_padding.
  rewrite (proj2 (Z.leb_le _ _)) by platform_lia. exec_cbn.
  rewrite (align_payload_length_eq _ _ (len p - 48)); [|platform_lia|lia| |lia|platform_lia].
  2: { rewrite <- Hal. f_equal. lia. }
  exec_cbn. unfold checked_sub. rewrite (proj2 (Z.leb_le _ _)) by lia. exec_cbn.
  rewrite Z.eqb_refl. exec_cbn. do 2 (rewrite slice_range_eq by lia; exec_cbn).
  rewrite E, subslice_app by lia. do 2 f_equal. rewrite app_assoc. apply subslice_app; len_lia.
Qed.
End payload.

(** ** The header *)

Section header.
Context `{Platform}.

Lemma frame_header_split p :
  Forall (in_width u8_max) p -> 48 <= len p -> take 12 p = WIRE_MAGIC ->
  p = wire (word_at p 12) (word_at p 16)
        ([p !!! 20%nat; p !!! 21%nat; p !!! 22%nat; p !!! 23%nat] ++
         subslice p 24 48 ++ drop 48 p).
Proof.
  intros Hb Hl Hm. rewrite (wire_of_packet p) at 1 by (done || lia). f_equal.
  assert (forall i, (i < 48)%nat -> drop i p = p !!! i :: drop (S i) p) as Hstep.
  { intros i Hi. apply drop_S, list_lookup_lookup_total_lt. unfold len in Hl. lia. }
  rewrite (Hstep 20%nat), (Hstep 21%nat), (Hstep 22%nat), (Hstep 23%nat) by lia.
  cbn [app]. do 4 f_equal.
  rewrite <- (take_drop 24 (drop 24 p)) at 1. by rewrite drop_drop.
Qed.

Lemma envelope_wp p mps :
  byte_slice p ->
  exec_wp (parse_frame_envelope p mps)
    (fun e => supported_mps mps /\ envelope_layout mps e /\
       exists reserved, len reserved = 24 /\ p = frame_packet e reserved /\ len p <= u32_max)
    (frame_error p mps).
Proof.
  intros Hp. pose proof (byte_slice_len p Hp) as Hmax.
  unfold parse_frame_envelope, HIGH_SPEED_MAX_PACKET_SIZE, SUPER_SPEED_MAX_PACKET_SIZE, HEADER_SIZE.
  case_test; exec_cbn; [split; [done|]; unfold supported_mps; lia|].
  assert (supported_mps mps) as Hmps by (unfold supported_mps; lia).
  case_test as Hlen; exec_cbn; [done|]. rewrite bad_magic_eq by lia. exec_cbn.
  case_bool_decide as Hm; exec_cbn; [|done]. rewrite read_u32_le_eq by lia. exec_cbn.
  pose proof (word_at_u32 p 12 Hp ltac:(lia) ltac:(lia)) as Hw.
  unfold try_from. rewrite (proj2 (Z.leb_le _ _)) by platform_lia. exec_cbn.
  case_test as Hdecl; exec_cbn; [done|]. rewrite read_u32_le_eq by lia. exec_cbn.
  case_test as Hsig; exec_cbn; [done|].
  rewrite !slice_index_total by lia. exec_cbn.
  change (Z.to_nat 20) with 20%nat. change (Z.to_nat 21) with 21%nat.
  change (Z.to_nat 22) with 22%nat. change (Z.to_nat 23) with 23%nat.
  assert (forall i, (i < 48)%nat -> slice_get p (Z.of_nat i) = Some (p !!! i)) as Hget.
  { intros i Hi. apply slice_get_Some. rewrite Nat2Z.id. split; [lia|].
    apply list_lookup_lookup_total_lt. unfold len in Hlen. lia. }
  case_test as Hty; exec_cbn.
  { split_and!; [done..|apply (Hget 20%nat); lia|apply (Hget 21%nat); lia|].
    apply orb_true_iff in Hty as [?|?]; reflect_bool; auto. }
  apply orb_false_iff in Hty as [H20 H21]. reflect_bool.
  assert (frame_header p).
  { split_and!; [done..| |].
    - rewrite <- H20. apply (Hget 20%nat). lia.
    - rewrite <- H21. apply (Hget 21%nat). lia. }
  eapply wp_mono; [by apply payload_wp| |intros e; by apply payload_frame_error].
  intros e (Hd & Hseq & Hb23 & Hlay). split_and!; [done..|].
  exists (subslice p 24 48). split_and!; [by apply len_subslice; lia| |rewrite <- Hdecl; apply Hw].
  rewrite (frame_header_split p) at 1 by (apply Hp || done || lia).
  unfold frame_packet. reflect_bool. cbn zeta.
  rewrite Hseq, Hb23, <- Hd, Hdecl, Hsig. f_equal; [|congruence].
  unfold HEADER_SIZE. change 48%nat with (Z.to_nat 48). rewrite len_drop; lia.
Qed.

Lemma len_frame_packet e reserved :
  len reserved = 24 ->
  len (frame_packet e reserved) =
    HEADER_SIZE + (len (env_jpeg e) + (len (decoder_metadata e) + len (env_padding e))).
Proof. intros. unfold frame_packet, HEADER_SIZE. len_lia. Qed.

Lemma envelope_eq e reserved mps :
  let p := frame_packet e reserved in
  byte_slice p -> len p <= u32_max -> len reserved = 24 ->
  supported_mps mps -> envelope_layout mps e ->
  parse_frame_envelope p mps = Ok e.
Proof.
  intros p Hp H32 Hr Hmps Hlay. pose proof (byte_slice_len p Hp) as Hmax.
  pose proof (len_frame_packet e reserved Hr) as Hl. fold p in Hl. unfold HEADER_SIZE in Hl.
  assert (48 <= len p) as Hlen by len_lia.
  assert (word_at p 12 = len p) as H12.
  { subst p. unfold frame_packet at 1. rewrite word12_wire, Z.mod_small.
    - rewrite Hl. unfold HEADER_SIZE. len_lia.
    - unfold HEADER_SIZE. unfold u32_max in H32. len_lia. }
  assert (word_at p 16 = FRAME_SIGNATURE) as H16 by (unfold p, frame_packet; by rewrite word16_wire).
  assert (forall i x, 20 <= i -> slice_get ([FRAME_TYPE; FRAME_SUBTYPE; env_sequence e;
    unclassified_byte23 e] ++ reserved ++ env_jpeg e ++ decoder_metadata e ++ env_padding e)
    (i - 20) = Some x -> slice_index (E := FrameParseError) p i = Ok x) as Hget.
  { intros i x Hi Hx. apply slice_index_eq. unfold p, frame_packet. by rewrite slice_get_wire. }
  unfold parse_frame_envelope, HIGH_SPEED_MAX_PACKET_SIZE, SUPER_SPEED_MAX_PACKET_SIZE, HEADER_SIZE.
  replace (_ || _) with true by (symmetry; unfold supported_mps in Hmps; lia). exec_cbn.
  rewrite (proj2 (Z.ltb_ge _ _)) by done. rewrite bad_magic_eq by lia. exec_cbn.
  rewrite bool_decide_true by apply take_wire. exec_cbn.
  rewrite read_u32_le_eq by lia. exec_cbn. rewrite H12. unfold try_from.
  rewrite (proj2 (Z.leb_le _ _)) by platform_lia. exec_cbn. rewrite Z.eqb_refl. exec_cbn.
  rewrite read_u32_le_eq by lia. exec_cbn. rewrite H16. cbn [Z.eqb Pos.eqb FRAME_SIGNATURE negb].
  rewrite (Hget 20 FRAME_TYPE), (Hget 21 FRAME_SUBTYPE) by done. exec_cbn.
  rewrite !Z.eqb_refl. exec_cbn.
  rewrite (Hget 22 (env_sequence e)), (Hget 23 (unclassified_byte23 e)) by done. exec_cbn.
  set (hd := take 48 p). apply (payload_eq p Hp Hlen mps Hmps hd e); [|apply (len_take p 48); lia|done].
  rewrite <- (take_drop 48 p) at 1. f_equal. subst p. unfold frame_packet.
  change 48%nat with (20 + (4 + 24))%nat. rewrite <- drop_drop, drop_wire.
  rewrite app_assoc. apply drop_app_length'. rewrite length_app. unfold len in Hr. cbn. lia.
Qed.
End header.

(** ** Properties *)

Section properties.
Context `{Platform}.

(** C30 [parse_frame_envelope] returns on every byte slice and every packet
    size, without a panic and without one of its overflow errors; each
    rejection is explained by the packet: the error's fields are the packet's
    own lengths, words and bytes, the check it names does fail and the checks in
    front of it hold.  An error of the image says which part of the image had
    been parsed when it was found, [MissingJpegEnd] and [JpegEndBeforeScan]
    included. *)
Theorem parse_frame_envelope_total p mps :
  byte_slice p ->
  exec_wp (parse_frame_envelope p mps) (fun e => envelope_layout mps e) (frame_error p mps).
Proof.
  intros Hp. eapply wp_mono; [by apply envelope_wp| |done]. by intros e (_ & ? & _).
Qed.

(** C1 [parse_frame_envelope] accepts exactly the frame packets: it returns an
    envelope if and only if the packet is that envelope's byte layout (header,
    image, 0x5000 bytes of metadata, fewer than one packet of zero padding,
    payload a multiple of the packet size, length word equal to the packet's
    length), so the three ranges it hands out cover the packet behind the
    header without gap or overlap. *)
Theorem parse_frame_envelope_iff p mps e :
  byte_slice p ->
  parse_frame_envelope p mps = Ok e <->
  supported_mps mps /\ envelope_layout mps e /\
  exists reserved, len reserved = 24 /\ p = frame_packet e reserved /\ len p <= u32_max.
Proof.
  intros Hp. split.
  - intros He. by apply (wp_Ok_elim _ _ _ _ (envelope_wp p mps Hp)).
  - intros (Hmps & Hlay & reserved & Hr & -> & H32). by apply envelope_eq.
Qed.

(** [align_payload_length] rounds a length up to the next multiple of the
    packet size, by less than one packet, and fails only when no multiple from
    the length on is representable. *)
Theorem align_payload_length_correct c mps :
  in_width usize_max c -> 0 < mps ->
  exec_wp (align_payload_length c mps)
    (fun a => a mod mps = 0 /\ c <= a < c + mps /\ a <= usize_max)
    (fun e => e = LengthOverflow /\ forall a, c <= a -> a mod mps = 0 -> usize_max < a).
Proof. apply align_payload_length_wp. Qed.
End properties.

(** ** Witnesses *)

(** A high-speed frame: sequence 0x89, the synthetic image, metadata of 0xa5
    bytes and 480 bytes of padding. *)
Definition sample_envelope : FrameEnvelope :=
  {| env_sequence := 0x89; unclassified_byte23 := 0; env_jpeg := synthetic_jpeg;
     decoder_metadata := replicate (Z.to_nat 0x5000) 0xa5;
     env_padding := replicate 480 0 |}.

Definition sample_frame : list Z := frame_packet sample_envelope (replicate 24 0).

Lemma sample_frame_bytes : byte_slice sample_frame.
Proof. apply byte_slice_check. vm_compute. reflexivity. Qed.

Lemma sample_envelope_layout : envelope_layout 512 sample_envelope.
Proof.
  split_and!; cbn [env_jpeg decoder_metadata env_padding sample_envelope].
  - apply synthetic_jpeg_image.
  - rewrite len_replicate. unfold JPEG_DECODER_METADATA_SIZE. lia.
  - by apply Forall_replicate.
  - rewrite len_replicate. lia.
  - rewrite len_replicate. reflexivity.
Qed.

Lemma parse_frame_envelope_iff_witness :
  byte_slice sample_frame /\ parse_frame_envelope sample_frame 512 = Ok sample_envelope.
Proof.
  split; [exact sample_frame_bytes|].
  apply (proj2 (parse_frame_envelope_iff sample_frame 512 sample_envelope sample_frame_bytes)).
  split; [left; reflexivity|]. split; [exact sample_envelope_layout|].
  exists (replicate 24 0). split; [reflexivity|]. split; [reflexivity|].
  unfold sample_frame. rewrite len_frame_packet by reflexivity.
  cbn [env_jpeg decoder_metadata env_padding sample_envelope].
  rewrite !len_replicate. vm_compute. discriminate.
Defined.

Lemma parse_frame_envelope_total_witness :
  byte_slice sample_frame /\
  exec_wp (parse_frame_envelope sample_frame 64) (fun e => envelope_layout 64 e)
    (frame_error sample_frame 64) /\
  parse_frame_envelope sample_frame 64 = Err (InvalidMaxPacketSize 64).
Proof.
  split; [exact sample_frame_bytes|]. split; [|reflexivity].
  exact (parse_frame_envelope_total sample_frame 64 sample_frame_bytes).
Defined.

Lemma align_payload_length_correct_witness :
  exec_wp (align_payload_length 20512 512)
    (fun a => a mod 512 = 0 /\ 20512 <= a < 20512 + 512 /\ a <= usize_max)
    (fun e => e = LengthOverflow /\ forall a, 20512 <= a -> a mod 512 = 0 -> usize_max < a) /\
  align_payload_length 20512 512 = Ok 20992.
Proof.
  split; [|vm_compute; reflexivity].
  apply (align_payload_length_correct 20512 512); [vm_compute; split; discriminate | lia].
Defined.
