(* ===== verification/Modes.v ===== *)
(** * Modes: the display mode table of an SM768 response

    Models [parse_observed_modes] of rust/src/protocol.rs: up to 256 rows of 16
    bytes from offset 48, read until a zero row, an implausible row or the end
    of the packet.  The reference is the relation [mode_table] between the bytes
    of a table and the modes it lists. *)

From S2P Require Import Prelude Text Wire.

Open Scope Z_scope.

Record Mode := {
  width : Z;
  height : Z;
  refresh_hz : Z;
  bits_per_pixel : Z;
}.

#[export] Instance Mode_eq_dec : EqDecision Mode.
Proof. solve_decision. Defined.

Definition zero_mode : Mode :=
  {| width := 0; height := 0; refresh_hz := 0; bits_per_pixel := 0 |}.

Definition plausible (mode : Mode) : bool :=
  ((320 <=? width mode) && (width mode <=? 16384)) &&
  ((200 <=? height mode) && (height mode <=? 16384)) &&
  ((1 <=? refresh_hz mode) && (refresh_hz mode <=? 1000)) &&
  ((bits_per_pixel mode =? 8) || (bits_per_pixel mode =? 16) || (bits_per_pixel mode =? 24) ||
   (bits_per_pixel mode =? 30) || (bits_per_pixel mode =? 32)).

Section operations.
Context `{Platform}.

(** The body of the row loop, with its two [break]s. *)
Fixpoint mode_rows (modes : list Mode) (rows : list (list Z)) : exec ParseError (list Mode) :=
  match rows with
  | [] => Ok modes
  | row :: rows =>
      let! w := read_u32_le row 0 in
      let! h := read_u32_le row 4 in
      let! r := read_u32_le row 8 in
      let! b := read_u32_le row 12 in
      let mode := {| width := w; height := h; refresh_hz := r; bits_per_pixel := b |} in
      if bool_decide (mode = zero_mode) then Ok modes else
      if negb (plausible mode) then Ok modes else
      mode_rows (modes ++ [mode]) rows
  end.

Definition parse_observed_modes (packet : list Z) : exec ParseError (list Mode) :=
  let! _ := parse_header packet in
  if len packet <? HEADER_SIZE then Err (ParseError.TooShort (len packet) HEADER_SIZE) else
  let! rows := slice_from packet HEADER_SIZE in
  mode_rows [] (take 256 (chunks_exact 16 rows)).

End operations.

(** ** Reference *)

(** A mode as a table row. *)
Definition encode_mode (m : Mode) : list Z :=
  to_le_bytes 4 (width m) ++ to_le_bytes 4 (height m) ++
  to_le_bytes 4 (refresh_hz m) ++ to_le_bytes 4 (bits_per_pixel m).

Definition mode_u32 (m : Mode) : Prop :=
  in_width u32_max (width m) /\ in_width u32_max (height m) /\
  in_width u32_max (refresh_hz m) /\ in_width u32_max (bits_per_pixel m).

(** A mode a display of this kind can list. *)
Definition plausible_mode (m : Mode) : Prop :=
  320 <= width m <= 16384 /\ 200 <= height m <= 16384 /\ 1 <= refresh_hz m <= 1000 /\
  In (bits_per_pixel m) [8; 16; 24; 30; 32].

(** [mode_table n s ms]: of at most [n] rows of [s], the modes listed are [ms]:
    the table ends with the limit, with fewer than 16 bytes, or with a row that
    is not plausible. *)
Inductive mode_table : nat -> list Z -> list Mode -> Prop :=
| table_limit s : mode_table 0 s []
| table_end n s : len s < 16 -> mode_table n s []
| table_stop n m s :
    mode_u32 m -> ~ plausible_mode m -> mode_table (S n) (encode_mode m ++ s) []
| table_row n m s ms :
    mode_u32 m -> plausible_mode m -> mode_table n s ms ->
    mode_table (S n) (encode_mode m ++ s) (m :: ms).

(** ** Lemmas *)

Lemma length_encode_mode m : length (encode_mode m) = 16%nat.
Proof. unfold encode_mode. by rewrite !length_app, !length_to_le_bytes. Qed.

Lemma plausible_spec m : reflect (plausible_mode m) (plausible m).
Proof.
  apply iff_reflect. unfold plausible, plausible_mode. cbn [In].
  rewrite !andb_true_iff, !orb_true_iff, !Z.leb_le, !Z.eqb_eq. intuition.
Qed.

(** Reading a row back. *)
Lemma word_at_encode_mode m :
  mode_u32 m ->
  word_at (encode_mode m) 0 = width m /\ word_at (encode_mode m) 4 = height m /\
  word_at (encode_mode m) 8 = refresh_hz m /\ word_at (encode_mode m) 12 = bits_per_pixel m.
Proof.
  intros (Hw & Hh & Hr & Hb). unfold in_width, u32_max in *.
  assert (forall l k v, length l = k -> 0 <= v <= 4294967295 -> forall r,
    word_at (l ++ to_le_bytes 4 v ++ r) (Z.of_nat k) = v) as Hword.
  { intros l k v Hl Hv r. unfold word_at. rewrite subslice_app.
    - apply from_to_le_bytes_small. lia.
    - unfold len. lia.
    - unfold len. rewrite length_to_le_bytes. lia. }
  unfold encode_mode. split_and!.
  - by apply (Hword [] 0%nat).
  - by apply (Hword (to_le_bytes 4 (width m)) 4%nat).
  - rewrite app_assoc. by apply (Hword _ 8%nat).
  - rewrite <- (app_nil_r (to_le_bytes 4 (bits_per_pixel m))), !app_assoc, <- app_assoc.
    by apply (Hword _ 12%nat).
Qed.

(** Every row of bytes is a mode. *)
Lemma encode_mode_surj row :
  Forall (in_width u8_max) row -> length row = 16%nat ->
  exists m, row = encode_mode m /\ mode_u32 m.
Proof.
  intros Hu Hl.
  exists {| width := word_at row 0; height := word_at row 4;
            refresh_hz := word_at row 8; bits_per_pixel := word_at row 12 |}.
  assert (byte_slice (H := x86_64_linux) row) as Hb.
  { split; [done|]. unfold len. rewrite Hl. vm_compute. discriminate. }
  split.
  - unfold encode_mode. cbn [width height refresh_hz bits_per_pixel].
    rewrite !to_le_bytes_word_at by (done || unfold len; lia).
    unfold subslice. do 16 (destruct row as [|? row]; [done|]). by destruct row.
  - split_and!; (apply word_at_u32; [done|lia|unfold len; cbn; lia]).
Qed.

Section table.
Context `{Platform}.

(** One row of the loop. *)
Lemma mode_rows_cons modes m rows :
  mode_u32 m ->
  mode_rows modes (encode_mode m :: rows) =
    if plausible m then mode_rows (modes ++ [m]) rows else Ok modes.
Proof.
  intros Hm. destruct (word_at_encode_mode m Hm) as (E0 & E4 & E8 & E12).
  assert (len (encode_mode m) = 16) as Hl by (unfold len; by rewrite length_encode_mode).
  cbn [mode_rows]. rewrite !read_u32_le_eq by (rewrite ?Hl; platform_lia). exec_cbn.
  rewrite E0, E4, E8, E12. replace {| width := _ |} with m by by destruct m.
  case_bool_decide as Hz; [by subst|]. by destruct (plausible m).
Qed.

(** A table of bytes is empty of rows, or starts with a row. *)
Lemma table_cases s :
  Forall (in_width u8_max) s ->
  len s < 16 \/ exists m rest, s = encode_mode m ++ rest /\ mode_u32 m.
Proof.
  intros Hs. destruct (Z.ltb_spec (len s) 16); [by left|]. right.
  destruct (encode_mode_surj (take 16 s)) as (m & E & Hm); [by apply Forall_take| |].
  - rewrite length_take. unfold len in *. lia.
  - exists m, (drop 16 s). by rewrite <- E, take_drop.
Qed.

Lemma mode_rows_table n s ms0 ms :
  Forall (in_width u8_max) s ->
  mode_table n s ms -> mode_rows ms0 (take n (chunks_exact 16 s)) = Ok (ms0 ++ ms).
Proof.
  intros Hs Ht. revert ms0.
  induction Ht as [s|n s Hl|n m s Hm Hp|n m s ms Hm Hp Ht IH]; intros ms0.
  - cbn. by rewrite app_nil_r.
  - rewrite chunks_exact_short by (unfold len in Hl; lia). destruct n; cbn; by rewrite app_nil_r.
  - rewrite chunks_exact_app by (apply length_encode_mode || lia). cbn [take].
    rewrite mode_rows_cons by done. destruct (plausible_spec m); [done|]. by rewrite app_nil_r.
  - apply Forall_app in Hs as [_ Hs].
    rewrite chunks_exact_app by (apply length_encode_mode || lia). cbn [take].
    rewrite mode_rows_cons by done. destruct (plausible_spec m); [|done].
    rewrite IH by done. by rewrite <- app_assoc.
Qed.

(** Every string of bytes is a table. *)
Lemma mode_table_total n s :
  Forall (in_width u8_max) s -> exists ms, mode_table n s ms.
Proof.
  revert s. induction n as [|n IH]; intros s Hs; [eexists; constructor|].
  destruct (table_cases s Hs) as [Hl|(m & rest & -> & Hm)]; [by eexists; apply table_end|].
  apply Forall_app in Hs as [_ Hs].
  destruct (plausible_spec m) as [Hp|Hp]; [|by eexists; apply table_stop].
  destruct (IH rest Hs) as [ms Hms]. eexists. by apply table_row.
Qed.

Lemma mode_table_plausible n s ms :
  mode_table n s ms -> Forall plausible_mode ms /\ (length ms <= n)%nat.
Proof. induction 1; cbn; [split; [constructor|lia]..|]. split; [by constructor; [|apply IHmode_table]|lia]. Qed.

Lemma parse_observed_modes_wp p :
  byte_slice p ->
  exec_wp (parse_observed_modes p)
    (fun ms => 48 <= len p /\ take 12 p = WIRE_MAGIC /\
       Forall plausible_mode ms /\ len ms <= 256 /\
       forall ms', mode_table 256 (drop 48 p) ms' <-> ms' = ms)
    (fun e => (e = ParseError.TooShort (len p) 21 /\ len p < 21) \/
              (e = ParseError.BadMagic /\ 21 <= len p /\ take 12 p <> WIRE_MAGIC) \/
              (e = ParseError.TooShort (len p) 48 /\ 21 <= len p < 48)).
Proof.
  intros Hp. unfold parse_observed_modes, HEADER_SIZE. rewrite parse_header_eq by apply Hp.
  case_test as Hl; exec_cbn; [by left|]. case_bool_decide as Hm; exec_cbn; [|auto].
  case_test as Hh; exec_cbn; [auto|]. rewrite slice_from_eq by lia. exec_cbn.
  change (Z.to_nat 48) with 48%nat.
  assert (Forall (in_width u8_max) (drop 48 p)) as Hd by (apply Forall_drop, Hp).
  destruct (mode_table_total 256 _ Hd) as [ms Hms].
  rewrite (mode_rows_table _ _ [] _ Hd Hms). cbn [app]. exec_cbn.
  destruct (mode_table_plausible _ _ _ Hms) as [Hpl Hn].
  split_and!; [done..|unfold len; lia|]. intros ms'. split; [|by intros ->].
  intros Hms'. pose proof (mode_rows_table _ _ [] _ Hd Hms') as E.
  rewrite (mode_rows_table _ _ [] _ Hd Hms) in E. by injection E.
Qed.

(** C35 [parse_observed_modes] reads exactly the mode table of a packet: on a
    packet with the magic and at least a header it returns the unique list of
    modes that the bytes from offset 48 on list, all of them plausible and at
    most 256; it fails only on a short packet or a wrong magic. *)
Theorem parse_observed_modes_correct p :
  byte_slice p ->
  exec_wp (parse_observed_modes p)
    (fun ms => 48 <= len p /\ take 12 p = WIRE_MAGIC /\
       Forall plausible_mode ms /\ len ms <= 256 /\
       forall ms', mode_table 256 (drop 48 p) ms' <-> ms' = ms)
    (fun e => (e = ParseError.TooShort (len p) 21 /\ len p < 21) \/
              (e = ParseError.BadMagic /\ 21 <= len p /\ take 12 p <> WIRE_MAGIC) \/
              (e = ParseError.TooShort (len p) 48 /\ 21 <= len p < 48)).
Proof. apply parse_observed_modes_wp. Qed.
End table.

(** ** Witness *)

(** Two rows and a zero row. *)
Definition observed_modes : list Z :=
  wire 32 0 (replicate 28 0 ++
    encode_mode {| width := 1600; height := 900; refresh_hz := 75; bits_per_pixel := 32 |} ++
    encode_mode {| width := 1280; height := 720; refresh_hz := 60; bits_per_pixel := 16 |} ++
    replicate 16 0).

Lemma parse_observed_modes_correct_witness :
  let ms := [{| width := 1600; height := 900; refresh_hz := 75; bits_per_pixel := 32 |};
             {| width := 1280; height := 720; refresh_hz := 60; bits_per_pixel := 16 |}] in
  byte_slice observed_modes /\ parse_observed_modes observed_modes = Ok ms /\
  forall ms', mode_table 256 (drop 48 observed_modes) ms' <-> ms' = ms.
Proof.
  assert (byte_slice observed_modes) as Hb by by apply byte_slice_check.
  split; [exact Hb|]. split; [vm_compute; reflexivity|].
  exact (proj2 (proj2 (proj2 (proj2 (parse_observed_modes_correct observed_modes Hb))))).
Defined.
