(* ===== verification/Fnv.v ===== *)
(** * Fnv: the 64-bit FNV-1a checksum

    Models [fnv1a64] of rust/src/jpeg.rs; the frame checksum of
    rust/src/frame.rs runs the same loop over a frame's fields.  The theorem
    that matters to its use (telling captured frames apart) is that a change of
    a single byte always changes the checksum: the prime is invertible modulo
    2^64, so every step is a permutation of the 64-bit states. *)

From S2P Require Import Prelude.

Open Scope Z_scope.

Definition FNV_OFFSET : Z := 0xcbf29ce484222325.
Definition FNV_PRIME : Z := 0x00000100000001b3.

(** [(checksum ^ u64::from(byte)).wrapping_mul(FNV_PRIME)] *)
Definition fnv_step (checksum byte : Z) : Z :=
  wrapping_mul_u64 (Z.lxor checksum byte) FNV_PRIME.

Definition fnv1a64 (bytes : list Z) : Z := fold_left fnv_step bytes FNV_OFFSET.

(** ** Lemmas *)

(** The inverse of the prime modulo 2^64. *)
Definition FNV_PRIME_INV : Z := 0xce965057aff6957b.

Lemma fnv_prime_invertible : (FNV_PRIME * FNV_PRIME_INV) mod 2 ^ 64 = 1.
Proof. vm_compute. reflexivity. Qed.

Lemma lxor_bound n a b : 0 <= n -> 0 <= a < 2 ^ n -> 0 <= b < 2 ^ n -> 0 <= Z.lxor a b < 2 ^ n.
Proof.
  intros Hn Ha Hb. assert (0 <= Z.lxor a b) as H0 by (apply Z.lxor_nonneg; lia).
  split; [done|]. destruct (Z.eq_dec (Z.lxor a b) 0) as [->|Hne]; [lia|].
  apply Z.log2_lt_pow2; [lia|].
  assert (forall c, 0 <= c < 2 ^ n -> 0 < n -> Z.log2 c < n) as Hlog.
  { intros c Hc Hn'. destruct (Z.eq_dec c 0) as [->|]; [cbn; lia|]. apply Z.log2_lt_pow2; lia. }
  destruct (Z.eq_dec n 0) as [->|].
  { exfalso. apply Hne. assert (a = 0) as -> by (cbn in *; lia). assert (b = 0) as -> by (cbn in *; lia). done. }
  pose proof (Z.log2_lxor a b ltac:(lia) ltac:(lia)).
  pose proof (Hlog a Ha ltac:(lia)). pose proof (Hlog b Hb ltac:(lia)). lia.
Qed.

Lemma fnv_step_u64 h b : in_width u64_max (fnv_step h b).
Proof.
  unfold fnv_step, wrapping_mul_u64, in_width, u64_max.
  pose proof (Z.mod_pos_bound (Z.lxor h b * FNV_PRIME) (2 ^ 64)). lia.
Qed.

Lemma fnv_fold_u64 bytes h : in_width u64_max h -> in_width u64_max (fold_left fnv_step bytes h).
Proof. revert h. induction bytes; cbn; intros; auto using fnv_step_u64. Qed.

(** Multiplication by the prime is injective on 64-bit values. *)
Lemma wrapping_mul_prime_inj a b :
  in_width u64_max a -> in_width u64_max b ->
  wrapping_mul_u64 a FNV_PRIME = wrapping_mul_u64 b FNV_PRIME -> a = b.
Proof.
  unfold wrapping_mul_u64, in_width, u64_max. intros Ha Hb E.
  assert (forall x, 0 <= x <= 18446744073709551615 ->
    ((x * FNV_PRIME) mod 2 ^ 64 * FNV_PRIME_INV) mod 2 ^ 64 = x) as Hinv.
  { intros x Hx. rewrite Z.mul_mod_idemp_l, <- Z.mul_assoc by lia.
    rewrite <- Z.mul_mod_idemp_r, fnv_prime_invertible, Z.mul_1_r by lia.
    apply Z.mod_small. lia. }
  rewrite <- (Hinv a Ha), <- (Hinv b Hb), E. done.
Qed.

Lemma lxor_inj_r a b c : Z.lxor a c = Z.lxor b c -> a = b.
Proof.
  intros E. rewrite <- (Z.lxor_0_r a), <- (Z.lxor_0_r b), <- (Z.lxor_nilpotent c).
  by rewrite <- !Z.lxor_assoc, E.
Qed.

Lemma lxor_u64 h b : in_width u64_max h -> in_width u8_max b -> in_width u64_max (Z.lxor h b).
Proof.
  unfold in_width, u64_max, u8_max. intros. pose proof (lxor_bound 64 h b). lia.
Qed.

(** A step is injective in the state, for a fixed byte, and in the byte, for a
    fixed state. *)
Lemma fnv_step_inj_state h h' b :
  in_width u64_max h -> in_width u64_max h' -> in_width u8_max b ->
  fnv_step h b = fnv_step h' b -> h = h'.
Proof.
  intros Hh Hh' Hb E%wrapping_mul_prime_inj; [|by apply lxor_u64..].
  by apply lxor_inj_r in E.
Qed.

Lemma fnv_step_inj_byte h b b' :
  in_width u64_max h -> in_width u8_max b -> in_width u8_max b' ->
  fnv_step h b = fnv_step h b' -> b = b'.
Proof.
  intros Hh Hb Hb' E%wrapping_mul_prime_inj; [|by apply lxor_u64..].
  rewrite !(Z.lxor_comm h) in E. by apply lxor_inj_r in E.
Qed.

Lemma fnv_fold_inj bytes h h' :
  Forall (in_width u8_max) bytes -> in_width u64_max h -> in_width u64_max h' ->
  fold_left fnv_step bytes h = fold_left fnv_step bytes h' -> h = h'.
Proof.
  intros Hb. revert h h'. induction Hb as [|b bytes Hb _ IH]; cbn; intros h h' Hh Hh' E; [done|].
  apply IH in E; [|apply fnv_step_u64..]. by apply fnv_step_inj_state in E.
Qed.

Lemma fnv_offset_u64 : in_width u64_max FNV_OFFSET.
Proof. vm_compute. split; discriminate. Qed.

(** The general form, from any state. *)
Lemma fnv_fold_single_byte h pre b b' post :
  in_width u64_max h -> in_width u8_max b -> in_width u8_max b' ->
  Forall (in_width u8_max) post ->
  fold_left fnv_step (pre ++ b :: post) h = fold_left fnv_step (pre ++ b' :: post) h -> b = b'.
Proof.
  intros Hh Hb Hb' Hpost. rewrite !fold_left_app. cbn [fold_left].
  intros E%fnv_fold_inj; [|done|apply fnv_step_u64..].
  apply fnv_step_inj_byte in E; auto using fnv_fold_u64.
Qed.

(** ** Properties *)

(** [fnv1a64] is a 64-bit value, and two byte strings that differ in exactly
    one byte never have the same checksum. *)
Theorem fnv1a64_detects_single_byte pre b b' post :
  Forall (in_width u8_max) (pre ++ b :: post) -> in_width u8_max b' -> b <> b' ->
  in_width u64_max (fnv1a64 (pre ++ b :: post)) /\
  fnv1a64 (pre ++ b :: post) <> fnv1a64 (pre ++ b' :: post).
Proof.
  intros [_ [Hb Hpost]%Forall_cons_1]%Forall_app Hb' Hne. split.
  - apply fnv_fold_u64, fnv_offset_u64.
  - intros E. by apply fnv_fold_single_byte in E; auto using fnv_offset_u64.
Qed.

(** ** Witnesses and known answers *)

Example fnv1a64_empty : fnv1a64 [] = 0xcbf29ce484222325.
Proof. reflexivity. Qed.

Example fnv1a64_a : fnv1a64 [0x61] = 0xaf63dc4c8601ec8c.
Proof. vm_compute. reflexivity. Qed.

Lemma fnv1a64_detects_single_byte_witness :
  in_width u64_max (fnv1a64 [1; 2; 3]) /\ fnv1a64 [1; 2; 3] <> fnv1a64 [1; 7; 3].
Proof.
  apply (fnv1a64_detects_single_byte [1] 2 7 [3]);
    [repeat constructor; vm_compute; discriminate | split; vm_compute; discriminate | discriminate].
Defined.
