(* ===== verification/Frame.v ===== *)
(** * Frame: BGRx frames

    Models rust/src/frame.rs up to the frame queue: [FrameLayout] ([new],
    [validate]), [Frame] ([from_bgrx], [test_pattern], [validate], [checksum])
    and [allocate_zeroed].

    The memory allocator is a parameter: [alloc n] says whether a reservation
    of [n] bytes succeeds.  The reference for [test_pattern] is [pattern_image],
    the picture as a function of the pixel coordinates. *)

From S2P Require Import Prelude Fnv.

Open Scope Z_scope.

(** ** Data *)

Definition BGRX_BYTES_PER_PIXEL : Z := 4.
Definition MAX_DIMENSION : Z := 16384.
Definition MAX_FRAME_BYTES : Z := 256 * 1024 * 1024.

Record FrameId := {
  generation : Z;
  sequence : Z;
}.

Record FrameLayout := {
  layout_width : Z;
  layout_height : Z;
  layout_stride : Z;
  layout_byte_len : Z;
}.

#[export] Instance FrameId_eq_dec : EqDecision FrameId.
Proof. solve_decision. Defined.
#[export] Instance FrameLayout_eq_dec : EqDecision FrameLayout.
Proof. solve_decision. Defined.

Inductive FrameError :=
| ZeroDimension
| DimensionTooLarge (width height maximum : Z)
| SizeOverflow
| FrameTooLarge (bytes maximum : Z)
| PixelLength (expected actual : Z)
| InconsistentLayout
| AllocationFailed (bytes : Z).

Record Frame := {
  frame_id : FrameId;
  frame_layout : FrameLayout;
  frame_pixels : list Z;
}.

(** The eight bars, BGRx: white, yellow, cyan, green, magenta, red, blue, black. *)
Definition BARS : list (list Z) :=
  [[255; 255; 255; 255]; [0; 255; 255; 255]; [255; 255; 0; 255]; [0; 255; 0; 255];
   [255; 0; 255; 255]; [0; 0; 255; 255]; [255; 0; 0; 255]; [0; 0; 0; 255]].

(** [!b] on a byte. *)
Definition not_u8 (b : Z) : Z := Z.lxor b 255.

(** ** Operations *)

Section operations.
Context `{Platform}.

Definition FrameLayout_new (width height : Z) : exec FrameError FrameLayout :=
  if (width =? 0) || (height =? 0) then Err ZeroDimension else
  if (MAX_DIMENSION <? width) || (MAX_DIMENSION <? height)
  then Err (DimensionTooLarge width height MAX_DIMENSION) else
  let! width := ok_or (try_from usize_max width) SizeOverflow in
  let! height := ok_or (try_from usize_max height) SizeOverflow in
  let! stride := ok_or (checked_mul width BGRX_BYTES_PER_PIXEL) SizeOverflow in
  let! byte_len := ok_or (checked_mul stride height) SizeOverflow in
  if MAX_FRAME_BYTES <? byte_len then Err (FrameTooLarge byte_len MAX_FRAME_BYTES) else
  Ok {| layout_width := width mod 2 ^ 32; layout_height := height mod 2 ^ 32;
        layout_stride := stride; layout_byte_len := byte_len |}.

Definition FrameLayout_validate (l : FrameLayout) : exec FrameError unit :=
  let! canonical := FrameLayout_new (layout_width l) (layout_height l) in
  if negb (bool_decide (l = canonical)) then Err InconsistentLayout else Ok tt.

Definition from_bgrx (id : FrameId) (layout : FrameLayout) (pixels : list Z)
    : exec FrameError Frame :=
  let! _ := FrameLayout_validate layout in
  if negb (len pixels =? layout_byte_len layout)
  then Err (PixelLength (layout_byte_len layout) (len pixels)) else
  Ok {| frame_id := id; frame_layout := layout; frame_pixels := pixels |}.

Definition Frame_validate (f : Frame) : exec FrameError unit :=
  let! _ := FrameLayout_validate (frame_layout f) in
  if negb (len (frame_pixels f) =? layout_byte_len (frame_layout f))
  then Err (PixelLength (layout_byte_len (frame_layout f)) (len (frame_pixels f))) else
  Ok tt.

(** [try_reserve_exact] fails beyond [isize::MAX] bytes and when the allocator
    refuses. *)
Definition allocate_zeroed (alloc : Z -> bool) (bytes : Z) : exec FrameError (list Z) :=
  if (bytes <=? isize_max) && alloc bytes
  then Ok (replicate (Z.to_nat bytes) 0)
  else Err (AllocationFailed bytes).

(** The body of the inner loop at pixel ([x], [y]). *)
Definition paint (layout : FrameLayout) (x_start y_start square_size : Z)
    (x y : Z) (pixels : list Z) : exec FrameError (list Z) :=
  let! scaled := mul_at usize_max x (len BARS) in
  let bar := scaled / layout_width layout in
  let! pixel := slice_index BARS bar in
  let! x_stop := add_at usize_max x_start square_size in
  let! y_stop := add_at usize_max y_start square_size in
  let! pixel :=
    if ((x_start <=? x) && (x <? x_stop)) && ((y_start <=? y) && (y <? y_stop)) then
      let! b0 := slice_index pixel 0 in
      let! pixel := slice_set pixel 0 (not_u8 b0) in
      let! b1 := slice_index pixel 1 in
      let! pixel := slice_set pixel 1 (not_u8 b1) in
      let! b2 := slice_index pixel 2 in
      slice_set pixel 2 (not_u8 b2)
    else Ok pixel in
  let! row := mul_at usize_max y (layout_stride layout) in
  let! column := mul_at usize_max x BGRX_BYTES_PER_PIXEL in
  let! offset := add_at usize_max row column in
  let! stop := add_at usize_max offset BGRX_BYTES_PER_PIXEL in
  copy_from_slice pixels offset stop pixel.

(** [for i in i..i + n { body }] *)
Fixpoint for_range {A} (n : nat) (i : Z) (body : Z -> A -> exec FrameError A) (a : A)
    : exec FrameError A :=
  match n with
  | O => Ok a
  | S n => let! a := body i a in for_range n (i + 1) body a
  end.

Definition test_pattern (alloc : Z -> bool) (id : FrameId) (layout : FrameLayout)
    : exec FrameError Frame :=
  let! _ := FrameLayout_validate layout in
  let width := layout_width layout in
  let height := layout_height layout in
  let square_size := Z.min (Z.min width height) 64 in
  let! x_rest := sub_at width square_size in
  let! x_span := add_at usize_max x_rest 1 in
  let! y_rest := sub_at height square_size in
  let! y_span := add_at usize_max y_rest 1 in
  let! x_scaled := mul_at u64_max (sequence id mod x_span) 37 in
  let x_start := x_scaled mod x_span in
  let! y_scaled := mul_at u64_max (sequence id mod y_span) 23 in
  let y_start := y_scaled mod y_span in
  let! pixels := allocate_zeroed alloc (layout_byte_len layout) in
  let! pixels :=
    for_range (Z.to_nat height) 0 (fun y pixels =>
      for_range (Z.to_nat width) 0 (fun x pixels =>
        paint layout x_start y_start square_size x y pixels) pixels) pixels in
  from_bgrx id layout pixels.

(** The bytes that [checksum] chains, and the loop over them. *)
Definition checksum_bytes (f : Frame) : list Z :=
  to_le_bytes 8 (generation (frame_id f)) ++ to_le_bytes 8 (sequence (frame_id f)) ++
  to_le_bytes 4 (layout_width (frame_layout f)) ++
  to_le_bytes 4 (layout_height (frame_layout f)) ++ frame_pixels f.

Fixpoint checksum_loop (checksum : Z) (bytes : list Z) : Z :=
  match bytes with
  | [] => checksum
  | byte :: bytes =>
      let checksum := Z.lxor checksum byte in
      let checksum := wrapping_mul_u64 checksum FNV_PRIME in
      checksum_loop checksum bytes
  end.

Definition checksum (f : Frame) : Z := checksum_loop FNV_OFFSET (checksum_bytes f).

End operations.

(** ** Reference definitions *)

(** A layout that [new] can return. *)
Definition layout_ok (l : FrameLayout) : Prop :=
  1 <= layout_width l <= MAX_DIMENSION /\ 1 <= layout_height l <= MAX_DIMENSION /\
  layout_stride l = 4 * layout_width l /\
  layout_byte_len l = 4 * layout_width l * layout_height l /\
  layout_byte_len l <= MAX_FRAME_BYTES.

(** A frame whose buffer is the one its layout describes. *)
Definition frame_ok (f : Frame) : Prop :=
  layout_ok (frame_layout f) /\ len (frame_pixels f) = layout_byte_len (frame_layout f).

(** Side and corner of the inverted square. *)
Definition square_side (l : FrameLayout) : Z :=
  Z.min (Z.min (layout_width l) (layout_height l)) 64.
Definition square_corner (size side seq step : Z) : Z :=
  ((seq mod (size - side + 1)) * step) mod (size - side + 1).

Definition in_square (l : FrameLayout) (seq x y : Z) : bool :=
  let side := square_side l in
  let x0 := square_corner (layout_width l) side seq 37 in
  let y0 := square_corner (layout_height l) side seq 23 in
  ((x0 <=? x) && (x <? x0 + side)) && ((y0 <=? y) && (y <? y0 + side)).

(** The colour of a pixel: its bar, with blue, green and red inverted in the
    square. *)
Definition bar_pixel (bar : Z) (inverted : bool) : list Z :=
  match BARS !!! Z.to_nat bar with
  | [b; g; r; x] => if inverted then [255 - b; 255 - g; 255 - r; x] else [b; g; r; x]
  | _ => []
  end.

Definition pattern_pixel (l : FrameLayout) (seq x y : Z) : list Z :=
  bar_pixel (x * 8 / layout_width l) (in_square l seq x y).

(** [f i ++ f (i + 1) ++ ...], [n] terms. *)
Fixpoint concat_range (n : nat) (i : Z) (f : Z -> list Z) : list Z :=
  match n with
  | O => []
  | S n => f i ++ concat_range n (i + 1) f
  end.

(** The picture in raster order. *)
Definition pattern_image (l : FrameLayout) (seq : Z) : list Z :=
  concat_range (Z.to_nat (layout_height l)) 0 (fun y =>
    concat_range (Z.to_nat (layout_width l)) 0 (fun x => pattern_pixel l seq x y)).

(** ** Lemmas on layouts *)

Section layouts.
Context `{Platform}.

Lemma FrameLayout_new_eq w h :
  in_width u32_max w -> in_width u32_max h ->
  FrameLayout_new w h =
    if (w =? 0) || (h =? 0) then Err ZeroDimension
    else if (MAX_DIMENSION <? w) || (MAX_DIMENSION <? h)
    then Err (DimensionTooLarge w h MAX_DIMENSION)
    else if MAX_FRAME_BYTES <? 4 * w * h then Err (FrameTooLarge (4 * w * h) MAX_FRAME_BYTES)
    else Ok {| layout_width := w; layout_height := h;
               layout_stride := 4 * w; layout_byte_len := 4 * w * h |}.
Proof.
  intros Hw Hh. unfold FrameLayout_new, MAX_DIMENSION. case_test; [done|].
  case_test as Hd; [done|]. unfold in_width in *. apply orb_false_iff in Hd as [Hw' Hh'].
  reflect_in Hw'. reflect_in Hh'.
  assert (w * 4 * h <= 65536 * 16384) by nia.
  unfold try_from. rewrite !(proj2 (Z.leb_le _ usize_max)) by platform_lia. exec_cbn.
  unfold checked_mul, BGRX_BYTES_PER_PIXEL.
  rewrite (proj2 (Z.leb_le _ usize_max)) by platform_lia. exec_cbn.
  rewrite (proj2 (Z.leb_le _ usize_max)) by platform_lia. exec_cbn.
  rewrite (Z.mul_comm w 4), !Z.mod_small by lia. done.
Qed.

Lemma FrameLayout_new_Ok w h l :
  in_width u32_max w -> in_width u32_max h ->
  FrameLayout_new w h = Ok l <-> layout_width l = w /\ layout_height l = h /\ layout_ok l.
Proof.
  intros Hw Hh. rewrite FrameLayout_new_eq by done. unfold layout_ok, in_width in *.
  unfold MAX_DIMENSION, MAX_FRAME_BYTES. split.
  - intros E. repeat case_match; try done. reflect_bool. injection E as <-. cbn. lia.
  - intros (<- & <- & H1 & H2 & H3 & H4 & H5). rewrite H4 in H5.
    test_false ((layout_width l =? 0) || (layout_height l =? 0)).
    test_false ((16384 <? layout_width l) || (16384 <? layout_height l)).
    rewrite (proj2 (Z.ltb_ge _ _)) by lia. rewrite <- H4, <- H3. by destruct l.
Qed.

Lemma FrameLayout_new_returns w h :
  in_width u32_max w -> in_width u32_max h -> returns (FrameLayout_new w h).
Proof. intros Hw Hh. rewrite FrameLayout_new_eq by done. by repeat case_match. Qed.

Lemma FrameLayout_validate_eq l :
  in_width u32_max (layout_width l) -> in_width u32_max (layout_height l) ->
  exec_wp (FrameLayout_validate l) (fun _ => layout_ok l) (fun _ => ~ layout_ok l).
Proof.
  intros Hw Hh. unfold FrameLayout_validate.
  destruct (FrameLayout_new (layout_width l) (layout_height l)) as [c|e| |] eqn:E; exec_cbn.
  - apply FrameLayout_new_Ok in E as (E1 & E2 & Hc); [|done..].
    case_bool_decide as Hl; exec_cbn; [by subst|]. intros Hl'. apply Hl.
    unfold layout_ok in *. destruct l, c; cbn in *. f_equal; nia.
  - intros Hl. assert (FrameLayout_new (layout_width l) (layout_height l) = Ok l) as E'
      by by apply FrameLayout_new_Ok. congruence.
  - rewrite FrameLayout_new_eq in E by done. by repeat case_match.
  - rewrite FrameLayout_new_eq in E by done. by repeat case_match.
Qed.

Lemma layout_ok_u32 l :
  layout_ok l -> in_width u32_max (layout_width l) /\ in_width u32_max (layout_height l).
Proof. unfold layout_ok, MAX_DIMENSION, in_width, u32_max. lia. Qed.

Lemma FrameLayout_validate_ok l : layout_ok l -> FrameLayout_validate l = Ok tt.
Proof.
  intros Hl. destruct (layout_ok_u32 l Hl) as [Hw Hh].
  pose proof (FrameLayout_validate_eq l Hw Hh) as W.
  by destruct (FrameLayout_validate l) as [[]|e| |]; cbn in W.
Qed.
End layouts.

(** ** Lemmas on the pattern *)

Lemma concat_range_length n i f k :
  (forall j, i <= j < i + Z.of_nat n -> length (f j) = k) ->
  length (concat_range n i f) = (n * k)%nat.
Proof.
  revert i. induction n as [|n IH]; intros i Hf; cbn [concat_range]; [done|].
  rewrite length_app, Hf, IH by (intros; apply Hf || idtac; lia). cbn. lia.
Qed.

(** A loop that fills consecutive blocks of a zeroed buffer. *)
Lemma for_range_fill (c0 : Z) (k : nat) body f n i pre post :
  (forall j pre post, i <= j < i + Z.of_nat n -> len pre = c0 + Z.of_nat k * j ->
     body j (pre ++ replicate k 0 ++ post) = Ok (pre ++ f j ++ post)) ->
  (forall j, i <= j < i + Z.of_nat n -> length (f j) = k) ->
  len pre = c0 + Z.of_nat k * i ->
  for_range n i body (pre ++ replicate (n * k) 0 ++ post) =
    Ok (pre ++ concat_range n i f ++ post).
Proof.
  revert i pre. induction n as [|n IH]; intros i pre Hbody Hf Hpre; cbn [for_range concat_range]; [done|].
  cbn [Nat.mul]. rewrite replicate_add, <- app_assoc, Hbody by (done || lia). exec_cbn.
  rewrite (app_assoc pre). rewrite IH.
  - by app_norm.
  - intros. apply Hbody; lia.
  - intros. apply Hf; lia.
  - rewrite len_app. unfold len at 2. rewrite Hf by lia. lia.
Qed.

Lemma square_corner_bounds size side seq step :
  0 <= seq -> 0 <= step -> side <= size ->
  0 <= square_corner size side seq step <= size - side.
Proof.
  intros. unfold square_corner.
  pose proof (Z.mod_pos_bound ((seq mod (size - side + 1)) * step) (size - side + 1)). lia.
Qed.

Lemma bar_bounds w x : 0 <= x < w -> 0 <= x * 8 / w < 8.
Proof.
  intros. split; [apply Z.div_pos; lia|]. apply Z.div_lt_upper_bound; lia.
Qed.

(** The bars, case by case. *)
Lemma bar_pixel_spec bar inv :
  0 <= bar < 8 ->
  length (bar_pixel bar inv) = 4%nat /\ Forall (in_width u8_max) (bar_pixel bar inv) /\
  slice_get (bar_pixel bar inv) 3 = Some 255.
Proof.
  intros Hb. assert (bar = 0 \/ bar = 1 \/ bar = 2 \/ bar = 3 \/ bar = 4 \/ bar = 5 \/ bar = 6 \/ bar = 7)
    as Hc by lia.
  destruct Hc as [->|[->|[->|[->|[->|[->|[->| ->]]]]]]], inv; cbn;
    (split_and!; [done| |done]); repeat constructor; done.
Qed.

Section painting.
Context `{Platform}.

(** Inverting the three colour bytes of a bar. *)
Lemma invert_bar bar :
  0 <= bar < 8 ->
  (let! pixel := slice_index BARS bar in
   let! b0 := slice_index pixel 0 in
   let! pixel := slice_set pixel 0 (not_u8 b0) in
   let! b1 := slice_index pixel 1 in
   let! pixel := slice_set pixel 1 (not_u8 b1) in
   let! b2 := slice_index pixel 2 in
   slice_set (E := FrameError) pixel 2 (not_u8 b2)) = Ok (bar_pixel bar true) /\
  slice_index (E := FrameError) BARS bar = Ok (bar_pixel bar false).
Proof.
  intros Hb. assert (bar = 0 \/ bar = 1 \/ bar = 2 \/ bar = 3 \/ bar = 4 \/ bar = 5 \/ bar = 6 \/ bar = 7)
    as Hc by lia.
  by destruct Hc as [->|[->|[->|[->|[->|[->|[->| ->]]]]]]].
Qed.

Context (l : FrameLayout) (Hl : layout_ok l) (seq : Z) (Hseq : 0 <= seq).

Lemma paint_eq x y pre post :
  let side := square_side l in
  0 <= x < layout_width l -> 0 <= y < layout_height l ->
  len pre = 4 * layout_width l * y + 4 * x ->
  paint l (square_corner (layout_width l) side seq 37)
          (square_corner (layout_height l) side seq 23) side x y
          (pre ++ replicate 4 0 ++ post) =
    Ok (pre ++ pattern_pixel l seq x y ++ post).
Proof using Hl Hseq.
  intros side Hx Hy Hpre. destruct Hl as (Hw & Hh & Hs & Hbl & Hmax).
  unfold MAX_DIMENSION, MAX_FRAME_BYTES in *.
  pose proof (square_corner_bounds (layout_width l) side seq 37) as Hx0.
  pose proof (square_corner_bounds (layout_height l) side seq 23) as Hy0.
  assert (1 <= side <= layout_width l /\ side <= layout_height l) as Hside
    by (unfold side, square_side; lia).
  set (x0 := square_corner (layout_width l) side seq 37) in *.
  set (y0 := square_corner (layout_height l) side seq 23) in *.
  pose proof (bar_bounds _ _ Hx) as Hbar. destruct (invert_bar _ Hbar) as [Hinv Hplain].
  assert (4 * layout_width l * y + 4 * x + 4 <= layout_byte_len l) as Hin by (rewrite Hbl; nia).
  unfold paint, mul_at, add_at, BGRX_BYTES_PER_PIXEL. change (len BARS) with 8.
  rewrite (proj2 (Z.leb_le (x * 8) _)) by platform_lia. exec_cbn.
  rewrite Hplain. exec_cbn. rewrite Hplain in Hinv. cbn [exec_bind] in Hinv.
  rewrite (proj2 (Z.leb_le (x0 + side) _)) by platform_lia. exec_cbn.
  rewrite (proj2 (Z.leb_le (y0 + side) _)) by platform_lia. exec_cbn.
  match goal with |- context [exec_bind (if ?b then ?m else ?o) ?k] =>
    replace (if b then m else o) with (Ok (E := FrameError) (pattern_pixel l seq x y)) end.
  2: { unfold pattern_pixel, in_square. fold side. fold x0 y0. cbn zeta.
       case_match; [by rewrite Hinv|done]. }
  exec_cbn. rewrite Hs.
  rewrite (proj2 (Z.leb_le (y * _) _)) by (assert (0 <= 4 * x) by lia; platform_lia). exec_cbn.
  rewrite (proj2 (Z.leb_le (x * 4) _)) by platform_lia. exec_cbn.
  rewrite (proj2 (Z.leb_le _ usize_max)) by platform_lia. exec_cbn.
  rewrite (proj2 (Z.leb_le _ usize_max)) by platform_lia. exec_cbn.
  apply copy_from_slice_eq; [lia|rewrite len_replicate; lia|].
  unfold len. destruct (bar_pixel_spec _ (in_square l seq x y) Hbar) as [Hlen _].
  unfold pattern_pixel. by rewrite Hlen, length_replicate.
Qed.
End painting.

(** A block of a concatenation. *)
Lemma concat_range_block n i f k j :
  (forall j, i <= j < i + Z.of_nat n -> length (f j) = k) -> i <= j < i + Z.of_nat n ->
  exists pre post, concat_range n i f = pre ++ f j ++ post /\ len pre = Z.of_nat k * (j - i).
Proof.
  revert i. induction n as [|n IH]; intros i Hf Hj; cbn [concat_range]; [lia|].
  destruct (Z.eq_dec i j) as [->|].
  - exists [], (concat_range n (j + 1) f). split; [done|]. unfold len. cbn. lia.
  - destruct (IH (i + 1)) as (pre & post & -> & Hl); [intros; apply Hf; lia|lia|].
    exists (f i ++ pre), post. rewrite <- app_assoc. split; [done|].
    rewrite len_app. unfold len at 1. rewrite Hf by lia. lia.
Qed.

Section image.
Context (l : FrameLayout) (Hl : layout_ok l) (seq : Z).

Lemma pattern_pixel_length x y :
  0 <= x < layout_width l -> length (pattern_pixel l seq x y) = 4%nat.
Proof using Type. intros Hx. by apply bar_pixel_spec, bar_bounds. Qed.

Lemma pattern_row_length y :
  length (concat_range (Z.to_nat (layout_width l)) 0 (fun x => pattern_pixel l seq x y)) =
    (Z.to_nat (layout_width l) * 4)%nat.
Proof using Hl.
  apply concat_range_length. intros x Hx. apply pattern_pixel_length.
  destruct Hl as (? & _). lia.
Qed.

Lemma pattern_image_length : len (pattern_image l seq) = layout_byte_len l.
Proof using Hl.
  unfold pattern_image, len.
  rewrite (concat_range_length _ _ _ (Z.to_nat (layout_width l) * 4))
    by (intros; apply pattern_row_length).
  destruct Hl as (? & ? & _ & -> & _). lia.
Qed.

(** The pixel at ([x], [y]) of the image, at the byte offset the layout gives. *)
Lemma pattern_image_pixel x y :
  0 <= x < layout_width l -> 0 <= y < layout_height l ->
  let offset := y * layout_stride l + x * 4 in
  subslice (pattern_image l seq) offset (offset + 4) = pattern_pixel l seq x y.
Proof using Hl.
  intros Hx Hy offset. destruct Hl as (Hw & Hh & Hs & _).
  destruct (concat_range_block (Z.to_nat (layout_height l)) 0
    (fun y => concat_range (Z.to_nat (layout_width l)) 0 (fun x => pattern_pixel l seq x y))
    (Z.to_nat (layout_width l) * 4) y) as (pre & post & E & Hpre);
    [intros; apply pattern_row_length|lia|].
  destruct (concat_range_block (Z.to_nat (layout_width l)) 0
    (fun x => pattern_pixel l seq x y) 4 x) as (pre' & post' & E' & Hpre');
    [intros; apply pattern_pixel_length; lia|lia|].
  unfold pattern_image. rewrite E, E'.
  replace (pre ++ (pre' ++ pattern_pixel l seq x y ++ post') ++ post)
    with ((pre ++ pre') ++ pattern_pixel l seq x y ++ (post' ++ post)) by by app_norm.
  assert (len (pattern_pixel l seq x y) = 4)
    by (unfold len; by rewrite pattern_pixel_length by lia).
  apply subslice_app; rewrite len_app; subst offset; nia.
Qed.
End image.

Section pattern.
Context `{Platform}.

Lemma test_pattern_eq alloc id l :
  layout_ok l -> in_width u64_max (sequence id) ->
  test_pattern alloc id l =
    if alloc (layout_byte_len l)
    then Ok {| frame_id := id; frame_layout := l; frame_pixels := pattern_image l (sequence id) |}
    else Err (AllocationFailed (layout_byte_len l)).
Proof.
  intros Hl [Hseq _]. pose proof (FrameLayout_validate_ok l Hl) as Hv.
  pose proof Hl as (Hw & Hh & Hs & Hbl & Hmax). unfold MAX_DIMENSION, MAX_FRAME_BYTES in *.
  unfold test_pattern. rewrite Hv. exec_cbn. fold (square_side l).
  assert (1 <= square_side l <= layout_width l /\ square_side l <= layout_height l) as Hside
    by (unfold square_side; lia).
  set (side := square_side l) in *. unfold sub_at, add_at, mul_at.
  rewrite !(proj2 (Z.leb_le side _)) by lia. exec_cbn.
  rewrite (proj2 (Z.leb_le _ usize_max)) by platform_lia. exec_cbn.
  rewrite (proj2 (Z.leb_le _ usize_max)) by platform_lia. exec_cbn.
  pose proof (Z.mod_pos_bound (sequence id) (layout_width l - side + 1) ltac:(lia)).
  pose proof (Z.mod_pos_bound (sequence id) (layout_height l - side + 1) ltac:(lia)).
  do 2 (rewrite (proj2 (Z.leb_le _ u64_max)) by (unfold u64_max; lia); exec_cbn).
  change ((sequence id mod (layout_width l - side + 1) * 37) mod (layout_width l - side + 1))
    with (square_corner (layout_width l) side (sequence id) 37).
  change ((sequence id mod (layout_height l - side + 1) * 23) mod (layout_height l - side + 1))
    with (square_corner (layout_height l) side (sequence id) 23).
  unfold allocate_zeroed. rewrite (proj2 (Z.leb_le _ isize_max)) by platform_lia. exec_cbn.
  destruct (alloc _); exec_cbn; [|done].
  replace (replicate (Z.to_nat (layout_byte_len l)) 0)
    with ([] ++ replicate (Z.to_nat (layout_height l) * (Z.to_nat (layout_width l) * 4)) 0 ++ [])
    by (rewrite app_nil_r; cbn [app]; f_equal; lia).
  rewrite (for_range_fill 0 (Z.to_nat (layout_width l) * 4) _
    (fun y => concat_range (Z.to_nat (layout_width l)) 0 (fun x => pattern_pixel l (sequence id) x y))).
  - exec_cbn. rewrite app_nil_r. cbn [app]. fold (pattern_image l (sequence id)).
    unfold from_bgrx. rewrite Hv. exec_cbn. by rewrite pattern_image_length, Z.eqb_refl by done.
  - intros y pre post Hy Hpre.
    apply (for_range_fill (4 * layout_width l * y) 4); [|by intros; apply pattern_pixel_length; lia|lia].
    intros x pre' post' Hx Hpre'. apply paint_eq; (done || lia).
  - intros. by apply pattern_row_length.
  - len_lia.
Qed.
End pattern.

(** ** Properties *)

Section properties.
Context `{Platform}.

(** C37 [FrameLayout::new] on every pair of [u32] dimensions: it accepts exactly
    the dimensions from 1 to 16384 whose buffer is at most 256 MiB, computes
    stride and size without overflow (its overflow error is unreachable), and
    reports each rejection with the offending values. *)
Theorem FrameLayout_new_correct w h :
  in_width u32_max w -> in_width u32_max h ->
  exec_wp (FrameLayout_new w h)
    (fun l => layout_ok l /\ layout_width l = w /\ layout_height l = h)
    (fun e => match e with
       | ZeroDimension => w = 0 \/ h = 0
       | DimensionTooLarge w' h' maximum =>
           w' = w /\ h' = h /\ maximum = 16384 /\ (16384 < w \/ 16384 < h)
       | FrameTooLarge bytes maximum =>
           bytes = 4 * w * h /\ maximum = 2 ^ 28 /\ 2 ^ 28 < bytes
       | _ => False
       end).
Proof.
  intros Hw Hh. destruct (FrameLayout_new w h) as [l| | |] eqn:E.
  - cbn. by apply FrameLayout_new_Ok in E as (? & ? & ?).
  - rewrite FrameLayout_new_eq in E by done. unfold MAX_DIMENSION, MAX_FRAME_BYTES in E.
    repeat case_match; simplify_eq; cbn; lia.
  - rewrite FrameLayout_new_eq in E by done. by repeat case_match.
  - rewrite FrameLayout_new_eq in E by done. by repeat case_match.
Qed.

(** A [Frame] can only be built over a canonical layout and a buffer of
    exactly its size: [from_bgrx] succeeds if and only if the frame it would
    build is well formed, and [Frame::validate] accepts it afterwards. *)
Theorem from_bgrx_iff id l pixels f :
  in_width u32_max (layout_width l) -> in_width u32_max (layout_height l) ->
  from_bgrx id l pixels = Ok f <->
  f = {| frame_id := id; frame_layout := l; frame_pixels := pixels |} /\
  frame_ok f /\ Frame_validate f = Ok tt.
Proof.
  intros Hw Hh. unfold from_bgrx, Frame_validate, frame_ok.
  pose proof (FrameLayout_validate_eq l Hw Hh) as W. split.
  - destruct (FrameLayout_validate l) as [[]|e| |] eqn:E; cbn in W; try done. exec_cbn.
    case_test as Hlen; [done|]. intros [= <-]. cbn [frame_layout frame_pixels].
    rewrite E. exec_cbn. by rewrite Hlen, Z.eqb_refl.
  - intros (-> & [Hl Hlen] & _). cbn [frame_layout frame_pixels] in *.
    rewrite (FrameLayout_validate_ok l Hl). exec_cbn. by rewrite Hlen, Z.eqb_refl.
Qed.

(** C36 [Frame::test_pattern] on every canonical layout and frame id: it returns
    a well-formed frame (it fails only when the allocator refuses the buffer,
    and no index, subtraction or product of it overflows); the pixel at (x, y)
    is the colour of its bar, inverted exactly inside a square that lies within
    the frame, and is opaque. *)
Theorem test_pattern_correct alloc id l :
  layout_ok l -> in_width u64_max (sequence id) ->
  exec_wp (test_pattern alloc id l)
    (fun f => frame_ok f /\ frame_id f = id /\ frame_layout f = l /\
       forall x y, 0 <= x < layout_width l -> 0 <= y < layout_height l ->
         let offset := y * layout_stride l + x * 4 in
         subslice (frame_pixels f) offset (offset + 4) = pattern_pixel l (sequence id) x y /\
         slice_get (frame_pixels f) (offset + 3) = Some 255)
    (fun e => e = AllocationFailed (layout_byte_len l) /\ alloc (layout_byte_len l) = false) /\
  square_corner (layout_width l) (square_side l) (sequence id) 37 + square_side l <= layout_width l /\
  square_corner (layout_height l) (square_side l) (sequence id) 23 + square_side l <= layout_height l.
Proof.
  intros Hl Hseq. split.
  2: { destruct Hl as (? & ? & _), Hseq as [Hseq _]. unfold square_side.
       pose proof (square_corner_bounds (layout_width l) (square_side l) (sequence id) 37).
       pose proof (square_corner_bounds (layout_height l) (square_side l) (sequence id) 23).
       unfold square_side in *. lia. }
  rewrite test_pattern_eq by done. destruct (alloc _); exec_cbn; [|done].
  split; [split; [done|by apply pattern_image_length]|]. do 2 (split; [done|]).
  cbn [frame_pixels]. intros x y Hx Hy. set (offset := y * layout_stride l + x * 4).
  pose proof (pattern_image_pixel l Hl (sequence id) x y Hx Hy) as Hpix. cbn zeta in Hpix. fold offset in Hpix.
  split; [done|]. destruct (bar_pixel_spec _ (in_square l (sequence id) x y) (bar_bounds _ _ Hx))
    as (_ & _ & Halpha).
  fold (pattern_pixel l (sequence id) x y) in Halpha. rewrite <- Hpix in Halpha.
  destruct Hl as (Hw & Hh & Hs & _).
  apply slice_get_Some in Halpha as [_ Ha]. apply slice_get_Some. split; [subst offset; nia|].
  unfold subslice in Ha. apply lookup_take_Some in Ha as [Ha _]. rewrite lookup_drop in Ha.
  rewrite <- Ha. f_equal. subst offset. nia.
Qed.

Lemma checksum_fnv f : checksum f = fnv1a64 (checksum_bytes f).
Proof.
  unfold checksum, fnv1a64. generalize FNV_OFFSET. induction (checksum_bytes f); intros; cbn; auto.
Qed.

(** [Frame::checksum] is the FNV-1a hash of the frame's id, dimensions and
    pixels in little-endian order, and it tells apart two frames with the same
    id and layout whose pixels differ in a single byte. *)
Theorem checksum_detects_pixel_change id l pre b b' post :
  Forall (in_width u8_max) (pre ++ b :: post) -> in_width u8_max b' -> b <> b' ->
  let f := {| frame_id := id; frame_layout := l; frame_pixels := pre ++ b :: post |} in
  let g := {| frame_id := id; frame_layout := l; frame_pixels := pre ++ b' :: post |} in
  checksum f = fnv1a64 (checksum_bytes f) /\ checksum f <> checksum g.
Proof.
  intros [_ [Hb Hpost]%Forall_cons_1]%Forall_app Hb' Hne f g. split; [apply checksum_fnv|].
  rewrite !checksum_fnv. unfold fnv1a64, checksum_bytes. cbn [frame_id frame_layout frame_pixels f g].
  rewrite !app_assoc. intros E.
  apply fnv_fold_single_byte in E; [done|apply fnv_offset_u64|done..].
Qed.
End properties.

(** ** Witnesses *)

Definition sample_layout : FrameLayout :=
  {| layout_width := 8; layout_height := 4; layout_stride := 32; layout_byte_len := 128 |}.
Definition sample_id : FrameId := {| generation := 7; sequence := 3 |}.

Lemma sample_layout_ok : layout_ok sample_layout.
Proof. vm_compute. repeat split; discriminate. Qed.

(** The first row of the 8x4 pattern for sequence 3: the 4x4 square stands at
    x = 3 * 37 mod 5 = 1. *)
Example sample_pattern_row :
  (f ← match test_pattern (fun _ => true) sample_id sample_layout with
       | Ok f => Some f | _ => None end;
   Some (take 32 (frame_pixels f))) =
  Some [255; 255; 255; 255;  255; 0; 0; 255;  0; 0; 255; 255;  255; 0; 255; 255;
        0; 255; 0; 255;  0; 0; 255; 255;  255; 0; 0; 255;  0; 0; 0; 255].
Proof. vm_compute. reflexivity. Qed.

Lemma FrameLayout_new_correct_witness :
  exec_wp (FrameLayout_new 1600 900)
    (fun l => layout_ok l /\ layout_width l = 1600 /\ layout_height l = 900) (fun _ => False) /\
  FrameLayout_new 16384 16384 = Err (FrameTooLarge 1073741824 268435456).
Proof.
  split; [|vm_compute; reflexivity].
  exact (FrameLayout_new_correct 1600 900
    ltac:(vm_compute; split; discriminate) ltac:(vm_compute; split; discriminate)).
Defined.

Lemma from_bgrx_iff_witness :
  frame_ok {| frame_id := sample_id; frame_layout := sample_layout;
              frame_pixels := replicate 128 9 |} /\
  from_bgrx sample_id sample_layout (replicate 127 9) = Err (PixelLength 128 127).
Proof.
  split; [|vm_compute; reflexivity].
  apply (proj1 (from_bgrx_iff sample_id sample_layout (replicate 128 9) _
    ltac:(vm_compute; split; discriminate) ltac:(vm_compute; split; discriminate))
    ltac:(vm_compute; reflexivity)).
Defined.

Lemma test_pattern_correct_witness :
  layout_ok sample_layout /\
  exec_wp (test_pattern (fun _ => true) sample_id sample_layout)
    (fun f => frame_ok f /\
       subslice (frame_pixels f) (2 * 32 + 5 * 4) (2 * 32 + 5 * 4 + 4) = [0; 0; 255; 255])
    (fun _ => False).
Proof.
  split; [exact sample_layout_ok|].
  assert (in_width u64_max (sequence sample_id)) as Hs by (vm_compute; split; discriminate).
  destruct (test_pattern_correct (fun _ => true) sample_id sample_layout sample_layout_ok Hs)
    as [W _].
  eapply wp_mono; [exact W| |].
  - intros f (Hf & _ & _ & Hpix). split; [exact Hf|].
    exact (proj1 (Hpix 5 2 ltac:(vm_compute; split; [discriminate|reflexivity])
                           ltac:(vm_compute; split; [discriminate|reflexivity]))).
  - intros e [_ Habs]. discriminate Habs.
Defined.

Lemma checksum_detects_pixel_change_witness :
  let f := {| frame_id := sample_id; frame_layout := sample_layout; frame_pixels := [1; 2; 3] |} in
  let g := {| frame_id := sample_id; frame_layout := sample_layout; frame_pixels := [1; 7; 3] |} in
  checksum f = fnv1a64 (checksum_bytes f) /\ checksum f <> checksum g.
Proof.
  apply (checksum_detects_pixel_change sample_id sample_layout [1] 2 7 [3]);
    [repeat constructor; vm_compute; discriminate | split; vm_compute; discriminate | discriminate].
Defined.
