(* ===== verification/Pipeline.v ===== *)
(** * Pipeline: the capture-to-encoder frame queue

    Models [FramePipeline] of rust/src/frame.rs: a bounded queue of frames of
    one device generation, with drop-oldest overflow, monotone sequence numbers,
    a generation gate in front of the sink, and saturating counters.

    Each method is a function on [PipelineState], the data behind the mutex.
    [run] executes a history of calls in order; the theorems of this file hold
    for every history from a new pipeline.  The mutex, the threads and the sink
    closure that runs under the lock are in [Concurrency]. *)

From Stdlib Require Import Sorted.
From S2P Require Import Prelude Fnv Frame.

Open Scope Z_scope.

(** ** Data *)

Record PipelineStats := {
  accepted : Z;
  dequeued : Z;
  dropped_capacity : Z;
  discarded_generation : Z;
  rejected_generation : Z;
  rejected_sequence : Z;
  rejected_sink_generation : Z;
}.

(** [PipelineStats::default()] *)
Definition default_stats : PipelineStats :=
  {| accepted := 0; dequeued := 0; dropped_capacity := 0; discarded_generation := 0;
     rejected_generation := 0; rejected_sequence := 0; rejected_sink_generation := 0 |}.

Record PipelineSnapshot := {
  snap_generation : Z;
  snap_queued : Z;
  snap_capacity : Z;
  snap_stats : PipelineStats;
}.

Inductive SubmitOutcome :=
| Queued
| DroppedOldest (id : FrameId)
| RejectedGeneration (active received : Z)
| RejectedSequence (last received : Z).

Inductive PipelineError :=
| ZeroCapacity
| GenerationNotIncreasing (active requested : Z).

Record GenerationMismatch := {
  mismatch_active : Z;
  mismatch_received : Z;
}.

Record PipelineState := {
  st_generation : Z;
  st_capacity : Z;
  st_last_sequence : option Z;
  st_frames : list Frame;
  st_stats : PipelineStats;
}.

(** ** Counter updates, [stats.field = stats.field.saturating_add(n)] *)

Definition add_accepted (s : PipelineStats) : PipelineStats :=
  {| accepted := saturating_add_u64 (accepted s) 1; dequeued := dequeued s;
     dropped_capacity := dropped_capacity s; discarded_generation := discarded_generation s;
     rejected_generation := rejected_generation s; rejected_sequence := rejected_sequence s;
     rejected_sink_generation := rejected_sink_generation s |}.
Definition add_dequeued (s : PipelineStats) : PipelineStats :=
  {| accepted := accepted s; dequeued := saturating_add_u64 (dequeued s) 1;
     dropped_capacity := dropped_capacity s; discarded_generation := discarded_generation s;
     rejected_generation := rejected_generation s; rejected_sequence := rejected_sequence s;
     rejected_sink_generation := rejected_sink_generation s |}.
Definition add_dropped_capacity (s : PipelineStats) : PipelineStats :=
  {| accepted := accepted s; dequeued := dequeued s;
     dropped_capacity := saturating_add_u64 (dropped_capacity s) 1;
     discarded_generation := discarded_generation s;
     rejected_generation := rejected_generation s; rejected_sequence := rejected_sequence s;
     rejected_sink_generation := rejected_sink_generation s |}.
Definition add_discarded_generation (n : Z) (s : PipelineStats) : PipelineStats :=
  {| accepted := accepted s; dequeued := dequeued s;
     dropped_capacity := dropped_capacity s;
     discarded_generation := saturating_add_u64 (discarded_generation s) n;
     rejected_generation := rejected_generation s; rejected_sequence := rejected_sequence s;
     rejected_sink_generation := rejected_sink_generation s |}.
Definition add_rejected_generation (s : PipelineStats) : PipelineStats :=
  {| accepted := accepted s; dequeued := dequeued s;
     dropped_capacity := dropped_capacity s; discarded_generation := discarded_generation s;
     rejected_generation := saturating_add_u64 (rejected_generation s) 1;
     rejected_sequence := rejected_sequence s;
     rejected_sink_generation := rejected_sink_generation s |}.
Definition add_rejected_sequence (s : PipelineStats) : PipelineStats :=
  {| accepted := accepted s; dequeued := dequeued s;
     dropped_capacity := dropped_capacity s; discarded_generation := discarded_generation s;
     rejected_generation := rejected_generation s;
     rejected_sequence := saturating_add_u64 (rejected_sequence s) 1;
     rejected_sink_generation := rejected_sink_generation s |}.
Definition add_rejected_sink_generation (s : PipelineStats) : PipelineStats :=
  {| accepted := accepted s; dequeued := dequeued s;
     dropped_capacity := dropped_capacity s; discarded_generation := discarded_generation s;
     rejected_generation := rejected_generation s; rejected_sequence := rejected_sequence s;
     rejected_sink_generation := saturating_add_u64 (rejected_sink_generation s) 1 |}.

Definition set_stats (st : PipelineState) (s : PipelineStats) : PipelineState :=
  {| st_generation := st_generation st; st_capacity := st_capacity st;
     st_last_sequence := st_last_sequence st; st_frames := st_frames st; st_stats := s |}.

(** ** Operations *)

Definition pipeline_new (capacity initial_generation : Z) : exec PipelineError PipelineState :=
  if capacity =? 0 then Err ZeroCapacity else
  Ok {| st_generation := initial_generation; st_capacity := capacity;
        st_last_sequence := None; st_frames := []; st_stats := default_stats |}.

(** [state.frames.pop_front()] *)
Definition pop_front (frames : list Frame) : option Frame * list Frame :=
  match frames with
  | oldest :: rest => (Some oldest, rest)
  | [] => (None, [])
  end.

(** The tail of [submit], behind the generation and sequence checks. *)
Definition accept (st : PipelineState) (frame : Frame) : PipelineState * SubmitOutcome :=
  let full := len (st_frames st) =? st_capacity st in
  let stats := if full then add_dropped_capacity (st_stats st) else st_stats st in
  let '(dropped, frames) := if full then pop_front (st_frames st) else (None, st_frames st) in
  ({| st_generation := st_generation st; st_capacity := st_capacity st;
      st_last_sequence := Some (sequence (frame_id frame));
      st_frames := frames ++ [frame];
      st_stats := add_accepted stats |},
   match dropped with Some oldest => DroppedOldest (frame_id oldest) | None => Queued end).

Definition submit (st : PipelineState) (frame : Frame) : PipelineState * SubmitOutcome :=
  let id := frame_id frame in
  if negb (generation id =? st_generation st) then
    (set_stats st (add_rejected_generation (st_stats st)),
     RejectedGeneration (st_generation st) (generation id))
  else
    match st_last_sequence st with
    | Some last =>
        if sequence id <=? last then
          (set_stats st (add_rejected_sequence (st_stats st)),
           RejectedSequence last (sequence id))
        else accept st frame
    | None => accept st frame
    end.

Definition try_take (st : PipelineState) : PipelineState * option Frame :=
  let '(frame, frames) := pop_front (st_frames st) in
  ({| st_generation := st_generation st; st_capacity := st_capacity st;
      st_last_sequence := st_last_sequence st; st_frames := frames;
      st_stats := match frame with
                  | Some _ => add_dequeued (st_stats st)
                  | None => st_stats st
                  end |},
   frame).

(** The closure acts on a world [W] outside the pipeline. *)
Definition with_current_generation {W T} (st : PipelineState) (id : FrameId)
    (sink : W -> W * T) (w : W) : PipelineState * W * (GenerationMismatch + T) :=
  if negb (generation id =? st_generation st) then
    (set_stats st (add_rejected_sink_generation (st_stats st)), w,
     inl {| mismatch_active := st_generation st; mismatch_received := generation id |})
  else let '(w, t) := sink w in (st, w, inr t).

Definition begin_generation (st : PipelineState) (g : Z)
    : PipelineState * exec PipelineError Z :=
  if g <=? st_generation st then
    (st, Err (GenerationNotIncreasing (st_generation st) g))
  else
    let discarded := len (st_frames st) in
    ({| st_generation := g; st_capacity := st_capacity st; st_last_sequence := None;
        st_frames := []; st_stats := add_discarded_generation discarded (st_stats st) |},
     Ok discarded).

Definition snapshot (st : PipelineState) : PipelineSnapshot :=
  {| snap_generation := st_generation st; snap_queued := len (st_frames st);
     snap_capacity := st_capacity st; snap_stats := st_stats st |}.

(** ** Histories *)

(** A call and its reply.  The sink's own result is not recorded, only whether
    the gate let it run. *)
Inductive op :=
| OpSubmit (f : Frame)
| OpTake
| OpSink (id : FrameId)
| OpBegin (g : Z)
| OpSnapshot.

Inductive reply :=
| RSubmit (o : SubmitOutcome)
| RTake (f : option Frame)
| RSink (r : GenerationMismatch + unit)
| RBegin (r : exec PipelineError Z)
| RSnapshot (s : PipelineSnapshot).

Definition exec_op (st : PipelineState) (o : op) : PipelineState * reply :=
  match o with
  | OpSubmit f => let '(st, r) := submit st f in (st, RSubmit r)
  | OpTake => let '(st, r) := try_take st in (st, RTake r)
  | OpSink id =>
      let '(st, _, r) := with_current_generation st id (fun w : unit => (w, tt)) tt in (st, RSink r)
  | OpBegin g => let '(st, r) := begin_generation st g in (st, RBegin r)
  | OpSnapshot => (st, RSnapshot (snapshot st))
  end.

(** Run calls in order, recording the replies. *)
Fixpoint run (st : PipelineState) (ops : list op) : PipelineState * list (op * reply) :=
  match ops with
  | [] => (st, [])
  | o :: ops =>
      let '(st, r) := exec_op st o in
      let '(st, h) := run st ops in
      (st, (o, r) :: h)
  end.

(** ** Invariant *)

(** Sequence numbers of the queue, oldest first. *)
Definition queue_sequences (st : PipelineState) : list Z :=
  (fun f => sequence (frame_id f)) <$> st_frames st.

Record pipeline_inv (st : PipelineState) : Prop := {
  inv_capacity : 1 <= st_capacity st;
  inv_bounded : len (st_frames st) <= st_capacity st;
  inv_generation :
    Forall (fun f => generation (frame_id f) = st_generation st) (st_frames st);
  inv_sorted : StronglySorted Z.lt (queue_sequences st);
  inv_last : match st_last_sequence st with
             | None => st_frames st = []
             | Some last => Forall (fun q => q <= last) (queue_sequences st)
             end;
}.

(** ** What a history says *)

(** The frames that [submit] accepted, in order. *)
Fixpoint accepted_frames (h : list (op * reply)) : list Frame :=
  match h with
  | [] => []
  | (OpSubmit f, RSubmit (Queued | DroppedOldest _)) :: h => f :: accepted_frames h
  | _ :: h => accepted_frames h
  end.

(** The frames that [try_take] handed out, in order. *)
Fixpoint taken_frames (h : list (op * reply)) : list Frame :=
  match h with
  | [] => []
  | (_, RTake (Some f)) :: h => f :: taken_frames h
  | _ :: h => taken_frames h
  end.

(** The frame id for which an event lets work through: an accepted submission,
    a frame handed to the encoder, a sink that ran. *)
Definition live_id (e : op * reply) : option FrameId :=
  match e with
  | (OpSubmit f, RSubmit (Queued | DroppedOldest _)) => Some (frame_id f)
  | (OpTake, RTake (Some f)) => Some (frame_id f)
  | (OpSink id, RSink (inr _)) => Some id
  | _ => None
  end.

Definition live_ids (h : list (op * reply)) : list FrameId := omap live_id h.

(** Order of frame ids: generation first, then sequence. *)
Definition id_lt (a b : FrameId) : Prop :=
  generation a < generation b \/ generation a = generation b /\ sequence a < sequence b.

(** What one event adds to the counters. *)
Definition stats_of (a d c g rg rs rk : Z) : PipelineStats :=
  {| accepted := a; dequeued := d; dropped_capacity := c; discarded_generation := g;
     rejected_generation := rg; rejected_sequence := rs; rejected_sink_generation := rk |}.

Definition event_stats (r : reply) : PipelineStats :=
  match r with
  | RSubmit Queued => stats_of 1 0 0 0 0 0 0
  | RSubmit (DroppedOldest _) => stats_of 1 0 1 0 0 0 0
  | RSubmit (RejectedGeneration _ _) => stats_of 0 0 0 0 1 0 0
  | RSubmit (RejectedSequence _ _) => stats_of 0 0 0 0 0 1 0
  | RTake (Some _) => stats_of 0 1 0 0 0 0 0
  | RSink (inl _) => stats_of 0 0 0 0 0 0 1
  | RBegin (Ok n) => stats_of 0 0 0 n 0 0 0
  | _ => stats_of 0 0 0 0 0 0 0
  end.

(** Counters as a vector, added and clamped component by component. *)
Definition map2_stats (op : Z -> Z -> Z) (a b : PipelineStats) : PipelineStats :=
  stats_of (op (accepted a) (accepted b)) (op (dequeued a) (dequeued b))
    (op (dropped_capacity a) (dropped_capacity b))
    (op (discarded_generation a) (discarded_generation b))
    (op (rejected_generation a) (rejected_generation b))
    (op (rejected_sequence a) (rejected_sequence b))
    (op (rejected_sink_generation a) (rejected_sink_generation b)).

Definition plus_stats : PipelineStats -> PipelineStats -> PipelineStats := map2_stats Z.add.
Definition saturate (s : PipelineStats) : PipelineStats :=
  map2_stats (fun x _ => Z.min u64_max x) s s.

(** The exact counts of a history. *)
Fixpoint history_stats (h : list (op * reply)) : PipelineStats :=
  match h with
  | [] => default_stats
  | (_, r) :: h => plus_stats (event_stats r) (history_stats h)
  end.

(** ** Relational specification of [submit] *)

(** The sequence number is above the last one accepted. *)
Definition fresh (st : PipelineState) (q : Z) : Prop :=
  match st_last_sequence st with None => True | Some last => last < q end.

(** The state behind an accepted submission. *)
Definition enqueue (st : PipelineState) (kept : list Frame) (f : Frame) (s : PipelineStats)
    : PipelineState :=
  {| st_generation := st_generation st; st_capacity := st_capacity st;
     st_last_sequence := Some (sequence (frame_id f)); st_frames := kept ++ [f];
     st_stats := add_accepted s |}.

Inductive submit_spec (st : PipelineState) (f : Frame) : PipelineState -> SubmitOutcome -> Prop :=
| submit_stale :
    generation (frame_id f) <> st_generation st ->
    submit_spec st f (set_stats st (add_rejected_generation (st_stats st)))
      (RejectedGeneration (st_generation st) (generation (frame_id f)))
| submit_replayed last :
    generation (frame_id f) = st_generation st ->
    st_last_sequence st = Some last -> sequence (frame_id f) <= last ->
    submit_spec st f (set_stats st (add_rejected_sequence (st_stats st)))
      (RejectedSequence last (sequence (frame_id f)))
| submit_queued :
    generation (frame_id f) = st_generation st -> fresh st (sequence (frame_id f)) ->
    len (st_frames st) < st_capacity st ->
    submit_spec st f (enqueue st (st_frames st) f (st_stats st)) Queued
| submit_dropped oldest rest :
    generation (frame_id f) = st_generation st -> fresh st (sequence (frame_id f)) ->
    st_frames st = oldest :: rest -> len (st_frames st) = st_capacity st ->
    submit_spec st f (enqueue st rest f (add_dropped_capacity (st_stats st)))
      (DroppedOldest (frame_id oldest)).

Lemma accept_spec st f :
  pipeline_inv st -> generation (frame_id f) = st_generation st ->
  fresh st (sequence (frame_id f)) ->
  submit_spec st f (accept st f).1 (accept st f).2.
Proof.
  intros Hinv Hg Hf. destruct Hinv as [Hcap Hb _ _ _]. unfold accept.
  destruct (len (st_frames st) =? st_capacity st) eqn:Hfull; reflect_bool.
  - destruct (st_frames st) as [|oldest rest] eqn:Hq; [unfold len in *; cbn in *; lia|].
    cbn. apply submit_dropped; [done..|by rewrite Hq].
  - cbn. apply submit_queued; [done..|lia].
Qed.

Lemma submit_caseP st f :
  pipeline_inv st -> submit_spec st f (submit st f).1 (submit st f).2.
Proof.
  intros Hinv. unfold submit. case_test as Hg; [by apply submit_stale|].
  destruct (st_last_sequence st) as [last|] eqn:Hl.
  - case_test as Hs; [by apply submit_replayed|].
    apply accept_spec; [done..|]. unfold fresh. by rewrite Hl.
  - apply accept_spec; [done..|]. unfold fresh. by rewrite Hl.
Qed.

Lemma submit_spec_det st f st1 o1 st2 o2 :
  submit_spec st f st1 o1 -> submit_spec st f st2 o2 -> st1 = st2 /\ o1 = o2.
Proof.
  intros [] []; unfold fresh in *; simplify_eq; try done; try lia;
    try (rewrite H1 in *; lia); try (rewrite H2 in *; lia); try (rewrite H3 in *; lia);
    try (rewrite H4 in *; lia).
  all: repeat match goal with
       | E : st_frames _ = _, E' : st_frames _ = _ |- _ => rewrite E in E'; simplify_eq
       | E : st_last_sequence _ = _, E' : context [st_last_sequence _] |- _ => rewrite E in E'
       end; try done; try lia.
Qed.

(** ** The invariant is preserved *)

Lemma StronglySorted_snoc (l : list Z) x :
  StronglySorted Z.lt l -> Forall (fun y => y < x) l -> StronglySorted Z.lt (l ++ [x]).
Proof.
  induction 1 as [|y l Hl IH Hy]; intros Hx; cbn.
  - repeat constructor.
  - apply Forall_cons_1 in Hx as [Hyx Hx]. constructor; [by apply IH|].
    apply Forall_app. split; [done|by repeat constructor].
Qed.

Lemma pipeline_inv_stats st s : pipeline_inv st -> pipeline_inv (set_stats st s).
Proof. by intros []; constructor. Qed.

Lemma queue_below st q :
  pipeline_inv st -> fresh st q -> Forall (fun x => x < q) (queue_sequences st).
Proof.
  intros [_ _ _ _ Hlast] Hf. unfold fresh in Hf. destruct (st_last_sequence st) as [l|].
  - eapply Forall_weaken; [|exact Hlast]. cbn. lia.
  - unfold queue_sequences. by rewrite Hlast.
Qed.

(** Appending a fresh frame behind a suffix of the queue. *)
Lemma enqueue_inv st gone kept f s :
  pipeline_inv st -> st_frames st = gone ++ kept ->
  generation (frame_id f) = st_generation st -> fresh st (sequence (frame_id f)) ->
  len kept < st_capacity st -> pipeline_inv (enqueue st kept f s).
Proof.
  intros Hinv Hq Hg Hf Hl. pose proof (queue_below _ _ Hinv Hf) as Hbelow.
  destruct Hinv as [Hcap Hb Hgen Hsort Hlast]. unfold queue_sequences in *.
  rewrite Hq in Hgen, Hsort, Hbelow. rewrite fmap_app in Hsort, Hbelow.
  apply Forall_app in Hgen as [_ Hgen]. apply Forall_app in Hbelow as [_ Hbelow].
  constructor; cbn [enqueue st_capacity st_frames st_generation st_last_sequence];
    unfold queue_sequences; cbn [st_frames enqueue]; rewrite ?fmap_app.
  - done.
  - len_lia.
  - apply Forall_app. split; [done|by repeat constructor].
  - apply StronglySorted_snoc; [|done]. clear -Hsort.
    induction ((fun f => sequence (frame_id f)) <$> gone); [done|]. cbn in Hsort.
    inversion Hsort; subst. auto.
  - apply Forall_app. split; [|by repeat constructor].
    eapply Forall_weaken; [|exact Hbelow]. cbn. lia.
Qed.

Lemma submit_inv st f : pipeline_inv st -> pipeline_inv (submit st f).1.
Proof.
  intros Hinv. destruct (submit_caseP st f Hinv) as [| |Hg Hf Hl|oldest rest Hg Hf Hq Hl];
    [by apply pipeline_inv_stats..| |].
  - by apply (enqueue_inv _ []).
  - apply (enqueue_inv _ [oldest]); [done..|]. rewrite <- Hl, Hq. len_lia.
Qed.

Lemma try_take_inv st : pipeline_inv st -> pipeline_inv (try_take st).1.
Proof.
  intros [Hcap Hb Hgen Hsort Hlast]. unfold try_take, pop_front, queue_sequences in *.
  destruct (st_frames st) as [|f rest] eqn:Hq; cbn.
  - constructor; cbn; [done|done|done|by constructor|]. by destruct (st_last_sequence st).
  - cbn in Hsort, Hlast. inversion Hsort; subst. apply Forall_cons_1 in Hgen as [_ Hgen].
    constructor; cbn; [done|len_lia|done|done|].
    destruct (st_last_sequence st); [|done]. by apply Forall_cons_1 in Hlast as [_ ?].
Qed.

Lemma begin_generation_inv st g : pipeline_inv st -> pipeline_inv (begin_generation st g).1.
Proof.
  intros Hinv. unfold begin_generation. case_test; cbn; [done|].
  destruct Hinv as [Hcap _ _ _ _]. constructor; cbn [st_capacity st_frames st_generation st_last_sequence];
    [done|unfold len; cbn; lia|done|constructor|done].
Qed.

Lemma exec_op_inv st o : pipeline_inv st -> pipeline_inv (exec_op st o).1.
Proof.
  intros Hinv. destruct o as [f| |id|g|]; cbn.
  - pose proof (submit_inv st f Hinv) as H. by destruct (submit st f).
  - pose proof (try_take_inv st Hinv) as H. by destruct (try_take st).
  - unfold with_current_generation. case_test; cbn; [by apply pipeline_inv_stats|done].
  - pose proof (begin_generation_inv st g Hinv) as H. by destruct (begin_generation st g).
  - done.
Qed.

Lemma pipeline_new_inv c g st : 0 <= c -> pipeline_new c g = Ok st -> pipeline_inv st.
Proof.
  unfold pipeline_new. intros Hc. case_test as Hz; [done|]. intros [= <-].
  constructor; cbn [st_capacity st_frames st_generation st_last_sequence]; [lia|unfold len; cbn; lia|done|constructor|done].
Qed.

Lemma run_cons st o ops :
  run st (o :: ops) =
    let '(st1, r) := exec_op st o in
    let '(st2, h) := run st1 ops in (st2, (o, r) :: h).
Proof. done. Qed.

Lemma run_inv st ops : pipeline_inv st -> pipeline_inv (run st ops).1.
Proof.
  revert st. induction ops as [|o ops IH]; intros st Hinv; [done|]. rewrite run_cons.
  pose proof (exec_op_inv st o Hinv) as H1. destruct (exec_op st o) as [st1 r].
  pose proof (IH st1 H1) as H2. by destruct (run st1 ops).
Qed.

(** ** One step of a history *)

(** [exec_op] on an accepted submission, by case. *)
Lemma exec_submit st f :
  pipeline_inv st ->
  exists st' o, exec_op st (OpSubmit f) = (st', RSubmit o) /\ submit_spec st f st' o.
Proof.
  intros Hinv. exists (submit st f).1, (submit st f).2. split; [|by apply submit_caseP].
  cbn. by destruct (submit st f).
Qed.

(** Every event, with its effect on the queue, the sequence gate and the
    counters. *)
Inductive step_spec (st : PipelineState) : op -> PipelineState -> reply -> Prop :=
| step_submit f st' o :
    submit_spec st f st' o -> step_spec st (OpSubmit f) st' (RSubmit o)
| step_take f rest :
    st_frames st = f :: rest ->
    step_spec st OpTake
      {| st_generation := st_generation st; st_capacity := st_capacity st;
         st_last_sequence := st_last_sequence st; st_frames := rest;
         st_stats := add_dequeued (st_stats st) |} (RTake (Some f))
| step_empty :
    st_frames st = [] -> step_spec st OpTake st (RTake None)
| step_sink id :
    generation id = st_generation st -> step_spec st (OpSink id) st (RSink (inr tt))
| step_sink_stale id :
    generation id <> st_generation st ->
    step_spec st (OpSink id) (set_stats st (add_rejected_sink_generation (st_stats st)))
      (RSink (inl {| mismatch_active := st_generation st; mismatch_received := generation id |}))
| step_begin g :
    st_generation st < g ->
    step_spec st (OpBegin g)
      {| st_generation := g; st_capacity := st_capacity st; st_last_sequence := None;
         st_frames := [];
         st_stats := add_discarded_generation (len (st_frames st)) (st_stats st) |}
      (RBegin (Ok (len (st_frames st))))
| step_begin_stale g :
    g <= st_generation st ->
    step_spec st (OpBegin g) st (RBegin (Err (GenerationNotIncreasing (st_generation st) g)))
| step_snapshot : step_spec st OpSnapshot st (RSnapshot (snapshot st)).

Lemma exec_op_spec st o :
  pipeline_inv st -> step_spec st o (exec_op st o).1 (exec_op st o).2.
Proof.
  intros Hinv. destruct o as [f| |id|g|].
  - destruct (exec_submit st f Hinv) as (st' & o & -> & Hs). by constructor.
  - cbn. unfold try_take, pop_front. destruct (st_frames st) as [|f rest] eqn:Hq; cbn.
    + replace (Build_PipelineState _ _ _ _ _) with st; [by constructor|].
      destruct st; cbn in *. by rewrite Hq.
    + by apply step_take.
  - cbn. unfold with_current_generation. by case_test as Hg; constructor.
  - cbn. unfold begin_generation. by case_test as Hg; constructor.
  - constructor.
Qed.

(** Induction on the calls of a history, keeping the invariant. *)
Lemma run_ind (P : PipelineState -> list op -> PipelineState -> list (op * reply) -> Prop) :
  (forall st, pipeline_inv st -> P st [] st []) ->
  (forall st o ops st1 r st2 h,
     pipeline_inv st -> step_spec st o st1 r -> pipeline_inv st1 ->
     run st1 ops = (st2, h) -> P st1 ops st2 h -> P st (o :: ops) st2 ((o, r) :: h)) ->
  forall ops st st' h, pipeline_inv st -> run st ops = (st', h) -> P st ops st' h.
Proof.
  intros Hnil Hcons. induction ops as [|o ops IH]; intros st st' h Hinv Hrun.
  - injection Hrun as <- <-. by apply Hnil.
  - rewrite run_cons in Hrun. pose proof (exec_op_spec st o Hinv) as Hs.
    pose proof (exec_op_inv st o Hinv) as Hinv1. destruct (exec_op st o) as [st1 r].
    destruct (run st1 ops) as [st2 h'] eqn:Hrun1. injection Hrun as <- <-.
    by eapply Hcons; [..|apply (IH st1)].
Qed.

Lemma run_app st a b st1 h1 st2 h2 :
  run st a = (st1, h1) -> run st1 b = (st2, h2) -> run st (a ++ b) = (st2, h1 ++ h2).
Proof.
  revert st h1. induction a as [|o a IH]; intros st h1 Ha Hb.
  - injection Ha as <- <-. done.
  - rewrite run_cons in Ha. cbn [app]. rewrite run_cons. destruct (exec_op st o) as [st' r].
    destruct (run st' a) as [st'' h'] eqn:Hr. injection Ha as -> <-.
    by rewrite (IH st' h' Hr Hb).
Qed.

(** ** Order of delivery *)

(** An id that the pipeline may still accept. *)
Definition above (st : PipelineState) (id : FrameId) : Prop :=
  st_generation st < generation id
  \/ generation id = st_generation st /\ fresh st (sequence id).

Lemma step_above st o st' r id : step_spec st o st' r -> above st' id -> above st id.
Proof.
  intros Hs. unfold above, fresh.
  destruct Hs as [f st' o []| | | | | | |]; unfold fresh in *; cbn; try done;
    destruct (st_last_sequence st); naive_solver lia.
Qed.

(** The accepted ids go up and lie above where the history started; what is
    taken, followed by what is still queued, is a selection in order of what was
    queued, followed by what was accepted. *)
Lemma run_order ops st st' h :
  pipeline_inv st -> run st ops = (st', h) ->
  (StronglySorted id_lt (frame_id <$> accepted_frames h)
   /\ Forall (above st) (frame_id <$> accepted_frames h))
  /\ (taken_frames h ++ st_frames st') `sublist_of` (st_frames st ++ accepted_frames h).
Proof.
  revert ops st st' h. apply (run_ind (fun st _ st' h => _)).
  - intros st Hinv. cbn. rewrite app_nil_r. split; [split; constructor|done].
  - intros st o ops st1 r st2 h Hinv Hs Hinv1 Hrun [[IHs IHa] IHq].
    assert (Hup : Forall (above st) (frame_id <$> accepted_frames h)).
    { eapply Forall_weaken; [|exact IHa]. intros id. by apply (step_above _ o _ r). }
    destruct Hs as [f st1 o Hs|f rest Hq| | | |g Hg| |]; cbn; try done.
    + destruct Hs as [| |Hg Hf Hl|oldest rest Hg Hf Hq Hl]; cbn; try done.
      all: split; [split|]; [constructor; [done|] | constructor; [by right|done] |].
      all: try (eapply Forall_weaken; [|exact IHa]; intros id [Hid|[Hid Hid']];
                unfold id_lt; cbn in *; lia).
      * by rewrite cons_middle, app_assoc.
      * rewrite Hq. cbn. constructor. by rewrite cons_middle, app_assoc.
    + split; [done|]. rewrite Hq. cbn. by constructor.
    + split; [done|]. etrans; [exact IHq|]. cbn. apply sublist_inserts_l. done.
Qed.

(** ** Generations *)

Lemma run_generations ops st st' h :
  pipeline_inv st -> run st ops = (st', h) ->
  st_generation st <= st_generation st'
  /\ Forall (fun id => st_generation st <= generation id <= st_generation st') (live_ids h).
Proof.
  revert ops st st' h. apply (run_ind (fun st _ st' h => _)).
  - intros st Hinv. cbn. split; [lia|constructor].
  - intros st o ops st1 r st2 h Hinv Hs Hinv1 Hrun [IHg IHl].
    assert (Hup : st_generation st <= st_generation st1)
      by (destruct Hs as [f st1 o []| | | | | | |]; cbn; lia).
    assert (Hl : Forall (fun id => st_generation st <= generation id <= st_generation st2)
                   (live_ids h)).
    { eapply Forall_weaken; [|exact IHl]. cbn. lia. }
    split; [lia|]. destruct Hinv as [_ _ Hgen _ _].
    destruct Hs as [f st1 o []|f rest Hq| | | | | |]; cbn in *; try done;
      (constructor; [|done]); try lia.
    rewrite Hq in Hgen. apply Forall_cons_1 in Hgen as [-> _]. lia.
Qed.

(** ** Counters *)

Lemma saturating_saturate a b :
  0 <= b -> saturating_add_u64 (Z.min u64_max a) b = Z.min u64_max (a + b).
Proof. unfold saturating_add_u64, u64_max. lia. Qed.

Lemma stats_eq s s' :
  accepted s = accepted s' -> dequeued s = dequeued s' ->
  dropped_capacity s = dropped_capacity s' ->
  discarded_generation s = discarded_generation s' ->
  rejected_generation s = rejected_generation s' ->
  rejected_sequence s = rejected_sequence s' ->
  rejected_sink_generation s = rejected_sink_generation s' -> s = s'.
Proof. destruct s, s'; cbn; by intros -> -> -> -> -> -> ->. Qed.

Lemma saturate_step st o st' r base :
  step_spec st o st' r -> st_stats st = saturate base ->
  st_stats st' = saturate (plus_stats (event_stats r) base).
Proof.
  intros Hs Hst.
  destruct Hs as [f st' o []| | | | | | |]; cbn; rewrite Hst; apply stats_eq; cbn;
    unfold saturating_add_u64, len, u64_max; lia.
Qed.

Lemma plus_stats_assoc a b c :
  plus_stats a (plus_stats b c) = plus_stats (plus_stats b a) c.
Proof. apply stats_eq; cbn; lia. Qed.

(** The exact counts are never negative, and an accepted frame is in exactly
    one place. *)
Lemma run_counts ops st st' h :
  pipeline_inv st -> run st ops = (st', h) ->
  (forall base, st_stats st = saturate base ->
     st_stats st' = saturate (plus_stats base (history_stats h)))
  /\ len (st_frames st) + accepted (history_stats h) =
     dequeued (history_stats h) + dropped_capacity (history_stats h)
     + discarded_generation (history_stats h) + len (st_frames st').
Proof.
  revert ops st st' h. apply (run_ind (fun st _ st' h => _)).
  - intros st Hinv. cbn. split; [|lia]. intros base ->. apply stats_eq; cbn; lia.
  - intros st o ops st1 r st2 h Hinv Hs Hinv1 Hrun [IHs IHc]. split.
    + intros base Hb. cbn. rewrite plus_stats_assoc. apply IHs. by eapply saturate_step.
    + destruct Hs as [f st1 o []|f rest Hq| | | | | |]; cbn in *;
        try rewrite H1 in *; try rewrite Hq in *; len_simpl; unfold len in *; cbn in *; lia.
Qed.

(** ** Bursts and drains *)

Lemma accepted_frames_app h1 h2 :
  accepted_frames (h1 ++ h2) = accepted_frames h1 ++ accepted_frames h2.
Proof.
  induction h1 as [|[[] r] h1 IH]; cbn; [done|destruct r as [[]| | | |]|..]; rewrite ?IH; done.
Qed.

Lemma taken_frames_app h1 h2 : taken_frames (h1 ++ h2) = taken_frames h1 ++ taken_frames h2.
Proof. induction h1 as [|[o [|[f|]| | |]] h1 IH]; cbn; rewrite ?IH; done. Qed.

Lemma taken_submits fs st st' h : run st (OpSubmit <$> fs) = (st', h) -> taken_frames h = [].
Proof.
  revert st h. induction fs as [|f fs IH]; intros st h Hrun; cbn in Hrun; [by simplify_eq|].
  destruct (submit st f) as [st1 o]. destruct (run st1 (OpSubmit <$> fs)) eqn:Hrun1.
  injection Hrun as <- <-. cbn. by eapply IH.
Qed.

Lemma fresh_cons f fs :
  StronglySorted Z.lt ((fun f => sequence (frame_id f)) <$> f :: fs) ->
  forall st1, st_last_sequence st1 = Some (sequence (frame_id f)) ->
  Forall (fun f => fresh st1 (sequence (frame_id f))) fs.
Proof.
  intros Hs st1 Hl. rewrite fmap_cons in Hs. apply StronglySorted_inv in Hs as [_ Hs]. rewrite Forall_fmap in Hs.
  eapply Forall_weaken; [|exact Hs]. cbn. unfold fresh. by rewrite Hl.
Qed.

Lemma enqueue_newest (q : list Frame) f fs c :
  len q < c ->
  drop (Z.to_nat (len (q ++ [f]) + len fs - c)) ((q ++ [f]) ++ fs) =
  drop (Z.to_nat (len q + len (f :: fs) - c)) (q ++ f :: fs).
Proof. intros. rewrite <- app_assoc. cbn [app]. f_equal. len_lia. Qed.

Lemma dropped_newest (q : list Frame) oldest f fs c :
  len (oldest :: q) = c ->
  drop (Z.to_nat (len (q ++ [f]) + len fs - c)) ((q ++ [f]) ++ fs) =
  drop (Z.to_nat (len (oldest :: q) + len (f :: fs) - c)) ((oldest :: q) ++ f :: fs).
Proof.
  intros <-. rewrite <- app_assoc. cbn [app].
  replace (Z.to_nat (len (oldest :: q) + len (f :: fs) - len (oldest :: q)))
    with (S (Z.to_nat (len (q ++ [f]) + len fs - len (oldest :: q)))) by len_lia.
  done.
Qed.

(** A burst of acceptable frames leaves the newest [capacity] frames. *)
Lemma burst fs st st' h :
  pipeline_inv st -> run st (OpSubmit <$> fs) = (st', h) ->
  Forall (fun f => generation (frame_id f) = st_generation st) fs ->
  Forall (fun f => fresh st (sequence (frame_id f))) fs ->
  StronglySorted Z.lt ((fun f => sequence (frame_id f)) <$> fs) ->
  accepted_frames h = fs
  /\ st_frames st' = drop (Z.to_nat (len (st_frames st) + len fs - st_capacity st))
                       (st_frames st ++ fs).
Proof.
  revert st st' h. induction fs as [|f fs IH]; intros st st' h Hinv Hrun Hg Hf Hs.
  - cbn in Hrun. simplify_eq. destruct Hinv as [_ Hb _ _ _].
    rewrite app_nil_r. len_nil. rewrite Z2Nat.nonpos by lia. done.
  - cbn [fmap list_fmap] in Hrun. rewrite run_cons in Hrun.
    destruct (exec_submit st f Hinv) as (st1 & o & Ho & Hspec).
    pose proof (exec_op_inv st (OpSubmit f) Hinv) as Hinv1. rewrite Ho in Hrun, Hinv1.
    destruct (run st1 (OpSubmit <$> fs)) as [st2 h2] eqn:Hrun1. injection Hrun as <- <-.
    apply Forall_cons_1 in Hg as [Hg Hgs]. apply Forall_cons_1 in Hf as [Hf _].
    pose proof (fresh_cons f fs Hs) as Hfs.
    rewrite fmap_cons in Hs. apply StronglySorted_inv in Hs as [Hs _].
    destruct Hspec as [|last _ Hl Hle|_ _ Hl|oldest rest _ _ Hq Hl]; [done| | |].
    + unfold fresh in Hf. rewrite Hl in Hf. lia.
    + destruct (IH _ _ _ Hinv1 Hrun1 Hgs ltac:(by apply Hfs) Hs) as [<- ->].
      split; [done|]. cbn [enqueue st_frames st_capacity]. by apply enqueue_newest.
    + destruct (IH _ _ _ Hinv1 Hrun1 Hgs ltac:(by apply Hfs) Hs) as [<- ->].
      split; [done|]. cbn [enqueue st_frames st_capacity]. rewrite Hq in *.
      by apply dropped_newest.
Qed.

Lemma drain n st st' h :
  run st (replicate n OpTake) = (st', h) ->
  taken_frames h = take n (st_frames st) /\ st_frames st' = drop n (st_frames st)
  /\ accepted_frames h = [].
Proof.
  revert st h. induction n as [|n IH]; intros st h Hrun.
  - cbn in Hrun. by simplify_eq.
  - cbn [replicate] in Hrun. rewrite run_cons in Hrun. cbn in Hrun. unfold try_take in Hrun.
    destruct (st_frames st) as [|f rest] eqn:Hq; cbn in Hrun;
      (destruct (run _ (replicate n OpTake)) as [st2 h2] eqn:Hrun1); injection Hrun as <- <-;
      apply IH in Hrun1 as (Ht & Hd & Ha); cbn in *.
    + rewrite Ht, Hd, Ha. by destruct n.
    + by rewrite Ht, Hd, Ha.
Qed.

(** ** Theorems *)

(** *** The specification of [submit] *)

(** C27 [submit] behaves exactly as its specification says: a frame of another
    generation is rejected first, then a sequence number not above the last
    accepted one; otherwise the frame goes to the back of the queue, and the
    oldest frame leaves, and is named in the outcome, exactly when the queue is
    full.  One counter moves on each rejection. *)
Theorem submit_correct st f st' o :
  pipeline_inv st -> submit st f = (st', o) <-> submit_spec st f st' o.
Proof.
  intros Hinv. pose proof (submit_caseP st f Hinv) as Hs. split.
  - intros H. by rewrite H in Hs.
  - intros H. destruct (submit_spec_det _ _ _ _ _ _ Hs H) as [<- <-]. by destruct (submit st f).
Qed.

(** *** The invariant *)

(** C26 Through every sequence of calls on a new pipeline the queue stays within
    its capacity, holds only frames of the active generation, and is strictly
    increasing in sequence number, bounded by the last accepted one. *)
Theorem pipeline_invariant `{Platform} c g st0 ops :
  in_width usize_max c -> pipeline_new c g = Ok st0 -> pipeline_inv (run st0 ops).1.
Proof. intros [Hc _] Hnew. by eapply run_inv, pipeline_new_inv. Qed.

(** *** Order of delivery *)

(** C24 Frames reach the encoder in order: on every history of a new pipeline
    the ids of the accepted frames are strictly increasing (generation first,
    then sequence), and the frames handed out by [try_take], followed by those
    still queued, are a subsequence of the accepted frames.  Nothing is handed
    out twice, reordered or invented. *)
Theorem frames_taken_in_order `{Platform} c g st0 ops st h :
  in_width usize_max c -> pipeline_new c g = Ok st0 -> run st0 ops = (st, h) ->
  StronglySorted id_lt (frame_id <$> accepted_frames h)
  /\ (taken_frames h ++ st_frames st) `sublist_of` accepted_frames h.
Proof.
  intros [Hc _] Hnew Hrun. pose proof (pipeline_new_inv _ _ _ Hc Hnew) as Hinv.
  destruct (run_order _ _ _ _ Hinv Hrun) as [[Hs _] Hq]. split; [done|].
  unfold pipeline_new in Hnew. destruct (c =? 0); [done|]. by injection Hnew as <-.
Qed.

(** *** Generations *)

(** C3 [begin_generation] is a fence: work let through before it (an accepted
    frame, a frame handed to the encoder, a sink that ran) belongs to an older
    generation, work let through after it to the new one or a later one; it
    reports the queue it destroyed, and a frame handed out afterwards was
    accepted afterwards. *)
Theorem begin_generation_fences `{Platform} c g0 st0 before st1 h1 g n st2 after st3 h2 :
  in_width usize_max c -> pipeline_new c g0 = Ok st0 ->
  run st0 before = (st1, h1) -> begin_generation st1 g = (st2, Ok n) ->
  run st2 after = (st3, h2) ->
  Forall (fun id => generation id < g) (live_ids h1)
  /\ Forall (fun id => g <= generation id) (live_ids h2)
  /\ n = len (st_frames st1) /\ taken_frames h2 `sublist_of` accepted_frames h2.
Proof.
  intros [Hc _] Hnew Hrun1 Hbegin Hrun2. pose proof (pipeline_new_inv _ _ _ Hc Hnew) as Hinv0.
  pose proof (run_inv st0 before Hinv0) as Hinv1. rewrite Hrun1 in Hinv1. cbn in Hinv1.
  pose proof (begin_generation_inv st1 g Hinv1) as Hinv2. rewrite Hbegin in Hinv2. cbn in Hinv2.
  destruct (run_generations _ _ _ _ Hinv0 Hrun1) as [_ Hl1].
  destruct (run_generations _ _ _ _ Hinv2 Hrun2) as [_ Hl2].
  destruct (run_order _ _ _ _ Hinv2 Hrun2) as [_ Hq].
  unfold begin_generation in Hbegin. destruct (g <=? st_generation st1) eqn:Hg; [done|].
  injection Hbegin as <- <-. reflect_bool. cbn in *. split_and!.
  - eapply Forall_weaken; [|exact Hl1]. cbn. lia.
  - eapply Forall_weaken; [|exact Hl2]. cbn. lia.
  - done.
  - etrans; [|exact Hq]. by apply sublist_inserts_r.
Qed.

(** *** Counters *)

(** C25 The counters of [PipelineStats] are the exact counts of the history,
    clamped to [u64::MAX], and no accepted frame is lost: each was handed out,
    dropped for capacity, discarded by a generation change, or is queued. *)
Theorem stats_account_for_frames `{Platform} c g st0 ops st h :
  in_width usize_max c -> pipeline_new c g = Ok st0 -> run st0 ops = (st, h) ->
  st_stats st = saturate (history_stats h)
  /\ accepted (history_stats h) =
     dequeued (history_stats h) + dropped_capacity (history_stats h)
     + discarded_generation (history_stats h) + len (st_frames st).
Proof.
  intros [Hc _] Hnew Hrun. pose proof (pipeline_new_inv _ _ _ Hc Hnew) as Hinv.
  destruct (run_counts _ _ _ _ Hinv Hrun) as [Hs Hcount].
  unfold pipeline_new in Hnew. destruct (c =? 0); [done|]. injection Hnew as <-.
  split; [|by rewrite <- Hcount]. by rewrite (Hs default_stats eq_refl).
Qed.

(** *** Drop-oldest *)

(** C23 A slow encoder sees the newest frames: after any number of acceptable
    submissions to a new pipeline of capacity [c], the next [k] takes return the
    first [k] of the newest [c] frames, and exactly the excess was dropped. *)
Theorem overflow_keeps_newest `{Platform} c g st0 fs k st h :
  in_width usize_max c -> pipeline_new c g = Ok st0 ->
  Forall (fun f => generation (frame_id f) = g) fs ->
  StronglySorted Z.lt ((fun f => sequence (frame_id f)) <$> fs) ->
  run st0 ((OpSubmit <$> fs) ++ replicate k OpTake) = (st, h) ->
  accepted_frames h = fs
  /\ taken_frames h = take k (drop (Z.to_nat (len fs - c)) fs)
  /\ st_frames st = drop k (drop (Z.to_nat (len fs - c)) fs).
Proof.
  intros [Hc _] Hnew Hg Hs Hrun. pose proof (pipeline_new_inv _ _ _ Hc Hnew) as Hinv.
  destruct (run st0 (OpSubmit <$> fs)) as [st1 h1] eqn:Hrun1.
  destruct (run st1 (replicate k OpTake)) as [st2 h2] eqn:Hrun2.
  rewrite (run_app _ _ _ _ _ _ _ Hrun1 Hrun2) in Hrun. injection Hrun as <- <-.
  unfold pipeline_new in Hnew. destruct (c =? 0); [done|]. injection Hnew as <-.
  destruct (burst _ _ _ _ Hinv Hrun1 Hg ltac:(by apply Forall_true) Hs) as [Ha Hq].
  destruct (drain _ _ _ _ Hrun2) as (Ht & Hd & Ha2). cbn in Hq.
  rewrite accepted_frames_app, taken_frames_app, Ha, Ha2, Ht, Hd, Hq, app_nil_r.
  by rewrite (taken_submits _ _ _ _ Hrun1).
Qed.

(** ** Witnesses *)

(** A frame of generation [g] with sequence number [q]. *)
Definition sample_frame (g q : Z) : Frame :=
  {| frame_id := {| generation := g; sequence := q |}; frame_layout := sample_layout;
     frame_pixels := replicate 128 0 |}.

(** A pipeline of capacity 2 at generation 7. *)
Definition sample_pipeline : PipelineState :=
  {| st_generation := 7; st_capacity := 2; st_last_sequence := None; st_frames := [];
     st_stats := default_stats |}.

(** The same pipeline after three submissions. *)
Definition sample_full : PipelineState :=
  (run sample_pipeline (OpSubmit <$> [sample_frame 7 1; sample_frame 7 2; sample_frame 7 5])).1.

(** A history with every kind of reply. *)
Definition sample_ops : list op :=
  [OpTake; OpSubmit (sample_frame 7 1); OpSubmit (sample_frame 6 9); OpSubmit (sample_frame 7 1);
   OpSubmit (sample_frame 7 2); OpSubmit (sample_frame 7 5); OpTake;
   OpSink {| generation := 7; sequence := 2 |}; OpBegin 7; OpBegin 8; OpSnapshot;
   OpSink {| generation := 7; sequence := 5 |}; OpSubmit (sample_frame 8 0); OpTake].

Lemma sample_full_inv : pipeline_inv sample_full.
Proof. apply run_inv, (pipeline_new_inv 2 7); [lia|reflexivity]. Qed.

Lemma submit_correct_witness :
  submit_spec sample_full (sample_frame 7 6)
    (enqueue sample_full [sample_frame 7 5] (sample_frame 7 6)
       (add_dropped_capacity (st_stats sample_full)))
    (DroppedOldest {| generation := 7; sequence := 2 |}).
Proof.
  exact (proj1 (submit_correct sample_full (sample_frame 7 6) _ _ sample_full_inv)
           ltac:(vm_compute; reflexivity)).
Defined.

Lemma pipeline_invariant_witness :
  pipeline_inv (run sample_pipeline sample_ops).1 /\
  queue_sequences sample_full = [2; 5].
Proof.
  split; [|vm_compute; reflexivity].
  apply (pipeline_invariant 2 7); [vm_compute; split; discriminate | reflexivity].
Defined.

Lemma frames_taken_in_order_witness :
  let h := (run sample_pipeline sample_ops).2 in
  taken_frames h = [sample_frame 7 2; sample_frame 8 0] /\
  StronglySorted id_lt (frame_id <$> accepted_frames h).
Proof.
  split; [vm_compute; reflexivity|].
  apply (frames_taken_in_order 2 7 sample_pipeline sample_ops
           (run sample_pipeline sample_ops).1 (run sample_pipeline sample_ops).2);
    [vm_compute; split; discriminate | reflexivity | apply surjective_pairing].
Defined.

Lemma begin_generation_fences_witness :
  let after := [OpSink {| generation := 7; sequence := 5 |};
                OpSink {| generation := 9; sequence := 1 |};
                OpSubmit (sample_frame 9 1); OpTake] in
  Forall (fun id => 9 <= generation id)
    (live_ids (run (begin_generation sample_full 9).1 after).2) /\
  live_ids (run (begin_generation sample_full 9).1 after).2 =
    replicate 3 {| generation := 9; sequence := 1 |}.
Proof.
  split; [|vm_compute; reflexivity].
  refine (proj1 (proj2 (begin_generation_fences 2 7 sample_pipeline
    (OpSubmit <$> [sample_frame 7 1; sample_frame 7 2; sample_frame 7 5]) sample_full
    _ 9 2 (begin_generation sample_full 9).1 _ _ _ _ _ (surjective_pairing _) _
    (surjective_pairing _))));
    [vm_compute; split; discriminate | reflexivity | vm_compute; reflexivity].
Defined.

Lemma stats_account_for_frames_witness :
  st_stats (run sample_pipeline sample_ops).1
  = saturate (history_stats (run sample_pipeline sample_ops).2) /\
  st_stats (run sample_pipeline sample_ops).1 = stats_of 4 2 1 1 1 1 1.
Proof.
  split; [|vm_compute; reflexivity].
  refine (proj1 (stats_account_for_frames 2 7 sample_pipeline sample_ops _ _ _ _
    (surjective_pairing _)));
    [vm_compute; split; discriminate | reflexivity].
Defined.

Lemma overflow_keeps_newest_witness :
  let fs := sample_frame 7 <$> [1; 2; 5; 6; 8] in
  taken_frames (run sample_pipeline ((OpSubmit <$> fs) ++ replicate 1 OpTake)).2
  = take 1 (drop (Z.to_nat (len fs - 2)) fs)
  /\ take 1 (drop (Z.to_nat (len fs - 2)) fs) = [sample_frame 7 6].
Proof.
  split; [|vm_compute; reflexivity].
  refine (proj1 (proj2 (overflow_keeps_newest 2 7 sample_pipeline
    (sample_frame 7 <$> [1; 2; 5; 6; 8]) 1 _ _ _ _ _ _ (surjective_pairing _))));
    [vm_compute; split; discriminate | reflexivity | by repeat constructor
    | by repeat constructor].
Defined.
