(* ===== verification/Concurrency.v ===== *)
(** * Concurrency: the mutex around the pipeline

    Models the [Mutex<PipelineState>] of [FramePipeline] in rust/src/frame.rs,
    the threads that call its methods and [lock_state].

    A call blocks in [lock_state], runs its body while it holds the guard and
    drops the guard when it returns.  A body is not atomic by itself: it reads the
    data in one step and writes its result in a later one, and other threads move in
    between, so that its atomicity is the work of the mutex.  [with_current_generation] keeps the guard
    while the caller's closure runs, for as long as the closure likes; the
    closure may panic, which drops the guard and poisons the mutex.
    [lock_state] takes the guard out of a [PoisonError], so a poisoned mutex is
    locked like any other.  The closure does not call the pipeline itself.

    [cstep] performs one action of one thread and [crun] a schedule of them, so
    a theorem over all schedules covers every interleaving. *)

From Stdlib Require Import Sorted.
From S2P Require Import Prelude Fnv Frame Pipeline.

Open Scope Z_scope.

(** ** Threads *)

Inductive thread :=
| Idle                           (* outside the pipeline *)
| Waiting (o : op)               (* blocked in [lock_state] *)
| Holding (o : op)               (* guard taken, body not yet run *)
| Working (o : op) (seen : PipelineState)  (* data read, result not yet written *)
| InSink (id : FrameId)          (* guard held, the sink closure runs *)
| Leaving (o : op) (r : reply).  (* body done, guard about to drop *)

(** The mutex with the data it protects, and the threads. *)
Record conf := {
  c_holder : option nat;
  c_poisoned : bool;
  c_data : PipelineState;
  c_threads : list thread;
}.

Inductive action :=
| ACall (t : nat) (o : op)
| ALock (t : nat)
| ARead (t : nat)
| ABody (t : nat)
| ASinkReturns (t : nat)
| ASinkPanics (t : nat)
| AReturn (t : nat).

(** What an observer sees; [ELin] is the moment the body writes its result. *)
Inductive event :=
| ECall (t : nat) (o : op)
| ELock (t : nat) (poisoned : bool)
| ERead (t : nat)
| ELin (t : nat) (o : op) (r : reply)
| ESinkReturns (t : nat)
| ESinkPanics (t : nat)
| EReturn (t : nat) (o : op) (r : reply).

Definition initial (st : PipelineState) (n : nat) : conf :=
  {| c_holder := None; c_poisoned := false; c_data := st; c_threads := replicate n Idle |}.

Definition set_thread (c : conf) (t : nat) (s : thread) : list thread :=
  <[t := s]> (c_threads c).

(** ** Steps *)

(** [self.state.lock().unwrap_or_else(PoisonError::into_inner)]: blocks while
    the mutex is held; the guard comes out of [Ok] and of [Err] alike, and the
    poison flag stays. *)
Definition lock_state (c : conf) (t : nat) (o : op) : option (conf * event) :=
  match c_holder c with
  | Some _ => None
  | None =>
      Some ({| c_holder := Some t; c_poisoned := c_poisoned c; c_data := c_data c;
               c_threads := set_thread c t (Holding o) |}, ELock t (c_poisoned c))
  end.

(** The body of a method under the guard, from the data that it has read: it
    writes what it computed from it.  When [with_current_generation] lets its
    closure run, the thread stays in the sink. *)
Definition body (c : conf) (t : nat) (o : op) (seen : PipelineState) : conf * event :=
  let '(data, r) := exec_op seen o in
  ({| c_holder := c_holder c; c_poisoned := c_poisoned c; c_data := data;
      c_threads := set_thread c t
        match o, r with
        | OpSink id, RSink (inr _) => InSink id
        | _, _ => Leaving o r
        end |}, ELin t o r).

(** Dropping the guard, which poisons the mutex during a panic. *)
Definition drop_guard (c : conf) (t : nat) (panicking : bool) : conf :=
  {| c_holder := None; c_poisoned := c_poisoned c || panicking; c_data := c_data c;
     c_threads := set_thread c t Idle |}.

Definition move (c : conf) (t : nat) (s : thread) : conf :=
  {| c_holder := c_holder c; c_poisoned := c_poisoned c; c_data := c_data c;
     c_threads := set_thread c t s |}.

(** One action; [None] when it is not enabled. *)
Definition cstep (c : conf) (a : action) : option (conf * event) :=
  match a with
  | ACall t o =>
      match c_threads c !! t with
      | Some Idle => Some (move c t (Waiting o), ECall t o)
      | _ => None
      end
  | ALock t =>
      match c_threads c !! t with
      | Some (Waiting o) => lock_state c t o
      | _ => None
      end
  | ARead t =>
      match c_threads c !! t with
      | Some (Holding o) => Some (move c t (Working o (c_data c)), ERead t)
      | _ => None
      end
  | ABody t =>
      match c_threads c !! t with
      | Some (Working o seen) => Some (body c t o seen)
      | _ => None
      end
  | ASinkReturns t =>
      match c_threads c !! t with
      | Some (InSink id) => Some (move c t (Leaving (OpSink id) (RSink (inr tt))), ESinkReturns t)
      | _ => None
      end
  | ASinkPanics t =>
      match c_threads c !! t with
      | Some (InSink id) => Some (drop_guard c t true, ESinkPanics t)
      | _ => None
      end
  | AReturn t =>
      match c_threads c !! t with
      | Some (Leaving o r) => Some (drop_guard c t false, EReturn t o r)
      | _ => None
      end
  end.

(** A schedule. *)
Fixpoint crun (c : conf) (acts : list action) : option (conf * list event) :=
  match acts with
  | [] => Some (c, [])
  | a :: acts =>
      match cstep c a with
      | Some (c', e) =>
          match crun c' acts with
          | Some (c'', tr) => Some (c'', e :: tr)
          | None => None
          end
      | None => None
      end
  end.

(** ** What a trace says *)

(** The calls in the order in which they took effect, with their replies. *)
Definition linearization (tr : list event) : list (op * reply) :=
  omap (fun e => match e with ELin _ o r => Some (o, r) | _ => None end) tr.

Definition event_thread (e : event) : nat :=
  match e with
  | ECall t _ | ELock t _ | ERead t | ELin t _ _ | ESinkReturns t | ESinkPanics t | EReturn t _ _ => t
  end.

Definition of_thread (t : nat) (e : event) : bool := (event_thread e =? t)%nat.

(** The end of the sink of thread [t]. *)
Definition sink_end (t : nat) (e : event) : Prop := e = ESinkReturns t \/ e = ESinkPanics t.

Definition critical (s : thread) : Prop :=
  match s with
  | Holding _ | Working _ _ | InSink _ | Leaving _ _ => True
  | Idle | Waiting _ => False
  end.

(** The mutex excludes: the holder is the one thread in its critical section. *)
Definition exclusive (c : conf) : Prop :=
  (forall t s, c_threads c !! t = Some s -> critical s -> c_holder c = Some t)
  /\ (forall t, c_holder c = Some t -> exists s, c_threads c !! t = Some s /\ critical s).

(** ** The step relation *)

(** [cstep] as rules. *)
Inductive cstep_spec (c : conf) : action -> conf -> event -> Prop :=
| spec_call t o :
    c_threads c !! t = Some Idle ->
    cstep_spec c (ACall t o) (move c t (Waiting o)) (ECall t o)
| spec_lock t o :
    c_threads c !! t = Some (Waiting o) -> c_holder c = None ->
    cstep_spec c (ALock t)
      {| c_holder := Some t; c_poisoned := c_poisoned c; c_data := c_data c;
         c_threads := set_thread c t (Holding o) |} (ELock t (c_poisoned c))
| spec_read t o :
    c_threads c !! t = Some (Holding o) ->
    cstep_spec c (ARead t) (move c t (Working o (c_data c))) (ERead t)
| spec_sink t id seen :
    c_threads c !! t = Some (Working (OpSink id) seen) -> generation id = st_generation seen ->
    cstep_spec c (ABody t)
      {| c_holder := c_holder c; c_poisoned := c_poisoned c; c_data := seen;
         c_threads := set_thread c t (InSink id) |} (ELin t (OpSink id) (RSink (inr tt)))
| spec_body t o seen d r :
    c_threads c !! t = Some (Working o seen) -> exec_op seen o = (d, r) ->
    live_id (o, r) = None \/ (forall id, o <> OpSink id) ->
    cstep_spec c (ABody t)
      {| c_holder := c_holder c; c_poisoned := c_poisoned c; c_data := d;
         c_threads := set_thread c t (Leaving o r) |} (ELin t o r)
| spec_sink_returns t id :
    c_threads c !! t = Some (InSink id) ->
    cstep_spec c (ASinkReturns t) (move c t (Leaving (OpSink id) (RSink (inr tt)))) (ESinkReturns t)
| spec_sink_panics t id :
    c_threads c !! t = Some (InSink id) ->
    cstep_spec c (ASinkPanics t) (drop_guard c t true) (ESinkPanics t)
| spec_return t o r :
    c_threads c !! t = Some (Leaving o r) ->
    cstep_spec c (AReturn t) (drop_guard c t false) (EReturn t o r).

Lemma body_spec c t o seen :
  c_threads c !! t = Some (Working o seen) ->
  cstep_spec c (ABody t) (body c t o seen).1 (body c t o seen).2.
Proof.
  intros Ht. unfold body. destruct (exec_op seen o) as [d r] eqn:Ho.
  destruct o as [f| |id|g|]; cbn [fst snd]; try (by eapply spec_body; [done|done|by right]).
  cbn in Ho. unfold with_current_generation in Ho.
  destruct (negb (generation id =? st_generation seen)) eqn:Hg; reflect_in Hg;
    injection Ho as <- <-.
  - eapply spec_body; [done| |by left]. cbn. unfold with_current_generation.
    by rewrite (proj2 (Z.eqb_neq _ _) Hg).
  - apply (spec_sink c t id seen Ht Hg).
Qed.

Lemma cstepP c a c' e : cstep c a = Some (c', e) -> cstep_spec c a c' e.
Proof.
  unfold cstep. destruct a as [t o|t|t|t|t|t|t];
    destruct (c_threads c !! t) as [[|o'|o'|o' seen|id|o' r]|] eqn:Ht; try done.
  - intros [= <- <-]. by constructor.
  - unfold lock_state. destruct (c_holder c) eqn:Hh; [done|]. intros [= <- <-]. by constructor.
  - intros [= <- <-]. by constructor.
  - intros [= H]. pose proof (body_spec c t o' seen Ht) as Hs. by rewrite H in Hs.
  - intros [= <- <-]. by constructor.
  - intros [= <- <-]. by econstructor.
  - intros [= <- <-]. by constructor.
Qed.

(** The thread of the event is the one thread whose state changes. *)
Lemma cstep_threads c a c' e :
  cstep_spec c a c' e ->
  exists s s', c_threads c !! event_thread e = Some s
    /\ c_threads c' = <[event_thread e := s']> (c_threads c).
Proof. by destruct 1; eexists _, _; split. Qed.

(** ** The invariant of a schedule *)

Lemma exclusive_step c a c' e : exclusive c -> cstep_spec c a c' e -> exclusive c'.
Proof.
  intros [Hin Hout] Hs.
  assert (Hset : forall t s s', c_threads c !! t = Some s ->
            set_thread c t s' !! t = Some s').
  { intros t s s' Ht. unfold set_thread. apply list_lookup_insert_eq. by eapply lookup_lt_Some. }
  split.
  - intros u s Hu Hcr. destruct Hs; cbn in *;
      apply list_lookup_insert_Some in Hu as [(<- & <- & _)|[Hne Hu]];
      try done; try (by eapply Hin; [eassumption|done]);
      pose proof (Hin u s Hu Hcr); try congruence;
      pose proof (Hin t _ H I); congruence.
  - intros u Hh. destruct Hs; cbn in *; try done; simplify_eq;
      try (by eexists; split; [eapply Hset; eassumption|]);
      destruct (Hout u Hh) as (s & Hu & Hcr); destruct (decide (t = u)) as [->|Hne];
      try (by simplify_eq); try (by eexists; split; [eapply Hset; eassumption|]);
      exists s; unfold set_thread; by rewrite list_lookup_insert_ne.
Qed.

(** The last events of a thread, from its state. *)
Definition view (t : nat) (s : thread) (p : list event) : Prop :=
  match s with
  | Idle => True
  | Waiting o => exists q, p = q ++ [ECall t o]
  | Holding o => exists q b, p = q ++ [ECall t o; ELock t b]
  | Working o _ => exists q b, p = q ++ [ECall t o; ELock t b; ERead t]
  | InSink id =>
      exists q b, p = q ++ [ECall t (OpSink id); ELock t b; ERead t; ELin t (OpSink id) (RSink (inr tt))]
  | Leaving o r =>
      exists q b z, p = q ++ [ECall t o; ELock t b; ERead t; ELin t o r] ++ z
        /\ (z = [] \/ z = [ESinkReturns t])
  end.

(** The configuration [c] after the trace [tr] of a pipeline that started as
    [st0]. *)
Record cinv (st0 : PipelineState) (c : conf) (tr : list event) : Prop := {
  ci_exclusive : exclusive c;
  ci_data : pipeline_inv (c_data c);
  ci_linear : run st0 (fst <$> linearization tr) = (c_data c, linearization tr);
  ci_sink : forall t id, c_threads c !! t = Some (InSink id) ->
              generation id = st_generation (c_data c);
  ci_seen : forall t o seen, c_threads c !! t = Some (Working o seen) -> seen = c_data c;
  ci_view : forall t s, c_threads c !! t = Some s -> view t s (filter (of_thread t) tr);
}.

Lemma linearization_app tr1 tr2 :
  linearization (tr1 ++ tr2) = linearization tr1 ++ linearization tr2.
Proof. unfold linearization. by rewrite omap_app. Qed.

(** A body extends the sequential run by its call. *)
Lemma run_snoc st0 tr st o st' r t :
  run st0 (fst <$> linearization tr) = (st, linearization tr) ->
  exec_op st o = (st', r) ->
  run st0 (fst <$> linearization (tr ++ [ELin t o r])) = (st', linearization (tr ++ [ELin t o r])).
Proof.
  intros Hrun Ho. rewrite linearization_app, fmap_app. cbn [linearization].
  eapply run_app; [exact Hrun|]. cbn. by rewrite Ho.
Qed.

Lemma linear_step st0 c tr a c' e :
  cinv st0 c tr -> cstep_spec c a c' e ->
  run st0 (fst <$> linearization (tr ++ [e])) = (c_data c', linearization (tr ++ [e])).
Proof.
  intros [_ _ Hl _ Hseen _] Hs.
  destruct Hs; try (rewrite linearization_app; cbn; by rewrite app_nil_r);
    pose proof (Hseen _ _ _ H) as ->; cbn [c_data].
  - eapply run_snoc; [exact Hl|]. cbn. unfold with_current_generation.
    by rewrite (proj2 (Z.eqb_eq _ _) H0).
  - by eapply run_snoc.
Qed.

Lemma data_step st0 c tr a c' e :
  cinv st0 c tr -> cstep_spec c a c' e -> pipeline_inv (c_data c').
Proof.
  intros [_ Hd _ _ Hseen _] Hs. destruct Hs; try done; pose proof (Hseen _ _ _ H) as ->; cbn; [done|].
  pose proof (exec_op_inv (c_data c) o Hd) as Hi. by rewrite H0 in Hi.
Qed.

(** A running sink excludes every body, so the generation it was let in with
    stays the active one. *)
Lemma sink_step st0 c tr a c' e t id :
  cinv st0 c tr -> cstep_spec c a c' e ->
  c_threads c' !! t = Some (InSink id) -> generation id = st_generation (c_data c').
Proof.
  intros [[Hin _] _ _ Hsink _ _] Hs Ht.
  destruct Hs; cbn in *; apply list_lookup_insert_Some in Ht as [(<- & ? & _)|[Hne Ht]];
    simplify_eq; try done; try (by eapply Hsink);
    pose proof (Hin t _ Ht I); pose proof (Hin t0 _ H I); congruence.
Qed.

(** Nobody writes between the read and the write of a body: what it has read is
    still the data. *)
Lemma seen_step st0 c tr a c' e t o seen :
  cinv st0 c tr -> cstep_spec c a c' e ->
  c_threads c' !! t = Some (Working o seen) -> seen = c_data c'.
Proof.
  intros [[Hin _] _ _ _ Hseen _] Hs Ht.
  destruct Hs; cbn in *; apply list_lookup_insert_Some in Ht as [(<- & ? & _)|[Hne Ht]];
    simplify_eq; try done; try (by eapply Hseen);
    pose proof (Hin t _ Ht I); pose proof (Hin t0 _ H I); congruence.
Qed.

Lemma filter_other t e tr :
  event_thread e <> t -> filter (of_thread t) (tr ++ [e]) = filter (of_thread t) tr.
Proof.
  intros Hne. rewrite list.filter_app, filter_cons_False, filter_nil, app_nil_r; [done|].
  unfold of_thread. by rewrite Is_true_true, Nat.eqb_eq.
Qed.

Lemma filter_own e tr :
  filter (of_thread (event_thread e)) (tr ++ [e]) = filter (of_thread (event_thread e)) tr ++ [e].
Proof.
  rewrite list.filter_app, filter_cons_True, filter_nil; [done|].
  unfold of_thread. by rewrite Is_true_true, Nat.eqb_eq.
Qed.

Lemma view_step st0 c tr a c' e t s :
  cinv st0 c tr -> cstep_spec c a c' e ->
  c_threads c' !! t = Some s -> view t s (filter (of_thread t) (tr ++ [e])).
Proof.
  intros [_ _ _ _ _ Hview] Hs Ht.
  destruct (cstep_threads _ _ _ _ Hs) as (s0 & s1 & Hs0 & Hthreads).
  destruct (decide (event_thread e = t)) as [<-|Hne].
  - rewrite filter_own. apply Hview in Hs0 as Hv. clear Hview.
    destruct Hs; cbn in *;
      apply list_lookup_insert_Some in Ht as [(_ & <- & _)|[? _]]; try done; simplify_eq;
      cbn in *; destruct_and?.
    + by eexists.
    + destruct Hv as (q & ->). eexists q, _. by rewrite <- app_assoc.
    + destruct Hv as (q & b & ->). exists q, b. by rewrite <- app_assoc.
    + destruct Hv as (q & b & ->). exists q, b. by rewrite <- app_assoc.
    + destruct Hv as (q & b & ->). exists q, b, []. rewrite <- app_assoc. by split; [|left].
    + destruct Hv as (q & b & ->). eexists q, b, _. rewrite <- app_assoc. by split; [|right].
  - rewrite filter_other by done. apply Hview. rewrite Hthreads in Ht.
    by rewrite list_lookup_insert_ne in Ht.
Qed.

Lemma cinv_step st0 c tr a c' e :
  cinv st0 c tr -> cstep_spec c a c' e -> cinv st0 c' (tr ++ [e]).
Proof.
  intros Hc Hs. constructor.
  - eapply exclusive_step; [apply Hc|done].
  - by eapply data_step.
  - by eapply linear_step.
  - intros t id. by eapply sink_step.
  - intros t o seen. by eapply seen_step.
  - intros t s. by eapply view_step.
Qed.

(** ** Schedules *)

Lemma crun_cons c a acts c' tr :
  crun c (a :: acts) = Some (c', tr) <->
  exists c1 e tr1, cstep c a = Some (c1, e) /\ crun c1 acts = Some (c', tr1) /\ tr = e :: tr1.
Proof.
  cbn. destruct (cstep c a) as [[c1 e]|]; [destruct (crun c1 acts) as [[c2 tr2]|] eqn:Hr|];
    naive_solver.
Qed.

Lemma crun_app_inv c acts c' tr1 tr2 :
  crun c acts = Some (c', tr1 ++ tr2) ->
  exists a1 a2 c1, acts = a1 ++ a2 /\ crun c a1 = Some (c1, tr1) /\ crun c1 a2 = Some (c', tr2).
Proof.
  revert c acts. induction tr1 as [|e tr1 IH]; intros c acts Hrun; [by exists [], acts, c|].
  destruct acts as [|a acts]; [done|].
  apply crun_cons in Hrun as (c1 & e' & tr & Hstep & Hrun & Htr). cbn in Htr. simplify_eq.
  apply IH in Hrun as (a1 & a2 & c2 & -> & H1 & H2).
  exists (a :: a1), a2, c2. split_and!; [done| |done]. apply crun_cons. by eexists _, _, _.
Qed.

Lemma crun_app c a1 c1 tr1 a2 c2 tr2 :
  crun c a1 = Some (c1, tr1) -> crun c1 a2 = Some (c2, tr2) ->
  crun c (a1 ++ a2) = Some (c2, tr1 ++ tr2).
Proof.
  revert c tr1. induction a1 as [|a a1 IH]; intros c tr1 H1 H2; [by cbn in H1; simplify_eq|].
  apply crun_cons in H1 as (c' & e & tr & Hstep & Hrun & ->). cbn [app].
  apply crun_cons. eauto 10.
Qed.

Lemma crun_cinv st0 c tr acts c' tr' :
  cinv st0 c tr -> crun c acts = Some (c', tr') -> cinv st0 c' (tr ++ tr').
Proof.
  revert c tr tr'. induction acts as [|a acts IH]; intros c tr tr' Hc Hrun.
  - cbn in Hrun. simplify_eq. by rewrite app_nil_r.
  - apply crun_cons in Hrun as (c1 & e & tr1 & Hstep & Hrun & ->).
    rewrite cons_middle, app_assoc. eapply IH; [|exact Hrun].
    by eapply cinv_step, cstepP.
Qed.

Lemma cinv_initial st0 n : pipeline_inv st0 -> cinv st0 (initial st0 n) [].
Proof.
  intros Hinv. constructor; cbn; [|done|done|..].
  - split; cbn; [|done]. by intros t s [-> _]%lookup_replicate.
  - by intros t id [? _]%lookup_replicate.
  - by intros t o seen [? _]%lookup_replicate.
  - by intros t s [-> _]%lookup_replicate.
Qed.

(** A configuration that a schedule of a new pipeline reaches. *)
Definition reaches `{Platform} (st0 : PipelineState) (n : nat) (c : conf) (tr : list event) : Prop :=
  (exists cap g, in_width usize_max cap /\ pipeline_new cap g = Ok st0)
  /\ exists acts, crun (initial st0 n) acts = Some (c, tr).

Lemma reaches_cinv `{Platform} st0 n c tr : reaches st0 n c tr -> cinv st0 c tr.
Proof.
  intros [(cap & g & [Hcap _] & Hnew) [acts Hrun]]. rewrite <- (app_nil_l tr).
  eapply crun_cinv; [|exact Hrun]. by eapply cinv_initial, pipeline_new_inv.
Qed.

(** A trace of a reachable configuration, cut at one event. *)
Lemma reaches_split `{Platform} st0 n c tr1 e tr2 :
  reaches st0 n c (tr1 ++ e :: tr2) ->
  exists c1 a c2 acts, cinv st0 c1 tr1 /\ cstep_spec c1 a c2 e
    /\ cinv st0 c2 (tr1 ++ [e]) /\ crun c2 acts = Some (c, tr2).
Proof.
  intros [Hnew [acts Hrun]]. apply crun_app_inv in Hrun as (a1 & a2 & c1 & -> & Hrun1 & Hrun2).
  destruct a2 as [|a a2]; [done|].
  apply crun_cons in Hrun2 as (c2 & e' & tr & Hstep%cstepP & Hrun2 & Htr). simplify_eq.
  assert (Hc : cinv st0 c1 tr1) by (apply (reaches_cinv st0 n); split; eauto).
  exists c1, a, c2, a2. split_and!; [done|done| |done]. by eapply cinv_step.
Qed.

(** ** Order within a thread *)

(** Not a call, an effect or a return of thread [t]. *)
Definition quiet (t : nat) (e : event) : Prop :=
  match e with
  | ECall u _ | ELin u _ _ | EReturn u _ _ => u <> t
  | ELock _ _ | ERead _ | ESinkReturns _ | ESinkPanics _ => True
  end.

Lemma filter_split (t : nat) (l p q : list event) x :
  filter (of_thread t) l = p ++ x :: q ->
  exists l1 l2, l = l1 ++ x :: l2
    /\ filter (of_thread t) l1 = p /\ filter (of_thread t) l2 = q.
Proof.
  revert p. induction l as [|y l IH]; intros p Hf; [by destruct p|].
  destruct (of_thread t y) eqn:Hy.
  - rewrite filter_cons_True in Hf by (by rewrite Hy).
    destruct p as [|z p]; cbn in Hf; simplify_eq; [by exists [], l|].
    destruct (IH p) as (l1 & l2 & -> & <- & <-); [done|].
    exists (z :: l1), l2. split_and!; [done| |done]. rewrite filter_cons_True; [done|by rewrite Hy].
  - rewrite filter_cons_False in Hf by (rewrite Hy; intros []).
    destruct (IH p) as (l1 & l2 & -> & <- & <-); [done|].
    exists (y :: l1), l2. split_and!; [done| |done]. rewrite filter_cons_False; [done|rewrite Hy; intros []].
Qed.

Lemma filter_quiet t l : Forall (quiet t) (filter (of_thread t) l) -> Forall (quiet t) l.
Proof.
  induction l as [|e l IH]; intros Hl; [done|]. destruct (of_thread t e) eqn:He.
  - rewrite filter_cons_True in Hl by (by rewrite He). apply Forall_cons_1 in Hl as [? ?].
    constructor; auto.
  - rewrite filter_cons_False in Hl by (rewrite He; intros []). constructor; [|auto].
    apply Nat.eqb_neq in He. by destruct e; cbn in *.
Qed.

(** A call takes effect once, between its invocation and its return. *)
Lemma leaving_order st0 c tr t o r :
  cinv st0 c tr -> c_threads c !! t = Some (Leaving o r) ->
  exists a b d, tr = a ++ ECall t o :: b ++ ELin t o r :: d /\ Forall (quiet t) (b ++ d).
Proof.
  intros [_ _ _ _ _ Hview] Ht. apply Hview in Ht as (q & b & z & Hf & Hz).
  apply filter_split in Hf as (l1 & l2 & -> & _ & Hf).
  apply (filter_split t l2 [ELock t b; ERead t]) in Hf as (l3 & l4 & -> & Hf3 & Hf4).
  exists l1, l3, l4. split; [done|]. apply Forall_app. split; apply filter_quiet.
  - rewrite Hf3. by repeat constructor.
  - rewrite Hf4. destruct Hz as [-> | ->]; by repeat constructor.
Qed.

(** ** Sinks *)

(** A sink runs until it ends. *)
Lemma sink_stays c acts c' tr t id :
  crun c acts = Some (c', tr) -> c_threads c !! t = Some (InSink id) ->
  Exists (sink_end t) tr \/ c_threads c' !! t = Some (InSink id).
Proof.
  revert c tr. induction acts as [|a acts IH]; intros c tr Hrun Ht.
  - cbn in Hrun. simplify_eq. by right.
  - apply crun_cons in Hrun as (c1 & e & tr1 & Hstep%cstepP & Hrun & ->).
    destruct (decide (event_thread e = t)) as [He|Hne].
    + left. constructor 1. unfold sink_end. destruct Hstep; cbn in He; simplify_eq; auto.
    + destruct (IH c1 tr1 Hrun) as [?|?]; [|by left; constructor 2|by right].
      destruct (cstep_threads _ _ _ _ Hstep) as (_ & s' & _ & ->).
      by rewrite list_lookup_insert_ne.
Qed.

Lemma crun_generation st0 c tr acts c' tr' :
  cinv st0 c tr -> crun c acts = Some (c', tr') ->
  st_generation (c_data c) <= st_generation (c_data c').
Proof.
  revert c tr tr'. induction acts as [|a acts IH]; intros c tr tr' Hc Hrun.
  - cbn in Hrun. simplify_eq. lia.
  - apply crun_cons in Hrun as (c1 & e & tr1 & Hstep%cstepP & Hrun & ->).
    pose proof (cinv_step _ _ _ _ _ _ Hc Hstep) as Hc1.
    pose proof (IH c1 _ _ Hc1 Hrun) as Hle. destruct Hc as [_ Hinv _ _ Hseen _].
    destruct Hstep; cbn in *; try lia; pose proof (Hseen _ _ _ H) as ->; [lia|].
    pose proof (exec_op_spec (c_data c) o Hinv) as Ho.
    rewrite H0 in Ho. cbn in Ho. destruct Ho as [f st' o []| | | | | | |]; cbn in *; lia.
Qed.

(** ** Progress *)

(** Steps a thread still needs to be outside the pipeline. *)
Definition pending (s : thread) : nat :=
  match s with Idle => 0 | Waiting _ => 5 | Holding _ => 4 | Working _ _ => 3 | InSink _ => 2 | Leaving _ _ => 1 end.

Definition total_pending (c : conf) : nat := sum_list (pending <$> c_threads c).

Definition is_call (a : action) : bool := match a with ACall _ _ => true | _ => false end.

Lemma sum_insert (l : list thread) t s s' :
  l !! t = Some s ->
  (sum_list (pending <$> <[t := s']> l) + pending s = sum_list (pending <$> l) + pending s')%nat.
Proof.
  revert t. induction l as [|x l IH]; intros [|t] Ht; try done.
  - injection Ht as ->. cbn. lia.
  - specialize (IH t Ht). change (<[S t := s']> (x :: l)) with (x :: <[t := s']> l).
    rewrite !fmap_cons. cbn [sum_list]. lia.
Qed.

Lemma cstep_pending c a c' e :
  cstep_spec c a c' e -> is_call a = false -> (total_pending c' < total_pending c)%nat.
Proof.
  intros Hs Ha. unfold total_pending.
  destruct Hs as [t o H|t o H|t o H|t id seen H|t o seen d r H|t id H|t id H|t o r H]; [done|..];
    cbn [c_threads move drop_guard]; unfold set_thread;
    match goal with |- context [<[t := ?s']> _] => pose proof (sum_insert _ t _ s' H) end;
    cbn [pending] in *; lia.
Qed.

Lemma crun_bounded c acts c' tr :
  crun c acts = Some (c', tr) -> Forall (fun a => is_call a = false) acts ->
  (length acts + total_pending c' <= total_pending c)%nat.
Proof.
  revert c tr. induction acts as [|a acts IH]; intros c tr Hrun Hcalls.
  - cbn in Hrun. simplify_eq. cbn. lia.
  - apply crun_cons in Hrun as (c1 & e & tr1 & Hstep%cstepP & Hrun & ->).
    apply Forall_cons_1 in Hcalls as [Ha Hcalls].
    pose proof (cstep_pending _ _ _ _ Hstep Ha). pose proof (IH c1 tr1 Hrun Hcalls). cbn. lia.
Qed.

(** A thread in its critical section can always move on. *)
Lemma critical_steps c t s :
  c_threads c !! t = Some s -> critical s ->
  exists a c' e, is_call a = false /\ cstep c a = Some (c', e).
Proof.
  intros Ht Hs. destruct s as [|o|o|o seen|id|o r]; try done.
  - exists (ARead t). cbn. rewrite Ht. by eexists _, _.
  - exists (ABody t). cbn. rewrite Ht. destruct (body c t o seen) as [c' e]. by exists c', e.
  - exists (ASinkReturns t). cbn. rewrite Ht. by eexists _, _.
  - exists (AReturn t). cbn. rewrite Ht. by eexists _, _.
Qed.

(** Whoever waits, someone moves: the holder, or, when the mutex is free, any
    waiting thread, poisoned or not. *)
Lemma no_deadlock c t s :
  exclusive c -> c_threads c !! t = Some s -> s <> Idle ->
  exists a c' e, is_call a = false /\ cstep c a = Some (c', e).
Proof.
  intros [_ Hout] Ht Hs. destruct (c_holder c) as [u|] eqn:Hh.
  - destruct (Hout u eq_refl) as (s' & Hu & Hcr). by eapply critical_steps.
  - destruct s as [|o|o|o seen|id|o r] eqn:Hseq; [done|..];
      try (by eapply critical_steps; [exact Ht|]).
    exists (ALock t). cbn. rewrite Ht. unfold lock_state. rewrite Hh. by eexists _, _.
Qed.

Lemma idle_dec (l : list thread) :
  Forall (fun s => s = Idle) l \/ exists t s, l !! t = Some s /\ s <> Idle.
Proof.
  induction l as [|s l IH]; [by left|]. destruct s; [|right; by exists 0%nat; eexists..].
  destruct IH as [Hl|(t & s & Ht & Hs)]; [left; by constructor|right; by exists (S t), s].
Qed.

(** Without new calls the threads drain. *)
Lemma drains st0 c tr :
  cinv st0 c tr ->
  exists acts c' tr', crun c acts = Some (c', tr') /\ Forall (fun a => is_call a = false) acts
    /\ Forall (fun s => s = Idle) (c_threads c').
Proof.
  remember (total_pending c) as n eqn:Hn. revert c tr Hn.
  induction (lt_wf n) as [n _ IH]. intros c tr Hn Hc.
  destruct (idle_dec (c_threads c)) as [Hidle|(t & s & Ht & Hs)].
  - by exists [], c, [].
  - destruct (no_deadlock c t s (ci_exclusive _ _ _ Hc) Ht Hs) as (a & c1 & e & Ha & Hstep).
    pose proof (cstepP _ _ _ _ Hstep) as Hspec.
    pose proof (cstep_pending _ _ _ _ Hspec Ha) as Hlt.
    destruct (IH (total_pending c1) ltac:(lia) c1 (tr ++ [e]) eq_refl
                (cinv_step _ _ _ _ _ _ Hc Hspec)) as (acts & c' & tr' & Hrun & Hcalls & Hidle).
    exists (a :: acts), c', (e :: tr'). split_and!; [|by constructor|done].
    apply crun_cons. by eexists _, _, _.
Qed.

(** ** Theorems *)

Section theorems.
Context `{Platform}.

(** C4 The pipeline is linearizable.  For every interleaving of any number of
    threads, panicking sinks included, the calls in the order of their effects
    are a sequential run of the methods with the same replies and the same final
    state, although a method reads the data and writes its result in separate steps:
    the mutex lets nobody write in between.  And each completed call took effect exactly once, between its
    invocation and its return, so the order respects real time. *)
Theorem pipeline_linearizable st0 n c tr :
  reaches st0 n c tr ->
  run st0 (fst <$> linearization tr) = (c_data c, linearization tr)
  /\ forall tr1 t o r tr2, tr = tr1 ++ EReturn t o r :: tr2 ->
       exists a b d, tr1 = a ++ ECall t o :: b ++ ELin t o r :: d /\ Forall (quiet t) (b ++ d).
Proof.
  intros Hr. split; [apply (reaches_cinv _ _ _ _ Hr)|]. intros tr1 t o r tr2 ->.
  apply reaches_split in Hr as (c1 & a & c2 & acts & Hc1 & Hstep & _ & _).
  inversion Hstep; subst. by eapply leaving_order.
Qed.

(** C29 Poisoning is harmless.  In every reachable configuration, also after
    sinks have panicked, exactly the holder of the mutex is in a critical
    section and the pipeline invariant holds of the data under it. *)
Theorem pipeline_exclusive_and_consistent st0 n c tr :
  reaches st0 n c tr -> exclusive c /\ pipeline_inv (c_data c).
Proof. intros Hr. destruct (reaches_cinv _ _ _ _ Hr). done. Qed.

(** C5 No call takes effect while a sink runs: between the check of
    [with_current_generation] and any later effect the sink has ended.  In
    particular [begin_generation] cannot slip between the check and the
    submission, and a generation it begins afterwards is newer than the sink's. *)
Theorem sink_runs_in_its_generation st0 n c tr1 t id tr2 u o r tr3 :
  reaches st0 n c (tr1 ++ ELin t (OpSink id) (RSink (inr tt)) :: tr2 ++ ELin u o r :: tr3) ->
  Exists (sink_end t) tr2
  /\ forall g k, o = OpBegin g -> r = RBegin (Ok k) -> generation id < g.
Proof.
  intros Hr.
  apply reaches_split in Hr as (c1 & a1 & c2 & acts & Hc1 & Hstep1 & Hc2 & Hrun).
  assert (Ht : c_threads c2 !! t = Some (InSink id)).
  { inversion Hstep1; subst; cbn; [apply list_lookup_insert_eq; by eapply lookup_lt_Some|].
    match goal with H : _ \/ _ |- _ => destruct H; naive_solver end. }
  apply crun_app_inv in Hrun as (a2 & a3 & c3 & -> & Hrun2 & Hrun3).
  destruct a3 as [|a a3]; [done|].
  apply crun_cons in Hrun3 as (c4 & e & tr & Hstep3%cstepP & _ & Htr). injection Htr as <- <-.
  pose proof (crun_cinv _ _ _ _ _ _ Hc2 Hrun2) as Hc3.
  pose proof (crun_generation _ _ _ _ _ _ Hc2 Hrun2) as Hle.
  pose proof (ci_sink _ _ _ Hc2 t id Ht) as Hg. split.
  - destruct (sink_stays _ _ _ _ _ _ Hrun2 Ht) as [?|Hin]; [done|exfalso].
    destruct (ci_exclusive _ _ _ Hc3) as [Hex _]. pose proof (Hex t _ Hin I).
    inversion Hstep3; subst; pose proof (Hex u _ ltac:(eassumption) I); naive_solver.
  - intros g k -> ->. inversion Hstep3 as [| | | |? ? seen d ? Hw Ho _| | |]; subst.
    rewrite (ci_seen _ _ _ Hc3 _ _ _ Hw) in Ho. cbn in Ho. unfold begin_generation in Ho.
    destruct (g <=? st_generation (c_data c3)) eqn:Hlt; [done|]. reflect_bool. lia.
Qed.

(** C28 No deadlock and no livelock.  From every reachable configuration some
    schedule without new calls brings every thread out of the pipeline, provided
    sinks end; and every such schedule is bounded by five steps per pending
    call.  A poisoned mutex does not strand the teardown path. *)
Theorem pending_calls_complete st0 n c tr :
  reaches st0 n c tr ->
  (exists acts c' tr', crun c acts = Some (c', tr')
     /\ Forall (fun a => is_call a = false) acts /\ Forall (fun s => s = Idle) (c_threads c'))
  /\ forall acts c' tr', crun c acts = Some (c', tr') ->
       Forall (fun a => is_call a = false) acts -> (length acts <= total_pending c)%nat.
Proof.
  intros Hr. split; [by eapply drains, reaches_cinv|].
  intros acts c' tr' Hrun Hcalls. pose proof (crun_bounded _ _ _ _ Hrun Hcalls). lia.
Qed.
End theorems.

(** ** Witnesses *)

(** Two threads: thread 0 submits and enters a sink that panics while thread 1
    waits to begin the next generation; thread 1 then locks the poisoned mutex. *)
Definition sample_schedule : list action :=
  [ACall 0 (OpSubmit (sample_frame 7 1)); ALock 0; ARead 0; ABody 0; AReturn 0;
   ACall 0 (OpSink {| generation := 7; sequence := 1 |}); ALock 0; ARead 0; ACall 1 (OpBegin 8);
   ABody 0; ASinkPanics 0; ALock 1; ARead 1; ABody 1; AReturn 1].

Definition sample_conf : conf :=
  {| c_holder := None; c_poisoned := true;
     c_data := (begin_generation (submit sample_pipeline (sample_frame 7 1)).1 8).1;
     c_threads := [Idle; Idle] |}.

Definition sample_trace_1 : list event :=
  [ECall 0 (OpSubmit (sample_frame 7 1)); ELock 0 false; ERead 0;
   ELin 0 (OpSubmit (sample_frame 7 1)) (RSubmit Queued);
   EReturn 0 (OpSubmit (sample_frame 7 1)) (RSubmit Queued);
   ECall 0 (OpSink {| generation := 7; sequence := 1 |}); ELock 0 false; ERead 0;
   ECall 1 (OpBegin 8)].
Definition sample_trace_2 : list event := [ESinkPanics 0; ELock 1 true; ERead 1].
Definition sample_trace_3 : list event := [EReturn 1 (OpBegin 8) (RBegin (Ok 1))].
Definition sample_trace : list event :=
  sample_trace_1 ++ ELin 0 (OpSink {| generation := 7; sequence := 1 |}) (RSink (inr tt))
  :: sample_trace_2 ++ ELin 1 (OpBegin 8) (RBegin (Ok 1)) :: sample_trace_3.

Lemma sample_reaches : reaches sample_pipeline 2 sample_conf sample_trace.
Proof.
  split.
  - exists 2, 7. split; [vm_compute; split; discriminate|reflexivity].
  - exists sample_schedule. vm_compute. reflexivity.
Qed.

Lemma pipeline_linearizable_witness :
  run sample_pipeline (fst <$> linearization sample_trace)
    = (c_data sample_conf, linearization sample_trace)
  /\ length (linearization sample_trace) = 3%nat.
Proof.
  split; [|reflexivity].
  exact (proj1 (pipeline_linearizable _ _ _ _ sample_reaches)).
Defined.

Lemma pipeline_exclusive_and_consistent_witness :
  c_poisoned sample_conf = true /\ exclusive sample_conf /\ pipeline_inv (c_data sample_conf).
Proof.
  split; [reflexivity|].
  exact (pipeline_exclusive_and_consistent _ _ _ _ sample_reaches).
Defined.

Lemma sink_runs_in_its_generation_witness : Exists (sink_end 0) sample_trace_2.
Proof.
  exact (proj1 (sink_runs_in_its_generation _ _ _ _ _ _ _ _ _ _ _ sample_reaches)).
Defined.

(** The same pipeline while thread 0 is in its sink and thread 1 waits. *)
Definition sample_blocked : conf :=
  {| c_holder := Some 0%nat; c_poisoned := false;
     c_data := (submit sample_pipeline (sample_frame 7 1)).1;
     c_threads := [InSink {| generation := 7; sequence := 1 |}; Waiting (OpBegin 8)] |}.

Lemma sample_blocked_reaches :
  reaches sample_pipeline 2 sample_blocked
    (sample_trace_1 ++ [ELin 0 (OpSink {| generation := 7; sequence := 1 |}) (RSink (inr tt))]).
Proof.
  split.
  - exists 2, 7. split; [vm_compute; split; discriminate|reflexivity].
  - exists (take 10 sample_schedule). vm_compute. reflexivity.
Qed.

Lemma pending_calls_complete_witness :
  cstep sample_blocked (ALock 1) = None /\
  exists acts c' tr', crun sample_blocked acts = Some (c', tr')
    /\ Forall (fun a => is_call a = false) acts /\ Forall (fun s => s = Idle) (c_threads c').
Proof.
  split; [reflexivity|].
  exact (proj1 (pending_calls_complete _ _ _ _ sample_blocked_reaches)).
Defined.
