(* ===== verification/Jpeg.v ===== *)
(** * Jpeg: the TurboJPEG boundary

    Models [Compressor] and [EncodedFrame] of rust/src/jpeg.rs.  TurboJPEG is C
    code outside the repository, so it is an interface here: the class
    [TurboJpeg] has its entry points and what turbojpeg.h documents of them.
    The calls into the library are recorded as [tj_event]s, because their safety
    is a condition on the arguments and on the life of the handle: [tj_run] is
    the handle's protocol, which [Compressor::new], [compress_bgrx] and the
    [Drop] implementation follow.

    The source reports errors as formatted strings; here each message is a
    constructor of [JpegError] with the values it prints. *)

From S2P Require Import Prelude Text Fnv Frame.

Open Scope Z_scope.

Definition TJPF_BGRX : Z := 3.
Definition TJSAMP_422 : Z := 1.
Definition TJFLAG_NOREALLOC : Z := 1024.
Definition MAX_JPEG_BUFFER_BYTES : Z := 512 * 1024 * 1024.

(** ** The library *)

(** The arguments of [tjCompress2]; the buffers stand for the pointers. *)
Record tj_call := {
  call_source : list Z;
  call_width : Z;
  call_pitch : Z;
  call_height : Z;
  call_format : Z;
  call_buffer : list Z;
  call_size : Z;
  call_subsampling : Z;
  call_quality : Z;
  call_flags : Z;
}.

(** What it leaves behind: the return code, the buffer, whether [*jpegBuf] is
    still the caller's pointer, and [*jpegSize]. *)
Record tj_outcome := {
  out_result : Z;
  out_buffer : list Z;
  out_same_pointer : bool;
  out_size : Z;
}.

Class TurboJpeg `{Platform} := {
  tj_handle : Type;
  tjInitCompress : option tj_handle;
  tjCompress2 : tj_handle -> tj_call -> tj_handle * tj_outcome;
  tjBufSize : Z -> Z -> Z -> Z;
  (** The bytes of the C string, [None] for a null pointer. *)
  tjGetErrorStr2 : option tj_handle -> option (list Z);
  (** Both sizes are [unsigned long]. *)
  tjBufSize_width : forall w h s, in_width c_ulong_max (tjBufSize w h s);
  tjCompress2_width : forall hd c, in_width c_ulong_max (out_size (tjCompress2 hd c).2);
  (** The library writes into the buffer and does not resize it. *)
  tjCompress2_buffer : forall hd c,
    len (out_buffer (tjCompress2 hd c).2) = len (call_buffer c);
}.

(** The calls of the library, in the order they are made.  [tjInitCompress]
    returns a handle or null; [tjGetErrorStr2] is given the handle or null. *)
Inductive tj_event :=
| InitCompress (handle : bool)
| BufSize (width height : Z)
| Compress2 (call : tj_call)
| GetErrorStr2 (handle : bool)
| Destroy.

(** The life of the handle: there is none, or it is live. *)
Inductive tj_state := NoHandle | Live.

(** One call; [None] when it uses a handle that does not exist, or would lose
    the one that does. *)
Definition tj_step (s : tj_state) (e : tj_event) : option tj_state :=
  match e, s with
  | InitCompress handle, NoHandle => Some (if handle then Live else NoHandle)
  | InitCompress _, Live => None
  | BufSize _ _, _ | GetErrorStr2 false, _ => Some s
  | Compress2 _, Live | GetErrorStr2 true, Live => Some Live
  | Compress2 _, NoHandle | GetErrorStr2 true, NoHandle => None
  | Destroy, Live => Some NoHandle
  | Destroy, NoHandle => None
  end.

Definition tj_run : tj_state -> list tj_event -> option tj_state := run_protocol tj_step.

(** ** Data *)

(** [TryReserveError] *)
Inductive TryReserveError := CapacityOverflow | AllocError.

Inductive JpegError :=
| InitFailed (message : list Z)
| QualityRange (quality : Z)
| InvalidFrame (error : FrameError)
| InvalidJpegLayout (error : FrameError)
| InconsistentBgrx
| WidthAbi
| HeightAbi
| StrideAbi
| RejectedDimensions (message : list Z)
| BufferSizePlatform
| BufferLimit (maximum : Z)
| ScratchAllocation (error : TryReserveError)
| CapacityAbi
| CompressionFailed (message : list Z)
| PointerChanged
| EncodedSizePlatform
| SizeBeyondBuffer (size maximum : Z)
| MalformedBoundary
| ResultAllocation (error : TryReserveError).

Record EncodedFrame := {
  encoded_id : FrameId;
  encoded_bytes : list Z;
  encoded_width : Z;
  encoded_height : Z;
  encoded_quality : Z;
}.

Definition EncodedFrame_checksum (e : EncodedFrame) : Z := fnv1a64 (encoded_bytes e).

Section compressor.
Context `{TurboJpeg}.

Record Compressor := {
  raw : tj_handle;
  scratch : list Z;
  scratch_capacity : Z;
}.

(** The allocator: the capacity it grants for a requested one. *)
Variable grow : Z -> option Z.

(** [v.try_reserve_exact(additional)] on a vector of the given length and
    capacity: the capacity afterwards. *)
Definition try_reserve_exact (length capacity additional : Z) : exec TryReserveError Z :=
  if additional <=? capacity - length then Ok capacity else
  if length + additional <=? isize_max then ok_or (grow (length + additional)) AllocError
  else Err CapacityOverflow.

(** [v.resize(n, value)] *)
Definition resize (v : list Z) (n value : Z) : list Z :=
  take (Z.to_nat n) v ++ replicate (Z.to_nat n - length v) value.

Definition error_string (handle : option tj_handle) : list Z :=
  match tjGetErrorStr2 handle with
  | None => lit "unknown TurboJPEG error"
  | Some text => to_string_lossy text
  end.

(** The library calls made, and the result. *)
Definition ffi (A : Type) : Type := io tj_event JpegError A.

Definition Compressor_new : ffi Compressor :=
  match tjInitCompress with
  | None => ([InitCompress false; GetErrorStr2 false], Err (InitFailed (error_string None)))
  | Some raw =>
      ([InitCompress true], Ok {| raw := raw; scratch := []; scratch_capacity := 0 |})
  end.

(** [Drop for Compressor] *)
Definition Compressor_drop (c : Compressor) : list tj_event := [Destroy].

(** The checks of [compress_bgrx] on its arguments: the dimensions for the C
    interface. *)
Definition dimensions (frame : Frame) (quality : Z) : exec JpegError (Z * Z * Z) :=
  if negb ((1 <=? quality) && (quality <=? 100)) then Err (QualityRange quality) else
  let! _ := map_err InvalidFrame (Frame_validate frame) in
  let layout := frame_layout frame in
  let! canonical :=
    map_err InvalidJpegLayout (FrameLayout_new (layout_width layout) (layout_height layout)) in
  if negb (bool_decide (canonical = layout))
     || negb (layout_stride canonical =? layout_stride layout)
     || negb (layout_byte_len canonical =? len (frame_pixels frame))
  then Err InconsistentBgrx else
  let! width := ok_or (try_from c_int_max (layout_width layout)) WidthAbi in
  let! height := ok_or (try_from c_int_max (layout_height layout)) HeightAbi in
  let! pitch := ok_or (try_from c_int_max (layout_stride layout)) StrideAbi in
  Ok (width, height, pitch).

(** The size of the destination that the library asks for. *)
Definition destination (width height : Z) : ffi Z :=
  let maximum := tjBufSize width height TJSAMP_422 in
  if maximum =? c_ulong_max
  then ([BufSize width height; GetErrorStr2 false], Err (RejectedDimensions (error_string None)))
  else ([BufSize width height],
    let! maximum := ok_or (try_from usize_max maximum) BufferSizePlatform in
    if (maximum =? 0) || (MAX_JPEG_BUFFER_BYTES <? maximum) then Err (BufferLimit maximum) else
    Ok maximum).

(** Make the scratch vector [maximum] bytes long. *)
Definition prepare_scratch (c : Compressor) (maximum : Z) : exec JpegError Compressor :=
  let! capacity :=
    if scratch_capacity c <? maximum then
      let! additional := sub_at maximum (len (scratch c)) in
      map_err ScratchAllocation
        (try_reserve_exact (len (scratch c)) (scratch_capacity c) additional)
    else Ok (scratch_capacity c) in
  Ok {| raw := raw c; scratch := resize (scratch c) maximum 0; scratch_capacity := capacity |}.

(** [encoded.len() < 4 || encoded[..2] != [0xff, 0xd8] || encoded[len - 2..] != [0xff, 0xd9]] *)
Definition malformed_boundary (encoded : list Z) : exec JpegError bool :=
  if len encoded <? 4 then Ok true else
  let! head := slice_to encoded 2 in
  if negb (bool_decide (head = [0xff; 0xd8])) then Ok true else
  let! start := sub_at (len encoded) 2 in
  let! tail := slice_from encoded start in
  Ok (negb (bool_decide (tail = [0xff; 0xd9]))).

(** The checks behind the library call, on the scratch vector it filled. *)
Definition collect (c : Compressor) (frame : Frame) (quality maximum : Z) (out : tj_outcome)
    : ffi EncodedFrame :=
  if negb (out_result out =? 0)
  then ([GetErrorStr2 true], Err (CompressionFailed (error_string (Some (raw c))))) else
  ([],
  if negb (out_same_pointer out) then Err PointerChanged else
  let! jpeg_size := ok_or (try_from usize_max (out_size out)) EncodedSizePlatform in
  if maximum <? jpeg_size then Err (SizeBeyondBuffer jpeg_size maximum) else
  let! encoded := slice_to (scratch c) jpeg_size in
  let! malformed := malformed_boundary encoded in
  if malformed then Err MalformedBoundary else
  let! _ := map_err ResultAllocation (try_reserve_exact 0 0 jpeg_size) in
  Ok {| encoded_id := frame_id frame; encoded_bytes := encoded;
        encoded_width := layout_width (frame_layout frame);
        encoded_height := layout_height (frame_layout frame);
        encoded_quality := quality |}).

(** The compressor afterwards, the library calls made and the result. *)
Definition compressed : Type := Compressor * list tj_event * exec JpegError EncodedFrame.

(** Go on with the value of a step, or end with its failure. *)
Definition step {A} (c : Compressor) (m : ffi A) (k : A -> compressed) : compressed :=
  match m with
  | (es, Ok a) => let '(c, es', r) := k a in (c, es ++ es', r)
  | (es, Err e) => (c, es, Err e)
  | (es, Panic) => (c, es, Panic)
  | (es, NoFuel) => (c, es, NoFuel)
  end.

Definition compress_bgrx (c : Compressor) (frame : Frame) (quality : Z) : compressed :=
  step c ([], dimensions frame quality) (fun '(width, height, pitch) =>
  step c (destination width height) (fun maximum =>
  step c ([], prepare_scratch c maximum) (fun c =>
  step c ([], ok_or (try_from c_ulong_max maximum) CapacityAbi) (fun jpeg_size =>
  let call :=
    {| call_source := frame_pixels frame; call_width := width; call_pitch := pitch;
       call_height := height; call_format := TJPF_BGRX; call_buffer := scratch c;
       call_size := jpeg_size; call_subsampling := TJSAMP_422; call_quality := quality;
       call_flags := TJFLAG_NOREALLOC |} in
  let '(handle, out) := tjCompress2 (raw c) call in
  let c := {| raw := handle; scratch := out_buffer out;
              scratch_capacity := scratch_capacity c |} in
  let '(es, r) := collect c frame quality maximum out in
  (c, Compress2 call :: es, r))))).

(** ** Reference definitions *)

(** The vector's length is within its capacity, which is within the limit of an
    allocation. *)
Definition compressor_ok (c : Compressor) : Prop :=
  len (scratch c) <= scratch_capacity c <= isize_max.

(** A frame as the type system has it; nothing is assumed of its fields beyond
    their widths. *)
Definition frame_typed (f : Frame) : Prop :=
  in_width u32_max (layout_width (frame_layout f))
  /\ in_width u32_max (layout_height (frame_layout f))
  /\ len (frame_pixels f) <= isize_max.

(** What turbojpeg.h requires of a call of [tjCompress2] with a caller-managed
    buffer: the source has [height] rows of [pitch] bytes that hold [width] BGRX
    pixels each, and the buffer has the [size] bytes that [tjBufSize] asks for. *)
Definition safe_call (k : tj_call) : Prop :=
  1 <= call_width k <= MAX_DIMENSION /\ 1 <= call_height k <= MAX_DIMENSION
  /\ call_pitch k = BGRX_BYTES_PER_PIXEL * call_width k
  /\ len (call_source k) = call_pitch k * call_height k
  /\ len (call_buffer k) = call_size k
  /\ call_size k = tjBufSize (call_width k) (call_height k) (call_subsampling k)
  /\ 1 <= call_size k <= MAX_JPEG_BUFFER_BYTES
  /\ call_format k = TJPF_BGRX /\ call_subsampling k = TJSAMP_422
  /\ 1 <= call_quality k <= 100 /\ call_flags k = TJFLAG_NOREALLOC.

(** The calls of [tjCompress2]. *)
Definition compress_calls (es : list tj_event) : list tj_call :=
  omap (fun e => match e with Compress2 k => Some k | _ => None end) es.

(** Starts with SOI and ends with EOI. *)
Definition jpeg_bounds (b : list Z) : Prop := exists mid, b = [0xff; 0xd8] ++ mid ++ [0xff; 0xd9].

(** The inputs that [compress_bgrx] takes to the library, with the size of the
    destination. *)
Definition accepts (f : Frame) (quality maximum : Z) : Prop :=
  1 <= quality <= 100 /\ frame_ok f
  /\ maximum = tjBufSize (layout_width (frame_layout f)) (layout_height (frame_layout f)) TJSAMP_422
  /\ maximum <> c_ulong_max /\ 1 <= maximum <= MAX_JPEG_BUFFER_BYTES.

(** The scratch vector can be made [maximum] bytes long. *)
Definition granted (c : Compressor) (maximum : Z) : Prop :=
  maximum <= scratch_capacity c \/ is_Some (grow maximum).

(** The library reports success and a JPEG within the buffer. *)
Definition delivered (maximum : Z) (out : tj_outcome) : Prop :=
  out_result out = 0 /\ out_same_pointer out = true /\ out_size out <= maximum
  /\ jpeg_bounds (take (Z.to_nat (out_size out)) (out_buffer out))
  /\ is_Some (grow (out_size out)).

(** The one call that [compress_bgrx] makes. *)
Definition the_call (c : Compressor) (f : Frame) (quality maximum : Z) : tj_call :=
  {| call_source := frame_pixels f; call_width := layout_width (frame_layout f);
     call_pitch := layout_stride (frame_layout f);
     call_height := layout_height (frame_layout f); call_format := TJPF_BGRX;
     call_buffer := resize (scratch c) maximum 0; call_size := maximum;
     call_subsampling := TJSAMP_422; call_quality := quality;
     call_flags := TJFLAG_NOREALLOC |}.

(** ** Lemmas *)

(** The allocator grants at least what was asked for. *)
Hypothesis grow_enough : forall n m, grow n = Some m -> n <= m <= isize_max.

Lemma Frame_validate_eq f :
  frame_typed f -> exec_wp (Frame_validate f) (fun _ => frame_ok f) (fun _ => ~ frame_ok f).
Proof.
  intros (Hw & Hh & _). unfold Frame_validate, frame_ok.
  pose proof (FrameLayout_validate_eq _ Hw Hh) as W.
  destruct (FrameLayout_validate (frame_layout f)); cbn in W |- *; try done; [|naive_solver].
  case_test as Hl; cbn; [naive_solver|done].
Qed.

Lemma max_buffer_bounds : MAX_JPEG_BUFFER_BYTES <= isize_max /\ MAX_JPEG_BUFFER_BYTES <= c_ulong_max.
Proof. unfold MAX_JPEG_BUFFER_BYTES. split; platform_lia. Qed.

Lemma compress_calls_app a b : compress_calls (a ++ b) = compress_calls a ++ compress_calls b.
Proof. apply omap_app. Qed.

Lemma compress_calls_cons k es : compress_calls (Compress2 k :: es) = k :: compress_calls es.
Proof. done. Qed.

Lemma dimensions_eq f quality :
  frame_typed f ->
  exec_wp (dimensions f quality)
    (fun r => r = (layout_width (frame_layout f), layout_height (frame_layout f),
                   layout_stride (frame_layout f)) /\ 1 <= quality <= 100 /\ frame_ok f)
    (fun _ => ~ (1 <= quality <= 100 /\ frame_ok f)).
Proof.
  intros Hf. unfold dimensions. case_test as Hq.
  { intros (Hq' & _). destruct (1 <=? quality) eqn:?, (quality <=? 100) eqn:?;
      try done; reflect_bool; lia. }
  apply andb_true_iff in Hq as [Hq1 Hq2]. reflect_bool.
  apply wp_bind, wp_map_err. eapply wp_mono; [exact (Frame_validate_eq f Hf)| |naive_solver].
  intros [] Hok. pose proof Hok as [Hl Hlen]. destruct Hf as (Hw & Hh & _).
  rewrite (proj2 (FrameLayout_new_Ok _ _ (frame_layout f) Hw Hh)) by done. exec_cbn.
  rewrite bool_decide_true, Z.eqb_refl, Hlen, Z.eqb_refl by done. exec_cbn.
  pose proof Hl as (Hw' & Hh' & Hs & Hb & Hm).
  unfold MAX_DIMENSION, MAX_FRAME_BYTES in *. unfold try_from.
  rewrite !(proj2 (Z.leb_le _ c_int_max)) by (unfold c_int_max; lia). by exec_cbn.
Qed.

Lemma destination_eq w h :
  let maximum := tjBufSize w h TJSAMP_422 in
  let fits := maximum <> c_ulong_max /\ 1 <= maximum <= MAX_JPEG_BUFFER_BYTES in
  (forall s, tj_run s (destination w h).1 = Some s)
  /\ compress_calls (destination w h).1 = []
  /\ exec_wp (destination w h).2 (fun m => m = maximum /\ fits) (fun _ => ~ fits).
Proof.
  cbv zeta. unfold destination. case_test as Hmax; cbn [fst snd exec_wp].
  { split_and!; [done|done|naive_solver]. }
  pose proof (tjBufSize_width w h TJSAMP_422) as [Hnn _]. split_and!; [done|done|].
  unfold MAX_JPEG_BUFFER_BYTES, try_from. case_test as Hfit; exec_cbn; [|intros [_ ?]; platform_lia].
  case_test as Hlim; exec_cbn.
  - intros [_ ?]. apply orb_true_iff in Hlim as [?|?]; reflect_bool; lia.
  - apply orb_false_iff in Hlim as [? ?]. reflect_bool. split_and!; (done || lia).
Qed.

Lemma len_resize v n x : 0 <= n -> len (resize v n x) = n.
Proof. unfold resize, len. rewrite length_app, length_take, length_replicate. lia. Qed.

Lemma prepare_scratch_eq c maximum :
  compressor_ok c -> 1 <= maximum <= MAX_JPEG_BUFFER_BYTES ->
  exec_wp (prepare_scratch c maximum)
    (fun c' => raw c' = raw c /\ scratch c' = resize (scratch c) maximum 0
               /\ compressor_ok c' /\ granted c maximum)
    (fun _ => ~ granted c maximum).
Proof.
  intros [Hc Hcap] Hm. pose proof max_buffer_bounds. pose proof (len_nonneg (scratch c)).
  unfold prepare_scratch, granted, compressor_ok. case_test as Hlt; exec_cbn.
  - unfold sub_at. rewrite (proj2 (Z.leb_le _ _)) by lia. exec_cbn. unfold try_reserve_exact.
    rewrite (proj2 (Z.leb_gt _ _)) by lia.
    replace (len (scratch c) + (maximum - len (scratch c))) with maximum by lia.
    rewrite (proj2 (Z.leb_le _ _)) by lia.
    destruct (grow maximum) as [k|] eqn:Hg; exec_cbn.
    + apply grow_enough in Hg as ?. cbn. rewrite len_resize by lia.
      split_and!; (done || lia || by right).
    + intros [?|[? ?]]; [lia|done].
  - cbn. rewrite len_resize by lia. split_and!; (done || lia || by left).
Qed.

Lemma malformed_boundary_eq b :
  exists m, malformed_boundary b = Ok m /\ (m = false <-> jpeg_bounds b).
Proof.
  unfold malformed_boundary, jpeg_bounds.
  destruct (len b <? 4) eqn:Hl; reflect_in Hl.
  { eexists. split; [done|]. split; [done|]. intros [mid ->]. cbn in Hl. len_lia. }
  rewrite slice_to_eq by lia. exec_cbn.
  destruct (negb (bool_decide _)) eqn:Hh; reflect_in Hh.
  { eexists. split; [done|]. split; [done|]. by intros [mid ->]. }
  unfold sub_at. rewrite (proj2 (Z.leb_le _ _)) by lia. exec_cbn.
  rewrite slice_from_eq by lia. exec_cbn. eexists. split; [done|].
  rewrite negb_false_iff, bool_decide_eq_true. split.
  - intros Ht. exists (subslice b 2 (len b - 2)). rewrite <- Hh, <- Ht at 1.
    apply subslice_split; lia.
  - intros [mid ->]. rewrite !app_assoc, drop_app_length'; [done|].
    unfold len. rewrite !length_app. cbn [length]. lia.
Qed.

Lemma try_reserve_result n :
  1 <= n <= isize_max -> try_reserve_exact 0 0 n = ok_or (grow n) AllocError.
Proof.
  intros. unfold try_reserve_exact. rewrite (proj2 (Z.leb_gt _ _)) by lia.
  by rewrite (proj2 (Z.leb_le _ _)) by lia.
Qed.

Lemma jpeg_bounds_len b : jpeg_bounds b -> 4 <= len b.
Proof. intros [mid ->]. len_lia. Qed.

Lemma collect_eq c f quality maximum out :
  len (scratch c) = maximum -> scratch c = out_buffer out ->
  1 <= maximum <= MAX_JPEG_BUFFER_BYTES -> in_width c_ulong_max (out_size out) ->
  tj_run Live (collect c f quality maximum out).1 = Some Live
  /\ compress_calls (collect c f quality maximum out).1 = []
  /\ exec_wp (collect c f quality maximum out).2
    (fun e => delivered maximum out
       /\ e = {| encoded_id := frame_id f;
                 encoded_bytes := take (Z.to_nat (out_size out)) (out_buffer out);
                 encoded_width := layout_width (frame_layout f);
                 encoded_height := layout_height (frame_layout f);
                 encoded_quality := quality |})
    (fun _ => ~ delivered maximum out).
Proof.
  intros Hlen Hs Hm [Hnn _]. pose proof max_buffer_bounds as [Hisize _].
  unfold collect, delivered. case_test as Hr; cbn [fst snd]; (split_and!; [done|done|]);
    exec_cbn; [naive_solver|].
  case_test as Hp; exec_cbn; [intros (_ & Hsame & _); by rewrite Hsame in Hp|].
  unfold try_from. case_test as Hu; exec_cbn; [|intros (_ & _ & ? & _); platform_lia].
  case_test as Hb; exec_cbn; [intros (_ & _ & ? & _); lia|].
  rewrite slice_to_eq by lia. exec_cbn.
  destruct (malformed_boundary_eq (take (Z.to_nat (out_size out)) (scratch c)))
    as (mal & -> & Hmal). exec_cbn. rewrite Hs in *.
  destruct mal; exec_cbn; [intros (_ & _ & _ & Hj & _); by apply Hmal in Hj|].
  pose proof (proj1 Hmal eq_refl) as Hj. pose proof (jpeg_bounds_len _ Hj) as H4.
  rewrite len_take in H4 by lia. rewrite try_reserve_result by lia.
  destruct (grow (out_size out)) eqn:Hg; exec_cbn; [|intros (_ & _ & _ & _ & [? ?]); done].
  split; [|done]. split_and!; try done; by rewrite Hg.
Qed.

(** [compress_bgrx] succeeds: its inputs are acceptable, the scratch buffer is
    granted, and the library delivers a JPEG, which is the result. *)
Definition encodes (c : Compressor) (f : Frame) (quality : Z) (e : EncodedFrame) : Prop :=
  exists maximum, accepts f quality maximum /\ granted c maximum
  /\ let out := (tjCompress2 (raw c) (the_call c f quality maximum)).2 in
     delivered maximum out
     /\ e = {| encoded_id := frame_id f;
               encoded_bytes := take (Z.to_nat (out_size out)) (out_buffer out);
               encoded_width := layout_width (frame_layout f);
               encoded_height := layout_height (frame_layout f);
               encoded_quality := quality |}.

Lemma accepts_det f q m m' : accepts f q m -> accepts f q m' -> m = m'.
Proof. intros (_ & _ & -> & _) (_ & _ & -> & _). done. Qed.

Lemma the_call_safe c f q m : accepts f q m -> safe_call (the_call c f q m).
Proof.
  intros (Hq & [(Hw & Hh & Hs & Hb & Hm) Hlen] & Hmax & _ & Hlim).
  unfold safe_call, the_call. cbn.
  rewrite len_resize by lia. unfold BGRX_BYTES_PER_PIXEL.
  split_and!; try done; lia.
Qed.

Lemma compress_spec c f q :
  compressor_ok c -> frame_typed f ->
  let '(c', es, r) := compress_bgrx c f q in
  compressor_ok c' /\ tj_run Live es = Some Live /\ Forall safe_call (compress_calls es)
  /\ exec_wp r (encodes c f q) (fun _ => forall e, ~ encodes c f q e).
Proof.
  intros Hc Hf. unfold compress_bgrx, step.
  pose proof (dimensions_eq f q Hf) as Hd.
  destruct (dimensions f q) as [r|err| |]; cbn in Hd; try done.
  2: { split_and!; [done|done|constructor|]. intros e (m & (? & ? & _) & _). by apply Hd. }
  destruct Hd as (-> & Hq & Hok).
  destruct (destination_eq (layout_width (frame_layout f)) (layout_height (frame_layout f)))
    as (Hrun & Hcalls & Hd).
  destruct (destination _ _) as [es [m|err| |]]; cbn [fst snd exec_wp] in Hrun, Hcalls, Hd; try done; cbn [app].
  2: { split_and!; [done|apply Hrun|by rewrite Hcalls|].
       intros e (m & (_ & _ & -> & Hfits) & _). by apply Hd. }
  destruct Hd as (Hmax & Hne & Hm). assert (accepts f q m) as Ha by (unfold accepts; rewrite Hmax; by split_and!; (done || lia)).
  rewrite <- Hmax in Hm.
  cbn [app]. pose proof (prepare_scratch_eq c m Hc ltac:(lia)) as Hp.
  destruct (prepare_scratch c m) as [c1|err| |]; cbn in Hp; try done.
  2: { rewrite app_nil_r. split_and!; [done|apply Hrun|by rewrite Hcalls|].
       intros e (m' & Ha' & Hg & _). by rewrite (accepts_det _ _ _ _ Ha' Ha) in Hg. }
  destruct Hp as (Hraw & Hscr & Hc1 & Hg). pose proof max_buffer_bounds as [_ Hul].
  unfold try_from. rewrite (proj2 (Z.leb_le m c_ulong_max)) by lia. cbn [ok_or].
  rewrite Hraw, Hscr. fold (the_call c f q m).
  pose proof (tjCompress2_width (raw c) (the_call c f q m)) as Hw.
  pose proof (tjCompress2_buffer (raw c) (the_call c f q m)) as Hbuf.
  destruct (tjCompress2 (raw c) (the_call c f q m)) as [hd out] eqn:Hout. cbn [snd] in Hw, Hbuf.
  cbn [call_buffer the_call] in Hbuf. rewrite len_resize in Hbuf by lia.
  set (c2 := {| raw := hd; scratch := out_buffer out; scratch_capacity := scratch_capacity c1 |}).
  destruct (collect_eq c2 f q m out) as (Hcr & Hcc & Hcol); [done|done|lia|exact Hw|].
  destruct (collect c2 f q m out) as [es' r]. cbn [fst snd] in Hcr, Hcc, Hcol.
  cbn [app]. split_and!.
  - unfold compressor_ok in *. cbn. rewrite Hbuf. rewrite Hscr, len_resize in Hc1 by lia. done.
  - by rewrite (run_protocol_app _ _ _ _ _ (Hrun Live)).
  - rewrite compress_calls_app, Hcalls, compress_calls_cons, Hcc.
    constructor; [by apply the_call_safe|constructor].
  - eapply wp_mono; [exact Hcol|..].
    + intros e [Hdel ->]. exists m. rewrite Hout. by cbn.
    + intros err Hdel e (m' & Ha' & _ & Hdel' & _).
      rewrite (accepts_det _ _ _ _ Ha' Ha), Hout in Hdel'. by cbn in Hdel'.
Qed.

(** ** Theorems *)

(** C13 The C library is only ever called safely, whatever frame and quality the
    compressor is given and whatever the library answered before:
    [compress_bgrx] returns without panicking (no underflow in
    [maximum - scratch.len()], no slice out of range), keeps the scratch vector
    within its capacity, keeps the handle live, and each call of [tjCompress2]
    has a source of exactly [pitch * height] bytes and a writable destination of
    exactly the announced size, at most 512 MiB. *)
Theorem compress_bgrx_safe c f q :
  compressor_ok c -> frame_typed f ->
  let '(c', es, r) := compress_bgrx c f q in
  returns r /\ compressor_ok c' /\ tj_run Live es = Some Live
  /\ Forall safe_call (compress_calls es).
Proof.
  intros Hc Hf. pose proof (compress_spec c f q Hc Hf) as Hs.
  destruct (compress_bgrx c f q) as [[c' es] r]. destruct Hs as (? & ? & ? & ?).
  split_and!; eauto with exec.
Qed.

(** C14 [compress_bgrx] yields an encoded frame exactly when the quality is in
    1..=100, the frame is consistent, the library asks for a buffer of 1 byte to
    512 MiB that can be allocated, and reports success with a JPEG from SOI to
    EOI inside that buffer; the result carries the frame's id and dimensions and
    exactly the bytes the library reported. *)
Theorem compress_bgrx_iff c f q e :
  compressor_ok c -> frame_typed f ->
  (compress_bgrx c f q).2 = Ok e <-> encodes c f q e.
Proof.
  intros Hc Hf. pose proof (compress_spec c f q Hc Hf) as Hs.
  destruct (compress_bgrx c f q) as [[c' es] r]. destruct Hs as (_ & _ & _ & Hr). cbn. split.
  - by intros ->.
  - intros He. destruct r as [e'|err| |]; cbn in Hr; try done; [|by apply Hr in He].
    f_equal. destruct Hr as (m & Ha & _ & _ & ->), He as (m' & Ha' & _ & _ & ->).
    by rewrite (accepts_det _ _ _ _ Ha Ha').
Qed.
End compressor.

(** ** Witnesses *)

(** A library that writes a six byte image. *)
Definition toy_jpeg : list Z := [0xff; 0xd8; 1; 2; 0xff; 0xd9].

#[export] Program Instance toy_turbojpeg : TurboJpeg := {|
  tj_handle := unit;
  tjInitCompress := Some tt;
  tjCompress2 _ c :=
    (tt, {| out_result := if len (call_buffer c) <? 6 then -1 else 0;
            out_buffer := if len (call_buffer c) <? 6 then call_buffer c
                          else toy_jpeg ++ drop 6 (call_buffer c);
            out_same_pointer := true; out_size := 6 |});
  tjBufSize w h _ := 64;
  tjGetErrorStr2 _ := None;
|}.
Next Obligation. intros. vm_compute. split; discriminate. Qed.
Next Obligation. intros. vm_compute. split; discriminate. Qed.
Next Obligation.
  intros. cbn [snd out_buffer]. destruct (Z.ltb_spec (len (call_buffer c)) 6); [done|].
  rewrite len_app. unfold len in *. rewrite length_drop. cbn [length toy_jpeg]. lia.
Qed.

Definition toy_compressor : Compressor := {| raw := tt; scratch := []; scratch_capacity := 0 |}.

Definition toy_grow (n : Z) : option Z := if n <=? 4096 then Some 4096 else None.

Definition toy_frame : Frame :=
  {| frame_id := sample_id; frame_layout := sample_layout; frame_pixels := replicate 128 7 |}.

Lemma toy_grow_enough n m : toy_grow n = Some m -> n <= m <= isize_max.
Proof.
  unfold toy_grow. case_test as Hn; [|done]. intros [= <-]. split; [lia|].
  vm_compute. discriminate.
Qed.

Lemma toy_compressor_ok : compressor_ok toy_compressor.
Proof. vm_compute. split; discriminate. Qed.

Lemma toy_frame_typed : frame_typed toy_frame.
Proof. vm_compute. split_and!; discriminate. Qed.

Lemma compress_bgrx_safe_witness :
  Forall safe_call (compress_calls (compress_bgrx toy_grow toy_compressor toy_frame 80).1.2)
  /\ len (compress_calls (compress_bgrx toy_grow toy_compressor toy_frame 80).1.2) = 1.
Proof.
  split; [|vm_compute; reflexivity].
  pose proof (compress_bgrx_safe toy_grow toy_grow_enough toy_compressor toy_frame 80
    toy_compressor_ok toy_frame_typed) as H.
  destruct (compress_bgrx toy_grow toy_compressor toy_frame 80) as [[c' es] r].
  exact (proj2 (proj2 (proj2 H))).
Defined.

Lemma compress_bgrx_iff_witness :
  encodes toy_grow toy_compressor toy_frame 80
    {| encoded_id := sample_id; encoded_bytes := toy_jpeg; encoded_width := 8;
       encoded_height := 4; encoded_quality := 80 |}
  /\ (compress_bgrx toy_grow toy_compressor toy_frame 0).2 = Err (QualityRange 0).
Proof.
  split; [|vm_compute; reflexivity].
  apply (proj1 (compress_bgrx_iff toy_grow toy_grow_enough toy_compressor toy_frame 80 _
    toy_compressor_ok toy_frame_typed)).
  vm_compute. reflexivity.
Defined.
