(* ===== verification/Cli.v ===== *)
(** * Cli: command line and hex text

    Models [parse_hex], [read_hex_text], [read_hex_file], [parse_args] and
    [parse_pattern_args] of rust/src/main.rs.

    Error messages are constructors of [CliError] with the values they print;
    [Display] has their texts.
    An input stream is the bytes it holds and the point, if any, at which
    reading fails; the file system is a parameter. *)

From S2P Require Import Prelude Text.

Open Scope Z_scope.

(** ** Data *)

Record PatternOptions := {
  opt_width : Z;
  opt_height : Z;
  opt_frames : Z;
  opt_queue_capacity : Z;
  opt_quality : Z;
}.

Inductive Command :=
| Observe (duration : option Z)
| DecodeHex (packet : list Z)
| DecodeHexFile (path : list Z)
| ProtocolInfo
| Pattern (options : PatternOptions) (encode : bool)
| ScreenCastVersion.

Definition DEFAULT_PATTERN_FRAMES : Z := 6.
Definition DEFAULT_QUEUE_CAPACITY : Z := 2.
Definition DEFAULT_JPEG_QUALITY : Z := 80.
Definition MAX_PATTERN_FRAMES : Z := 1000.
Definition MAX_QUEUE_CAPACITY : Z := 256.
Definition MAX_PATTERN_WORK_BYTES : Z := 512 * 1024 * 1024.
Definition MAX_HEX_TEXT_BYTES : Z := 32 * 1024 * 1024.

Inductive CliError :=
| InvalidHexDigit (character : Z)
| OddHexDigits
| LimitOverflow
| LimitReaderApi
| CannotRead (error : list Z)
| TextTooLong (limit : Z)
| NotUtf8 (error : Utf8Error)
| CannotOpen (path error : list Z)
| CannotInspect (path error : list Z)
| FileTooLong (path : list Z) (length : Z)
| InFile (path : list Z) (error : CliError)
| BadDuration
| Usage
| MissingDimensions
| BadDimensions
| BadWidth
| BadHeight
| RequiresValue (option : list Z)
| BadFrameCount
| BadQueueCapacity
| BadQuality
| DuplicateOption (option : list Z)
| UnknownOption (option : list Z)
| FrameCountRange
| QueueCapacityRange
| QualityOutOfRange.

(** ** Hex text *)

Definition is_separator (c : Z) : bool := is_ascii_whitespace c || (c =? 58).

(** The loop over the characters, collecting nibbles. *)
Fixpoint hex_nibbles (nibbles : list Z) (input : list Z) : exec CliError (list Z) :=
  match input with
  | [] => Ok nibbles
  | character :: input =>
      if is_separator character then hex_nibbles nibbles input else
      if negb (is_ascii_hexdigit character) then Err (InvalidHexDigit character) else
      let! digit := expect (to_digit 16 character) in
      hex_nibbles (nibbles ++ [digit mod 2 ^ 8]) input
  end.

(** [(pair[0] << 4) | pair[1]] on bytes *)
Definition join_pair (p : list Z) : exec CliError Z :=
  let! high := slice_index p 0 in
  let! low := slice_index p 1 in
  Ok (Z.lor (Z.shiftl high 4 mod 2 ^ 8) low).

Fixpoint join_pairs (pairs : list (list Z)) : exec CliError (list Z) :=
  match pairs with
  | [] => Ok []
  | p :: pairs =>
      let! b := join_pair p in
      let! bs := join_pairs pairs in
      Ok (b :: bs)
  end.

Definition parse_hex (input : list Z) : exec CliError (list Z) :=
  let! nibbles := hex_nibbles [] input in
  if negb (len nibbles mod 2 =? 0) then Err OddHexDigits else
  join_pairs (chunks_exact 2 nibbles).

(** A stream: its bytes, and the text of the [io::Error] that reading past them
    fails with, if it does. *)
Record reader := {
  stream : list Z;
  broken : option (list Z);
}.

(** [reader.take(n).read_to_end(..)] *)
Definition take_read_to_end (r : reader) (n : Z) : exec CliError (list Z) :=
  if n <=? len (stream r) then Ok (take (Z.to_nat n) (stream r)) else
  match broken r with Some error => Err (CannotRead error) | None => Ok (stream r) end.

Section reading.
Context `{Platform}.

Definition read_hex_text (r : reader) (limit : Z) : exec CliError (list Z) :=
  let! read_limit := ok_or (checked_add limit 1) LimitOverflow in
  let! read_limit := ok_or (try_from u64_max read_limit) LimitReaderApi in
  let! text_bytes := take_read_to_end r read_limit in
  if limit <? len text_bytes then Err (TextTooLong limit) else
  let! text := map_err NotUtf8 (str_from_utf8 text_bytes) in
  parse_hex text.

(** An open file: its metadata length, or the text of the error of reading it,
    and its contents. *)
Record file := {
  file_length : list Z + Z;
  file_reader : reader;
}.

(** [stdin] and [open] stand for the process's standard input and the file
    system; opening a file may fail with an error text. *)
Definition read_hex_file (stdin : reader) (open : list Z -> list Z + file) (path : list Z)
    : exec CliError (list Z) :=
  if bool_decide (path = lit "-") then read_hex_text stdin MAX_HEX_TEXT_BYTES else
  let! file := from_env (CannotOpen path) (open path) in
  let! length := from_env (CannotInspect path) (file_length file) in
  if MAX_HEX_TEXT_BYTES <? length then Err (FileTooLong path length) else
  map_err (InFile path) (read_hex_text (file_reader file) MAX_HEX_TEXT_BYTES).

(** ** Arguments *)

(** The values of the options and which were seen. *)
Record option_state := {
  frames : Z;
  queue_capacity : Z;
  quality : Z;
  saw_frames : bool;
  saw_queue : bool;
  saw_quality : bool;
}.

Definition initial_options : option_state :=
  {| frames := DEFAULT_PATTERN_FRAMES; queue_capacity := DEFAULT_QUEUE_CAPACITY;
     quality := DEFAULT_JPEG_QUALITY; saw_frames := false; saw_queue := false;
     saw_quality := false |}.

Definition is_str (s : list Z) (l : string) : bool := bool_decide (s = lit l).

(** One turn of the loop: an option with its value. *)
Definition pattern_option (st : option_state) (option value : list Z)
    : exec CliError option_state :=
  if is_str option "--frames" && negb (saw_frames st) then
    let! v := ok_or (parse_uint u64_max value) BadFrameCount in
    Ok {| frames := v; queue_capacity := queue_capacity st; quality := quality st;
          saw_frames := true; saw_queue := saw_queue st; saw_quality := saw_quality st |}
  else if is_str option "--queue" && negb (saw_queue st) then
    let! v := ok_or (parse_uint usize_max value) BadQueueCapacity in
    Ok {| frames := frames st; queue_capacity := v; quality := quality st;
          saw_frames := saw_frames st; saw_queue := true; saw_quality := saw_quality st |}
  else if is_str option "--quality" && negb (saw_quality st) then
    let! v := ok_or (parse_uint u8_max value) BadQuality in
    Ok {| frames := frames st; queue_capacity := queue_capacity st; quality := v;
          saw_frames := saw_frames st; saw_queue := saw_queue st; saw_quality := true |}
  else if is_str option "--frames" || is_str option "--queue" || is_str option "--quality" then
    Err (DuplicateOption option)
  else Err (UnknownOption option).

Fixpoint pattern_options (st : option_state) (options : list (list Z))
    : exec CliError option_state :=
  match options with
  | [] => Ok st
  | option :: options =>
      match options with
      | [] => Err (RequiresValue option)
      | value :: options =>
          let! st := pattern_option st option value in
          pattern_options st options
      end
  end.

(** [['x', 'X']] as a pattern *)
Definition is_x (c : Z) : bool := (c =? 120) || (c =? 88).

Definition parse_pattern_args (arguments : list (list Z)) : exec CliError PatternOptions :=
  match arguments with
  | [] => Err MissingDimensions
  | dimensions :: options =>
      let! separator := ok_or (position is_x dimensions) BadDimensions in
      let! width := slice_to dimensions separator in
      let! height_with_separator := slice_from dimensions separator in
      let! height := slice_from height_with_separator 1 in
      if (len width =? 0) || (len height =? 0) || existsb is_x height then Err BadDimensions else
      let! width := ok_or (parse_uint u32_max width) BadWidth in
      let! height := ok_or (parse_uint u32_max height) BadHeight in
      let! st := pattern_options initial_options options in
      if (frames st =? 0) || (MAX_PATTERN_FRAMES <? frames st) then Err FrameCountRange else
      if (queue_capacity st =? 0) || (MAX_QUEUE_CAPACITY <? queue_capacity st)
      then Err QueueCapacityRange else
      if negb ((1 <=? quality st) && (quality st <=? 100)) then Err QualityOutOfRange else
      Ok {| opt_width := width; opt_height := height; opt_frames := frames st;
            opt_queue_capacity := queue_capacity st; opt_quality := quality st |}
  end.

Definition parse_args (arguments : list (list Z)) : exec CliError Command :=
  match arguments with
  | mode :: rest =>
      if is_str mode "--pattern" || is_str mode "--encode-plan" then
        let encode := is_str mode "--encode-plan" in
        let! options := parse_pattern_args rest in
        Ok (Pattern options encode)
      else
        match rest with
        | [] =>
            if is_str mode "--observe" then Ok (Observe None)
            else if is_str mode "--protocol-info" then Ok ProtocolInfo
            else if is_str mode "--screen-cast-version" then Ok ScreenCastVersion
            else Err Usage
        | [input] =>
            if is_str mode "--decode-hex" then
              let! packet := parse_hex input in
              Ok (DecodeHex packet)
            else if is_str mode "--decode-hex-file" then Ok (DecodeHexFile input)
            else Err Usage
        | [duration_flag; seconds] =>
            if is_str mode "--observe" && is_str duration_flag "--duration" then
              let! seconds := ok_or (parse_uint u64_max seconds) BadDuration in
              if seconds =? 0 then Err BadDuration else Ok (Observe (Some seconds))
            else Err Usage
        | _ => Err Usage
        end
  | [] => Err Usage
  end.
End reading.

(** ** Reference definitions *)

(** The characters that count. *)
Definition strip (s : list Z) : list Z := filter (fun c => is_separator c = false) s.

(** The two halves of each byte. *)
Definition unpack (bs : list Z) : list Z := bs ≫= (fun b => [b / 16; b mod 16]).

(** The packet as it is printed, [format!("{byte:02x}")] for each byte. *)
Definition hex_dump (bs : list Z) : list Z := bs ≫= hex_pad 2.

(** ** Lemmas on hex text *)

Lemma hexdigit_value c :
  is_ascii_hexdigit c = true -> exists d, to_digit 16 c = Some d /\ 0 <= d < 16.
Proof.
  unfold is_ascii_hexdigit, is_ascii_digit, to_digit. intros H.
  apply orb_true_iff in H as [[H|H]%orb_true_iff|H]; apply andb_true_iff in H as [H1 H2];
    reflect_bool.
  - exists (c - 48). test_true ((48 <=? c) && (c <=? 57)). test_true (c - 48 <? 16).
    split; [done|lia].
  - exists (c - 87). test_false ((48 <=? c) && (c <=? 57)).
    test_true ((97 <=? c) && (c <=? 122)). test_true (c - 87 <? 16). split; [done|lia].
  - exists (c - 55). test_false ((48 <=? c) && (c <=? 57)).
    test_false ((97 <=? c) && (c <=? 122)). test_true ((65 <=? c) && (c <=? 90)).
    test_true (c - 55 <? 16). split; [done|lia].
Qed.

Lemma not_hexdigit_value c : is_ascii_hexdigit c = false -> to_digit 16 c = None.
Proof.
  unfold is_ascii_hexdigit, is_ascii_digit, to_digit. intros H.
  destruct (48 <=? c) eqn:?, (c <=? 57) eqn:?, (97 <=? c) eqn:?, (c <=? 102) eqn:?,
    (65 <=? c) eqn:?, (c <=? 70) eqn:?, (c <=? 122) eqn:?, (c <=? 90) eqn:?;
    cbn in *; try done; reflect_bool; case_test; try done; lia.
Qed.

Lemma strip_cons c s :
  strip (c :: s) = if is_separator c then strip s else c :: strip s.
Proof.
  unfold strip. destruct (is_separator c) eqn:Hc.
  - by rewrite filter_cons_False by (by rewrite Hc).
  - by rewrite filter_cons_True.
Qed.

(** The loop: all the digits, or the first character that is not one. *)
Lemma hex_nibbles_spec acc s :
  exec_wp (hex_nibbles acc s)
    (fun ns => exists ds, ns = acc ++ ds /\ to_digit 16 <$> strip s = Some <$> ds
       /\ Forall (fun d => 0 <= d < 16) ds)
    (fun e => exists l c r, strip s = l ++ c :: r /\ e = InvalidHexDigit c
       /\ is_ascii_hexdigit c = false /\ Forall (fun c => is_ascii_hexdigit c = true) l).
Proof.
  revert acc. induction s as [|c s IH]; intros acc; cbn [hex_nibbles].
  { cbn. exists []. by rewrite app_nil_r. }
  rewrite strip_cons. destruct (is_separator c); [apply IH|].
  destruct (is_ascii_hexdigit c) eqn:Hc; cbn [negb]; [|by exists [], c, (strip s)].
  destruct (hexdigit_value c Hc) as (d & Hd & Hb). rewrite Hd. exec_cbn.
  rewrite Z.mod_small by lia. eapply wp_mono; [apply IH|..]; cbn beta.
  - intros ns (ds & -> & Hds & Hf). exists (d :: ds). rewrite <- app_assoc, fmap_cons, Hds, Hd.
    split_and!; [done|done|by constructor].
  - intros e (l & c' & r & -> & -> & Hc' & Hl). exists (c :: l), c', r.
    split_and!; [done|done|done|by constructor].
Qed.

Lemma join_pair_spec b :
  in_width u8_max b -> join_pair [b / 16; b mod 16] = Ok b.
Proof.
  intros Hb. transitivity (Ok (E := CliError) (Z.lor (Z.shiftl (b / 16) 4 mod 2 ^ 8) (b mod 16)));
    [done|]. f_equal. apply Z.eqb_eq. revert b Hb. refine (fun b => all_bytes (fun b => _ =? b) b _).
  vm_compute. reflexivity.
Qed.

Lemma unpack_cons b bs : unpack (b :: bs) = b / 16 :: b mod 16 :: unpack bs.
Proof. done. Qed.

Lemma join_pairs_unpack bs :
  Forall (in_width u8_max) bs -> join_pairs (chunks_exact 2 (unpack bs)) = Ok bs.
Proof.
  induction 1 as [|b bs Hb Hbs IH]; [done|]. rewrite unpack_cons.
  change (b / 16 :: b mod 16 :: unpack bs) with ([b / 16; b mod 16] ++ unpack bs).
  rewrite chunks_exact_app by (done || lia). cbn [join_pairs].
  by rewrite join_pair_spec, IH.
Qed.

Lemma len_unpack bs : len (unpack bs) = 2 * len bs.
Proof. induction bs as [|b bs IH]; [done|]. rewrite unpack_cons. len_lia. Qed.

(** Nibbles of even number are the halves of bytes. *)
Lemma unpack_surj ds :
  Forall (fun d => 0 <= d < 16) ds -> len ds mod 2 = 0 ->
  exists bs, ds = unpack bs /\ Forall (in_width u8_max) bs.
Proof.
  revert ds. fix IH 1. intros [|a [|b ds]] Hds Heven; [by exists []|by vm_compute in Heven|].
  apply Forall_cons_1 in Hds as [Ha Hds]. apply Forall_cons_1 in Hds as [Hb Hds].
  destruct (IH ds Hds) as (bs & -> & Hbs).
  { rewrite !len_cons in Heven. rewrite <- (Z.mod_add (len ds) 1 2) by lia.
    rewrite <- Heven. f_equal. lia. }
  exists (16 * a + b :: bs). split; [|constructor; [unfold in_width, u8_max; lia|done]].
  rewrite unpack_cons. f_equal; [|f_equal].
  - rewrite Z.mul_comm, Z.div_add_l, Z.div_small by lia. lia.
  - rewrite Z.add_comm, Z.mul_comm, Z.mod_add, Z.mod_small by lia. lia.
Qed.

Lemma parse_hex_spec s :
  exec_wp (parse_hex s)
    (fun bs => Forall (in_width u8_max) bs /\ to_digit 16 <$> strip s = Some <$> unpack bs)
    (fun e => e = OddHexDigits /\ len (strip s) mod 2 = 1
       \/ exists l c r, strip s = l ++ c :: r /\ e = InvalidHexDigit c
          /\ is_ascii_hexdigit c = false /\ Forall (fun c => is_ascii_hexdigit c = true) l).
Proof.
  unfold parse_hex. apply wp_bind. eapply wp_mono; [apply hex_nibbles_spec|..]; cbn beta; [|by right].
  intros ns (ds & -> & Hds & Hf). cbn [app]. case_test as Heven; exec_cbn.
  - left. split; [done|]. apply (f_equal length) in Hds. rewrite !length_fmap in Hds.
    unfold len in *. rewrite Hds. pose proof (Z.mod_pos_bound (Z.of_nat (length ds)) 2). lia.
  - destruct (unpack_surj ds Hf Heven) as (bs & -> & Hbs).
    rewrite join_pairs_unpack by done. by cbn.
Qed.

Lemma unpack_inj bs bs' : unpack bs = unpack bs' -> bs = bs'.
Proof.
  revert bs'. induction bs as [|b bs IH]; intros [|b' bs']; rewrite ?unpack_cons; try done.
  intros [= H1 H2 H3]. f_equal; [|by apply IH].
  rewrite (Z.div_mod b 16), (Z.div_mod b' 16) by lia. lia.
Qed.

Lemma parse_hex_Ok s bs :
  parse_hex s = Ok bs <->
  Forall (in_width u8_max) bs /\ to_digit 16 <$> strip s = Some <$> unpack bs.
Proof.
  pose proof (parse_hex_spec s) as W. split; [by intros H; rewrite H in W|].
  intros [Hbs Hd]. destruct (parse_hex s) as [bs'|e| |]; cbn in W; try done.
  - destruct W as [_ W]. rewrite Hd in W. apply (inj (fmap Some)) in W. by apply unpack_inj in W as ->.
  - exfalso. destruct W as [[_ Hodd]|(l & c & r & Hs & _ & Hc & _)].
    + apply (f_equal length) in Hd. rewrite !length_fmap in Hd.
      pose proof (len_unpack bs) as Hl. unfold len in *. rewrite Hd, Hl, Z.mul_comm, Z.mod_mul in Hodd by lia. lia.
    + apply not_hexdigit_value in Hc. rewrite Hs in Hd.
      assert (None ∈ (Some <$> unpack bs)) as Hin.
      { rewrite <- Hd, fmap_app, fmap_cons, Hc. apply list_elem_of_In, in_or_app. by right; left. }
      apply list_elem_of_fmap in Hin as (? & ? & _). done.
Qed.

Lemma hex_dump_cons b bs :
  in_width u8_max b ->
  hex_dump (b :: bs) = digit_char (b / 16) :: digit_char (b mod 16) :: hex_dump bs.
Proof.
  intros Hb. unfold hex_dump. rewrite bind_cons, hex_pad_byte by done. done.
Qed.

Lemma nibble_bounds b : in_width u8_max b -> 0 <= b / 16 < 16 /\ 0 <= b mod 16 < 16.
Proof.
  unfold in_width, u8_max. intros. pose proof (Z.mod_pos_bound b 16). split; [|lia].
  split; [apply Z.div_pos; lia|apply Z.div_lt_upper_bound; lia].
Qed.

Lemma hex_dump_digits bs :
  Forall (in_width u8_max) bs -> to_digit 16 <$> hex_dump bs = Some <$> unpack bs.
Proof.
  induction 1 as [|b bs Hb _ IH]; [done|]. destruct (nibble_bounds b Hb).
  rewrite hex_dump_cons, unpack_cons, !fmap_cons, IH, !to_digit_digit_char by (done || lia). done.
Qed.

Lemma digit_not_separator d : 0 <= d < 16 -> is_separator (digit_char d) = false.
Proof. unfold is_separator, is_ascii_whitespace, digit_char. case_test; lia. Qed.

Lemma strip_hex_dump bs : Forall (in_width u8_max) bs -> strip (hex_dump bs) = hex_dump bs.
Proof.
  induction 1 as [|b bs Hb _ IH]; [done|]. destruct (nibble_bounds b Hb).
  by rewrite hex_dump_cons, !strip_cons, !digit_not_separator, IH by done.
Qed.

Lemma parse_hex_dump bs : Forall (in_width u8_max) bs -> parse_hex (hex_dump bs) = Ok bs.
Proof.
  intros Hbs. apply parse_hex_Ok. split; [done|]. by rewrite strip_hex_dump, hex_dump_digits.
Qed.

(** ** Lemmas on the reader *)

(** Text of ASCII characters is its own UTF-8 encoding, and no other bytes
    decode to it. *)
Lemma from_utf8_ascii fuel s :
  (length s < fuel)%nat -> Forall (fun b => 0 <= b < 128) s -> from_utf8 fuel s = Some s.
Proof.
  revert s. induction fuel as [|fuel IH]; intros [|a s] Hl Hs; cbn [length] in Hl; try lia; [done|].
  apply Forall_cons_1 in Hs as [Ha Hs]. cbn. rewrite (proj2 (Z.leb_le a 127)) by lia.
  by rewrite IH by (done || lia).
Qed.

Ltac utf8_case IH H :=
  match type of H with
  | cons ?x <$> _ = Some ?t =>
      apply fmap_Some in H as (r & H & ->); intros Ht; apply Forall_cons_1 in Ht as [Ht1 Ht2]
  end.

Lemma from_utf8_ascii_inv fuel s t :
  Forall (in_width u8_max) s ->
  from_utf8 fuel s = Some t -> Forall (fun c => 0 <= c < 128) t -> s = t.
Proof.
  revert s t. induction fuel as [|fuel IH]; intros s t Hs H; [done|]. unfold in_width in *.
  destruct s as [|a s]; cbn in H; [by simplify_eq|]. apply Forall_cons_1 in Hs as [Ha Hs].
  destruct (a <=? 127).
  { utf8_case IH H. f_equal. by eapply IH. }
  destruct s as [|b s]; [done|]. apply Forall_cons_1 in Hs as [Hb Hs].
  unfold continuation in H.
  destruct ((194 <=? a) && (a <=? 223) && ((128 <=? b) && (b <=? 191))) eqn:H2.
  { utf8_case IH H. lia. }
  destruct s as [|c s]; [done|]. apply Forall_cons_1 in Hs as [Hc Hs].
  match type of H with (if ?x then _ else _) = _ => destruct x eqn:H3 end.
  { utf8_case IH H. lia. }
  destruct s as [|d s]; [done|]. apply Forall_cons_1 in Hs as [Hd Hs].
  match type of H with (if ?x then _ else _) = _ => destruct x eqn:H4 end; [|done].
  utf8_case IH H. lia.
Qed.

(** Every character of accepted hex text is ASCII. *)
Lemma parse_hex_ascii s bs : parse_hex s = Ok bs -> Forall (fun c => 0 <= c < 128) s.
Proof.
  intros [_ Hd]%parse_hex_Ok.
  assert (Hdig : Forall (fun c => is_Some (to_digit 16 c)) (strip s)).
  { apply Forall_forall. intros c Hc. apply (list_elem_of_fmap_2 (to_digit 16)) in Hc.
    rewrite Hd in Hc. apply list_elem_of_fmap in Hc as (d & -> & _). done. }
  clear Hd. induction s as [|c s IH]; [done|]. rewrite strip_cons in Hdig.
  destruct (is_separator c) eqn:Hc.
  - constructor; [|auto]. unfold is_separator, is_ascii_whitespace in Hc. lia.
  - apply Forall_cons_1 in Hdig as [[d Hd] Hdig]. constructor; [|auto].
    unfold to_digit in Hd. repeat case_match; simplify_eq; reflect_bool; lia.
Qed.

(** ** Lemmas on the arguments *)

(** A command within the limits of the program. *)
Definition command_ok (c : Command) : Prop :=
  match c with
  | Observe (Some seconds) => 1 <= seconds <= u64_max
  | DecodeHex packet => Forall (in_width u8_max) packet
  | Pattern o _ =>
      in_width u32_max (opt_width o) /\ in_width u32_max (opt_height o)
      /\ 1 <= opt_frames o <= MAX_PATTERN_FRAMES
      /\ 1 <= opt_queue_capacity o <= MAX_QUEUE_CAPACITY /\ 1 <= opt_quality o <= 100
  | _ => True
  end.

(** Command line arguments for a command. *)
Definition render_command (c : Command) : list (list Z) :=
  match c with
  | Observe None => [lit "--observe"]
  | Observe (Some seconds) => [lit "--observe"; lit "--duration"; dec seconds]
  | DecodeHex packet => [lit "--decode-hex"; hex_dump packet]
  | DecodeHexFile path => [lit "--decode-hex-file"; path]
  | ProtocolInfo => [lit "--protocol-info"]
  | Pattern o encode =>
      [if encode then lit "--encode-plan" else lit "--pattern";
       dec (opt_width o) ++ lit "x" ++ dec (opt_height o);
       lit "--frames"; dec (opt_frames o); lit "--queue"; dec (opt_queue_capacity o);
       lit "--quality"; dec (opt_quality o)]
  | ScreenCastVersion => [lit "--screen-cast-version"]
  end.

Section argument_lemmas.
Context `{Platform}.

Lemma parse_hex_returns s : returns (parse_hex s).
Proof. eapply wp_returns, parse_hex_spec. Qed.

(** An accepted option leaves the other values alone and a value of its type. *)
Definition options_typed (st : option_state) : Prop :=
  0 <= frames st /\ 0 <= queue_capacity st /\ 0 <= quality st.

Lemma pattern_option_typed st o v :
  options_typed st -> exec_wp (pattern_option st o v) options_typed (fun _ => True).
Proof.
  unfold options_typed, pattern_option. intros Hst.
  do 3 (case_test;
    [apply wp_bind, wp_ok_or; [|done]; cbn; intros x Hx%parse_uint_bounds;
       [unfold in_width in Hx; lia|platform_lia]|]).
  by case_test.
Qed.

Lemma pattern_options_typed options : forall st,
  options_typed st -> exec_wp (pattern_options st options) options_typed (fun _ => True).
Proof.
  revert options. fix IH 1. intros [|o [|v options]] st Hst; cbn [pattern_options]; [done|done|].
  apply wp_bind. eapply wp_mono; [by apply pattern_option_typed|..]; cbn beta; [|done].
  intros st' Hst'. by apply IH.
Qed.

Lemma parse_pattern_args_ok args encode :
  exec_wp (parse_pattern_args args) (fun o => command_ok (Pattern o encode)) (fun _ => True).
Proof.
  unfold parse_pattern_args. destruct args as [|dims options]; [done|].
  apply wp_bind, wp_ok_or; [|done]. intros sep (l & x & r & -> & -> & _)%position_Some.
  pose proof (len_nonneg r). pose proof (len_nonneg l).
  rewrite slice_to_eq by len_lia. exec_cbn. rewrite slice_from_eq by len_lia. exec_cbn.
  rewrite to_nat_len, take_app_length, drop_app_length.
  rewrite slice_from_eq by len_lia. exec_cbn. case_test; [done|].
  apply wp_bind, wp_ok_or; [|done]. intros w Hw%parse_uint_bounds; [|platform_lia].
  apply wp_bind, wp_ok_or; [|done]. intros h Hh%parse_uint_bounds; [|platform_lia].
  apply wp_bind. eapply wp_mono; [apply pattern_options_typed|..]; cbn beta; [by vm_compute| |done].
  intros st (Hf & Hq & Hql). unfold MAX_PATTERN_FRAMES, MAX_QUEUE_CAPACITY.
  case_test as Ht1; [done|]. case_test as Ht2; [done|]. case_test as Ht3; [done|]. cbn.
  apply orb_false_iff in Ht1 as [? ?]. apply orb_false_iff in Ht2 as [? ?].
  apply andb_true_iff in Ht3 as [? ?]. reflect_bool. split_and!; (done || lia).
Qed.

Lemma parse_args_ok args : exec_wp (parse_args args) command_ok (fun _ => True).
Proof.
  unfold parse_args. destruct args as [|mode rest]; [done|]. case_test.
  { apply wp_bind. eapply wp_mono; [apply (parse_pattern_args_ok _ (is_str mode "--encode-plan"))| |];
      done. }
  destruct rest as [|a [|b [|? ?]]]; repeat (case_test; [try done|]); try done.
  - apply wp_bind. eapply wp_mono; [apply parse_hex_spec| |]; cbn; naive_solver.
  - apply wp_bind, wp_ok_or; [|done]. intros s Hs%parse_uint_bounds; [|platform_lia].
    case_test; [done|]. cbn. unfold in_width in Hs. lia.
Qed.

Lemma dec_not_x n : 0 <= n -> Forall (fun c => is_x c = false) (dec n).
Proof.
  intros Hn. destruct (dec_chars n Hn) as [Hc _]. eapply Forall_weaken; [|exact Hc].
  unfold is_x, is_ascii_digit. cbn. lia.
Qed.

Lemma existsb_none p (l : list Z) : Forall (fun c => p c = false) l -> existsb p l = false.
Proof. induction 1 as [|c l Hc _ IH]; [done|]. cbn. by rewrite Hc. Qed.

Lemma parse_uint_render max n : 0 <= n <= max -> parse_uint max (dec n) = Some n.
Proof. intros. rewrite parse_uint_dec by lia. by rewrite (proj2 (Z.leb_le _ _)) by lia. Qed.

Lemma pattern_option_frames st v n :
  saw_frames st = false -> parse_uint u64_max v = Some n ->
  pattern_option st (lit "--frames") v =
    Ok {| frames := n; queue_capacity := queue_capacity st; quality := quality st;
          saw_frames := true; saw_queue := saw_queue st; saw_quality := saw_quality st |}.
Proof.
  intros Hs Hv. unfold pattern_option. rewrite Hs, Hv.
  by replace (is_str (lit "--frames") "--frames") with true by (vm_compute; reflexivity).
Qed.

Lemma pattern_option_queue st v n :
  saw_queue st = false -> parse_uint usize_max v = Some n ->
  pattern_option st (lit "--queue") v =
    Ok {| frames := frames st; queue_capacity := n; quality := quality st;
          saw_frames := saw_frames st; saw_queue := true; saw_quality := saw_quality st |}.
Proof.
  intros Hs Hv. unfold pattern_option. rewrite Hs, Hv.
  replace (is_str (lit "--queue") "--frames") with false by (vm_compute; reflexivity).
  by replace (is_str (lit "--queue") "--queue") with true by (vm_compute; reflexivity).
Qed.

Lemma pattern_option_quality st v n :
  saw_quality st = false -> parse_uint u8_max v = Some n ->
  pattern_option st (lit "--quality") v =
    Ok {| frames := frames st; queue_capacity := queue_capacity st; quality := n;
          saw_frames := saw_frames st; saw_queue := saw_queue st; saw_quality := true |}.
Proof.
  intros Hs Hv. unfold pattern_option. rewrite Hs, Hv.
  replace (is_str (lit "--quality") "--frames") with false by (vm_compute; reflexivity).
  replace (is_str (lit "--quality") "--queue") with false by (vm_compute; reflexivity).
  by replace (is_str (lit "--quality") "--quality") with true by (vm_compute; reflexivity).
Qed.

Lemma pattern_options_render o :
  command_ok (Pattern o false) ->
  pattern_options initial_options
    [lit "--frames"; dec (opt_frames o); lit "--queue"; dec (opt_queue_capacity o);
     lit "--quality"; dec (opt_quality o)]
  = Ok {| frames := opt_frames o; queue_capacity := opt_queue_capacity o;
          quality := opt_quality o; saw_frames := true; saw_queue := true; saw_quality := true |}.
Proof.
  unfold command_ok, MAX_PATTERN_FRAMES, MAX_QUEUE_CAPACITY. intros (_ & _ & Hf & Hq & Hql).
  cbn [pattern_options].
  rewrite (pattern_option_frames _ _ (opt_frames o)) by (done || apply parse_uint_render; unfold u64_max; lia).
  exec_cbn.
  rewrite (pattern_option_queue _ _ (opt_queue_capacity o)) by (done || apply parse_uint_render; platform_lia).
  exec_cbn.
  rewrite (pattern_option_quality _ _ (opt_quality o)) by (done || apply parse_uint_render; unfold u8_max; lia).
  done.
Qed.

Lemma parse_pattern_args_render o :
  command_ok (Pattern o false) ->
  parse_pattern_args (tail (render_command (Pattern o false))) = Ok o.
Proof.
  intros Ho. pose proof Ho as (Hw & Hh & Hf & Hq & Hql). unfold in_width in *.
  unfold MAX_PATTERN_FRAMES, MAX_QUEUE_CAPACITY in *.
  destruct (dec_chars (opt_width o)) as [_ Hwl]; [lia|].
  destruct (dec_chars (opt_height o)) as [_ Hhl]; [lia|].
  cbn [render_command tail]. unfold parse_pattern_args.
  change (lit "x") with [120]. change ([120] ++ dec (opt_height o)) with (120 :: dec (opt_height o)).
  assert (position is_x (dec (opt_width o) ++ 120 :: dec (opt_height o)) = Some (len (dec (opt_width o))))
    as ->.
  { apply position_Some. eexists _, _, _. split_and!; [done|done|done|]. apply dec_not_x. lia. }
  exec_cbn. rewrite slice_to_eq by len_lia. exec_cbn. rewrite slice_from_eq by len_lia. exec_cbn.
  rewrite to_nat_len, take_app_length, drop_app_length.
  rewrite slice_from_eq by len_lia. exec_cbn. change (drop (Z.to_nat 1) (120 :: dec (opt_height o)))
    with (dec (opt_height o)).
  rewrite existsb_none by (apply dec_not_x; lia).
  rewrite !(proj2 (Z.eqb_neq _ _)) by lia. exec_cbn.
  rewrite !parse_uint_render by lia. exec_cbn.
  rewrite pattern_options_render by done.
  cbn [exec_bind frames queue_capacity quality].
  unfold MAX_PATTERN_FRAMES, MAX_QUEUE_CAPACITY.
  test_false ((opt_frames o =? 0) || (1000 <? opt_frames o)).
  test_false ((opt_queue_capacity o =? 0) || (256 <? opt_queue_capacity o)).
  test_false (negb ((1 <=? opt_quality o) && (opt_quality o <=? 100))). by destruct o.
Qed.
End argument_lemmas.

(** ** Theorems *)

(** C19 [parse_hex] accepts exactly the texts whose characters, separators left
    out, are the hex digits (in either case) of the high and low half of each
    byte, and returns those bytes; otherwise it reports an odd number of digits
    or the first character that is not a digit.  It never panics. *)
Theorem parse_hex_correct s :
  (forall bs, parse_hex s = Ok bs <->
     Forall (in_width u8_max) bs /\ to_digit 16 <$> strip s = Some <$> unpack bs)
  /\ exec_wp (parse_hex s) (fun _ => True)
       (fun e => e = OddHexDigits /\ len (strip s) mod 2 = 1
          \/ exists l c r, strip s = l ++ c :: r /\ e = InvalidHexDigit c
             /\ is_ascii_hexdigit c = false
             /\ Forall (fun c => is_ascii_hexdigit c = true) l).
Proof.
  split; [apply parse_hex_Ok|]. eapply wp_mono; [apply parse_hex_spec|..]; done.
Qed.

Section theorems.
Context `{Platform}.

Lemma read_hex_text_spec r limit :
  Forall (in_width u8_max) (stream r) -> 0 <= limit < usize_max ->
  returns (read_hex_text r limit)
  /\ (forall bs, read_hex_text r limit = Ok bs <->
        len (stream r) <= limit /\ broken r = None /\ parse_hex (stream r) = Ok bs)
  /\ (limit < len (stream r) -> read_hex_text r limit = Err (TextTooLong limit)).
Proof.
  intros Hu8 Hlim. unfold read_hex_text, checked_add, try_from.
  rewrite (proj2 (Z.leb_le _ usize_max)) by lia. exec_cbn.
  rewrite (proj2 (Z.leb_le _ u64_max)) by platform_lia. exec_cbn. unfold take_read_to_end.
  destruct (Z.leb_spec (limit + 1) (len (stream r))) as [Hl|Hl]; exec_cbn.
  { rewrite len_take by lia. rewrite (proj2 (Z.ltb_lt _ _)) by lia.
    split_and!; [done| |done]. intros bs. split; [done|]. lia. }
  destruct (broken r) as [error|] eqn:Hb; exec_cbn.
  { split_and!; [done| |lia]. naive_solver. }
  rewrite (proj2 (Z.ltb_ge _ _)) by lia. pose proof (str_from_utf8_eq _ Hu8) as Heqn.
  destruct (from_utf8 _ (stream r)) as [t|] eqn:Hutf; [rewrite Heqn|destruct Heqn as [e ->]];
    exec_cbn; (split_and!; [| |lia]).
  - apply parse_hex_returns.
  - intros bs.
    assert (parse_hex t = Ok bs \/ parse_hex (stream r) = Ok bs -> stream r = t) as Heq.
    { intros [Hp|Hp]; apply parse_hex_ascii in Hp.
      - by eapply from_utf8_ascii_inv.
      - by rewrite from_utf8_ascii in Hutf by (done || lia); simplify_eq. }
    split; [intros Hp; rewrite Heq by auto; split_and!; [by rewrite <- Heq by auto; lia|done|done]|].
    intros (_ & _ & Hp). by rewrite <- Heq by auto.
  - done.
  - intros bs. split; [done|]. intros (_ & _ & Hp%parse_hex_ascii).
    by rewrite from_utf8_ascii in Hutf by (done || lia).
Qed.

(** [read_hex_text] holds at most one byte more than the limit and accepts a
    stream exactly when it ends within the limit without a read error and its
    bytes, as ASCII, are hex text; a longer stream is rejected for its length
    whatever follows, and the function always returns. *)
Theorem read_hex_text_correct r limit :
  Forall (in_width u8_max) (stream r) -> 0 <= limit < usize_max ->
  returns (read_hex_text r limit)
  /\ (forall bs, read_hex_text r limit = Ok bs <->
        len (stream r) <= limit /\ broken r = None /\ parse_hex (stream r) = Ok bs)
  /\ (limit < len (stream r) -> read_hex_text r limit = Err (TextTooLong limit)).
Proof. apply read_hex_text_spec. Qed.

(** Whatever the arguments, [parse_args] returns, without panicking on a
    slice, and a command it accepts is within the program's limits: a positive
    duration, bytes for the packet, dimensions in [u32], 1 to 1000 frames, a
    queue of 1 to 256 and a quality of 1 to 100. *)
Theorem parse_args_within_limits args : exec_wp (parse_args args) command_ok (fun _ => True).
Proof. apply parse_args_ok. Qed.

(** C40 Every command within the limits can be given on the command line: its
    rendering parses back to the command itself. *)
Theorem parse_args_roundtrip c : command_ok c -> parse_args (render_command c) = Ok c.
Proof.
  intros Hc. destruct c as [[seconds|]|packet|path| |o encode|].
  2, 4, 5, 7: vm_compute; reflexivity.
  - cbn [command_ok] in Hc. cbn [render_command]. unfold parse_args.
    replace (is_str (lit "--observe") "--pattern" || is_str (lit "--observe") "--encode-plan")
      with false by (vm_compute; reflexivity).
    replace (is_str (lit "--observe") "--observe" && is_str (lit "--duration") "--duration")
      with true by (vm_compute; reflexivity).
    rewrite parse_uint_render by lia. exec_cbn. by rewrite (proj2 (Z.eqb_neq _ _)) by lia.
  - cbn [command_ok] in Hc. cbn [render_command]. unfold parse_args.
    replace (is_str (lit "--decode-hex") "--pattern" || is_str (lit "--decode-hex") "--encode-plan")
      with false by (vm_compute; reflexivity).
    replace (is_str (lit "--decode-hex") "--decode-hex") with true by (vm_compute; reflexivity).
    by rewrite parse_hex_dump.
  - pose proof (parse_pattern_args_render o Hc) as Hp. cbn [render_command tail] in Hp.
    cbn [render_command]. unfold parse_args. rewrite Hp.
    destruct encode.
    + replace (is_str (lit "--encode-plan") "--pattern" || is_str (lit "--encode-plan") "--encode-plan")
        with true by (vm_compute; reflexivity).
      by replace (is_str (lit "--encode-plan") "--encode-plan") with true by (vm_compute; reflexivity).
    + replace (is_str (lit "--pattern") "--pattern" || is_str (lit "--pattern") "--encode-plan")
        with true by (vm_compute; reflexivity).
      by replace (is_str (lit "--pattern") "--encode-plan") with false by (vm_compute; reflexivity).
Qed.
End theorems.

(** ** Witnesses *)

Lemma read_hex_text_correct_witness :
  read_hex_text {| stream := lit "73:6D 0a"; broken := None |} 8 = Ok [0x73; 0x6d; 0x0a] /\
  read_hex_text {| stream := lit "73:6D 0a"; broken := None |} 7 = Err (TextTooLong 7).
Proof.
  split.
  - refine (proj2 (proj1 (proj2 (read_hex_text_correct {| stream := lit "73:6D 0a"; broken := None |}
      8 _ _)) _) _);
      [by repeat constructor; vm_compute | vm_compute; split; [discriminate|reflexivity]
      | split; [vm_compute; discriminate | split; vm_compute; reflexivity]].
  - vm_compute. reflexivity.
Defined.

Lemma parse_args_roundtrip_witness :
  let o := {| opt_width := 1920; opt_height := 1080; opt_frames := 12;
              opt_queue_capacity := 3; opt_quality := 90 |} in
  parse_args (render_command (Pattern o true)) = Ok (Pattern o true) /\
  render_command (Pattern o true) =
    [lit "--encode-plan"; lit "1920x1080"; lit "--frames"; lit "12"; lit "--queue"; lit "3";
     lit "--quality"; lit "90"].
Proof.
  split; [|vm_compute; reflexivity].
  apply (parse_args_roundtrip (Pattern {| opt_width := 1920; opt_height := 1080; opt_frames := 12;
              opt_queue_capacity := 3; opt_quality := 90 |} true)).
  vm_compute. intuition discriminate.
Defined.
