(* ===== verification/Decode.v ===== *)
(** * Decode: the offline packet decoder

    Models [decode] and [print_protocol_info] of rust/src/main.rs.  What a
    function prints is a list of lines, in order, beside its result; an error of
    a parser is kept as the parser's value, where the source converts it to its
    message. *)

From S2P Require Import Prelude Text Wire JpegScan Envelope Modes Cli.

Open Scope Z_scope.

(** ** Formats *)

(** [{:#0wx}]: zero-padded to width [w], of which two characters are [0x]. *)
Definition alt_hex (w : nat) (n : Z) : list Z := lit "0x" ++ hex_pad (w - 2) n.

Definition frame_line (e : FrameEnvelope) : list Z :=
  lit "sequence=" ++ dec (env_sequence e) ++ lit " byte23=" ++ alt_hex 4 (unclassified_byte23 e)
  ++ lit " jpeg=" ++ dec (len (env_jpeg e)) ++ lit " decoder=" ++ dec (len (decoder_metadata e))
  ++ lit " padding=" ++ dec (len (env_padding e)).

Definition ack_line (a : FrameAck) : list Z :=
  lit "frame-ack sequence=" ++ dec (ack_sequence a)
  ++ lit " bytes21-23=" ++ hex_dump (unclassified_bytes21_23 a).

Definition header_line (packet : list Z) (h : WireHeader) : list Z :=
  lit "bytes=" ++ dec (len packet) ++ lit " word12=" ++ alt_hex 10 (word12 h)
  ++ lit " word16=" ++ alt_hex 10 (word16 h) ++ lit " byte20=" ++ alt_hex 4 (byte20 h).

(** The class prints with [{:#x}]. *)
Definition request_line (r : CommandRequest) : list Z :=
  lit "request class=" ++ alt_hex 0 COMMAND_CLASS ++ lit " opcode=" ++ alt_hex 4 (req_opcode r)
  ++ lit " length=" ++ dec (req_length r).

Definition mode_line (index : Z) (m : Mode) : list Z :=
  lit "mode[" ++ dec index ++ lit "]=" ++ dec (width m) ++ lit "x" ++ dec (height m)
  ++ lit "@" ++ dec (refresh_hz m) ++ lit " " ++ dec (bits_per_pixel m) ++ lit "bpp".

(** ** Operations *)

Inductive DecodeError :=
| HeaderError (e : ParseError)
| EnvelopeError (e : FrameParseError)
| AckError (e : FrameAckParseError)
| ModesError (e : ParseError).

(** Lines printed, and the result. *)
Definition output : Type := list (list Z) * exec DecodeError unit.

(** [parser(packet).map_err(|error| error.to_string())?] with the lines printed
    so far. *)
Definition attempt {E A} (lines : list (list Z)) (m : exec E A) (to_error : E -> DecodeError)
    (k : A -> output) : output :=
  match m with
  | Ok a => k a
  | Err e => (lines, Err (to_error e))
  | Panic => (lines, Panic)
  | NoFuel => (lines, NoFuel)
  end.

Section operations.
Context `{Platform}.

(** The end of [decode], for a packet that is not a canonical request. *)
Definition decode_modes (packet : list Z) (lines : list (list Z)) : output :=
  if len packet <? HEADER_SIZE then (lines, Ok tt) else
  attempt lines (parse_observed_modes packet) ModesError (fun modes =>
  (lines ++ imap (fun i m => mode_line (Z.of_nat i) m) modes, Ok tt)).

Definition decode (packet : list Z) : output :=
  attempt [] (parse_header packet) HeaderError (fun header =>
  if word16 header =? FRAME_SIGNATURE then
    let payload_length := saturating_sub (len packet) HEADER_SIZE in
    let max_packet_size :=
      if payload_length mod SUPER_SPEED_MAX_PACKET_SIZE =? 0
      then SUPER_SPEED_MAX_PACKET_SIZE else HIGH_SPEED_MAX_PACKET_SIZE in
    attempt [] (parse_frame_envelope packet max_packet_size) EnvelopeError (fun frame =>
    ([frame_line frame], Ok tt))
  else if (len packet =? FRAME_ACK_SIZE) && (word16 header =? FRAME_ACK_SIGNATURE) then
    attempt [] (parse_frame_ack packet) AckError (fun ack => ([ack_line ack], Ok tt))
  else
    let lines := [header_line packet header] in
    match parse_canonical_command_request packet with
    | Ok request => (lines ++ [request_line request], Ok tt)
    | Err _ => decode_modes packet lines
    | Panic => (lines, Panic)
    | NoFuel => (lines, NoFuel)
    end).

Definition protocol_line : list Z :=
  lit "display-interface=" ++ dec DISPLAY_INTERFACE ++ lit " alt=" ++ dec DISPLAY_ALT_SETTING
  ++ lit " interrupt-in=" ++ alt_hex 4 INTERRUPT_IN_ENDPOINT
  ++ lit " interrupt-out=" ++ alt_hex 4 INTERRUPT_OUT_ENDPOINT
  ++ lit " bulk-out=" ++ alt_hex 4 BULK_OUT_ENDPOINT.

(** The lines printed; [expect] panics when the heartbeat is not built. *)
Definition print_protocol_info : exec BuildError (list (list Z)) :=
  let! capabilities := build_capabilities_request in
  let! heartbeat :=
    match build_bulk_heartbeat_request 0 with Ok p => Ok p | Err _ => Panic | x => x end in
  Ok [protocol_line;
      lit "capabilities=" ++ hex_dump capabilities;
      lit "bulk-heartbeat=" ++ hex_dump heartbeat;
      lit "transmission=disabled"].
End operations.

(** ** Lemmas *)

Section lemmas.
Context `{Platform}.

Lemma frame_payload_length e reserved :
  len reserved = 24 ->
  len (frame_packet e reserved) - HEADER_SIZE
  = len (env_jpeg e) + (len (decoder_metadata e) + len (env_padding e)).
Proof. intros Hr. rewrite len_frame_packet by done. lia. Qed.

(** The packet size that [decode] guesses from the payload. *)
Definition guess (p : list Z) : Z :=
  if saturating_sub (len p) HEADER_SIZE mod SUPER_SPEED_MAX_PACKET_SIZE =? 0
  then SUPER_SPEED_MAX_PACKET_SIZE else HIGH_SPEED_MAX_PACKET_SIZE.

Lemma guess_supported p : supported_mps (guess p).
Proof. unfold guess, supported_mps. case_test; auto. Qed.

(** The guess loses nothing: a frame aligned for either packet size is aligned
    for the guessed one. *)
Lemma guess_complete p mps e :
  byte_slice p -> parse_frame_envelope p mps = Ok e -> parse_frame_envelope p (guess p) = Ok e.
Proof.
  intros Hp He.
  destruct (wp_Ok_elim _ _ _ _ (envelope_wp p mps Hp) He) as (Hmps & Hlay & reserved & Hr & -> & H32).
  destruct Hlay as (Hj & Hm & Hz & Hl & Ha).
  apply envelope_eq; [done..|apply guess_supported|].
  pose proof (len_nonneg (env_jpeg e)). pose proof (len_nonneg (env_padding e)).
  unfold guess, saturating_sub. rewrite Z.max_r by (rewrite frame_payload_length by done; len_lia).
  rewrite frame_payload_length by done. unfold envelope_layout. rewrite Hm.
  unfold SUPER_SPEED_MAX_PACKET_SIZE, HIGH_SPEED_MAX_PACKET_SIZE.
  unfold JPEG_DECODER_METADATA_SIZE in *.
  rewrite Z.add_assoc. destruct Hmps as [-> | ->].
  - case_test as Hg; split_and!; try done; lia.
  - rewrite Ha. cbn. split_and!; done.
Qed.

(** The mode table never makes the decoder fail. *)
Lemma decode_modes_ok p lines :
  byte_slice p -> 21 <= len p -> take 12 p = WIRE_MAGIC ->
  exec_wp (decode_modes p lines).2 (fun _ => True) (fun _ => False).
Proof.
  intros Hp Hl Hm. unfold decode_modes, HEADER_SIZE. case_test as Hh; [done|].
  pose proof (parse_observed_modes_wp p Hp) as W.
  destruct (parse_observed_modes p); cbn in W |- *; try done.
  destruct W as [[_ ?]|[(_ & _ & ?)|[_ ?]]]; (done || lia).
Qed.

(** A built request decodes to its request line. *)
Lemma decode_built N opcode :
  (21 <= N)%nat -> Z.of_nat N <= u32_max -> Z.of_nat N <= isize_max -> forall body,
  len (wire (Z.of_nat N) COMMAND_CLASS (opcode :: body)) = Z.of_nat N ->
  let p := wire (Z.of_nat N) COMMAND_CLASS (opcode :: body) in
  (decode p).2 = Ok tt
  /\ last (decode p).1 = Some (request_line {| req_length := Z.of_nat N; req_opcode := opcode |}).
Proof.
  intros HN Hmax Hi body Hl p. unfold decode, parse_canonical_command_request.
  subst p. rewrite parse_header_wire by (rewrite ?Hl; unfold COMMAND_CLASS; platform_lia).
  cbn [attempt exec_bind word12 word16 byte20].
  change (COMMAND_CLASS =? FRAME_SIGNATURE) with false.
  change (COMMAND_CLASS =? FRAME_ACK_SIGNATURE) with false. rewrite andb_false_r.
  rewrite as_usize_u32 by platform_lia. rewrite Hl, !Z.eqb_refl. done.
Qed.

(** What an error of the decoder says about the packet. *)
Definition decode_error (p : list Z) (err : DecodeError) : Prop :=
  match err with
  | HeaderError e => parse_header p = Err e
  | EnvelopeError e => exists mps, supported_mps mps /\ frame_error p mps e
  | AckError e => e = FrameAckParseError.InvalidDeclaredLength (word_at p 12)
                  /\ word_at p 12 <> FRAME_ACK_SIZE
  | ModesError _ => False
  end.

Lemma decode_wp p :
  byte_slice p ->
  exec_wp (decode p).2 (fun _ => exists h, parse_header p = Ok h) (decode_error p).
Proof.
  intros Hp. unfold decode, decode_error. rewrite parse_header_eq by apply Hp.
  case_test as Hl; [done|].
  case_bool_decide as Hm; [|done]. cbn [attempt word16 word12].
  case_test as Hs.
  { fold (guess p). pose proof (envelope_wp p (guess p) Hp) as W.
    destruct (parse_frame_envelope p (guess p)); cbn in W |- *; try done; [by eexists|].
    exists (guess p). split; [apply guess_supported|done]. }
  case_test as Ha.
  { apply andb_true_iff in Ha as [Ha1 Ha2]. rewrite parse_frame_ack_eq by apply Hp.
    rewrite Ha1, Ha2, bool_decide_true by done. cbn [negb].
    case_test as Hd; cbn; [done|by eexists]. }
  unfold parse_canonical_command_request. rewrite parse_header_eq by apply Hp.
  rewrite (proj2 (Z.ltb_ge _ _)), bool_decide_true by done. cbn [exec_bind word12 word16 byte20].
  pose proof (fun lines => decode_modes_ok p lines Hp ltac:(lia) Hm) as Hrest.
  case_test as H1; [|case_test as H2]; [eapply wp_mono; [apply Hrest|by eexists|done]..|].
  cbn. by eexists.
Qed.
End lemmas.

Section info.
Context `{Platform}.

Lemma print_protocol_info_eq :
  print_protocol_info =
    Ok [protocol_line;
        lit "capabilities=" ++ hex_dump (wire 48 COMMAND_CLASS (CAPABILITIES_OPCODE :: replicate 27 0));
        lit "bulk-heartbeat=" ++ hex_dump (wire 44 COMMAND_CLASS
          (BULK_HEARTBEAT_OPCODE :: replicate 14 0 ++ dec 0 ++ replicate 8 0));
        lit "transmission=disabled"].
Proof.
  unfold print_protocol_info, build_capabilities_request.
  rewrite build_zeroed_request_eq by (vm_compute; (lia || discriminate)). exec_cbn.
  by rewrite build_bulk_heartbeat_request_eq by (vm_compute; split; discriminate).
Qed.
End info.

Section theorems.
Context `{Platform}.

(** C22 The decoder recognises every frame without being told the packet size: on
    a packet with the frame signature it prints one line, for an envelope, exactly
    when the packet is a frame for 512-byte or for 1024-byte packets, and it is
    that frame's line; otherwise it prints nothing and reports the envelope
    parser's error for the size the payload suggests. *)
Theorem decode_frame_correct p h :
  byte_slice p -> parse_header p = Ok h -> word16 h = FRAME_SIGNATURE ->
  (forall lines, decode p = (lines, Ok tt) <->
     exists mps e, parse_frame_envelope p mps = Ok e /\ lines = [frame_line e])
  /\ exec_wp (decode p).2 (fun _ => True)
       (fun err => (decode p).1 = [] /\ exists e mps, err = EnvelopeError e
          /\ supported_mps mps /\ frame_error p mps e).
Proof.
  intros Hp Hh Hs. unfold decode. rewrite Hh. cbn [attempt]. rewrite Hs, Z.eqb_refl.
  fold (guess p). pose proof (envelope_wp p (guess p) Hp) as W. split.
  - intros lines. split.
    + destruct (parse_frame_envelope p (guess p)) as [e|err| |] eqn:He; cbn; try done.
      intros [= <-]. by exists (guess p), e.
    + intros (mps & e & He & ->). by rewrite (guess_complete p mps e Hp He).
  - destruct (parse_frame_envelope p (guess p)) as [e|err| |]; cbn in W |- *; try done.
    split; [done|]. exists err, (guess p). split_and!; [done|apply guess_supported|done].
Qed.

(** [decode] returns on every byte slice, and fails only for a bad header, a
    malformed frame, or an acknowledgement whose length word is not 1024; the
    mode table of a packet that is none of these never makes it fail, and a
    canonical command request prints its header and its request line. *)
Theorem decode_total p :
  byte_slice p ->
  exec_wp (decode p).2 (fun _ => exists h, parse_header p = Ok h) (decode_error p)
  /\ forall h r, parse_header p = Ok h -> parse_canonical_command_request p = Ok r ->
       decode p = ([header_line p h; request_line r], Ok tt).
Proof.
  intros Hp. split; [by apply decode_wp|].
  intros h r Hh Hr. unfold decode. rewrite Hh, Hr. cbn [attempt].
  unfold parse_canonical_command_request in Hr. rewrite Hh in Hr. cbn [exec_bind] in Hr.
  destruct (negb (as_usize (word12 h) =? len p)); [done|].
  destruct (negb (word16 h =? COMMAND_CLASS)) eqn:Hc; [done|]. reflect_in Hc. rewrite Hc.
  change (COMMAND_CLASS =? FRAME_SIGNATURE) with false.
  change (COMMAND_CLASS =? FRAME_ACK_SIGNATURE) with false. by rewrite andb_false_r.
Qed.

(** What [--protocol-info] prints is valid input for [--decode-hex]: the two
    hex dumps parse back to the built requests, and decoding these reports the
    capabilities request (opcode 0x65, 48 bytes) and the heartbeat (opcode 0xec,
    44 bytes). *)
Theorem protocol_info_decodes :
  exists capabilities heartbeat hc hh,
    print_protocol_info = Ok [protocol_line; lit "capabilities=" ++ hc; lit "bulk-heartbeat=" ++ hh;
                              lit "transmission=disabled"]
    /\ parse_hex hc = Ok capabilities /\ parse_hex hh = Ok heartbeat
    /\ (decode capabilities).2 = Ok tt /\ (decode heartbeat).2 = Ok tt
    /\ last (decode capabilities).1 = Some (lit "request class=0x6 opcode=0x65 length=48")
    /\ last (decode heartbeat).1 = Some (lit "request class=0x6 opcode=0xec length=44").
Proof.
  set (c := wire 48 COMMAND_CLASS (CAPABILITIES_OPCODE :: replicate 27 0)).
  set (b := wire 44 COMMAND_CLASS (BULK_HEARTBEAT_OPCODE :: replicate 14 0 ++ dec 0 ++ replicate 8 0)).
  exists c, b, (hex_dump c), (hex_dump b). split_and!.
  - apply print_protocol_info_eq.
  - apply parse_hex_dump. by repeat constructor.
  - apply parse_hex_dump. by repeat constructor.
  - apply (decode_built 48 CAPABILITIES_OPCODE); [lia|platform_lia|platform_lia|reflexivity].
  - apply (decode_built 44 BULK_HEARTBEAT_OPCODE); [lia|platform_lia|platform_lia|reflexivity].
  - etrans; [exact (proj2 (decode_built 48 CAPABILITIES_OPCODE ltac:(lia) ltac:(platform_lia)
      ltac:(platform_lia) (replicate 27 0) eq_refl))|]. vm_compute. reflexivity.
  - etrans; [exact (proj2 (decode_built 44 BULK_HEARTBEAT_OPCODE ltac:(lia) ltac:(platform_lia)
      ltac:(platform_lia) (replicate 14 0 ++ dec 0 ++ replicate 8 0) eq_refl))|].
    vm_compute. reflexivity.
Qed.
End theorems.

(** ** Witnesses *)

Definition sample_header : WireHeader :=
  {| word12 := 21040; word16 := FRAME_SIGNATURE; byte20 := 4 |}.

Lemma sample_frame_header : parse_header sample_frame = Ok sample_header.
Proof. vm_compute. reflexivity. Qed.

Lemma sample_frame_envelope : parse_frame_envelope sample_frame 512 = Ok sample_envelope.
Proof.
  apply envelope_eq; [exact sample_frame_bytes| |done|by left|exact sample_envelope_layout].
  rewrite len_frame_packet by reflexivity.
  cbn [env_jpeg decoder_metadata env_padding sample_envelope].
  rewrite !len_replicate. vm_compute. discriminate.
Qed.

(** The decoder on a high-speed frame whose payload is not a multiple of 1024. *)
Lemma decode_frame_correct_witness :
  decode sample_frame = ([frame_line sample_envelope], Ok tt) /\
  frame_line sample_envelope = lit "sequence=137 byte23=0x00 jpeg=32 decoder=20480 padding=480".
Proof.
  split; [|vm_compute; reflexivity].
  exact (proj2 (proj1 (decode_frame_correct sample_frame sample_header sample_frame_bytes
    sample_frame_header eq_refl) [frame_line sample_envelope])
    (ex_intro _ 512 (ex_intro _ sample_envelope (conj sample_frame_envelope eq_refl)))).
Defined.

Lemma decode_total_witness :
  let p := lit "smifalconsta" ++ [21; 0; 0; 0; 6; 0; 0; 0; 0x65] in
  decode p = ([header_line p {| word12 := 21; word16 := 6; byte20 := 0x65 |};
               request_line {| req_length := 21; req_opcode := 0x65 |}], Ok tt).
Proof.
  refine (proj2 (decode_total (lit "smifalconsta" ++ [21; 0; 0; 0; 6; 0; 0; 0; 0x65]) _) _ _ _ _);
    [apply byte_slice_check; vm_compute; reflexivity | vm_compute; reflexivity
    | vm_compute; reflexivity].
Defined.
