(* ===== verification/Simulate.v ===== *)
(** * Simulate: test frames through the pipeline and the encoder

    Models [simulate_pattern] of rust/src/main.rs, the program's end-to-end
    path: layout, work limits, pipeline, capture loop, optional encoder and
    drain.  A computation yields what it did, lines printed and calls into the JPEG
    library in order, and its result.  The frame
    allocator and the encoder's allocator may answer differently for each frame;
    they are indexed by its sequence number. *)

From S2P Require Import Prelude Text Fnv Frame Pipeline Jpeg Cli.

Open Scope Z_scope.

(** ** Printing computations *)

Inductive SimError :=
| InvalidPatternLayout (e : FrameError)
| WorkOverflow
| WorkLimit (total_work : Z)
| QueueOverflow
| QueueLimit (resident_bytes : Z)
| PipelineFailed (e : PipelineError)
| PatternFailed (e : FrameError)
| RejectedFrame (outcome : SubmitOutcome)
| EncoderInit (e : JpegError)
| EncodeFailed (id : FrameId) (e : JpegError)
| StaleSink (e : GenerationMismatch).

(** What the simulation does, besides computing. *)
Inductive event :=
| Line (l : list Z)
| Ffi (e : tj_event).

Definition lines_of (es : list event) : list (list Z) :=
  omap (fun e => match e with Line l => Some l | Ffi _ => None end) es.
Definition ffi_of (es : list event) : list tj_event :=
  omap (fun e => match e with Line _ => None | Ffi c => Some c end) es.

Definition printing (A : Type) : Type := io event SimError A.

Definition println (line : list Z) : printing unit := ([Line line], Ok tt).

(** Calls into the library, by a computation that may fail. *)
Definition foreign {A} (to_error : JpegError -> SimError) (m : io tj_event JpegError A)
    : printing A := io_map Ffi to_error m.

(** Postcondition on the lines and the value, and on errors. *)
Definition print_wp {A} (m : printing A) (Q : list (list Z) -> A -> Prop)
    (QE : SimError -> Prop) : Prop :=
  exec_wp m.2 (Q (lines_of m.1)) QE.

(** ** Formats *)

Definition show_id (id : FrameId) : list Z :=
  dec (generation id) ++ lit ":" ++ dec (sequence id).

Definition pipeline_line (l : FrameLayout) (options : PatternOptions) (g : Z) : list Z :=
  lit "pipeline format=BGRx width=" ++ dec (layout_width l) ++ lit " height="
  ++ dec (layout_height l) ++ lit " stride=" ++ dec (layout_stride l) ++ lit " frame-bytes="
  ++ dec (layout_byte_len l) ++ lit " queue-capacity=" ++ dec (opt_queue_capacity options)
  ++ lit " generation=" ++ dec g.

Definition plan_line (options : PatternOptions) (encode : bool) : list Z :=
  lit "encode-plan=JPEG-4:2:2-after-BGRx quality=" ++ dec (opt_quality options)
  ++ lit " execute=" ++ (if encode then lit "true" else lit "false")
  ++ lit " transport=disabled".

Definition capture_line (g sequence checksum : Z) (dropped : option FrameId) : list Z :=
  lit "capture id=" ++ dec g ++ lit ":" ++ dec sequence ++ lit " checksum="
  ++ hex_pad 16 checksum ++ lit " queued"
  ++ match dropped with Some id => lit " drop-old=" ++ show_id id | None => [] end.

Definition encoded_line (f : Frame) (e : EncodedFrame) : list Z :=
  lit "encoded id=" ++ show_id (encoded_id e) ++ lit " raw-checksum=" ++ hex_pad 16 (checksum f)
  ++ lit " jpeg-bytes=" ++ dec (len (encoded_bytes e)) ++ lit " jpeg-fnv1a64="
  ++ hex_pad 16 (EncodedFrame_checksum e) ++ lit " jpeg=" ++ dec (encoded_width e) ++ lit "x"
  ++ dec (encoded_height e) ++ lit " quality=" ++ dec (encoded_quality e)
  ++ lit " subsampling=4:2:2".

Definition input_line (f : Frame) : list Z :=
  lit "encoder-input id=" ++ show_id (frame_id f) ++ lit " checksum=" ++ hex_pad 16 (checksum f)
  ++ lit " bytes=" ++ dec (layout_byte_len (frame_layout f)).

Definition summary_line (s : PipelineSnapshot) : list Z :=
  lit "summary generation=" ++ dec (snap_generation s) ++ lit " capacity=" ++ dec (snap_capacity s)
  ++ lit " accepted=" ++ dec (accepted (snap_stats s)) ++ lit " dequeued="
  ++ dec (dequeued (snap_stats s)) ++ lit " dropped-capacity="
  ++ dec (dropped_capacity (snap_stats s)) ++ lit " queued=" ++ dec (snap_queued s)
  ++ lit " usb-transmission=disabled".

(** ** Operations *)

Section operations.
Context `{TurboJpeg}.
Variable alloc : Z -> Z -> bool.
Variable grow : Z -> Z -> option Z.

(** [for sequence in sequence..sequence + n]: generate, submit, report. *)
Fixpoint capture (n : nat) (sequence : Z) (layout : FrameLayout) (g : Z) (st : PipelineState)
    : printing PipelineState :=
  match n with
  | O => lift (Ok st)
  | S n =>
      let* frame := lift (map_err PatternFailed
        (test_pattern (alloc sequence) {| generation := g; sequence := sequence |} layout)) in
      let sum := checksum frame in
      let '(st, outcome) := submit st frame in
      let* _ :=
        match outcome with
        | Queued => println (capture_line g sequence sum None)
        | DroppedOldest dropped => println (capture_line g sequence sum (Some dropped))
        | unexpected => lift (Err (RejectedFrame unexpected))
        end in
      capture n (sequence + 1) layout g st
  end.

(** [while let Some(frame) = pipeline.try_take()]; the fuel bounds the number of
    queued frames. *)
Fixpoint drain_loop (fuel : nat) (quality : Z) (compressor : option Compressor)
    (st : PipelineState) : printing PipelineState :=
  match fuel with
  | O => lift NoFuel
  | S fuel =>
      match try_take st with
      | (st, None) => lift (Ok st)
      | (st, Some frame) =>
          match compressor with
          | Some c =>
              let '(c, calls, r) :=
                compress_bgrx (grow (sequence (frame_id frame))) c frame quality in
              let* jpeg := foreign (EncodeFailed (frame_id frame)) (calls, r) in
              let '(st, _, sink) :=
                with_current_generation st (encoded_id jpeg) (fun w : unit => (w, tt)) tt in
              let* _ := lift match sink with inl e => Err (StaleSink e) | inr _ => Ok tt end in
              let* _ := println (encoded_line frame jpeg) in
              drain_loop fuel quality (Some c) st
          | None =>
              let* _ := println (input_line frame) in
              drain_loop fuel quality None st
          end
      end
  end.

(** The compressor is dropped at the end of the function, on every path. *)
Definition drop_encoder (compressor : option Compressor) : list event :=
  match compressor with Some c => Ffi <$> Compressor_drop c | None => [] end.

Definition simulate_pattern (options : PatternOptions) (encode : bool) : printing unit :=
  let* layout := lift (map_err InvalidPatternLayout
    (FrameLayout_new (opt_width options) (opt_height options))) in
  let frames := opt_frames options mod (usize_max + 1) in
  let* total_work := lift (ok_or (checked_mul (layout_byte_len layout) frames) WorkOverflow) in
  let* _ := lift (if MAX_PATTERN_WORK_BYTES <? total_work
                  then Err (WorkLimit total_work) else Ok tt) in
  let resident_frames := Z.min (opt_queue_capacity options) frames in
  let* resident_bytes :=
    lift (ok_or (checked_mul (layout_byte_len layout) resident_frames) QueueOverflow) in
  let* _ := lift (if MAX_PATTERN_WORK_BYTES <? resident_bytes
                  then Err (QueueLimit resident_bytes) else Ok tt) in
  let g := 1 in
  let* st := lift (map_err PipelineFailed (pipeline_new (opt_queue_capacity options) 0)) in
  let '(st, begun) := begin_generation st g in
  let* _ := lift (map_err PipelineFailed begun) in
  let* _ := println (pipeline_line layout options g) in
  let* _ := println (plan_line options encode) in
  let* st := capture (Z.to_nat (opt_frames options)) 0 layout g st in
  let* compressor :=
    if encode then
      let* c := foreign EncoderInit Compressor_new in lift (Ok (Some c))
    else lift (Ok None) in
  finally (drop_encoder compressor)
    (let* st := drain_loop (S (length (st_frames st))) (opt_quality options) compressor st in
     println (summary_line (snapshot st))).
End operations.

(** ** Lemmas on printing *)

Section printing_lemmas.
Context {A B : Type}.

Lemma print_wp_bind (m : printing A) (k : A -> printing B) Q QE :
  print_wp m (fun l a => print_wp (k a) (fun l' b => Q (l ++ l') b) QE) QE ->
  print_wp (io_bind m k) Q QE.
Proof.
  unfold print_wp. destruct m as [l [a|e| |]]; cbn; try done.
  destruct (k a) as [l' [b|e| |]]; cbn; try done. unfold lines_of. by rewrite omap_app.
Qed.

Lemma print_wp_lift (m : exec SimError A) (Q : list (list Z) -> A -> Prop) QE :
  exec_wp m (Q []) QE -> print_wp (lift m) Q QE.
Proof. done. Qed.

Lemma lines_of_ffi es : lines_of (Ffi <$> es) = [].
Proof. unfold lines_of. by induction es. Qed.

Lemma ffi_of_ffi es : ffi_of (Ffi <$> es) = es.
Proof. unfold ffi_of. induction es as [|e es IH]; [done|]. cbn in *. by rewrite IH. Qed.

Lemma print_wp_foreign (f : JpegError -> SimError) (m : list tj_event * exec JpegError A)
    (Q : list (list Z) -> A -> Prop) QE :
  exec_wp m.2 (Q []) (fun e => QE (f e)) -> print_wp (foreign f m) Q QE.
Proof. intros Hm. unfold print_wp, foreign. cbn. rewrite lines_of_ffi. by apply wp_map_err. Qed.

Lemma print_wp_finally es (m : printing A) Q QE :
  print_wp m Q QE -> print_wp (finally (Ffi <$> es) m) Q QE.
Proof.
  unfold print_wp, finally, lines_of. cbn. rewrite omap_app.
  fold (lines_of (Ffi <$> es)). by rewrite lines_of_ffi, app_nil_r.
Qed.

Lemma print_wp_println line (Q : list (list Z) -> unit -> Prop) QE :
  Q [line] tt -> print_wp (println line) Q QE.
Proof. done. Qed.

Lemma print_wp_mono (m : printing A) (Q Q' : list (list Z) -> A -> Prop) (QE QE' : SimError -> Prop) :
  print_wp m Q QE -> (forall l a, Q l a -> Q' l a) -> (forall e, QE e -> QE' e) ->
  print_wp m Q' QE'.
Proof. unfold print_wp. intros Hm H1 H2. eapply wp_mono; [exact Hm|apply H1|done]. Qed.
End printing_lemmas.

(** ** The capture loop *)

(** The [n]-th test frame. *)
Definition pattern_frame (l : FrameLayout) (n : Z) : Frame :=
  {| frame_id := {| generation := 1; sequence := n |}; frame_layout := l;
     frame_pixels := pattern_image l n |}.

(** The pipeline after [n] captures. *)
Definition captured (l : FrameLayout) (cap n : Z) : PipelineState :=
  {| st_generation := 1; st_capacity := cap;
     st_last_sequence := if n =? 0 then None else Some (n - 1);
     st_frames := pattern_frame l <$> seqZ (Z.max 0 (n - cap)) (Z.min n cap);
     st_stats := stats_of n 0 (Z.max 0 (n - cap)) 0 0 0 0 |}.

Definition capture_outcome (cap n : Z) : option FrameId :=
  if n <? cap then None else Some {| generation := 1; sequence := n - cap |}.

Lemma len_captured l cap n : 0 <= n -> 0 <= cap -> len (st_frames (captured l cap n)) = Z.min n cap.
Proof. intros. unfold len. cbn. rewrite length_fmap, length_seqZ. lia. Qed.

Lemma submit_captured l cap n :
  0 <= n < u64_max -> 1 <= cap ->
  submit (captured l cap n) (pattern_frame l n) =
    (captured l cap (n + 1),
     match capture_outcome cap n with None => Queued | Some id => DroppedOldest id end).
Proof.
  intros Hn Hc. unfold submit. cbn [frame_id pattern_frame generation sequence captured
    st_generation st_last_sequence negb Z.eqb Pos.eqb].
  assert (Ha : accept (captured l cap n) (pattern_frame l n) = (captured l cap (n + 1),
    match capture_outcome cap n with None => Queued | Some id => DroppedOldest id end)).
  { unfold accept, capture_outcome. rewrite len_captured by lia.
    change (st_capacity (captured l cap n)) with cap.
    destruct (Z.ltb_spec n cap).
    - rewrite (proj2 (Z.eqb_neq _ _)) by lia. cbn. unfold captured.
      rewrite (proj2 (Z.eqb_neq (n + 1) 0)), !Z.max_l, !Z.min_l by lia.
      rewrite seqZ_app, fmap_app by lia. unfold add_accepted, saturating_add_u64, stats_of. cbn.
      rewrite Z.min_r by lia. repeat f_equal; lia.
    - rewrite (proj2 (Z.eqb_eq _ _)) by lia. cbn [captured st_frames].
      rewrite seqZ_cons by lia. cbn. unfold captured.
      rewrite (proj2 (Z.eqb_neq (n + 1) 0)), !Z.max_r, !Z.min_r by lia.
      replace (n + 1 - cap) with (Z.succ (n - cap)) by lia.
      replace (seqZ (Z.succ (n - cap)) cap) with (seqZ (Z.succ (n - cap)) (Z.pred cap + 1)) by (f_equal; lia).
      rewrite (seqZ_app _ (Z.pred cap) 1), fmap_app by lia.
      replace (Z.succ (n - cap) + Z.pred cap) with n by lia. rewrite (seqZ_cons n 1) by lia.
      unfold add_accepted, add_dropped_capacity, saturating_add_u64, stats_of. cbn.
      rewrite !Z.min_r by lia. repeat f_equal; lia. }
  destruct (Z.eqb_spec n 0) as [->|Hz]; [done|].
  by rewrite (proj2 (Z.leb_gt _ _)) by lia.
Qed.

Section simulation.
Context `{TurboJpeg}.
Variable alloc : Z -> Z -> bool.
Variable grow : Z -> Z -> option Z.
Hypothesis grow_enough : forall i n m, grow i n = Some m -> n <= m <= isize_max.

(** The line of the [n]-th capture. *)
Definition captured_line (l : FrameLayout) (cap n : Z) : list Z :=
  capture_line 1 n (checksum (pattern_frame l n)) (capture_outcome cap n).

Lemma capture_wp l cap n seq :
  layout_ok l -> 1 <= cap -> 0 <= seq -> seq + Z.of_nat n <= u64_max ->
  print_wp (capture alloc n seq l 1 (captured l cap seq))
    (fun lines st => st = captured l cap (seq + Z.of_nat n)
       /\ lines = captured_line l cap <$> seqZ seq (Z.of_nat n))
    (fun e => e = PatternFailed (AllocationFailed (layout_byte_len l))
       /\ exists i, seq <= i < seq + Z.of_nat n /\ alloc i (layout_byte_len l) = false).
Proof.
  intros Hl Hc. revert seq. induction n as [|n IH]; intros seq Hs Hmax; cbn [capture].
  { apply print_wp_lift. cbn. by rewrite Z.add_0_r. }
  apply print_wp_bind, print_wp_lift.
  rewrite test_pattern_eq by (done || unfold in_width; cbn; lia). cbn [sequence].
  destruct (alloc seq (layout_byte_len l)) eqn:Ha; cbn [map_err exec_wp];
    [|split; [done|]; exists seq; split; [lia|done]].
  fold (pattern_frame l seq). rewrite submit_captured by lia.
  apply print_wp_bind.
  apply (print_wp_mono _ (fun lines _ => lines = [captured_line l cap seq]) _ (fun _ => False));
    [|intros ? []|done].
  { unfold captured_line. by destruct (capture_outcome cap seq). }
  intros ->. eapply print_wp_mono; [apply IH; lia|..]; cbn beta.
  - intros l' st [-> ->]. split; [f_equal; lia|].
    rewrite (seqZ_cons seq) by lia. cbn [fmap list_fmap app].
    rewrite Nat2Z.inj_succ, Z.pred_succ. by rewrite <- Z.add_1_r.
  - intros e [-> (i & Hi & Hai)]. split; [done|]. exists i. split; [lia|done].
Qed.

(** ** The drain loop *)

Definition drained (st : PipelineState) : PipelineState :=
  let s := st_stats st in
  {| st_generation := st_generation st; st_capacity := st_capacity st;
     st_last_sequence := st_last_sequence st; st_frames := [];
     st_stats := stats_of (accepted s) (dequeued s + len (st_frames st)) (dropped_capacity s)
       (discarded_generation s) (rejected_generation s) (rejected_sequence s)
       (rejected_sink_generation s) |}.

Lemma try_take_drained st f rest :
  st_frames st = f :: rest -> dequeued (st_stats st) + len (st_frames st) <= u64_max ->
  exists st', try_take st = (st', Some f) /\ st_frames st' = rest
    /\ st_generation st' = st_generation st /\ drained st' = drained st
    /\ dequeued (st_stats st') + len (st_frames st') <= u64_max.
Proof.
  intros Hq Hmax. unfold try_take. rewrite Hq. cbn. eexists. split; [done|]. cbn.
  rewrite Hq, len_cons in Hmax. pose proof (len_nonneg rest).
  unfold saturating_add_u64. rewrite Z.min_r by lia. split_and!; [done|done| |lia].
  unfold drained. cbn. rewrite Hq, len_cons. unfold saturating_add_u64.
  rewrite Z.min_r by lia. do 2 f_equal. lia.
Qed.

(** The compressor that encoding [fs] one after the other leaves behind. *)
Fixpoint compressor_after (quality : Z) (c : Compressor) (fs : list Frame) : Compressor :=
  match fs with
  | [] => c
  | f :: fs =>
      compressor_after quality (compress_bgrx (grow (sequence (frame_id f))) c f quality).1.1 fs
  end.

(** [es] are the encodings of [fs], in order, each by the compressor that the
    frames in front of it left. *)
Inductive all_encoded (quality : Z) : Compressor -> list Frame -> list EncodedFrame -> Prop :=
| encoded_nil c :
    all_encoded quality c [] []
| encoded_cons c f fs e es :
    encodes (grow (sequence (frame_id f))) c f quality e ->
    all_encoded quality (compressor_after quality c [f]) fs es ->
    all_encoded quality c (f :: fs) (e :: es).

(** What the drain loop prints for the frames it takes. *)
Definition drain_output (quality : Z) (comp : option Compressor) (fs : list Frame)
    (outputs : list (list Z)) : Prop :=
  match comp with
  | None => outputs = input_line <$> fs
  | Some c => exists es, all_encoded quality c fs es /\ outputs = zip_with encoded_line fs es
  end.

(** The encoding of the frame [id] fails with [je]: the frames in front of it are
    encoded, this one is not what the compressor and the library encode, and
    [je] is the error they report. *)
Definition encode_failure (quality : Z) (c : Compressor) (fs : list Frame) (id : FrameId)
    (je : JpegError) : Prop :=
  exists before f rest es, fs = before ++ f :: rest /\ id = frame_id f
  /\ all_encoded quality c before es
  /\ let c := compressor_after quality c before in
     let grow := grow (sequence (frame_id f)) in
     (compress_bgrx grow c f quality).2 = Err je /\ forall e, ~ encodes grow c f quality e.

(** One frame goes in front of what has been encoded. *)
Lemma drain_output_cons quality c f fs e outputs :
  encodes (grow (sequence (frame_id f))) c f quality e ->
  drain_output quality (Some (compressor_after quality c [f])) fs outputs ->
  drain_output quality (Some c) (f :: fs) (encoded_line f e :: outputs).
Proof. intros He (es & Hes & ->). exists (e :: es). by split; [constructor|]. Qed.

Lemma encode_failure_cons quality c f fs e id je :
  encodes (grow (sequence (frame_id f))) c f quality e ->
  encode_failure quality (compressor_after quality c [f]) fs id je ->
  encode_failure quality c (f :: fs) id je.
Proof.
  intros He (before & f' & rest & es & -> & -> & Hes & Hje).
  exists (f :: before), f', rest, (e :: es). split_and!; [done|done|by constructor|exact Hje].
Qed.

(** An encoded frame passes the generation gate, because the queue holds only
    frames of the active generation. *)
Lemma encode_step c f quality :
  compressor_ok c -> frame_typed f ->
  let '(c', es, r) := compress_bgrx (grow (sequence (frame_id f))) c f quality in
  compressor_ok c' /\ tj_run Live es = Some Live /\ Forall safe_call (compress_calls es)
  /\ exec_wp r
       (fun e => encoded_id e = frame_id f /\ encodes (grow (sequence (frame_id f))) c f quality e)
       (fun _ => forall e, ~ encodes (grow (sequence (frame_id f))) c f quality e).
Proof.
  intros Hc Hf.
  pose proof (compress_spec (grow (sequence (frame_id f))) (grow_enough _) c f quality Hc Hf) as Hs.
  destruct (compress_bgrx _ c f quality) as [[c' calls] r]. destruct Hs as (Hc' & Hrun & Hsafe & Hr).
  split_and!; [done..|]. eapply wp_mono; [exact Hr| |done].
  intros e He. split; [|done]. by destruct He as (m & _ & _ & _ & ->).
Qed.

Lemma drain_wp fs quality : forall comp st,
  st_frames st = fs ->
  Forall (fun f => generation (frame_id f) = st_generation st /\ frame_typed f) fs ->
  dequeued (st_stats st) + len (st_frames st) <= u64_max ->
  (forall c, comp = Some c -> compressor_ok c) ->
  print_wp (drain_loop grow (S (length fs)) quality comp st)
    (fun lines st' => st' = drained st /\ drain_output quality comp fs lines)
    (fun e => exists c id je, comp = Some c /\ e = EncodeFailed id je
       /\ encode_failure quality c fs id je).
Proof.
  induction fs as [|f fs IH]; intros comp st Hq Hfs Hmax Hcomp; cbn [length drain_loop].
  { unfold try_take, pop_front. rewrite Hq. apply print_wp_lift. cbn. split.
    - unfold drained. rewrite Hq. cbn. f_equal. len_nil. apply stats_eq; cbn; lia.
    - destruct comp; cbn; [|done]. exists []. by split; [constructor|]. }
  destruct (try_take_drained st f fs Hq Hmax) as (st1 & -> & Hq1 & Hg1 & Hd1 & Hmax1).
  apply Forall_cons_1 in Hfs as [[Hgen Htyped] Hfs]. rewrite <- Hg1 in Hgen, Hfs.
  destruct comp as [c|].
  - pose proof (encode_step c f quality (Hcomp c eq_refl) Htyped) as Hstep.
    pose proof (drain_output_cons quality c f fs) as Hout.
    pose proof (encode_failure_cons quality c f fs) as Hfail. cbn [compressor_after] in Hout, Hfail.
    destruct (compress_bgrx _ c f quality) as [[c' calls] r] eqn:Ec.
    destruct Hstep as (Hc' & _ & _ & Hr). cbn [fst] in Hout, Hfail.
    apply print_wp_bind, print_wp_foreign. cbn [snd].
    destruct r as [jpeg|je| |]; cbn [exec_wp] in *; try done.
    2: { exists c, (frame_id f), je. split_and!; [done|done|]. exists [], f, fs, [].
         cbn [compressor_after]. rewrite Ec. split_and!; [done|done|constructor|done|done]. }
    destruct Hr as [Hid He]. unfold with_current_generation. rewrite Hid, Hgen, Z.eqb_refl.
    cbn [negb]. apply print_wp_bind, print_wp_lift. cbn [exec_wp].
    apply print_wp_bind, print_wp_println.
    eapply print_wp_mono; [apply (IH (Some c') st1 Hq1 Hfs Hmax1); naive_solver|..]; cbn beta.
    + intros lines st' (-> & Hl). split; [done|]. by apply Hout.
    + intros e (c1 & id & je & [= <-] & -> & He'). exists c, id, je.
      split_and!; [done|done|]. by apply (Hfail jpeg).
  - apply print_wp_bind, print_wp_println.
    eapply print_wp_mono; [apply (IH None st1 Hq1 Hfs Hmax1); done|..]; cbn beta.
    + intros lines st' (-> & ->). by split.
    + by intros e (? & ? & ? & ? & _).
Qed.

(** ** The whole simulation *)

Lemma pattern_frame_typed l n : layout_ok l -> frame_typed (pattern_frame l n).
Proof.
  intros Hl. destruct (layout_ok_u32 l Hl). unfold frame_typed. cbn.
  split_and!; [done|done|]. rewrite pattern_image_length by done.
  destruct Hl as (_ & _ & _ & _ & Hm). unfold MAX_FRAME_BYTES in Hm. platform_lia.
Qed.

(** The pipeline that the capture loop starts from. *)
Lemma captured_start cap l :
  1 <= cap ->
  exists st, pipeline_new cap 0 = Ok st /\ begin_generation st 1 = (captured l cap 0, Ok 0).
Proof.
  intros Hc. unfold pipeline_new. rewrite (proj2 (Z.eqb_neq _ _)) by lia.
  eexists. split; [done|]. unfold begin_generation, captured. cbn.
  by rewrite Z.min_l, seqZ_nil, Z.max_l by lia.
Qed.

(** The counters that a simulation of [n] frames ends with. *)
Definition final_snapshot (cap n : Z) : PipelineSnapshot :=
  {| snap_generation := 1; snap_queued := 0; snap_capacity := cap;
     snap_stats := stats_of n (Z.min n cap) (Z.max 0 (n - cap)) 0 0 0 0 |}.

Lemma snapshot_drained l cap n :
  0 <= n -> 0 <= cap -> snapshot (drained (captured l cap n)) = final_snapshot cap n.
Proof.
  intros. unfold snapshot, drained. rewrite len_captured by lia. cbn. done.
Qed.

(** The frames that are left in the queue after [n] captures: the newest. *)
Definition newest_frames (l : FrameLayout) (cap n : Z) : list Frame :=
  pattern_frame l <$> seqZ (Z.max 0 (n - cap)) (Z.min n cap).

(** The encoder, when it is wanted: a compressor on a fresh handle. *)
Definition encoder (encode : bool) (comp : option Compressor) : Prop :=
  if encode then exists handle, tjInitCompress = Some handle
    /\ comp = Some {| raw := handle; scratch := []; scratch_capacity := 0 |}
  else comp = None.

Lemma compressor_wp (encode : bool) :
  print_wp (if encode then let* c := foreign EncoderInit Compressor_new in lift (Ok (Some c))
            else lift (Ok None))
    (fun lines comp => lines = [] /\ encoder encode comp
       /\ forall c, comp = Some c -> compressor_ok c)
    (fun e => encode = true /\ tjInitCompress = None /\ e = EncoderInit (InitFailed (error_string None))).
Proof.
  destruct encode; [|apply print_wp_lift; by cbn].
  apply print_wp_bind, print_wp_foreign. unfold Compressor_new.
  destruct tjInitCompress as [handle|] eqn:Hinit; cbn; [|done].
  split_and!; [done|by exists handle|]. intros c [= <-]. unfold compressor_ok. cbn.
  unfold len. cbn. platform_lia.
Qed.

Lemma print_wp_drop_encoder {A} comp (m : printing A) Q QE :
  print_wp m Q QE -> print_wp (finally (drop_encoder comp) m) Q QE.
Proof. destruct comp; [apply print_wp_finally|apply (print_wp_finally [])]. Qed.

(** What an error of the simulation says. *)
Definition sim_error (options : PatternOptions) (encode : bool) (e : SimError) : Prop :=
  let new := FrameLayout_new (opt_width options) (opt_height options) in
  match e with
  | InvalidPatternLayout fe => new = Err fe
  | WorkOverflow => exists l, new = Ok l /\ usize_max < layout_byte_len l * opt_frames options
  | WorkLimit t =>
      exists l, new = Ok l /\ t = layout_byte_len l * opt_frames options
        /\ MAX_PATTERN_WORK_BYTES < t
  | PatternFailed fe =>
      exists l i, new = Ok l /\ fe = AllocationFailed (layout_byte_len l)
        /\ 0 <= i < opt_frames options /\ alloc i (layout_byte_len l) = false
  | EncoderInit je =>
      encode = true /\ tjInitCompress = None /\ je = InitFailed (error_string None)
  | EncodeFailed id je =>
      exists l c, encode = true /\ new = Ok l /\ encoder true (Some c)
        /\ encode_failure (opt_quality options) c
             (newest_frames l (opt_queue_capacity options) (opt_frames options)) id je
  | QueueOverflow | QueueLimit _ | PipelineFailed _ | RejectedFrame _ | StaleSink _ => False
  end.

(** What a completed simulation has printed: a line per captured frame, then one
    for each of the newest frames, which are encoded in order. *)
Definition sim_lines (options : PatternOptions) (encode : bool) (l : FrameLayout)
    (outputs lines : list (list Z)) : Prop :=
  let n := opt_frames options in
  let cap := opt_queue_capacity options in
  lines = [pipeline_line l options 1; plan_line options encode]
          ++ (captured_line l cap <$> seqZ 0 n) ++ outputs
          ++ [summary_line (final_snapshot cap n)]
  /\ exists comp, encoder encode comp
     /\ drain_output (opt_quality options) comp (newest_frames l cap n) outputs.

(** The part behind the limit checks. *)
Lemma run_wp options encode l st :
  command_ok (Pattern options encode) ->
  FrameLayout_new (opt_width options) (opt_height options) = Ok l -> layout_ok l ->
  st = captured l (opt_queue_capacity options) 0 ->
  print_wp
    (let* _ := println (pipeline_line l options 1) in
     let* _ := println (plan_line options encode) in
     let* st := capture alloc (Z.to_nat (opt_frames options)) 0 l 1 st in
     let* compressor :=
       if encode then
         let* c := foreign EncoderInit Compressor_new in lift (Ok (Some c))
       else lift (Ok None) in
     finally (drop_encoder compressor)
       (let* st := drain_loop grow (S (length (st_frames st))) (opt_quality options) compressor st in
        println (summary_line (snapshot st))))
    (fun lines _ => exists outputs, sim_lines options encode l outputs lines)
    (sim_error options encode).
Proof.
  intros (_ & _ & Hn & Hcap & _) Hnew Hl ->.
  unfold MAX_PATTERN_FRAMES, MAX_QUEUE_CAPACITY in *.
  set (n := opt_frames options) in *. set (cap := opt_queue_capacity options) in *.
  apply print_wp_bind, print_wp_println, print_wp_bind, print_wp_println, print_wp_bind.
  eapply print_wp_mono; [apply capture_wp; [done|lia|lia|unfold u64_max; lia]|..]; cbn beta.
  2: { intros e [-> (i & Hi & Ha)]. exists l, i. split_and!; [done|done|lia|lia|done]. }
  intros lines st [-> ->]. rewrite Z2Nat.id, Z.add_0_l by lia.
  apply print_wp_bind. eapply print_wp_mono; [apply compressor_wp|..]; cbn beta.
  2: { by intros e (-> & ? & ->). }
  intros lines comp (-> & Hcomp & Hok). apply print_wp_drop_encoder, print_wp_bind.
  pose proof (len_captured l cap n ltac:(lia) ltac:(lia)) as Hlen.
  eapply print_wp_mono; [apply drain_wp; [done| | |exact Hok]|..]; cbn beta.
  - apply Forall_fmap, Forall_true. intros i. split; [done|]. by apply pattern_frame_typed.
  - rewrite Hlen. unfold u64_max. cbn. lia.
  - intros outputs st (-> & Hout). apply print_wp_println.
    rewrite snapshot_drained by lia. exists outputs. split; [done|]. by exists comp.
  - intros e (c & id & je & -> & -> & Hfail). destruct encode; [|done]. by exists l, c.
Qed.

Lemma simulate_pattern_wp options encode :
  command_ok (Pattern options encode) ->
  print_wp (simulate_pattern alloc grow options encode)
    (fun lines _ => exists l outputs,
       FrameLayout_new (opt_width options) (opt_height options) = Ok l /\ layout_ok l
       /\ layout_byte_len l * opt_frames options <= MAX_PATTERN_WORK_BYTES
       /\ sim_lines options encode l outputs lines)
    (sim_error options encode).
Proof using grow_enough.
  intros Hc. pose proof Hc as (Hw & Hh & Hn & Hcap & _).
  unfold MAX_PATTERN_FRAMES, MAX_QUEUE_CAPACITY in *. unfold simulate_pattern.
  apply print_wp_bind, print_wp_lift, wp_map_err.
  pose proof (FrameLayout_new_Ok (opt_width options) (opt_height options)) as Hnew.
  pose proof (FrameLayout_new_returns _ _ Hw Hh) as Hret.
  destruct (FrameLayout_new (opt_width options) (opt_height options)) as [l|e| |] eqn:El;
    cbn [exec_wp]; try done.
  destruct (proj1 (Hnew l Hw Hh) eq_refl) as (_ & _ & Hl).
  assert (Hb : 1 <= layout_byte_len l) by (destruct Hl as (? & ? & _ & -> & _); nia).
  rewrite Z.mod_small by platform_lia.
  apply print_wp_bind, print_wp_lift, wp_ok_or; unfold checked_mul; case_test as Hov;
    try done; [|intros _; by exists l].
  intros t [= <-]. apply print_wp_bind, print_wp_lift.
  case_test as Hwork; [by exists l|]. cbn [exec_wp].
  assert (Hres : layout_byte_len l * Z.min (opt_queue_capacity options) (opt_frames options)
                 <= layout_byte_len l * opt_frames options) by nia.
  rewrite (proj2 (Z.leb_le _ usize_max)) by lia.
  apply print_wp_bind, print_wp_lift. cbn [ok_or exec_wp].
  rewrite (proj2 (Z.ltb_ge _ _)) by lia. apply print_wp_bind, print_wp_lift. cbn [exec_wp].
  destruct (captured_start (opt_queue_capacity options) l) as (st & Hst & Hbegin); [lia|].
  rewrite Hst. apply print_wp_bind, print_wp_lift. cbn [map_err exec_wp]. rewrite Hbegin.
  apply print_wp_bind, print_wp_lift. cbn [map_err exec_wp app].
  eapply print_wp_mono; [by apply run_wp|..]; cbn beta; [|done].
  intros lines _ [outputs Hlines]. exists l, outputs. split_and!; (done || lia).
Qed.

(** ** The life of the handle *)

(** From the handle state [s], the library calls of [m] follow the protocol and
    are safe; they end in a state that satisfies [Q] or [QE]. *)
Definition uses {A} (s : tj_state) (m : printing A) (Q : A -> tj_state -> Prop)
    (QE : tj_state -> Prop) : Prop :=
  exists s', tj_run s (ffi_of m.1) = Some s'
    /\ Forall safe_call (compress_calls (ffi_of m.1))
    /\ match m.2 with Ok a => Q a s' | _ => QE s' end.

Lemma uses_bind {A B} s (m : printing A) (k : A -> printing B) Q QE :
  uses s m (fun a s' => uses s' (k a) Q QE) QE -> uses s (io_bind m k) Q QE.
Proof.
  intros (s1 & Hrun & Hsafe & Hm). destruct m as [es [a|e| |]]; cbn in *; [|by exists s1..].
  destruct Hm as (s2 & Hrun2 & Hsafe2 & Hk). destruct (k a) as [es' r]. cbn in *.
  exists s2. unfold ffi_of in *. cbn. rewrite omap_app, (run_protocol_app _ _ _ _ _ Hrun).
  split_and!; [done| |done]. rewrite compress_calls_app. by apply Forall_app.
Qed.

Lemma uses_mono {A} s (m : printing A) (Q Q' : A -> tj_state -> Prop) (QE QE' : tj_state -> Prop) :
  uses s m Q QE -> (forall a s', m.2 = Ok a -> Q a s' -> Q' a s') -> (forall s', QE s' -> QE' s') ->
  uses s m Q' QE'.
Proof.
  intros (s' & Hrun & Hsafe & Hm) HQ HE. exists s'. split_and!; [done|done|].
  destruct (m.2) eqn:Hr; auto.
Qed.

(** A computation without library calls. *)
Lemma uses_none {A} s (m : printing A) : ffi_of m.1 = [] -> uses s m (fun _ => eq s) (eq s).
Proof. intros Hm. exists s. rewrite Hm. split_and!; [done|constructor|]. by destruct m.2. Qed.

Lemma uses_lift {A} s (m : exec SimError A) Q (QE : tj_state -> Prop) :
  (forall a, m = Ok a -> Q a s) -> ((forall a, m <> Ok a) -> QE s) -> uses s (lift m) Q QE.
Proof.
  intros HQ HE. exists s. split_and!; [done|constructor|]. destruct m; cbn; auto; by apply HE.
Qed.

Lemma uses_println s line Q QE : Q tt s -> uses s (println line) Q QE.
Proof. intros HQ. exists s. split_and!; [done|constructor|done]. Qed.

Lemma uses_foreign {A} s s' f (m : list tj_event * exec JpegError A) Q (QE : tj_state -> Prop) :
  tj_run s m.1 = Some s' -> Forall safe_call (compress_calls m.1) ->
  (forall a, m.2 = Ok a -> Q a s') -> ((forall a, m.2 <> Ok a) -> QE s') ->
  uses s (foreign f m) Q QE.
Proof.
  intros Hrun Hsafe HQ HE. exists s'. unfold foreign. cbn. rewrite ffi_of_ffi.
  split_and!; [done|done|]. destruct (m.2); cbn; auto; by apply HE.
Qed.

Lemma capture_calls n : forall seq l g st, ffi_of (capture alloc n seq l g st).1 = [].
Proof.
  induction n as [|n IH]; intros seq l g st; [done|]. cbn [capture].
  destruct (test_pattern _ _ _) as [frame|e| |]; try done. cbn.
  destruct (submit st frame) as [st' outcome].
  destruct outcome; cbn; try done; specialize (IH (seq + 1) l g st');
    destruct (capture alloc n _ l g st') as [es r]; done.
Qed.

Lemma try_take_cons st f rest :
  st_frames st = f :: rest -> exists st', try_take st = (st', Some f) /\ st_frames st' = rest.
Proof. intros Hq. unfold try_take. rewrite Hq. by eexists. Qed.

(** The drain loop leaves the handle as it is, on every path. *)
Lemma drain_uses fs quality : forall comp st s,
  st_frames st = fs -> Forall frame_typed fs ->
  (forall c, comp = Some c -> compressor_ok c /\ s = Live) ->
  uses s (drain_loop grow (S (length fs)) quality comp st) (fun _ => eq s) (eq s).
Proof using grow_enough.
  induction fs as [|f fs IH]; intros comp st s Hq Hfs Hcomp; cbn [length drain_loop].
  { unfold try_take. rewrite Hq. by apply uses_lift. }
  apply Forall_cons_1 in Hfs as [Hf Hfs].
  destruct (try_take_cons st f fs Hq) as (st1 & -> & Hq1).
  destruct comp as [c|].
  - destruct (Hcomp c eq_refl) as [Hc ->].
    pose proof (encode_step c f quality Hc Hf) as Hstep.
    destruct (compress_bgrx _ c f quality) as [[c' es] r]. destruct Hstep as (Hc' & Hrun & Hsafe & _).
    apply uses_bind, (uses_foreign _ Live); [done|done| |done]. intros jpeg _.
    destruct (with_current_generation _ _ _ _) as [[st2 w] sink] eqn:Hsink.
    assert (st_frames st2 = fs) as Hq2.
    { revert Hsink. unfold with_current_generation. case_match; by intros [= <- _ _]. }
    apply uses_bind, uses_lift; [|done]. intros _ _.
    apply uses_bind, uses_println. apply (IH (Some c') st2 Live); [done|done|]. by intros ? [= <-].
  - apply uses_bind, uses_println. by apply (IH None st1 s).
Qed.

Lemma compressor_uses (encode : bool) :
  uses NoHandle
    (if encode then let* c := foreign EncoderInit Compressor_new in lift (Ok (Some c))
     else lift (Ok None))
    (fun comp s => match comp with
                   | Some c => compressor_ok c /\ s = Live
                   | None => s = NoHandle
                   end) (eq NoHandle).
Proof.
  destruct encode; [|by apply uses_lift; [intros ? [= <-]|]]. apply uses_bind. unfold Compressor_new.
  destruct tjInitCompress as [raw|].
  - apply (uses_foreign _ Live); [done|constructor| |].
    + intros c [= <-]. apply uses_lift; [|by intros Hn; destruct (Hn _ eq_refl)].
      intros ? [= <-]. split; [|done]. unfold compressor_ok. cbn. unfold len. cbn. platform_lia.
    + by intros Hn; destruct (Hn _ eq_refl).
  - by apply (uses_foreign _ NoHandle).
Qed.

(** The handle is destroyed with the compressor. *)
Lemma uses_finally {A} comp s (m : printing A) :
  uses s m (fun _ => eq s) (eq s) -> (s = match comp with Some _ => Live | None => NoHandle end) ->
  uses s (finally (drop_encoder comp) m) (fun _ => eq NoHandle) (eq NoHandle).
Proof.
  intros (s' & Hrun & Hsafe & Hm) Hs. assert (s' = s) as -> by by destruct m.2.
  exists NoHandle. unfold finally, ffi_of in *. cbn. rewrite omap_app, (run_protocol_app _ _ _ _ _ Hrun).
  rewrite compress_calls_app. split_and!; [by destruct comp; subst s| |by destruct m.2].
  apply Forall_app. split; [done|]. destruct comp; constructor.
Qed.

Lemma simulate_uses options encode :
  command_ok (Pattern options encode) ->
  uses NoHandle (simulate_pattern alloc grow options encode) (fun _ => eq NoHandle) (eq NoHandle).
Proof using grow_enough.
  intros (Hw & Hh & Hn & Hcap & _). unfold MAX_PATTERN_FRAMES, MAX_QUEUE_CAPACITY in *.
  unfold simulate_pattern.
  apply uses_bind, uses_lift; [|done]. intros l Hl%map_err_Ok.
  destruct (proj1 (FrameLayout_new_Ok _ _ l Hw Hh) Hl) as (_ & _ & Hlok).
  do 4 (apply uses_bind, uses_lift; [|done]; intros ? _).
  destruct (captured_start (opt_queue_capacity options) l) as (st & Hst & Hbegin); [lia|].
  rewrite Hst. apply uses_bind, uses_lift; [|done]. intros ? [= <-]. rewrite Hbegin.
  apply uses_bind, uses_lift; [|done]. intros _ _.
  apply uses_bind, uses_println, uses_bind, uses_println, uses_bind.
  eapply uses_mono; [apply uses_none, capture_calls| |done]. intros st' s Hcapture <-.
  assert (Hframes : Forall frame_typed (st_frames st')).
  { pose proof (capture_wp l (opt_queue_capacity options) (Z.to_nat (opt_frames options)) 0
      Hlok ltac:(lia) ltac:(lia) ltac:(unfold u64_max; lia)) as Hwp.
    unfold print_wp in Hwp. rewrite Hcapture in Hwp. destruct Hwp as [-> _]. cbn [captured st_frames].
    apply Forall_fmap, Forall_true. intros i. by apply pattern_frame_typed. }
  apply uses_bind. eapply uses_mono; [apply compressor_uses| |done]. cbn beta.
  intros comp s _ Hcomp. apply uses_finally; [|by destruct comp; [destruct Hcomp|]].
  apply uses_bind. eapply uses_mono; [apply drain_uses; [done|done|]| |done].
  - intros c ->. done.
  - intros ? ? _ <-. by apply uses_println.
Qed.

(** C15 The encoder's handle is used correctly for its whole life.  For every
    command, allocator and library, whatever fails and wherever: the calls that
    [simulate_pattern] makes follow the protocol of the handle (no call without
    it, none after [tjDestroy], no second [tjDestroy], no second handle while
    one is live), the handle is destroyed when the function ends, on errors
    too, and every [tjCompress2] has safe arguments. *)
Theorem simulate_pattern_handle options encode :
  command_ok (Pattern options encode) ->
  let calls := ffi_of (simulate_pattern alloc grow options encode).1 in
  tj_run NoHandle calls = Some NoHandle /\ Forall safe_call (compress_calls calls).
Proof using grow_enough.
  intros Hc. destruct (simulate_uses options encode Hc) as (s & Hrun & Hsafe & Hs).
  assert (s = NoHandle) as -> by by destruct (_.2).
  done.
Qed.

(** C12 The simulation is the pipeline's contract end to end.  For every command
    line the parser accepts, with any allocators and any JPEG library, it
    returns; no generated frame is rejected, no encoded frame is stale at the
    sink and no queue limit is hit.  A completed run printed one line per
    captured frame and then, for exactly the newest [min(frames, queue)] test
    patterns and in their order, one line per frame: without the encoder the
    frame's own, with it the line of what the library, called with that frame's
    pixels by the compressor that the frames before it left, encoded; and a
    summary with [accepted = frames], [dequeued = min(frames, queue)], the rest
    dropped and nothing queued.  An error names the layout, the work limit, a
    refused allocation, the encoder's creation or the frame whose encoding
    failed (with the compressor's error), as it happened. *)
Theorem simulate_pattern_correct options encode :
  command_ok (Pattern options encode) ->
  print_wp (simulate_pattern alloc grow options encode)
    (fun lines _ => exists l outputs,
       FrameLayout_new (opt_width options) (opt_height options) = Ok l /\ layout_ok l
       /\ layout_byte_len l * opt_frames options <= MAX_PATTERN_WORK_BYTES
       /\ sim_lines options encode l outputs lines)
    (sim_error options encode).
Proof using grow_enough. by apply simulate_pattern_wp. Qed.
End simulation.

(** ** Witness *)

Definition sample_options : PatternOptions :=
  {| opt_width := 8; opt_height := 4; opt_frames := 3; opt_queue_capacity := 2;
     opt_quality := 80 |}.

Lemma simulate_pattern_correct_witness :
  print_wp (simulate_pattern (fun _ _ => true) (fun _ => toy_grow) sample_options true)
    (fun lines _ => exists l outputs,
       FrameLayout_new (opt_width sample_options) (opt_height sample_options) = Ok l /\ layout_ok l
       /\ layout_byte_len l * opt_frames sample_options <= MAX_PATTERN_WORK_BYTES
       /\ sim_lines (fun _ => toy_grow) sample_options true l outputs lines)
    (sim_error (fun _ _ => true) (fun _ => toy_grow) sample_options true) /\
  (simulate_pattern (fun _ _ => true) (fun _ => toy_grow) sample_options true).2 = Ok tt /\
  last (lines_of (simulate_pattern (fun _ _ => true) (fun _ => toy_grow) sample_options true).1) =
    Some (lit "summary generation=1 capacity=2 accepted=3 dequeued=2 dropped-capacity=1 queued=0 usb-transmission=disabled").
Proof.
  split; [|split; vm_compute; reflexivity].
  apply (simulate_pattern_correct (fun _ _ => true) (fun _ => toy_grow) (fun _ => toy_grow_enough)
    sample_options true).
  vm_compute. intuition discriminate.
Defined.

Lemma simulate_pattern_handle_witness :
  let calls := ffi_of
    (simulate_pattern (fun _ _ => true) (fun _ => toy_grow) sample_options true).1 in
  tj_run NoHandle calls = Some NoHandle /\ len (compress_calls calls) = 2 /\ last calls = Some Destroy.
Proof.
  cbv zeta. split; [|split; vm_compute; reflexivity].
  refine (proj1 (simulate_pattern_handle (fun _ _ => true) (fun _ => toy_grow)
    (fun _ => toy_grow_enough) sample_options true _)).
  vm_compute. intuition discriminate.
Defined.
