(* ===== verification/Screencast.v ===== *)
(** * Screencast: the ScreenCast version probe

    Models [parse_version_output] and [discover] of rust/src/screencast.rs.
    [gdbus] is a program outside the repository: what running it yields is the
    argument of [discover]. *)

From S2P Require Import Prelude Text Cli.

Open Scope Z_scope.

Definition REQUIRED_API_VERSION : Z := 4.

Record ScreenCastInfo := {
  version : Z;
  compatible : bool;
}.

Inductive ScreenCastError :=
| CannotExecute (error : list Z)
| ExitedWith (status : list Z)
| GdbusFailed (detail : list Z)
| NonUtf8Output
| UnexpectedResponse (output : list Z)
| InvalidVersion (value : list Z)
| VersionOutOfRange (value : list Z).

(** What [Command::output] returns of a process; [status] is the text of its
    [ExitStatus]. *)
Record process_output := {
  success : bool;
  status : list Z;
  stdout : list Z;
  stderr : list Z;
}.

(** ** String operations *)

(** [char::is_whitespace], the Unicode property White_Space. *)
Definition is_whitespace (c : Z) : bool :=
  ((9 <=? c) && (c <=? 13)) || (c =? 32) || (c =? 0x85) || (c =? 0xa0) || (c =? 0x1680)
  || ((0x2000 <=? c) && (c <=? 0x200a)) || (c =? 0x2028) || (c =? 0x2029) || (c =? 0x202f)
  || (c =? 0x205f) || (c =? 0x3000).

Fixpoint trim_start (s : list Z) : list Z :=
  match s with
  | c :: r => if is_whitespace c then trim_start r else s
  | [] => []
  end.

(** [str::trim] *)
Definition trim (s : list Z) : list Z := reverse (trim_start (reverse (trim_start s))).

(** [str::strip_prefix] and [str::strip_suffix] *)
Definition strip_prefix (p s : list Z) : option (list Z) :=
  if starts_with s p then Some (drop (length p) s) else None.
Definition strip_suffix (p s : list Z) : option (list Z) :=
  if bool_decide (length p <= length s)%nat && bool_decide (drop (length s - length p) s = p)
  then Some (take (length s - length p) s) else None.

(** ** Operations *)

Definition parse_version_output (output : list Z) : exec ScreenCastError Z :=
  let! value :=
    ok_or (strip_prefix (lit "(<") (trim output) ≫= strip_suffix (lit ">,)"))
      (UnexpectedResponse output) in
  let value := default value (strip_prefix (lit "uint32 ") value) in
  if (len value =? 0) || negb (forallb is_ascii_digit value)
  then Err (InvalidVersion value) else
  ok_or (parse_uint u32_max value) (VersionOutOfRange value).

(** [detail.trim().replace(['\r', '\n'], " ")] *)
Definition one_line (detail : list Z) : list Z :=
  (fun c => if (c =? 13) || (c =? 10) then 32 else c) <$> trim detail.

(** [run] is what executing [gdbus] yields, or the text of the error when it
    cannot be executed. *)
Definition discover (run : list Z + process_output) : exec ScreenCastError ScreenCastInfo :=
  let! output := from_env CannotExecute run in
  if negb (success output) then
    let detail := one_line (to_string_lossy (stderr output)) in
    if len detail =? 0 then Err (ExitedWith (status output)) else Err (GdbusFailed detail)
  else
    let! text := ok_or (from_utf8 (S (length (stdout output))) (stdout output)) NonUtf8Output in
    let! v := parse_version_output text in
    Ok {| version := v; compatible := REQUIRED_API_VERSION <=? v |}.

(** ** Lemmas *)

Definition blank (s : list Z) : Prop := Forall (fun c => is_whitespace c = true) s.

(** A text that neither starts nor ends with white space. *)
Definition tight (s : list Z) : Prop :=
  (forall c r, s = c :: r -> is_whitespace c = false)
  /\ (forall c r, s = r ++ [c] -> is_whitespace c = false).

Lemma trim_start_spec s :
  exists pre, s = pre ++ trim_start s /\ blank pre
    /\ forall c r, trim_start s = c :: r -> is_whitespace c = false.
Proof.
  induction s as [|c s IH]; [by exists []; split_and!; [done|constructor|]|]. cbn.
  destruct (is_whitespace c) eqn:Hc.
  - destruct IH as (pre & Hs & Hpre & Htight). exists (c :: pre). cbn. rewrite <- Hs.
    split_and!; [done|by constructor|done].
  - exists []. split_and!; [done|constructor|]. by intros c' r [= <- _].
Qed.

Lemma trim_start_blank pre s : blank pre -> trim_start (pre ++ s) = trim_start s.
Proof. induction 1 as [|c pre Hc _ IH]; [done|]. cbn. by rewrite Hc. Qed.

Lemma trim_start_tight s : (forall c r, s = c :: r -> is_whitespace c = false) -> trim_start s = s.
Proof. intros H. destruct s as [|c s]; [done|]. cbn. by rewrite (H c s). Qed.

Lemma blank_reverse s : blank s -> blank (reverse s).
Proof. apply Forall_reverse. Qed.

(** [trim] removes white space around a tight text. *)
Lemma trim_tight pre s post : blank pre -> blank post -> tight s -> s <> [] -> trim (pre ++ s ++ post) = s.
Proof.
  intros Hpre Hpost [Hfirst Hlast] Hne. unfold trim. rewrite trim_start_blank by done.
  rewrite (trim_start_tight (s ++ post)).
  - rewrite reverse_app, trim_start_blank by by apply blank_reverse.
    rewrite trim_start_tight; [by rewrite reverse_involutive|].
    intros c r Hr. apply (Hlast c (reverse r)).
    rewrite <- (reverse_involutive s), Hr. by rewrite reverse_cons.
  - intros c r Hc. destruct s as [|c' s]; [done|]. cbn in Hc. simplify_eq. by eapply Hfirst.
Qed.

Lemma trim_spec s : exists pre post, s = pre ++ trim s ++ post /\ blank pre /\ blank post.
Proof.
  destruct (trim_start_spec s) as (pre & Hs & Hpre & _).
  destruct (trim_start_spec (reverse (trim_start s))) as (post & Hr & Hpost & _).
  exists pre, (reverse post). split_and!; [|done|by apply blank_reverse].
  rewrite Hs at 1. f_equal. unfold trim. rewrite <- reverse_app, <- Hr.
  by rewrite reverse_involutive.
Qed.

Lemma strip_prefix_Some p s r : strip_prefix p s = Some r <-> s = p ++ r.
Proof.
  unfold strip_prefix. destruct (starts_with s p) eqn:Hs.
  - apply starts_with_true in Hs as [r' ->]. rewrite drop_app_length. split.
    + by intros [= ->].
    + intros Heq. by apply (inj (app p)) in Heq as ->.
  - split; [done|]. intros ->. exfalso. assert (starts_with (p ++ r) p = true); [|congruence].
    apply starts_with_true. by exists r.
Qed.

Lemma strip_suffix_Some p s r : strip_suffix p s = Some r <-> s = r ++ p.
Proof.
  unfold strip_suffix. split.
  - intros H. case_match eqn:Hc; [|done]. apply andb_true_iff in Hc as [Hl Hp]. reflect_bool.
    injection H as <-. rewrite <- Hp at 2. by rewrite take_drop.
  - intros ->. rewrite length_app.
    replace (length r + length p - length p)%nat with (length r) by lia.
    rewrite drop_app_length, take_app_length, !bool_decide_true by (done || lia). done.
Qed.

Lemma ascii_digits s :
  forallb is_ascii_digit s = true ->
  exists ds, s = digit_char <$> ds /\ Forall (fun d => 0 <= d < 10) ds.
Proof.
  induction s as [|c s IH]; [by exists []|]. cbn. intros [Hc Hs]%andb_true_iff.
  destruct (IH Hs) as (ds & -> & Hds). exists (c - 48 :: ds). unfold is_ascii_digit in Hc.
  split; [|constructor; [lia|done]]. cbn. f_equal. unfold digit_char.
  rewrite (proj2 (Z.ltb_lt _ _)) by lia. lia.
Qed.

Lemma digits_ascii ds :
  Forall (fun d => 0 <= d < 10) ds -> forallb is_ascii_digit (digit_char <$> ds) = true.
Proof.
  induction 1 as [|d ds Hd _ IH]; [done|]. cbn. rewrite digit_char_is_digit by lia. apply IH.
Qed.

(** A string of digits parses to its value when it fits. *)
Lemma parse_uint_digits max ds :
  ds <> [] -> 0 <= max -> Forall (fun d => 0 <= d < 10) ds ->
  parse_uint max (digit_char <$> ds) =
    if digits_value 10 ds <=? max then Some (digits_value 10 ds) else None.
Proof.
  intros Hne Hmax Hds.
  assert (parse_uint max (digit_char <$> ds) = parse_digits max 0 (digit_char <$> ds)) as ->.
  { destruct ds as [|d ds]; [done|]. apply Forall_cons_1 in Hds as [Hd _].
    assert (48 <= digit_char d <= 57) by (unfold digit_char; case_test; lia).
    destruct ds as [|d' ds]; cbn [fmap list_fmap]; unfold parse_uint.
    - by test_false ((digit_char d =? 43) || (digit_char d =? 45)).
    - by test_false (digit_char d =? 43). }
  rewrite parse_digits_spec by (done || lia). done.
Qed.

(** ** The reply of [gdbus] *)

(** The texts that carry version [v]: [(<4>,)] or [(<uint32 4>,)], with white
    space around. *)
Definition version_text (text : list Z) (v : Z) : Prop :=
  exists pre post tag ds,
    text = pre ++ (lit "(<" ++ (tag ++ (digit_char <$> ds)) ++ lit ">,)") ++ post
    /\ blank pre /\ blank post /\ (tag = [] \/ tag = lit "uint32 ")
    /\ ds <> [] /\ Forall (fun d => 0 <= d < 10) ds
    /\ v = digits_value 10 ds /\ v <= u32_max.

Lemma reply_tight mid : tight (lit "(<" ++ mid ++ lit ">,)").
Proof.
  split.
  - intros c r Hc. cbn in Hc. by simplify_eq.
  - intros c r Hc. change (lit ">,)") with ([62; 44] ++ [41]) in Hc.
    rewrite !app_assoc in Hc. apply app_inj_tail in Hc as [_ <-]. done.
Qed.

Lemma no_tag ds :
  Forall (fun d => 0 <= d < 10) ds -> strip_prefix (lit "uint32 ") (digit_char <$> ds) = None.
Proof.
  intros Hds. destruct (strip_prefix _ _) as [r|] eqn:Hs; [|done]. exfalso.
  apply strip_prefix_Some in Hs. destruct ds as [|d ds]; [done|].
  apply Forall_cons_1 in Hds as [Hd _]. cbn in Hs. injection Hs as Hs _.
  unfold digit_char in Hs. case_match; reflect_bool; lia.
Qed.

(** The value between the brackets, without its type tag. *)
Lemma untag_spec value :
  exists tag, value = tag ++ default value (strip_prefix (lit "uint32 ") value)
    /\ (tag = [] \/ tag = lit "uint32 ").
Proof.
  destruct (strip_prefix (lit "uint32 ") value) as [r|] eqn:Hs; [|by exists []; auto].
  apply strip_prefix_Some in Hs. exists (lit "uint32 "). auto.
Qed.

Lemma parse_version_output_Ok text v : parse_version_output text = Ok v -> version_text text v.
Proof.
  unfold parse_version_output. intros (x & (w & Hw & Hv)%ok_or_Ok%bind_Some & H)%bind_Ok.
  apply strip_prefix_Some in Hw. apply strip_suffix_Some in Hv as ->.
  destruct (trim_spec text) as (pre & post & Ht & Hpre & Hpost). rewrite Hw in Ht.
  destruct (untag_spec x) as (tag & Hx & Htag).
  set (value := default x (strip_prefix (lit "uint32 ") x)) in *.
  destruct ((len value =? 0) || _) eqn:Hc; [done|]. apply orb_false_iff in Hc as [Hl Hd].
  reflect_bool. apply ok_or_Ok in H.
  destruct (ascii_digits value) as (ds & Hvalue & Hds); [done|].
  assert (Hne : ds <> []) by (intros ->; by rewrite Hvalue in *).
  rewrite Hvalue, parse_uint_digits in H by (done || by vm_compute).
  case_match eqn:Hmax; [|done]. injection H as <-. reflect_bool.
  exists pre, post, tag, ds. split_and!; try done. by rewrite Ht, Hx, Hvalue.
Qed.

Lemma parse_version_output_text text v : version_text text v -> parse_version_output text = Ok v.
Proof.
  intros (pre & post & tag & ds & -> & Hpre & Hpost & Htag & Hne & Hds & -> & Hmax).
  unfold parse_version_output. rewrite trim_tight by (done || apply reply_tight).
  rewrite (proj2 (strip_prefix_Some _ _ _) eq_refl). cbn [mbind option_bind].
  rewrite (proj2 (strip_suffix_Some _ _ _) eq_refl). exec_cbn.
  replace (default _ _) with (digit_char <$> ds).
  2: { destruct Htag as [-> | ->].
       - cbn [app]. by rewrite no_tag.
       - by rewrite (proj2 (strip_prefix_Some _ _ _) eq_refl). }
  rewrite digits_ascii, parse_uint_digits by (done || by vm_compute).
  rewrite (proj2 (Z.eqb_neq _ _)) by (destruct ds; [done|]; unfold len; cbn; lia). exec_cbn.
  by rewrite (proj2 (Z.leb_le _ _)).
Qed.

Lemma parse_version_output_returns text : returns (parse_version_output text).
Proof.
  unfold parse_version_output. destruct (_ ≫= _); [|done]. exec_cbn. case_test; [done|].
  by destruct (parse_uint _ _).
Qed.

Lemma discover_returns run : returns (discover run).
Proof.
  unfold discover. destruct run as [error|out]; exec_cbn; [done|]. case_test; [by case_test|].
  destruct (from_utf8 _ _) as [text|]; exec_cbn; [|done].
  pose proof (parse_version_output_returns text). by destruct (parse_version_output text).
Qed.

(** ** Theorems *)

(** [discover] always returns, and reports a version exactly when [gdbus] ran
    and succeeded and its output is a UTF-8 text of the form [(<N>,)] or
    [(<uint32 N>,)], surrounded by any white space, with [N] a decimal [u32]; it
    calls the interface compatible exactly from version 4 on. *)
Theorem discover_correct run :
  returns (discover run)
  /\ forall info, discover run = Ok info <->
       exists out text, run = inr out /\ success out = true
         /\ from_utf8 (S (length (stdout out))) (stdout out) = Some text
         /\ version_text text (version info)
         /\ (compatible info = true <-> 4 <= version info).
Proof.
  unfold discover. destruct run as [error|out]; exec_cbn.
  1: { split; [done|]. intros info. split; [done|]. by intros (? & ? & ? & _). }
  destruct (success out) eqn:Hs; exec_cbn.
  2: { split; [by case_test|]. intros info. split; [by case_match|].
       intros (? & ? & [= <-] & ? & _). congruence. }
  destruct (from_utf8 _ _) as [text|] eqn:Hu; exec_cbn.
  2: { split; [done|]. intros info. split; [done|]. intros (? & ? & [= <-] & _ & ? & _). congruence. }
  pose proof (parse_version_output_returns text) as Hret.
  pose proof (parse_version_output_Ok text) as Hok.
  pose proof (parse_version_output_text text) as Htext.
  split; [by destruct (parse_version_output text)|]. intros [v c]. cbn [version compatible]. split.
  - intros (v' & Hv & [= -> <-])%bind_Ok. exists out, text. split_and!; try done; [by apply Hok|].
    unfold REQUIRED_API_VERSION. by rewrite Z.leb_le.
  - intros (out' & text' & [= <-] & _ & Hu' & Hv & Hc). rewrite Hu in Hu'. injection Hu' as <-.
    rewrite (Htext _ Hv). exec_cbn. do 2 f_equal. unfold REQUIRED_API_VERSION.
    apply eq_bool_prop_intro. rewrite !Is_true_true, Z.leb_le. by symmetry.
Qed.

(** ** Example *)

(** A reply of the GNOME shell. *)
Example discover_sample :
  discover (inr {| success := true; status := []; stdout := lit "(<uint32 4>,)" ++ [10]; stderr := [] |})
  = Ok {| version := 4; compatible := true |}.
Proof. vm_compute. reflexivity. Qed.
