(* ===== verification/Usb.v ===== *)
(** * Usb: device enumeration

    Models [Speed::from], [UsbContext::new], [UsbContext::target_devices],
    [error_name] and [format_bcd] of rust/src/usb.rs.  libusb is outside the repository: what one
    enumeration sees is the argument of [target_devices], a [usb_list].  The
    calls into libusb are recorded as [usb_event]s; [usb_run] is the protocol of
    the context and of the device list, which the [Drop] implementations of
    [UsbContext] and [DeviceList] complete.  The [BTreeMap] is a list of bindings
    in increasing key order. *)

From Stdlib Require Import Sorted.
From S2P Require Import Prelude Text Wire.

Open Scope Z_scope.

(** ** Data *)

Record LibusbDeviceDescriptor := {
  b_length : Z;
  b_descriptor_type : Z;
  bcd_usb : Z;
  b_device_class : Z;
  b_device_sub_class : Z;
  b_device_protocol : Z;
  b_max_packet_size0 : Z;
  id_vendor : Z;
  id_product : Z;
  bcd_device : Z;
  i_manufacturer : Z;
  i_product : Z;
  i_serial_number : Z;
  b_num_configurations : Z;
}.

Record DeviceKey := {
  bus : Z;
  address : Z;
}.

Inductive Speed :=
| Unknown
| Low
| Full
| High
| Super
| SuperPlus
| Other (value : Z).

Record DeviceInfo := {
  info_key : DeviceKey;
  port : Z;
  usb_version : Z;
  device_version : Z;
  speed : Speed;
}.

#[export] Instance DeviceKey_eq_dec : EqDecision DeviceKey.
Proof. solve_decision. Defined.
#[export] Instance Speed_eq_dec : EqDecision Speed.
Proof. solve_decision. Defined.
#[export] Instance DeviceInfo_eq_dec : EqDecision DeviceInfo.
Proof. solve_decision. Defined.

Inductive UsbError :=
| LibusbError (code : Z)
| NullContext
| NullDeviceList.

(** A device as libusb's accessors describe it: the result and the output of
    [libusb_get_device_descriptor], and the bus, address, port and speed. *)
Record usb_device := {
  dev_result : Z;
  dev_descriptor : LibusbDeviceDescriptor;
  dev_bus : Z;
  dev_address : Z;
  dev_port : Z;
  dev_speed : Z;
}.

(** What [libusb_get_device_list] returns: the count, the address of the list
    and its contents, [None] for a null pointer, in the list as well. *)
Record usb_list := {
  list_count : Z;
  list_address : Z;
  list_devices : option (list (option usb_device));
}.

(** ** The calls of libusb *)

(** The functions that read a device. *)
Inductive accessor := GetDescriptor | GetBus | GetAddress | GetPort | GetSpeed.

(** [Init] records whether a context was obtained and [GetList] the list, if
    any; [ReadEntry] is the read of a pointer in a list, and a device is named by
    its list and index. *)
Inductive usb_event :=
| Init (context : bool)
| Exit
| GetList (list : option (Z * list (option usb_device)))
| FreeList (list unref_devices : Z)
| ReadEntry (list index : Z)
| Access (a : accessor) (list index : Z)
| ErrorName (code : Z).

(** Whether the context is live, and the list that is. *)
Record usb_state := {
  context_live : bool;
  list_live : option (Z * list (option usb_device));
}.

Definition usb_idle : usb_state := {| context_live := false; list_live := None |}.

(** The entry of the live list that a call refers to. *)
Definition live_entry (s : usb_state) (list index : Z) : option (option usb_device) :=
  match list_live s with
  | Some (l, ds) => if l =? list then slice_get ds index else None
  | None => None
  end.

(** One call; [None] when it is undefined behaviour or would leak: a second
    context, a list without a context, a read outside a live list, a device that
    is null or whose list is gone, a list freed twice or with its devices kept
    referenced, a context closed before its list. *)
Definition usb_step (s : usb_state) (e : usb_event) : option usb_state :=
  match e with
  | Init context =>
      if context_live s then None
      else Some {| context_live := context; list_live := list_live s |}
  | Exit =>
      if context_live s then
        match list_live s with Some _ => None | None => Some usb_idle end
      else None
  | GetList list =>
      if context_live s then
        match list_live s with
        | Some _ => None
        | None => Some {| context_live := true; list_live := list |}
        end
      else None
  | FreeList list unref =>
      match list_live s with
      | Some (l, _) =>
          if (l =? list) && (unref =? 1)
          then Some {| context_live := context_live s; list_live := None |} else None
      | None => None
      end
  | ReadEntry list index => match live_entry s list index with Some _ => Some s | None => None end
  | Access _ list index =>
      match live_entry s list index with Some (Some _) => Some s | _ => None end
  | ErrorName _ => Some s
  end.

Definition usb_run : usb_state -> list usb_event -> option usb_state := run_protocol usb_step.

(** The calls made, and the result. *)
Definition traced (A : Type) : Type := io usb_event UsbError A.

(** [error_name]: [names] is [libusb_error_name], the bytes of the C string or
    [None] for a null pointer. *)
Definition error_name (names : Z -> option (list Z)) (code : Z) : list Z :=
  match names code with
  | None => lit "libusb error " ++ dec_signed code
  | Some text => to_string_lossy text
  end.

(** ** Ordered maps *)

(** The derived [Ord] of [DeviceKey]: bus first, then address. *)
Definition key_ltb (a b : DeviceKey) : bool :=
  (bus a <? bus b) || (bus a =? bus b) && (address a <? address b).
Definition key_lt (a b : DeviceKey) : Prop := key_ltb a b = true.

Section maps.
Context {V : Type}.

Fixpoint map_insert (k : DeviceKey) (v : V) (m : list (DeviceKey * V)) : list (DeviceKey * V) :=
  match m with
  | [] => [(k, v)]
  | (k', v') :: rest =>
      if key_ltb k k' then (k, v) :: m
      else if bool_decide (k = k') then (k, v) :: rest
      else (k', v') :: map_insert k v rest
  end.

Fixpoint map_get (k : DeviceKey) (m : list (DeviceKey * V)) : option V :=
  match m with
  | [] => None
  | (k', v) :: rest => if bool_decide (k = k') then Some v else map_get k rest
  end.

(** [contains_key] *)
Definition contains_key (k : DeviceKey) (m : list (DeviceKey * V)) : bool :=
  match map_get k m with Some _ => true | None => false end.

(** The keys are strictly increasing. *)
Definition map_ok (m : list (DeviceKey * V)) : Prop := StronglySorted key_lt (fst <$> m).
End maps.

(** ** Operations *)

(** [Speed::from(i32)] *)
Definition Speed_from (value : Z) : Speed :=
  match value with
  | 0 => Unknown
  | 1 => Low
  | 2 => Full
  | 3 => High
  | 4 => Super
  | 5 => SuperPlus
  | other => Other other
  end.

(** [result] and [raw] are what [libusb_init] returns and stores. *)
Definition UsbContext_new {A} (result : Z) (raw : option A) : traced A :=
  if negb (result =? 0) then ([Init false; ErrorName result], Err (LibusbError result)) else
  match raw with
  | None => ([Init false], Err NullContext)
  | Some raw => ([Init true], Ok raw)
  end.

(** [Drop for UsbContext] *)
Definition UsbContext_drop : list usb_event := [Exit].

(** The body of the loop for one device pointer, at an index of a list. *)
Definition visit (list index : Z) (devices : Datatypes.list (DeviceKey * DeviceInfo))
    (device : option usb_device)
    : Datatypes.list usb_event * Datatypes.list (DeviceKey * DeviceInfo) :=
  match device with
  | None => ([], devices)
  | Some d =>
      let descriptor := dev_descriptor d in
      if negb (dev_result d =? 0) || negb (id_vendor descriptor =? VENDOR_ID)
         || negb (id_product descriptor =? SM768_PRODUCT_ID)
      then ([Access GetDescriptor list index], devices)
      else
        let key := {| bus := dev_bus d; address := dev_address d |} in
        let info := {| info_key := key; port := dev_port d; usb_version := bcd_usb descriptor;
                       device_version := bcd_device descriptor;
                       speed := Speed_from (dev_speed d) |} in
        ([Access GetDescriptor list index; Access GetBus list index;
          Access GetAddress list index; Access GetPort list index; Access GetSpeed list index],
         map_insert key info devices)
  end.

(** [for index in index..index + n]; a read behind the list is undefined
    behaviour in the source and a panic here. *)
Fixpoint visit_range (n : nat) (address index : Z) (list : list (option usb_device))
    (devices : Datatypes.list (DeviceKey * DeviceInfo))
    : traced (Datatypes.list (DeviceKey * DeviceInfo)) :=
  match n with
  | O => ([], Ok devices)
  | S n =>
      match slice_get list index with
      | None => ([ReadEntry address index], Panic)
      | Some device =>
          let '(calls, devices) := visit address index devices device in
          let* _ := emit (ReadEntry address index :: calls) in
          visit_range n address (index + 1) list devices
      end
  end.

(** [Drop for DeviceList] *)
Definition DeviceList_drop (address : Z) : list usb_event := [FreeList address 1].

(** [count as c_int] of a negative [isize]. *)
Definition as_c_int (v : Z) : Z := (v + 2 ^ 31) mod 2 ^ 32 - 2 ^ 31.

(** The list is dropped at the end of the function, on every path. *)
Definition target_devices (l : usb_list) : traced (list (DeviceKey * DeviceInfo)) :=
  if list_count l <? 0 then
    let code := as_c_int (list_count l) in
    ([GetList None; ErrorName code], Err (LibusbError code))
  else
    match list_devices l with
    | None => ([GetList None], Err NullDeviceList)
    | Some list =>
        let* _ := emit [GetList (Some (list_address l, list))] in
        finally (DeviceList_drop (list_address l))
          (visit_range (Z.to_nat (list_count l)) (list_address l) 0 list [])
    end.

(** [format!("{:x}.{:02x}", value >> 8, value & 0xff)] *)
Definition format_bcd (value : Z) : list Z :=
  hex (Z.shiftr value 8) ++ lit "." ++ hex_pad 2 (Z.land value 0xff).

(** ** Lemmas on maps *)

Lemma key_ltb_spec a b :
  key_lt a b <-> bus a < bus b \/ bus a = bus b /\ address a < address b.
Proof. unfold key_lt, key_ltb. lia. Qed.

Lemma key_lt_irrefl a : ~ key_lt a a.
Proof. rewrite key_ltb_spec. lia. Qed.

Lemma key_lt_trans a b c : key_lt a b -> key_lt b c -> key_lt a c.
Proof. rewrite !key_ltb_spec. lia. Qed.

Lemma key_total a b : key_ltb a b = false -> a <> b -> key_lt b a.
Proof.
  intros Hab Hne. apply key_ltb_spec. assert (~ key_lt a b) as Hn by (unfold key_lt; by rewrite Hab).
  rewrite key_ltb_spec in Hn. destruct a as [b1 a1], b as [b2 a2]; cbn in *.
  destruct (decide (b1 = b2)) as [->|]; [|lia]. destruct (decide (a1 = a2)) as [->|]; [done|lia].
Qed.

Section map_lemmas.
Context {V : Type}.
Implicit Types m : list (DeviceKey * V).

Lemma map_ok_cons k v m :
  map_ok ((k, v) :: m) <-> map_ok m /\ Forall (fun p => key_lt k p.1) m.
Proof.
  unfold map_ok. rewrite fmap_cons. split.
  - intros [H1 H2]%StronglySorted_inv. by rewrite Forall_fmap in H2.
  - intros [H1 H2]. constructor; [done|by rewrite Forall_fmap].
Qed.

Lemma map_insert_ok k v m : map_ok m -> map_ok (map_insert k v m).
Proof.
  induction m as [|[k' v'] m IH]; intros Hm; [by repeat constructor|]. cbn.
  pose proof (proj1 (map_ok_cons _ _ _) Hm) as [Hm' Hk'].
  destruct (key_ltb k k') eqn:Hlt; [|case_bool_decide as Heq].
  - apply map_ok_cons. split; [done|]. constructor; [done|].
    eapply Forall_weaken; [|exact Hk']. intros p Hp. by eapply key_lt_trans.
  - subst k'. by apply map_ok_cons.
  - apply map_ok_cons. split; [by apply IH|]. pose proof (key_total _ _ Hlt Heq) as Hk.
    clear -Hk Hk'. induction m as [|[k2 v2] m IH]; cbn; [by repeat constructor|].
    apply Forall_cons_1 in Hk' as [H1 H2]. repeat case_match; repeat constructor; auto.
Qed.

Lemma map_get_insert k v m k' :
  map_ok m -> map_get k' (map_insert k v m) = if bool_decide (k' = k) then Some v else map_get k' m.
Proof.
  induction m as [|[k2 v2] m IH]; intros Hm; cbn; [by repeat case_bool_decide|].
  apply map_ok_cons in Hm as [Hm Hk]. destruct (key_ltb k k2) eqn:Hlt; [done|].
  destruct (decide (k = k2)) as [<-|Hne].
  - rewrite (bool_decide_true (k = k)) by done. cbn. repeat case_bool_decide; done.
  - rewrite (bool_decide_false (k = k2)) by done. cbn. rewrite IH by done.
    repeat case_bool_decide; congruence.
Qed.

Lemma map_get_elem k m : contains_key k m = true <-> k ∈ (fst <$> m).
Proof.
  unfold contains_key. induction m as [|[k' v] m IH]; cbn [map_get fmap list_fmap fst].
  - split; [done|]. by intros ?%elem_of_nil.
  - rewrite elem_of_cons. case_bool_decide; [naive_solver|]. rewrite IH. naive_solver.
Qed.
End map_lemmas.

(** ** Enumeration *)

(** The adapter the driver is for. *)
Definition is_target (d : usb_device) : bool :=
  (dev_result d =? 0) && (id_vendor (dev_descriptor d) =? 0x090c)
  && (id_product (dev_descriptor d) =? 0x0768).

Definition target_key (d : usb_device) : DeviceKey :=
  {| bus := dev_bus d; address := dev_address d |}.

Definition target_info (d : usb_device) : DeviceInfo :=
  {| info_key := target_key d; port := dev_port d; usb_version := bcd_usb (dev_descriptor d);
     device_version := bcd_device (dev_descriptor d); speed := Speed_from (dev_speed d) |}.

(** A target device with key [k]. *)
Definition has_key (k : DeviceKey) (o : option usb_device) : Prop :=
  exists d, o = Some d /\ is_target d = true /\ target_key d = k.

#[export] Instance has_key_dec k o : Decision (has_key k o).
Proof.
  destruct o as [d|]; [|right; by intros (? & ? & _)].
  destruct (decide (is_target d = true /\ target_key d = k)) as [[H1 H2]|Hn].
  - left. by exists d.
  - right. intros (d' & [= <-] & ? & ?). by apply Hn.
Defined.

(** [i] describes the last target of the list with key [k]. *)
Definition last_target (ds : list (option usb_device)) (k : DeviceKey) (i : DeviceInfo) : Prop :=
  exists l d r, ds = l ++ Some d :: r /\ is_target d = true /\ target_key d = k
    /\ target_info d = i /\ Forall (fun o => ~ has_key k o) r.

(** What a visit does to the map. *)
Definition visited (m : list (DeviceKey * DeviceInfo)) (o : option usb_device) :=
  match o with
  | Some d => if is_target d then map_insert (target_key d) (target_info d) m else m
  | None => m
  end.

Lemma visit_eq a i m o : (visit a i m o).2 = visited m o.
Proof.
  destruct o as [d|]; [|done]. unfold visit, visited, is_target, VENDOR_ID, SM768_PRODUCT_ID.
  by destruct (dev_result d =? 0), (id_vendor (dev_descriptor d) =? 2316),
    (id_product (dev_descriptor d) =? 1896).
Qed.

(** The calls of a visit refer to an entry of the live list. *)
Lemma visit_run s a i m o :
  live_entry s a i = Some o -> usb_run s (visit a i m o).1 = Some s.
Proof.
  intros He. destruct o as [d|]; [|done]. unfold visit.
  case_match; cbn; rewrite He; [done|]. by repeat (cbn; rewrite He).
Qed.

Lemma visit_range_eq s a rest : forall pre m,
  list_live s = Some (a, pre ++ rest) ->
  (visit_range (length rest) a (len pre) (pre ++ rest) m).2 = Ok (fold_left visited rest m)
  /\ usb_run s (visit_range (length rest) a (len pre) (pre ++ rest) m).1 = Some s.
Proof.
  induction rest as [|o rest IH]; intros pre m Hs; [done|]. cbn [length visit_range].
  assert (He : live_entry s a (len pre) = Some o)
    by (unfold live_entry; rewrite Hs, Z.eqb_refl; apply slice_get_middle).
  rewrite slice_get_middle. pose proof (visit_eq a (len pre) m o) as Hv.
  pose proof (visit_run s a (len pre) m o He) as Hrun.
  destruct (visit a (len pre) m o) as [calls m']. cbn in Hv, Hrun. subst m'.
  destruct (IH (pre ++ [o]) (visited m o)) as [IH1 IH2]; [by rewrite <- app_assoc|].
  rewrite <- app_assoc in IH1, IH2. cbn [app] in IH1, IH2.
  replace (len (pre ++ [o])) with (len pre + 1) in IH1, IH2 by len_lia.
  destruct (visit_range (length rest) a (len pre + 1) (pre ++ o :: rest) (visited m o)) as [more r].
  cbn in *. rewrite He. cbn. by rewrite (run_protocol_app _ _ _ _ _ Hrun).
Qed.

Lemma visit_ok m o : map_ok m -> map_ok (visited m o).
Proof.
  intros Hm. unfold visited. destruct o as [d|]; [|done].
  destruct (is_target d); [by apply map_insert_ok|done].
Qed.

Lemma visit_get m o k :
  map_ok m ->
  (forall d, o = Some d -> has_key k o -> map_get k (visited m o) = Some (target_info d))
  /\ (~ has_key k o -> map_get k (visited m o) = map_get k m).
Proof.
  intros Hm. unfold visited. split.
  - intros d -> (d' & [= <-] & Ht & <-). rewrite Ht, map_get_insert by done.
    by rewrite bool_decide_true.
  - intros Hn. destruct o as [d|]; [|done]. destruct (is_target d) eqn:Ht; [|done].
    rewrite map_get_insert by done. rewrite bool_decide_false; [done|].
    intros ->. apply Hn. by exists d.
Qed.

Lemma last_target_snoc ds o k i :
  last_target (ds ++ [o]) k i <->
  (exists d, o = Some d /\ has_key k o /\ target_info d = i)
  \/ ~ has_key k o /\ last_target ds k i.
Proof.
  split.
  - intros (l & d & r & Heq & Ht & Hk & Hi & Hr).
    destruct r as [|o' r _] using rev_ind.
    + apply app_inj_tail in Heq as [<- ->]. left. exists d. split_and!; [done|by exists d|done].
    + rewrite app_comm_cons, app_assoc in Heq. apply app_inj_tail in Heq as [-> ->].
      apply Forall_app in Hr as [Hr [Ho _]%Forall_cons_1]. right. split; [done|].
      by exists l, d, r.
  - intros [(d & -> & (d' & [= <-] & Ht & Hk) & Hi)|[Hn (l & d & r & -> & Ht & Hk & Hi & Hr)]].
    + exists ds, d, []. by split_and!.
    + exists l, d, (r ++ [o]). rewrite app_comm_cons, app_assoc. split_and!; try done.
      apply Forall_app. by repeat constructor.
Qed.

Lemma enumerated ds :
  map_ok (fold_left visited ds [])
  /\ forall k i, map_get k (fold_left visited ds []) = Some i <-> last_target ds k i.
Proof.
  induction ds as [|o ds [IHok IH]] using rev_ind.
  { split; [constructor|]. intros k i. split; [done|]. intros (l & d & r & Heq & _). by destruct l. }
  rewrite fold_left_app. cbn [fold_left]. split; [by apply visit_ok|].
  intros k i. destruct (visit_get (fold_left visited ds []) o k IHok) as [Hhit Hmiss].
  rewrite last_target_snoc. destruct (decide (has_key k o)) as [Hk|Hk].
  - pose proof Hk as (d & Ho & _). rewrite (Hhit d Ho Hk). split.
    + intros [= <-]. left. by exists d.
    + intros [(d' & Ho' & _ & <-)|[? _]]; [|done]. rewrite Ho in Ho'. by injection Ho' as <-.
  - rewrite (Hmiss Hk), IH. split; [by right|]. by intros [(? & _ & ? & _)|[_ ?]].
Qed.

Lemma len_map_insert {V} k (v : V) m : len (map_insert k v m) <= len m + 1.
Proof.
  induction m as [|[k' v'] m IH]; [done|]. cbn. repeat case_match; len_lia.
Qed.

Lemma len_enumerated ds : forall m, len (fold_left visited ds m) <= len m + len ds.
Proof.
  induction ds as [|o ds IH]; intros m; cbn [fold_left]; [len_lia|].
  specialize (IH (visited m o)). unfold visited in IH at 3. rewrite len_cons.
  destruct o as [d|]; [destruct (is_target d)|]; try lia.
  pose proof (len_map_insert (target_key d) (target_info d) m). lia.
Qed.

(** The list libusb promises: as many entries as its count. *)
Definition list_ok (l : usb_list) : Prop :=
  forall ds, list_devices l = Some ds -> 0 <= list_count l -> len ds = list_count l.

(** The context is live, no list is. *)
Definition usb_ready : usb_state := {| context_live := true; list_live := None |}.

(** One enumeration: the calls follow the protocol and free the list, and the
    result is the fold over the list. *)
Lemma target_devices_eq l :
  list_ok l ->
  usb_run usb_ready (target_devices l).1 = Some usb_ready
  /\ exec_wp (target_devices l).2
       (fun m => exists ds, list_devices l = Some ds /\ 0 <= list_count l
          /\ m = fold_left visited ds [])
       (fun e => e = LibusbError (as_c_int (list_count l)) /\ list_count l < 0
                 \/ e = NullDeviceList /\ 0 <= list_count l /\ list_devices l = None).
Proof.
  intros Hl. unfold target_devices. case_test as Hc; [by split; [|left]|].
  destruct (list_devices l) as [ds|] eqn:Hds; [|by split; [|right]].
  specialize (Hl ds Hds Hc). rewrite <- Hl, to_nat_len.
  destruct (visit_range_eq {| context_live := true; list_live := Some (list_address l, ds) |}
    (list_address l) ds [] [] eq_refl) as [Hr Hrun].
  cbn [len] in Hr, Hrun. change (len (@nil (option usb_device))) with 0 in Hr, Hrun.
  cbn [app] in Hr, Hrun. destruct (visit_range _ _ _ _ _) as [calls r]. cbn in Hr, Hrun. subst r.
  unfold usb_run in *.
  cbn [io_bind emit finally fst snd app run_protocol usb_step usb_ready context_live list_live
       mbind option_bind].
  rewrite (run_protocol_app _ _ _ _ _ Hrun). cbn. rewrite Z.eqb_refl. cbn. split; [done|].
  exists ds. by rewrite Hl.
Qed.

(** The enumeration never panics, and its map is ordered and no larger than the
    list. *)
Lemma target_devices_map l :
  list_ok l ->
  exec_wp (target_devices l).2
    (fun m => map_ok m /\ len m <= len (default [] (list_devices l))) (fun _ => True).
Proof.
  intros Hl. eapply wp_mono; [apply (target_devices_eq l Hl)| |done]. cbn beta.
  intros m (ds & -> & _ & ->). split; [apply enumerated|].
  pose proof (len_enumerated ds []). cbn. len_lia.
Qed.

(** C39 [target_devices] returns exactly the SM768 adapters of the bus: with the
    list libusb promises (as many entries as its count), it succeeds, its map is
    ordered by bus and address, and a key is bound to the description of the last
    device in the list with that bus and address whose descriptor was read and
    carries vendor 0x090c and product 0x0768; null entries and other devices are
    skipped.  A negative count or a null list is an error. *)
Theorem target_devices_correct l :
  list_ok l ->
  exec_wp (target_devices l).2
    (fun m => exists ds, list_devices l = Some ds /\ map_ok m
       /\ forall k i, map_get k m = Some i <-> last_target ds k i)
    (fun e => e = LibusbError (as_c_int (list_count l)) /\ list_count l < 0
              \/ e = NullDeviceList /\ 0 <= list_count l /\ list_devices l = None).
Proof.
  intros Hl. eapply wp_mono; [apply (target_devices_eq l Hl)| |done]. cbn beta.
  intros m (ds & -> & _ & ->). exists ds. split; [done|]. apply enumerated.
Qed.

(** ** Witness *)

Definition sample_descriptor (vendor product : Z) : LibusbDeviceDescriptor :=
  {| b_length := 18; b_descriptor_type := 1; bcd_usb := 0x0320; b_device_class := 0;
     b_device_sub_class := 0; b_device_protocol := 0; b_max_packet_size0 := 9;
     id_vendor := vendor; id_product := product; bcd_device := 0x0100; i_manufacturer := 1;
     i_product := 2; i_serial_number := 3; b_num_configurations := 1 |}.

Definition sample_device (vendor product bus address : Z) : usb_device :=
  {| dev_result := 0; dev_descriptor := sample_descriptor vendor product; dev_bus := bus;
     dev_address := address; dev_port := 3; dev_speed := 4 |}.

Definition sample_list : usb_list :=
  {| list_count := 4; list_address := 0x1000;
     list_devices := Some [Some (sample_device 0x090c 0x0768 2 9); None;
                           Some (sample_device 0x1d6b 0x0003 1 1);
                           Some (sample_device 0x090c 0x0768 1 4)] |}.

Lemma sample_list_ok : list_ok sample_list.
Proof. intros ds [= <-] _. reflexivity. Qed.

Lemma target_devices_correct_witness :
  exec_wp (target_devices sample_list).2 (fun m => map_ok m) (fun _ => False) /\
  (exec_bind (target_devices sample_list).2 (fun m => Ok (fst <$> m)))
  = Ok [{| bus := 1; address := 4 |}; {| bus := 2; address := 9 |}] /\
  format_bcd 0x0320 = lit "3.20".
Proof.
  split; [|split; vm_compute; reflexivity].
  eapply wp_mono; [exact (target_devices_correct sample_list sample_list_ok)| |].
  - intros m (ds & _ & Hm & _). exact Hm.
  - intros e [[_ He]|(_ & _ & He)]; [vm_compute in He|]; discriminate.
Defined.
