(* ===== verification/Observe.v ===== *)
(** * Observe: the passive hot-plug observer

    Models [observe] of rust/src/main.rs.  The environment of the loop is a list
    of [poll]s: before each turn whether a signal asked to stop and whether the
    deadline has passed, and what the enumeration of that turn sees.  A list
    that ends before the loop does is a run observed so far.  What the observer
    does is recorded: the devices it reports and its calls into libusb. *)

From Stdlib Require Import Sorted.
From S2P Require Import Prelude Text Wire Usb.

Open Scope Z_scope.

(** ** Data *)

Record poll := {
  stop_requested : bool;
  deadline_passed : bool;
  enumeration : usb_list;
}.

(** A line on the standard error. *)
Inductive observation :=
| Arrived (generation : Z) (key : DeviceKey) (info : DeviceInfo)
| Departed (key : DeviceKey).

(** What the observer does. *)
Inductive observer_event :=
| Report (o : observation)
| Libusb (e : usb_event).

Definition reports (es : list observer_event) : list observation :=
  omap (fun e => match e with Report o => Some o | Libusb _ => None end) es.
Definition usb_calls (es : list observer_event) : list usb_event :=
  omap (fun e => match e with Report _ => None | Libusb c => Some c end) es.

Inductive ObserveError :=
| UsbFailed (e : UsbError)
| DurationTooLarge.

(** The variables of the loop. *)
Record observer := {
  previous : list (DeviceKey * DeviceInfo);
  generation : Z;
}.

Inductive status := Running | Finished.

(** ** Formats *)

(** [{:?}] of a [Speed] *)
Definition show_speed (s : Speed) : list Z :=
  match s with
  | Unknown => lit "Unknown"
  | Low => lit "Low"
  | Full => lit "Full"
  | High => lit "High"
  | Super => lit "Super"
  | SuperPlus => lit "SuperPlus"
  | Other v => lit "Other(" ++ dec_signed v ++ lit ")"
  end.

Definition observation_line (o : observation) : list Z :=
  match o with
  | Arrived g k i =>
      lit "smiusbd-rs: generation=" ++ dec g ++ lit " arrived bus=" ++ dec (bus k)
      ++ lit " address=" ++ dec (address k) ++ lit " port=" ++ dec (port i)
      ++ lit " usb=" ++ format_bcd (usb_version i) ++ lit " device="
      ++ format_bcd (device_version i) ++ lit " speed=" ++ show_speed (speed i)
      ++ lit " (passive; no open, claim, or transfer)"
  | Departed k =>
      lit "smiusbd-rs: departed bus=" ++ dec (bus k) ++ lit " address=" ++ dec (address k)
      ++ lit " (passive observer)"
  end.

(** ** Operations *)

(** [for (key, info) in &current]: number and report the new devices. *)
Fixpoint report_arrivals (previous current : list (DeviceKey * DeviceInfo)) (g : Z)
    : exec ObserveError (Z * list observation) :=
  match current with
  | [] => Ok (g, [])
  | (key, info) :: current =>
      if negb (contains_key key previous) then
        let! g := add_at u64_max g 1 in
        let! (g', lines) := report_arrivals previous current g in
        Ok (g', Arrived g key info :: lines)
      else report_arrivals previous current g
  end.

(** [for key in previous.keys()]: report the devices that left. *)
Fixpoint report_departures (current previous : list (DeviceKey * DeviceInfo))
    : list observation :=
  match previous with
  | [] => []
  | (key, _) :: previous =>
      if negb (contains_key key current) then Departed key :: report_departures current previous
      else report_departures current previous
  end.

(** One turn behind the loop condition. *)
Definition observe_turn (o : observer) (p : poll) : io observer_event ObserveError observer :=
  let* current := io_map Libusb UsbFailed (target_devices (enumeration p)) in
  let* (g, arrivals) := lift (report_arrivals (previous o) current (generation o)) in
  let* _ := emit (Report <$> arrivals ++ report_departures current (previous o)) in
  lift (Ok {| previous := current; generation := g |}).

Fixpoint observe_loop (has_deadline : bool) (o : observer) (polls : list poll)
    : io observer_event ObserveError (status * observer) :=
  match polls with
  | [] => lift (Ok (Running, o))
  | p :: polls =>
      if negb (stop_requested p) && (negb has_deadline || negb (deadline_passed p)) then
        let* o := observe_turn o p in
        observe_loop has_deadline o polls
      else lift (Ok (Finished, o))
  end.

(** The context is dropped when the function returns. *)
Definition drop_context (m : io observer_event ObserveError (status * observer)) :=
  match m.2 with
  | Ok (Running, _) => m
  | _ => finally (Libusb <$> UsbContext_drop) m
  end.

(** [context] is what [libusb_init] returns and stores; [deadline] is whether the
    clock can represent the end of the duration. *)
Definition observe {A} (context : Z * option A) (deadline : Z -> bool) (duration : option Z)
    (polls : list poll) : io observer_event ObserveError (status * observer) :=
  let start := {| previous := []; generation := 0 |} in
  let* _ := io_map Libusb UsbFailed (UsbContext_new context.1 context.2) in
  drop_context
    match duration with
    | Some value =>
        if deadline value then observe_loop true start polls else lift (Err DurationTooLarge)
    | None => observe_loop false start polls
    end.

(** ** What the observations say *)

(** The devices present after the observations, as a predicate on keys. *)
Definition apply_observation (P : DeviceKey -> bool) (o : observation) (k : DeviceKey) : bool :=
  match o with
  | Arrived _ k' _ => bool_decide (k = k') || P k
  | Departed k' => negb (bool_decide (k = k')) && P k
  end.

Definition replay (P : DeviceKey -> bool) (os : list observation) : DeviceKey -> bool :=
  fold_left apply_observation os P.

(** A device arrives only when absent and departs only when present. *)
Fixpoint alternates (P : DeviceKey -> bool) (os : list observation) : Prop :=
  match os with
  | [] => True
  | o :: os =>
      match o with Arrived _ k _ => P k = false | Departed k => P k = true end
      /\ alternates (apply_observation P o) os
  end.

(** The generation numbers given out. *)
Definition generations (os : list observation) : list Z :=
  omap (fun o => match o with Arrived g _ _ => Some g | Departed _ => None end) os.

(** What is new in an enumeration and what has gone since the one before, in the order
    of the keys. *)
Definition new_devices (prev cur : list (DeviceKey * DeviceInfo)) : list (DeviceKey * DeviceInfo) :=
  filter (fun d => contains_key d.1 prev = false) cur.
Definition gone_devices (prev cur : list (DeviceKey * DeviceInfo)) : list DeviceKey :=
  (filter (fun d => contains_key d.1 cur = false) prev).*1.

(** The report on a sequence of enumerations: every new device under the next number,
    with its data, then the devices that are gone. *)
Fixpoint report_on (prev : list (DeviceKey * DeviceInfo)) (g : Z)
    (enumerations : list (list (DeviceKey * DeviceInfo))) : list observation :=
  match enumerations with
  | [] => []
  | cur :: rest =>
      let new := new_devices prev cur in
      zip_with (fun g d => Arrived g d.1 d.2) (seqZ (g + 1) (len new)) new
      ++ (Departed <$> gone_devices prev cur) ++ report_on cur (g + len new) rest
  end.

(** Whether the loop takes another turn. *)
Definition goes_on (has_deadline : bool) (p : poll) : bool :=
  negb (stop_requested p) && (negb has_deadline || negb (deadline_passed p)).

(** ** Lemmas *)

Lemma replay_app P a b : replay P (a ++ b) = replay (replay P a) b.
Proof. apply fold_left_app. Qed.

Lemma replay_cons P o os : replay P (o :: os) = replay (apply_observation P o) os.
Proof. done. Qed.

Lemma alternates_app P a b : alternates P a -> alternates (replay P a) b -> alternates P (a ++ b).
Proof.
  revert P. induction a as [|o a IH]; intros P Ha Hb; [done|]. cbn in *.
  destruct Ha as [Ho Ha]. split; [done|]. by apply IH.
Qed.

Lemma generations_app a b : generations (a ++ b) = generations a ++ generations b.
Proof. apply omap_app. Qed.

Lemma contains_key_cons {V} k k' (v : V) m :
  contains_key k ((k', v) :: m) = bool_decide (k = k') || contains_key k m.
Proof. unfold contains_key. cbn. by case_bool_decide. Qed.

Lemma contains_key_fresh {V} k (v : V) m : map_ok ((k, v) :: m) -> contains_key k m = false.
Proof.
  intros [_ Hk]%map_ok_cons. destruct (contains_key k m) eqn:Hc; [|done].
  apply map_get_elem, list_elem_of_fmap in Hc as ([k' v'] & Heq & Hin). cbn in Heq. subst k'.
  exfalso. rewrite Forall_forall in Hk. by eapply key_lt_irrefl, (Hk _ Hin).
Qed.

(** New devices are numbered consecutively and become present. *)
Lemma arrivals_spec prev cur : forall P g,
  map_ok cur -> (forall k, contains_key k cur = true -> P k = contains_key k prev) ->
  0 <= g -> g + len cur <= u64_max ->
  exists os, report_arrivals prev cur g = Ok (g + len (generations os), os)
    /\ len (generations os) <= len cur
    /\ generations os = seqZ (g + 1) (len (generations os)) /\ alternates P os
    /\ (forall k, replay P os k = P k || contains_key k cur)
    /\ len (generations os) = len (new_devices prev cur)
    /\ os = zip_with (fun g d => Arrived g d.1 d.2) (seqZ (g + 1) (len (new_devices prev cur)))
              (new_devices prev cur).
Proof.
  induction cur as [|[k' i] cur IH]; intros P g Hok HP Hg Hmax; cbn [report_arrivals].
  { exists []. cbn. rewrite Z.add_0_r. split_and!; try done. intros k. by rewrite orb_false_r. }
  unfold new_devices. rewrite filter_cons. fold (new_devices prev cur). cbn [fst].
  pose proof (contains_key_fresh _ _ _ Hok) as Hfresh. rewrite len_cons in *.
  pose proof (len_nonneg cur). apply map_ok_cons in Hok as [Hok _].
  pose proof (HP k') as HPk. rewrite contains_key_cons, bool_decide_true in HPk by done.
  specialize (HPk eq_refl).
  destruct (contains_key k' prev) eqn:Hk; cbn [negb].
  - rewrite decide_False by done.
    destruct (IH P g Hok) as (os & Hos & Hl & Hgen & Halt & Hrep & Hn & Hos2); [|lia|lia|].
    { intros k Hkc. apply HP. rewrite contains_key_cons, Hkc. apply orb_true_r. }
    exists os. split_and!; try done; [lia|]. intros k. rewrite Hrep, contains_key_cons.
    case_bool_decide as Heq; [subst k|done]. by rewrite HPk.
  - rewrite decide_True by done. unfold add_at. rewrite (proj2 (Z.leb_le _ _)) by lia. exec_cbn.
    destruct (IH (apply_observation P (Arrived (g + 1) k' i)) (g + 1) Hok)
      as (os & Hos & Hl & Hgen & Halt & Hrep & Hn & Hos2); [|lia|lia|].
    { intros k Hkc. cbn. rewrite bool_decide_false; [|intros ->; congruence].
      apply HP. rewrite contains_key_cons, Hkc. apply orb_true_r. }
    exists (Arrived (g + 1) k' i :: os). rewrite Hos. exec_cbn.
    change (generations (Arrived (g + 1) k' i :: os)) with (g + 1 :: generations os).
    rewrite len_cons. split_and!.
    + do 2 f_equal. lia.
    + lia.
    + rewrite (seqZ_cons (g + 1)) by len_lia. f_equal. rewrite Hgen at 1. f_equal; lia.
    + by split.
    + intros k. rewrite replay_cons, Hrep, contains_key_cons. cbn.
      destruct (bool_decide (k = k')), (P k), (contains_key k cur); done.
    + rewrite len_cons. lia.
    + rewrite len_cons, (seqZ_cons (g + 1)) by len_lia. cbn [zip_with fst snd]. f_equal.
      rewrite Hos2 at 1. do 2 f_equal; lia.
Qed.

Lemma report_departures_eq cur prev : report_departures cur prev = Departed <$> gone_devices prev cur.
Proof.
  unfold gone_devices. induction prev as [|[k i] prev IH]; [done|]. cbn [report_departures].
  rewrite filter_cons. cbn [fst]. destruct (contains_key k cur); cbn [negb].
  - by rewrite decide_False.
  - rewrite decide_True by done. cbn. by rewrite IH.
Qed.

(** Devices that are gone depart. *)
Lemma departures_spec cur prev : forall P,
  map_ok prev -> (forall k, contains_key k prev = true -> P k = true) ->
  let os := report_departures cur prev in
  generations os = [] /\ alternates P os
  /\ forall k, replay P os k = P k && (negb (contains_key k prev) || contains_key k cur).
Proof.
  induction prev as [|[k' i] prev IH]; intros P Hok HP; cbn [report_departures].
  { cbn. split_and!; [done|done|]. intros k. by rewrite andb_true_r. }
  pose proof (contains_key_fresh _ _ _ Hok) as Hfresh. apply map_ok_cons in Hok as [Hok _].
  pose proof (HP k') as HPk. rewrite contains_key_cons, bool_decide_true in HPk by done.
  specialize (HPk eq_refl).
  destruct (contains_key k' cur) eqn:Hk; cbn [negb].
  - destruct (IH P Hok) as (Hgen & Halt & Hrep).
    { intros k Hkc. apply HP. rewrite contains_key_cons, Hkc. apply orb_true_r. }
    split_and!; try done. intros k. rewrite Hrep, contains_key_cons.
    case_bool_decide as Heq; [subst k|done]. by rewrite Hk, !orb_true_r.
  - destruct (IH (apply_observation P (Departed k')) Hok) as (Hgen & Halt & Hrep).
    { intros k Hkc. cbn. rewrite bool_decide_false; [|intros ->; congruence].
      apply HP. rewrite contains_key_cons, Hkc. apply orb_true_r. }
    split_and!; [done|by split|]. intros k. rewrite replay_cons, Hrep, contains_key_cons.
    cbn. case_bool_decide as Heq; [subst k; rewrite Hk|]; cbn; [by rewrite andb_false_r|done].
Qed.

Lemma reports_app a b : reports (a ++ b) = reports a ++ reports b.
Proof. apply omap_app. Qed.

Lemma usb_calls_app a b : usb_calls (a ++ b) = usb_calls a ++ usb_calls b.
Proof. apply omap_app. Qed.

Lemma reports_libusb es : reports (Libusb <$> es) = [].
Proof. unfold reports. by induction es. Qed.

Lemma usb_calls_libusb es : usb_calls (Libusb <$> es) = es.
Proof. unfold usb_calls. induction es as [|e es IH]; [done|]. cbn in *. by rewrite IH. Qed.

Lemma reports_report os : reports (Report <$> os) = os.
Proof. unfold reports. induction os as [|o os IH]; [done|]. cbn in *. by rewrite IH. Qed.

Lemma usb_calls_report os : usb_calls (Report <$> os) = [].
Proof. unfold usb_calls. by induction os. Qed.

(** One turn keeps the record of the present devices right. *)
Lemma turn_spec o p P :
  list_ok (enumeration p) -> map_ok (previous o) -> 0 <= generation o ->
  (forall k, P k = contains_key k (previous o)) ->
  generation o + len (default [] (list_devices (enumeration p))) <= u64_max ->
  let '(es, r) := observe_turn o p in
  let os := reports es in
  usb_run usb_ready (usb_calls es) = Some usb_ready
  /\ exec_wp r
    (fun o' => (target_devices (enumeration p)).2 = Ok (previous o') /\ map_ok (previous o')
       /\ generation o' = generation o + len (generations os)
       /\ len (generations os) <= len (default [] (list_devices (enumeration p)))
       /\ generations os = seqZ (generation o + 1) (len (generations os))
       /\ alternates P os /\ (forall k, replay P os k = contains_key k (previous o'))
       /\ len (generations os) = len (new_devices (previous o) (previous o'))
       /\ os = report_on (previous o) (generation o) [previous o'])
    (fun e => os = [] /\ exists ue, e = UsbFailed ue /\ (target_devices (enumeration p)).2 = Err ue).
Proof.
  intros Hl Hok Hg HP Hmax. unfold observe_turn, io_map.
  pose proof (target_devices_map (enumeration p) Hl) as Hmap.
  destruct (target_devices_eq (enumeration p) Hl) as [Hrun _].
  destruct (target_devices (enumeration p)) as [calls [cur|e| |]]; cbn in Hmap, Hrun; try done.
  2: { cbn. rewrite reports_libusb, usb_calls_libusb. split; [done|]. split; [done|by exists e]. }
  destruct Hmap as [Hmap Hcur]. cbn [map_err fst snd io_bind].
  destruct (arrivals_spec (previous o) cur P (generation o) Hmap) as (os & -> & Hlen & Hgen & Halt & Hrep & Hn & Hos);
    [by intros; apply HP|done|lia|]. cbn [io_bind lift emit app].
  destruct (departures_spec cur (previous o) (replay P os) Hok) as (Hdgen & Hdalt & Hdrep).
  { intros k Hk. by rewrite Hrep, HP, Hk. }
  rewrite app_nil_r, reports_app, usb_calls_app, reports_libusb, usb_calls_libusb.
  rewrite reports_report, usb_calls_report, app_nil_r. split; [done|].
  cbn [exec_wp previous generation app]. rewrite generations_app, Hdgen, app_nil_r.
  split_and!; try done; [lia|by apply alternates_app| |].
  - intros k. rewrite replay_app, Hdrep, Hrep, HP.
    by destruct (contains_key k (previous o)), (contains_key k cur).
  - cbn [report_on]. rewrite app_nil_r, <- Hos. f_equal. apply report_departures_eq.
Qed.

(** The devices that all the polls could report. *)
Definition reported (polls : list poll) : Z :=
  fold_right (fun p n => len (default [] (list_devices (enumeration p))) + n) 0 polls.

Lemma reported_nonneg polls : 0 <= reported polls.
Proof.
  unfold reported. induction polls as [|p polls IH]; cbn [fold_right]; [done|].
  pose proof (len_nonneg (default [] (list_devices (enumeration p)))). lia.
Qed.

(** The enumerations [seen] are those of the first polls, while the loop went on. *)
Definition enumerated (has_deadline : bool) (polls : list poll)
    (seen : list (list (DeviceKey * DeviceInfo))) : Prop :=
  Forall2 (fun p cur => goes_on has_deadline p = true /\ (target_devices (enumeration p)).2 = Ok cur)
    (take (length seen) polls) seen.

Lemma enumerated_nil has_deadline polls : enumerated has_deadline polls [].
Proof. apply Forall2_nil_2. Qed.

(** How the loop ends behind them: the polls are used up, the condition fails, or the
    next enumeration does. *)
Definition loop_end (has_deadline : bool) (polls : list poll) (seen : nat)
    (r : exec ObserveError (status * observer)) : Prop :=
  match r with
  | Ok (Running, _) => seen = length polls
  | Ok (Finished, _) => exists p, polls !! seen = Some p /\ goes_on has_deadline p = false
  | Err (UsbFailed ue) =>
      exists p, polls !! seen = Some p /\ goes_on has_deadline p = true
        /\ (target_devices (enumeration p)).2 = Err ue
  | Err DurationTooLarge | Panic | NoFuel => False
  end.

(** What a run of the loop establishes, from a state with the devices [P]. *)
Definition observed (has_deadline : bool) (P : DeviceKey -> bool) (prev : list (DeviceKey * DeviceInfo))
    (g : Z) (polls : list poll) (run : io observer_event ObserveError (status * observer)) : Prop :=
  let '(es, r) := run in
  let os := reports es in
  usb_run usb_ready (usb_calls es) = Some usb_ready
  /\ alternates P os /\ generations os = seqZ (g + 1) (len (generations os))
  /\ exists seen, enumerated has_deadline polls seen /\ os = report_on prev g seen
     /\ (forall k, replay P os k = contains_key k (default prev (last seen)))
     /\ loop_end has_deadline polls (length seen) r.

Lemma loop_observed has_deadline polls : forall o P,
  Forall (fun p => list_ok (enumeration p)) polls -> map_ok (previous o) -> 0 <= generation o ->
  (forall k, P k = contains_key k (previous o)) -> generation o + reported polls <= u64_max ->
  observed has_deadline P (previous o) (generation o) polls (observe_loop has_deadline o polls).
Proof.
  induction polls as [|p polls IH]; intros o P Hl Hok Hg HP Hmax; cbn [observe_loop].
  { cbn. split_and!; try done. exists []. by split_and!; [apply enumerated_nil|done|exact HP|]. }
  apply Forall_cons_1 in Hl as [Hlp Hl]. cbn [reported fold_right] in Hmax.
  fold (reported polls) in Hmax. pose proof (reported_nonneg polls).
  fold (goes_on has_deadline p). destruct (goes_on has_deadline p) eqn:Hc.
  2: { cbn. split_and!; try done. exists []. split_and!; [apply enumerated_nil|done|exact HP|]. by exists p. }
  pose proof (turn_spec o p P Hlp Hok Hg HP ltac:(lia)) as Ht.
  destruct (observe_turn o p) as [es1 [o1|e| |]]; destruct Ht as [Hrun1 Ht]; cbn in Ht; try done.
  2: { destruct Ht as (Hos & ue & -> & Hue). cbn. rewrite Hos. split_and!; [done|done|done|].
       exists []. split_and!; [apply enumerated_nil|done|exact HP|]. by exists p. }
  destruct Ht as (Hcur & Hok1 & Hg1 & Hlen & Hgen & Halt & Hrep & Hn & Hos1).
  set (os1 := reports es1) in *. pose proof (len_nonneg (generations os1)).
  pose proof (IH o1 (replay P os1) Hl Hok1 ltac:(lia) Hrep ltac:(lia)) as Hrun.
  cbn [io_bind]. destruct (observe_loop has_deadline o1 polls) as [es2 r].
  destruct Hrun as (Hrun2 & Halt2 & Hgen2 & seen & Hseen & Hos2 & Hrep2 & Hend). cbn.
  rewrite reports_app, usb_calls_app. fold os1. set (os2 := reports es2) in *.
  rewrite generations_app, len_app. pose proof (len_nonneg (generations os2)). split_and!.
  - unfold usb_run. by rewrite (run_protocol_app _ _ _ _ _ Hrun1).
  - by apply alternates_app.
  - rewrite seqZ_app by lia. rewrite <- Hgen. f_equal. rewrite Hgen2 at 1. f_equal. lia.
  - exists (previous o1 :: seen). split_and!; [by constructor| | |].
    + cbn [report_on] in Hos1 |- *. rewrite Hos1, Hos2, Hg1, Hn, app_nil_r, <- app_assoc. done.
    + intros k. rewrite replay_app, Hrep2, last_cons. by destruct (last seen).
    + destruct r as [[[] ?]|[]| |]; cbn in Hend |- *; try done. by f_equal.
Qed.

(** A duration whose end the clock cannot represent. *)
Definition too_large (deadline : Z -> bool) (duration : option Z) : bool :=
  if duration is Some d then negb (deadline d) else false.

(** The account that a run of the observer gives.  Arrivals and departures alternate
    and the generations count the arrivals; the report is exactly what the enumerations
    of the polls, one after the other, make of it, and the devices present according to
    it are those of the last enumeration; and the observer ends for a reason: the
    signal or the deadline, an error of libusb, or a duration out of range. *)
Definition account {A} (context : Z * option A) (deadline : Z -> bool) (duration : option Z)
    (polls : list poll) (run : io observer_event ObserveError (status * observer)) : Prop :=
  let '(es, r) := run in
  let os := reports es in
  let has_deadline := bool_decide (is_Some duration) in
  alternates (fun _ => false) os /\ generations os = seqZ 1 (len (generations os))
  /\ exists seen, enumerated has_deadline polls seen /\ os = report_on [] 0 seen
     /\ (forall k, replay (fun _ => false) os k = contains_key k (default [] (last seen)))
     /\ match (UsbContext_new context.1 context.2).2 with
        | Ok _ =>
            if too_large deadline duration then seen = [] /\ r = Err DurationTooLarge
            else loop_end has_deadline polls (length seen) r
        | Err ue => seen = [] /\ r = Err (UsbFailed ue)
        | Panic | NoFuel => False
        end.

(** It returns. *)
Lemma account_returns {A} (context : Z * option A) deadline duration polls run :
  account context deadline duration polls run -> returns run.2.
Proof.
  destruct run as [es r]. intros (_ & _ & seen & _ & _ & _ & Hend). cbn.
  destruct (UsbContext_new _ _) as [? [?|?| |]]; cbn in Hend; [|by destruct Hend as [_ ->]|done..].
  destruct (too_large deadline duration); [by destruct Hend as [_ ->]|]. by destruct r.
Qed.

(** The state of libusb behind a run: the context lives while the observer
    runs. *)
Definition usb_after (r : exec ObserveError (status * observer)) : usb_state :=
  match r with Ok (Running, _) => usb_ready | _ => usb_idle end.

(** Opening the context, running and dropping it. *)
Lemma observe_context {A} (context : Z * option A) deadline duration polls :
  Forall (fun p => list_ok (enumeration p)) polls -> reported polls <= u64_max ->
  account context deadline duration polls (observe context deadline duration polls)
  /\ usb_run usb_idle (usb_calls (observe context deadline duration polls).1)
     = Some (usb_after (observe context deadline duration polls).2).
Proof.
  intros Hl Hmax. unfold observe, io_map.
  destruct (UsbContext_new context.1 context.2) as [calls r] eqn:Hctx.
  assert (Hnew : (exists raw, calls = [Init true] /\ r = Ok raw)
    \/ exists e, usb_run usb_idle calls = Some usb_idle /\ r = Err e).
  { unfold UsbContext_new in Hctx. destruct (negb _); [|destruct (context.2)]; simplify_eq; eauto. }
  destruct Hnew as [(raw & -> & ->)|(e & Hrun & ->)].
  2: { cbn. rewrite reports_libusb, usb_calls_libusb, Hctx. split; [|done]. split_and!; [done|done|].
       exists []. by split_and!; [apply enumerated_nil|..]. }
  set (m := match duration with Some _ => _ | None => _ end).
  assert (Hm : m = if too_large deadline duration then lift (Err DurationTooLarge)
    else observe_loop (bool_decide (is_Some duration)) {| previous := []; generation := 0 |} polls).
  { subst m. destruct duration as [d|]; [|done]. cbn. by destruct (deadline d). }
  clearbody m. unfold account. rewrite Hctx. cbn [fst snd]. destruct (too_large deadline duration).
  { subst m. cbn. split; [|done]. split_and!; [done|done|]. exists []. by split_and!; [apply enumerated_nil|..]. }
  pose proof (loop_observed (bool_decide (is_Some duration)) polls {| previous := []; generation := 0 |}
    (fun _ => false) Hl ltac:(constructor) ltac:(done) ltac:(done) Hmax) as Hobs. rewrite <- Hm in Hobs. clear Hm.
  destruct m as [es r]. destruct Hobs as (Hrun & Halt & Hgen & Hr).
  assert (Hdrop : exists drops, drop_context (es, r) = (es ++ (Libusb <$> drops), r)
    /\ usb_run usb_ready drops = Some (usb_after r)).
  { destruct r as [[[] o]|e| |]; [by exists []; rewrite app_nil_r|by exists UsbContext_drop..]. }
  destruct Hdrop as (drops & -> & Hdrops). cbn [fmap list_fmap fst snd map_err io_bind app].
  change (Libusb (Init true) :: es ++ (Libusb <$> drops))
    with ([Libusb (Init true)] ++ es ++ (Libusb <$> drops)).
  rewrite !reports_app, !usb_calls_app, reports_libusb, usb_calls_libusb, app_nil_r. cbn [app].
  change (reports [Libusb (Init true)]) with (@nil observation).
  change (usb_calls [Libusb (Init true)]) with [Init true]. cbn [app]. split.
  - by split_and!.
  - change (usb_run usb_ready (usb_calls es ++ drops) = Some (usb_after r)).
    unfold usb_run in *. by rewrite (run_protocol_app _ _ _ _ _ Hrun).
Qed.

(** ** Theorems *)

(** C38 The observer's report is a faithful account of hot-plugging.  For every
    sequence of polls, the report is exactly what the enumerations of the turns make
    of it: every device that was not in the enumeration before, under the next number
    and with the data that libusb gave, then the devices that are no longer there.  So
    a device is reported to arrive only when it is absent and to depart only when it is
    present, the generations given out are 1, 2, 3, ... without gap or repeat, and the
    devices present according to the report are exactly those of the last
    enumeration.  The observer goes on until a signal, the deadline or an error of
    libusb, and refuses a duration that the clock cannot represent. *)
Theorem observe_correct {A} (context : Z * option A) deadline duration polls :
  Forall (fun p => list_ok (enumeration p)) polls -> reported polls <= u64_max ->
  account context deadline duration polls (observe context deadline duration polls).
Proof. apply observe_context. Qed.

(** C16 The observer uses libusb correctly and releases what it acquires.  For
    every sequence of polls: one context at a time, each device list obtained
    from it is freed exactly once and with its references before the next turn,
    entries are only read and devices only accessed inside a live list and never
    through a null pointer; [libusb_exit] is called exactly once, after the last
    list is gone, when the observer ends, also when it ends with an error, and
    not before. *)
Theorem observe_handles {A} (context : Z * option A) deadline duration polls :
  Forall (fun p => list_ok (enumeration p)) polls -> reported polls <= u64_max ->
  let run := observe context deadline duration polls in
  usb_run usb_idle (usb_calls run.1) = Some (usb_after run.2).
Proof. apply observe_context. Qed.

(** ** Witness *)

(** The adapters of [sample_list] arrive; then one is gone and another is new;
    then a signal stops the loop. *)
Definition sample_polls : list poll :=
  [{| stop_requested := false; deadline_passed := false; enumeration := sample_list |};
   {| stop_requested := false; deadline_passed := false;
      enumeration := {| list_count := 2; list_address := 0x2000;
        list_devices := Some [Some (sample_device 0x090c 0x0768 2 9);
                              Some (sample_device 0x090c 0x0768 2 10)] |} |};
   {| stop_requested := true; deadline_passed := false; enumeration := sample_list |}].

Lemma sample_polls_ok :
  Forall (fun p => list_ok (enumeration p)) sample_polls /\ reported sample_polls <= u64_max.
Proof.
  split; [|vm_compute; discriminate]. repeat constructor; intros ds [= <-] _; reflexivity.
Qed.

Lemma observe_correct_witness :
  let os := reports (observe (0, Some tt) (fun _ => true) (Some 60) sample_polls).1 in
  generations os = seqZ 1 (len (generations os)) /\ generations os = [1; 2; 3] /\
  (observation_line <$> drop 3 os) = [lit "smiusbd-rs: departed bus=1 address=4 (passive observer)"].
Proof.
  split; [|split; vm_compute; reflexivity].
  pose proof (observe_correct (0, Some tt) (fun _ => true) (Some 60) sample_polls
    (proj1 sample_polls_ok) (proj2 sample_polls_ok)) as H.
  destruct (observe (0, Some tt) (fun _ => true) (Some 60) sample_polls) as [os r].
  exact (proj1 (proj2 H)).
Defined.

Lemma observe_handles_witness :
  let run := observe (0, Some tt) (fun _ => true) (Some 60) sample_polls in
  usb_run usb_idle (usb_calls run.1) = Some usb_idle /\ len (usb_calls run.1) = 33 /\
  last (usb_calls run.1) = Some Exit.
Proof.
  cbv zeta. split; [|split; vm_compute; reflexivity].
  exact (observe_handles (0, Some tt) (fun _ => true) (Some 60) sample_polls
    (proj1 sample_polls_ok) (proj2 sample_polls_ok)).
Defined.
