(* ===== verification/Display.v ===== *)
(** * Display: the messages of the program

    Models the [Display] implementations of rust/src/protocol.rs and
    rust/src/frame.rs, and the [format!] texts with which main.rs, jpeg.rs,
    usb.rs and screencast.rs turn errors into strings.  The class [Display] is
    the trait.  A message that quotes text with [{:?}] depends on the Unicode
    tables of the standard library, which are the parameter [UnicodeTables]; the
    texts of operating system errors come with the errors. *)

From S2P Require Import Prelude Text Wire JpegScan Envelope Modes Frame Pipeline Jpeg Cli.
From S2P Require Import Decode Simulate Screencast Usb Observe.
Import FrameParseError.

Open Scope Z_scope.

(** The trait [fmt::Display], with [to_string]. *)
Class Display (A : Type) := display : A -> list Z.

(** ** Debug formatting *)

(** The Unicode properties that [{:?}] consults, with their values on ASCII. *)
Class UnicodeTables := {
  grapheme_extended : Z -> bool;
  is_printable : Z -> bool;
  grapheme_extended_ascii : forall c, 0 <= c < 128 -> grapheme_extended c = false;
  is_printable_ascii : forall c, 0 <= c < 128 -> is_printable c = (32 <=? c) && (c <? 127);
}.

Section debug.
Context `{UnicodeTables}.

(** [char::escape_unicode] *)
Definition escape_unicode (c : Z) : list Z := lit "\u{" ++ hex c ++ lit "}".

(** [char::escape_debug_ext], escaping one of the quotes. *)
Definition escape_debug (quote c : Z) : list Z :=
  if c =? 0 then lit "\0" else
  if c =? 9 then lit "\t" else
  if c =? 13 then lit "\r" else
  if c =? 10 then lit "\n" else
  if (c =? 92) || (c =? quote) then [92; c] else
  if grapheme_extended c then escape_unicode c else
  if is_printable c then [c] else escape_unicode c.

(** [{:?}] of a [char] and of a [str]. *)
Definition debug_char (c : Z) : list Z := [39] ++ escape_debug 39 c ++ [39].
Definition debug_str (s : list Z) : list Z := [34] ++ (s ≫= escape_debug 34) ++ [34].
End debug.

(** [{:?}] of a [SubmitOutcome] *)
Definition debug_outcome (o : SubmitOutcome) : list Z :=
  match o with
  | Queued => lit "Queued"
  | DroppedOldest id =>
      lit "DroppedOldest(FrameId { generation: " ++ dec (Frame.generation id) ++ lit ", sequence: "
      ++ dec (Frame.sequence id) ++ lit " })"
  | RejectedGeneration active received =>
      lit "RejectedGeneration { active: " ++ dec active ++ lit ", received: " ++ dec received
      ++ lit " }"
  | RejectedSequence last received =>
      lit "RejectedSequence { last: " ++ dec last ++ lit ", received: " ++ dec received ++ lit " }"
  end.

(** ** protocol.rs *)

#[export] Instance Display_BuildError : Display BuildError := fun e =>
  match e with
  | ClientTagTooLong digits maximum =>
      lit "heartbeat client tag has " ++ dec digits ++ lit " digits; maximum is " ++ dec maximum
  end.

#[export] Instance Display_ParseError : Display ParseError := fun e =>
  match e with
  | ParseError.TooShort actual minimum =>
      lit "packet is " ++ dec actual ++ lit " bytes; need at least " ++ dec minimum
  | ParseError.BadMagic => lit "packet does not start with SMIUSB magic"
  | ParseError.InvalidRequestLength declared actual =>
      lit "request declares " ++ dec declared ++ lit " bytes but has " ++ dec actual
  | ParseError.InvalidRequestClass class => lit "unsupported request class " ++ alt_hex 0 class
  end.

#[export] Instance Display_FrameParseError : Display FrameParseError := fun e =>
  match e with
  | InvalidMaxPacketSize actual =>
      lit "unsupported bulk max-packet size " ++ dec actual ++ lit "; expected 512 or 1024"
  | TooShort actual minimum =>
      lit "frame is " ++ dec actual ++ lit " bytes; need at least " ++ dec minimum
  | BadMagic => lit "frame does not start with SMIUSB magic"
  | DeclaredLengthDoesNotFit declared =>
      lit "declared frame length " ++ dec declared ++ lit " does not fit this platform"
  | DeclaredLengthMismatch declared actual =>
      lit "frame declares " ++ dec declared ++ lit " bytes but capture has " ++ dec actual
  | InvalidSignature actual =>
      lit "invalid SM768 frame signature " ++ alt_hex 10 actual ++ lit "; expected "
      ++ alt_hex 10 FRAME_SIGNATURE
  | InvalidFrameType byte20 byte21 =>
      lit "invalid SM768 frame type " ++ alt_hex 4 byte20 ++ lit "/" ++ alt_hex 4 byte21
      ++ lit "; expected " ++ alt_hex 4 FRAME_TYPE ++ lit "/" ++ alt_hex 4 FRAME_SUBTYPE
  | MissingJpegStart => lit "frame payload does not start with JPEG SOI"
  | ExpectedJpegMarker offset byte =>
      lit "expected a JPEG marker at payload offset " ++ dec offset ++ lit ", found "
      ++ alt_hex 4 byte
  | TruncatedJpegMarker offset => lit "truncated JPEG marker at payload offset " ++ dec offset
  | TruncatedJpegSegmentLength offset marker =>
      lit "truncated JPEG " ++ alt_hex 4 marker ++ lit " segment length at payload offset "
      ++ dec offset
  | InvalidJpegSegmentLength offset marker length =>
      lit "invalid JPEG " ++ alt_hex 4 marker ++ lit " segment length " ++ dec length
      ++ lit " at payload offset " ++ dec offset
  | TruncatedJpegSegment offset marker length available =>
      lit "JPEG " ++ alt_hex 4 marker ++ lit " segment at payload offset " ++ dec offset
      ++ lit " declares " ++ dec length ++ lit " bytes but only " ++ dec available
      ++ lit " remain"
  | InvalidJpegScanHeader offset length components =>
      lit "invalid JPEG SOS header at payload offset " ++ dec offset ++ lit ": length="
      ++ dec length ++ lit ", components=" ++ dec components
  | UnexpectedJpegMarker offset marker =>
      lit "unexpected JPEG marker " ++ alt_hex 4 marker ++ lit " at payload offset " ++ dec offset
  | JpegEndBeforeScan offset =>
      lit "JPEG EOI at payload offset " ++ dec offset ++ lit " appears before any scan"
  | MissingJpegEnd => lit "JPEG payload has no structural EOI marker"
  | LengthOverflow => lit "frame layout length overflows this platform"
  | TruncatedDecoderMetadata actual expected =>
      lit "decoder metadata has " ++ dec actual ++ lit " bytes; expected exactly " ++ dec expected
  | PaddingTooLong actual maximum =>
      lit "frame has " ++ dec actual ++ lit " padding bytes; maximum is " ++ dec maximum
  | NonZeroPadding offset value =>
      lit "frame padding byte " ++ dec offset ++ lit " is " ++ alt_hex 4 value
      ++ lit "; expected zero"
  | UnalignedPayload actual expected max_packet_size =>
      lit "post-header payload is " ++ dec actual ++ lit " bytes; expected " ++ dec expected
      ++ lit " for " ++ dec max_packet_size ++ lit "-byte packet alignment"
  end.

#[export] Instance Display_FrameAckParseError : Display FrameAckParseError := fun e =>
  match e with
  | FrameAckParseError.InvalidPacketLength actual expected =>
      lit "frame ACK packet is " ++ dec actual ++ lit " bytes; expected exactly " ++ dec expected
  | FrameAckParseError.BadMagic => lit "frame ACK does not start with SMIUSB magic"
  | FrameAckParseError.InvalidDeclaredLength actual =>
      lit "frame ACK declares " ++ dec actual ++ lit " bytes; expected " ++ dec FRAME_ACK_SIZE
  | FrameAckParseError.InvalidSignature actual =>
      lit "invalid frame ACK signature " ++ alt_hex 10 actual ++ lit "; expected "
      ++ alt_hex 10 FRAME_ACK_SIGNATURE
  end.

(** ** frame.rs *)

#[export] Instance Display_FrameId : Display FrameId := show_id.

#[export] Instance Display_FrameError : Display FrameError := fun e =>
  match e with
  | ZeroDimension => lit "frame dimensions must be non-zero"
  | DimensionTooLarge width height maximum =>
      lit "frame " ++ dec width ++ lit "x" ++ dec height ++ lit " exceeds the " ++ dec maximum
      ++ lit " pixel dimension limit"
  | SizeOverflow => lit "frame byte size overflows this platform"
  | FrameTooLarge bytes maximum =>
      lit "frame requires " ++ dec bytes ++ lit " bytes; safety limit is " ++ dec maximum
  | PixelLength expected actual =>
      lit "BGRx buffer has " ++ dec actual ++ lit " bytes; expected exactly " ++ dec expected
  | InconsistentLayout => lit "BGRx frame layout is inconsistent"
  | AllocationFailed bytes => lit "cannot allocate " ++ dec bytes ++ lit " bytes for BGRx frame"
  end.

#[export] Instance Display_GenerationMismatch : Display GenerationMismatch := fun e =>
  lit "stale work from generation " ++ dec (mismatch_received e)
  ++ lit "; active generation is " ++ dec (mismatch_active e).

#[export] Instance Display_PipelineError : Display PipelineError := fun e =>
  match e with
  | ZeroCapacity => lit "frame queue capacity must be non-zero"
  | GenerationNotIncreasing active requested =>
      lit "generation must increase (active " ++ dec active ++ lit ", requested "
      ++ dec requested ++ lit ")"
  end.

(** ** The standard library *)

#[export] Instance Display_Utf8Error : Display Utf8Error := fun e =>
  match error_len e with
  | Some n =>
      lit "invalid utf-8 sequence of " ++ dec n ++ lit " bytes from index " ++ dec (valid_up_to e)
  | None => lit "incomplete utf-8 byte sequence from index " ++ dec (valid_up_to e)
  end.

#[export] Instance Display_TryReserveError : Display TryReserveError := fun e =>
  lit "memory allocation failed because "
  ++ match e with
     | CapacityOverflow => lit "the computed capacity exceeded the collection's maximum"
     | AllocError => lit "the memory allocator returned an error"
     end.

(** ** Messages keep the error

    A rendered number ends where the text goes on, and it can be read back. *)

(** The value of the digits of a text. *)
Definition text_value (base : Z) (s : list Z) : Z := digits_value base (omap (to_digit base) s).

Lemma omap_digit_chars base ds :
  base <= 16 -> Forall (fun d => 0 <= d < base) ds ->
  omap (to_digit base) (digit_char <$> ds) = ds.
Proof.
  intros Hb. induction 1 as [|d ds Hd _ IH]; [done|]. cbn.
  rewrite to_digit_digit_char by done. by rewrite IH.
Qed.

Lemma text_value_render base n :
  2 <= base <= 16 -> 0 <= n -> text_value base (render base n) = n.
Proof.
  intros Hb Hn. destruct (render_spec base n) as (ds & -> & Hds & Hv & _); [lia|done|].
  unfold text_value. by rewrite omap_digit_chars by (done || lia).
Qed.

Lemma text_value_hex_pad w n : 0 <= n -> text_value 16 (hex_pad w n) = n.
Proof.
  intros Hn. unfold hex_pad. induction (w - length (hex n))%nat as [|k IH]; cbn.
  - apply text_value_render; lia.
  - unfold text_value in *. cbn. unfold digits_value in *. cbn. exact IH.
Qed.

Lemma render_digits base (P : Z -> bool) n :
  2 <= base -> 0 <= n -> (forall d, 0 <= d < base -> P (digit_char d) = true) ->
  Forall (fun c => P c = true) (render base n).
Proof.
  intros Hb Hn HP. destruct (render_spec base n) as (ds & -> & Hds & _); [lia|done|].
  apply Forall_fmap. eapply Forall_weaken; [|exact Hds]. intros d Hd. by apply HP.
Qed.

Lemma hex_pad_digits w n : 0 <= n -> Forall (fun c => is_ascii_hexdigit c = true) (hex_pad w n).
Proof.
  intros Hn. apply Forall_app. split; [by apply Forall_replicate|].
  apply render_digits; [lia|done|]. intros. by apply digit_char_is_hexdigit.
Qed.

(** The text goes on with a character outside the class, or ends. *)
Definition separated (P : Z -> bool) (s : list Z) : Prop :=
  match s with [] => True | c :: _ => P c = false end.

Lemma token_inj (P : Z -> bool) s1 s2 r1 r2 :
  Forall (fun c => P c = true) s1 -> Forall (fun c => P c = true) s2 ->
  separated P r1 -> separated P r2 -> s1 ++ r1 = s2 ++ r2 -> s1 = s2 /\ r1 = r2.
Proof.
  intros H1. revert s2. induction H1 as [|c s1 Hc _ IH]; intros s2 H2 Hr1 Hr2 H.
  - destruct H2 as [|c s2 Hc _]; [done|]. cbn in H. subst r1. cbn in Hr1. congruence.
  - destruct H2 as [|c' s2 Hc' H2]; cbn in H.
    + subst r2. cbn in Hr2. congruence.
    + injection H as <- H. destruct (IH s2 H2 Hr1 Hr2 H) as [-> ->]. done.
Qed.

Lemma dec_inj x y r1 r2 :
  0 <= x -> 0 <= y -> separated is_ascii_digit r1 -> separated is_ascii_digit r2 ->
  dec x ++ r1 = dec y ++ r2 -> x = y /\ r1 = r2.
Proof.
  intros Hx Hy Hr1 Hr2 H.
  destruct (token_inj is_ascii_digit _ _ _ _ (proj1 (dec_chars x Hx)) (proj1 (dec_chars y Hy))
    Hr1 Hr2 H) as [He ->].
  apply (f_equal (text_value 10)) in He. unfold dec in He. by rewrite !text_value_render in He by lia.
Qed.

Lemma dec_head x r c s : 0 <= x -> dec x ++ r = c :: s -> is_ascii_digit c = true.
Proof.
  intros Hx H. destruct (dec_chars x Hx) as [Hd Hl]. destruct (dec x) as [|c' ds]; [done|].
  injection H as <- _. by apply Forall_cons_1 in Hd as [Hd _].
Qed.

Lemma alt_hex_inj w x y r1 r2 :
  0 <= x -> 0 <= y -> separated is_ascii_hexdigit r1 -> separated is_ascii_hexdigit r2 ->
  alt_hex w x ++ r1 = alt_hex w y ++ r2 -> x = y /\ r1 = r2.
Proof.
  intros Hx Hy Hr1 Hr2 H. unfold alt_hex in H. rewrite <- !app_assoc in H. apply app_inv_head in H.
  destruct (token_inj is_ascii_hexdigit _ _ _ _ (hex_pad_digits (w - 2) x Hx)
    (hex_pad_digits (w - 2) y Hy) Hr1 Hr2 H) as [He ->].
  apply (f_equal (text_value 16)) in He. by rewrite !text_value_hex_pad in He.
Qed.

(** Read the fields of two equal messages off, one after the other. *)
Ltac read_fields H :=
  repeat match type of H with
  | ?t = ?t => fail 1
  | lit ?s ++ _ = lit ?s ++ _ => apply app_inv_head in H
  | alt_hex ?w ?x ++ _ = alt_hex ?w ?x ++ _ => apply app_inv_head in H
  | dec ?x ++ _ = dec ?x ++ _ => apply app_inv_head in H
  | dec _ ++ _ = dec _ ++ _ =>
      apply dec_inj in H; [destruct H as [? H]|by auto|by auto|exact eq_refl|exact eq_refl]
  | alt_hex _ _ ++ _ = alt_hex _ _ ++ _ =>
      apply alt_hex_inj in H; [destruct H as [? H]|by auto|by auto|exact eq_refl|exact eq_refl]
  | dec ?x = dec ?y =>
      rewrite <- (app_nil_r (dec x)), <- (app_nil_r (dec y)) in H;
      apply dec_inj in H; [destruct H as [? _]|by auto|by auto|exact I|exact I]
  | alt_hex ?w ?x = alt_hex ?w ?y =>
      rewrite <- (app_nil_r (alt_hex w x)), <- (app_nil_r (alt_hex w y)) in H;
      apply alt_hex_inj in H; [destruct H as [? _]|by auto|by auto|exact I|exact I]
  end.

(** The numbers of a value. *)
Class Fields (A : Type) := fields : A -> list Z.

(** A displayed type whose messages determine the value, for values whose
    numbers are not negative. *)
Class Lossless (A : Type) `{Display A} `{Fields A} :=
  display_inj : forall a b, Forall (Z.le 0) (fields a) -> Forall (Z.le 0) (fields b) ->
    display a = display b -> a = b.

#[export] Instance Fields_BuildError : Fields BuildError := fun e =>
  match e with ClientTagTooLong a b => [a; b] end.

#[export] Instance Fields_ParseError : Fields ParseError := fun e =>
  match e with
  | ParseError.TooShort a b | ParseError.InvalidRequestLength a b => [a; b]
  | ParseError.BadMagic => []
  | ParseError.InvalidRequestClass a => [a]
  end.

#[export] Instance Fields_FrameParseError : Fields FrameParseError := fun e =>
  match e with
  | InvalidMaxPacketSize a | DeclaredLengthDoesNotFit a | InvalidSignature a
  | TruncatedJpegMarker a | JpegEndBeforeScan a => [a]
  | TooShort a b | DeclaredLengthMismatch a b | InvalidFrameType a b | ExpectedJpegMarker a b
  | TruncatedJpegSegmentLength a b | UnexpectedJpegMarker a b | TruncatedDecoderMetadata a b
  | PaddingTooLong a b | NonZeroPadding a b => [a; b]
  | InvalidJpegSegmentLength a b c | InvalidJpegScanHeader a b c | UnalignedPayload a b c =>
      [a; b; c]
  | TruncatedJpegSegment a b c d => [a; b; c; d]
  | BadMagic | MissingJpegStart | MissingJpegEnd | LengthOverflow => []
  end.

#[export] Instance Fields_FrameAckParseError : Fields FrameAckParseError := fun e =>
  match e with
  | FrameAckParseError.InvalidPacketLength a b => [a; b]
  | FrameAckParseError.BadMagic => []
  | FrameAckParseError.InvalidDeclaredLength a | FrameAckParseError.InvalidSignature a => [a]
  end.

#[export] Instance Fields_FrameId : Fields FrameId := fun id =>
  [Frame.generation id; Frame.sequence id].

#[export] Instance Fields_FrameError : Fields FrameError := fun e =>
  match e with
  | ZeroDimension | SizeOverflow | InconsistentLayout => []
  | DimensionTooLarge a b c => [a; b; c]
  | FrameTooLarge a b | PixelLength a b => [a; b]
  | AllocationFailed a => [a]
  end.

#[export] Instance Fields_GenerationMismatch : Fields GenerationMismatch := fun e =>
  [mismatch_active e; mismatch_received e].

#[export] Instance Fields_PipelineError : Fields PipelineError := fun e =>
  match e with ZeroCapacity => [] | GenerationNotIncreasing a b => [a; b] end.

#[local] Arguments dec : simpl never.
#[local] Arguments hex_pad : simpl never.

(** Two values: with different constructors the literal texts differ, or one has
    a letter where the other has a number; with the same one their fields are
    read off their messages. *)
Ltac solve_lossless :=
  let Ha := fresh "Ha" in let Hb := fresh "Hb" in let H := fresh "H" in
  intros [] [] Ha Hb H;
  first
    [ reflexivity
    | exfalso; cbv [display Display_BuildError Display_ParseError Display_FrameParseError
        Display_FrameAckParseError Display_FrameError Display_PipelineError alt_hex] in H;
      cbn in H; discriminate H
    | exfalso; cbn in Ha, Hb;
      repeat match goal with
        | F : Forall _ (_ :: _) |- _ => apply Forall_cons_1 in F as [? F] end;
      cbv [display Display_FrameError] in H; cbn in H; repeat (injection H as H);
      first [apply dec_head in H | symmetry in H; apply dec_head in H]; [discriminate H|by auto]
    | cbv [fields Fields_BuildError Fields_ParseError Fields_FrameParseError
        Fields_FrameAckParseError Fields_FrameId Fields_FrameError Fields_GenerationMismatch
        Fields_PipelineError] in Ha, Hb; cbn in Ha, Hb;
      repeat match goal with
        | F : Forall _ (_ :: _) |- _ => apply Forall_cons_1 in F as [? F] end;
      cbv [display Display_BuildError Display_ParseError Display_FrameParseError
        Display_FrameAckParseError Display_FrameId Display_FrameError Display_GenerationMismatch
        Display_PipelineError show_id Frame.generation Frame.sequence mismatch_active
        mismatch_received] in H;
      read_fields H; congruence ].

#[export] Instance Lossless_BuildError : Lossless BuildError.
Proof. solve_lossless. Qed.
#[export] Instance Lossless_ParseError : Lossless ParseError.
Proof. solve_lossless. Qed.
#[export] Instance Lossless_FrameAckParseError : Lossless FrameAckParseError.
Proof. solve_lossless. Qed.
#[export] Instance Lossless_FrameId : Lossless FrameId.
Proof. solve_lossless. Qed.
#[export] Instance Lossless_FrameError : Lossless FrameError.
Proof. solve_lossless. Qed.
#[export] Instance Lossless_GenerationMismatch : Lossless GenerationMismatch.
Proof. solve_lossless. Qed.
#[export] Instance Lossless_PipelineError : Lossless PipelineError.
Proof. solve_lossless. Qed.
#[export] Instance Lossless_FrameParseError : Lossless FrameParseError.
Proof. solve_lossless. Qed.

(** ** main.rs, jpeg.rs, usb.rs and screencast.rs *)

Definition usage_text : list Z :=
  lit "usage: smiusbd-rs --observe [--duration SECONDS]" ++ [10]
  ++ lit "       smiusbd-rs --decode-hex HEX" ++ [10]
  ++ lit "       smiusbd-rs --decode-hex-file PATH|-" ++ [10]
  ++ lit "       smiusbd-rs --protocol-info" ++ [10]
  ++ lit "       smiusbd-rs --pattern WIDTHxHEIGHT [--frames COUNT] [--queue CAPACITY]" ++ [10]
  ++ lit "       smiusbd-rs --encode-plan WIDTHxHEIGHT [--frames COUNT] [--queue CAPACITY] [--quality 1..100]"
  ++ [10] ++ lit "       smiusbd-rs --screen-cast-version".

Section messages.
Context `{UnicodeTables}.

Definition Display_CliError : Display CliError :=
  fix text (e : CliError) : list Z :=
  match e with
  | InvalidHexDigit c => lit "invalid hex digit: " ++ debug_char c
  | OddHexDigits => lit "hex input must contain an even number of digits"
  | LimitOverflow => lit "hex text byte limit overflows this platform"
  | LimitReaderApi => lit "hex text byte limit does not fit the reader API"
  | CannotRead error => lit "cannot read hex text: " ++ error
  | TextTooLong limit =>
      lit "hex text exceeds the " ++ dec limit ++ lit " byte safety limit (including whitespace)"
  | NotUtf8 error => lit "hex input is not valid UTF-8 text: " ++ display error
  | CannotOpen path error => lit "cannot open " ++ debug_str path ++ lit ": " ++ error
  | CannotInspect path error => lit "cannot inspect " ++ debug_str path ++ lit ": " ++ error
  | FileTooLong path length =>
      lit "hex text in " ++ debug_str path ++ lit " is " ++ dec length
      ++ lit " bytes; safety limit is " ++ dec MAX_HEX_TEXT_BYTES
      ++ lit " bytes including whitespace"
  | InFile path error => debug_str path ++ lit ": " ++ text error
  | BadDuration => lit "duration must be a positive integer"
  | Usage => usage_text
  | MissingDimensions => lit "--pattern requires WIDTHxHEIGHT"
  | BadDimensions => lit "pattern dimensions must use WIDTHxHEIGHT"
  | BadWidth => lit "pattern width must be a positive integer"
  | BadHeight => lit "pattern height must be a positive integer"
  | RequiresValue option => option ++ lit " requires a value"
  | BadFrameCount => lit "frame count must be a positive integer"
  | BadQueueCapacity => lit "queue capacity must be a positive integer"
  | BadQuality => lit "JPEG quality must be an integer from 1 to 100"
  | DuplicateOption option => lit "duplicate option: " ++ option
  | UnknownOption option => lit "unknown pattern option: " ++ option
  | FrameCountRange => lit "frame count must be between 1 and " ++ dec MAX_PATTERN_FRAMES
  | QueueCapacityRange => lit "queue capacity must be between 1 and " ++ dec MAX_QUEUE_CAPACITY
  | QualityOutOfRange => lit "JPEG quality must be between 1 and 100"
  end.

Definition Display_ScreenCastError : Display ScreenCastError := fun e =>
  match e with
  | CannotExecute error => lit "cannot execute gdbus: " ++ error
  | ExitedWith status => lit "gdbus exited with " ++ status
  | GdbusFailed detail => lit "gdbus failed: " ++ detail
  | NonUtf8Output => lit "gdbus returned non-UTF-8 output"
  | UnexpectedResponse output => lit "unexpected gdbus Version response: " ++ debug_str output
  | InvalidVersion value => lit "invalid ScreenCast version value: " ++ debug_str value
  | VersionOutOfRange value => lit "ScreenCast version is out of range: " ++ value
  end.
End messages.

#[export] Existing Instances Display_CliError Display_ScreenCastError.

#[export] Instance Display_JpegError : Display JpegError := fun e =>
  match e with
  | InitFailed message => message
  | QualityRange quality => lit "JPEG quality must be between 1 and 100, got " ++ dec quality
  | InvalidFrame error => lit "refusing invalid frame at JPEG boundary: " ++ display error
  | InvalidJpegLayout error => lit "refusing invalid JPEG layout: " ++ display error
  | InconsistentBgrx => lit "refusing inconsistent BGRx layout at JPEG boundary"
  | WidthAbi => lit "frame width does not fit TurboJPEG ABI"
  | HeightAbi => lit "frame height does not fit TurboJPEG ABI"
  | StrideAbi => lit "frame stride does not fit TurboJPEG ABI"
  | RejectedDimensions message => lit "TurboJPEG rejected output dimensions: " ++ message
  | BufferSizePlatform => lit "TurboJPEG buffer size does not fit this platform"
  | BufferLimit maximum =>
      lit "TurboJPEG requested a " ++ dec maximum ++ lit " byte destination; safety limit is "
      ++ dec MAX_JPEG_BUFFER_BYTES
  | ScratchAllocation error => lit "cannot allocate bounded JPEG buffer: " ++ display error
  | CapacityAbi => lit "JPEG capacity does not fit TurboJPEG ABI"
  | CompressionFailed message => lit "TurboJPEG compression failed: " ++ message
  | PointerChanged => lit "TurboJPEG changed a TJFLAG_NOREALLOC buffer pointer"
  | EncodedSizePlatform => lit "encoded JPEG size does not fit this platform"
  | SizeBeyondBuffer size maximum =>
      lit "TurboJPEG reported " ++ dec size ++ lit " bytes for a " ++ dec maximum
      ++ lit " byte destination"
  | MalformedBoundary => lit "TurboJPEG returned a malformed JPEG boundary"
  | ResultAllocation error => lit "cannot allocate compact JPEG result: " ++ display error
  end.

#[export] Instance Display_SimError : Display SimError := fun e =>
  match e with
  | InvalidPatternLayout e => lit "invalid pattern layout: " ++ display e
  | WorkOverflow => lit "pattern workload size overflow"
  | WorkLimit total_work =>
      lit "pattern would generate " ++ dec total_work
      ++ lit " bytes; reduce dimensions or frame count below the " ++ dec MAX_PATTERN_WORK_BYTES
      ++ lit " byte safety limit"
  | QueueOverflow => lit "pattern queue size overflow"
  | QueueLimit resident_bytes =>
      lit "pattern queue could retain " ++ dec resident_bytes
      ++ lit " bytes; reduce dimensions or queue capacity"
  | PipelineFailed e => display e
  | PatternFailed e => lit "cannot generate test pattern: " ++ display e
  | RejectedFrame unexpected =>
      lit "offline pipeline rejected generated frame: " ++ debug_outcome unexpected
  | EncoderInit e => lit "cannot initialize offline JPEG encoder: " ++ display e
  | EncodeFailed id e => lit "cannot encode frame " ++ display id ++ lit ": " ++ display e
  | StaleSink e => lit "dropping encoded frame before sink: " ++ display e
  end.

#[export] Instance Display_DecodeError : Display DecodeError := fun e =>
  match e with
  | HeaderError e | ModesError e => display e
  | EnvelopeError e => display e
  | AckError e => display e
  end.

Section usb_messages.
(** [libusb_error_name] *)
Variable names : Z -> option (list Z).

Definition display_usb (e : UsbError) : list Z :=
  match e with
  | LibusbError code => error_name names code
  | NullContext => lit "libusb_init returned a null context"
  | NullDeviceList => lit "libusb returned a null device list"
  end.

Definition display_observe (e : ObserveError) : list Z :=
  match e with
  | UsbFailed e => display_usb e
  | DurationTooLarge => lit "duration is too large for this platform"
  end.
End usb_messages.

(** ** Theorem *)

(** C18 No error is lost in its message.  For every error type that implements
    [Display], and for [FrameId], the text determines the value: two values with
    the same text are equal, in the constructor and in every number it carries,
    decimal or padded hexadecimal. *)
Theorem display_lossless :
  Lossless FrameParseError /\ Lossless ParseError /\ Lossless FrameAckParseError
  /\ Lossless BuildError /\ Lossless FrameError /\ Lossless PipelineError
  /\ Lossless GenerationMismatch /\ Lossless FrameId.
Proof. split_and!; apply _. Qed.

(** ** Examples *)

(** The messages that the unit tests of protocol.rs expect. *)
Example display_length :
  display (FrameAckParseError.InvalidPacketLength 23 FRAME_ACK_SIZE)
  = lit "frame ACK packet is 23 bytes; expected exactly 1024".
Proof. vm_compute. reflexivity. Qed.

Example display_signature :
  display (FrameAckParseError.InvalidSignature 0xdeadbeef)
  = lit "invalid frame ACK signature 0xdeadbeef; expected 0x010001e9".
Proof. vm_compute. reflexivity. Qed.

(** The ASCII part of the Unicode tables. *)
#[export] Instance ascii_tables : UnicodeTables := {|
  grapheme_extended _ := false;
  is_printable c := (32 <=? c) && (c <? 127);
  grapheme_extended_ascii _ _ := eq_refl;
  is_printable_ascii _ _ := eq_refl;
|}.

Example display_bad_digit :
  display (InFile (lit "a b") (InvalidHexDigit 0x7f)) =
  [34] ++ lit "a b" ++ [34] ++ lit ": invalid hex digit: '\u{7f}'".
Proof. vm_compute. reflexivity. Qed.
