(* ===== verification/Signals.v ===== *)
(** * Signals: stopping the observer

    Models [STOP_REQUESTED], [request_stop] and [install_signal_handlers] of
    rust/src/main.rs, and runs [observe] under a schedule of signals: those that
    arrive before the handlers are installed, between the two [signal] calls,
    and before each test of the flag. *)

From S2P Require Import Prelude Text Usb Observe.

Open Scope Z_scope.

Definition SIGINT : Z := 2.
Definition SIGTERM : Z := 15.

(** The signals that can arrive. *)
Inductive stop_signal := Interrupt | Terminate.

Definition number (s : stop_signal) : Z :=
  match s with Interrupt => SIGINT | Terminate => SIGTERM end.

(** The numbers that have [request_stop] as their handler; any other keeps the
    default action of both signals, which ends the process. *)
Record signal_state := {
  handlers : list Z;
  STOP_REQUESTED : bool;
}.

Definition initial_signals : signal_state := {| handlers := []; STOP_REQUESTED := false |}.

(** ** Operations *)

(** The handler; its argument is not used. *)
Definition request_stop (s : signal_state) : signal_state :=
  {| handlers := handlers s; STOP_REQUESTED := true |}.

(** [signal(signal_number, request_stop)] *)
Definition signal (signal_number : Z) (s : signal_state) : signal_state :=
  {| handlers := signal_number :: handlers s; STOP_REQUESTED := STOP_REQUESTED s |}.

(** A signal arrives: its handler runs, or ([None]) the process dies. *)
Definition deliver (s : signal_state) (sig : stop_signal) : option signal_state :=
  if bool_decide (number sig ∈ handlers s) then Some (request_stop s) else None.

Definition deliver_all : signal_state -> list stop_signal -> option signal_state :=
  run_protocol deliver.

(** [install_signal_handlers], with the signals that arrive between its two
    calls. *)
Definition install_signal_handlers (between : list stop_signal) (s : signal_state)
    : option signal_state :=
  signal SIGTERM <$> deliver_all (signal SIGINT s) between.

(** A turn of the loop with the signals that arrive before its test. *)
Record turn := {
  arrived : list stop_signal;
  late : bool;
  listing : usb_list;
}.

(** What the tests of the loop condition see. *)
Fixpoint polls_of (s : signal_state) (turns : list turn) : list poll :=
  match turns with
  | [] => []
  | t :: turns =>
      match deliver_all s (arrived t) with
      | None => []
      | Some s =>
          {| stop_requested := STOP_REQUESTED s; deadline_passed := late t;
             enumeration := listing t |} :: polls_of s turns
      end
  end.

Record schedule := {
  before : list stop_signal;
  between : list stop_signal;
  turns : list turn;
}.

Inductive observed_process :=
| Killed
| Ran (run : io observer_event ObserveError (Observe.status * observer)).

(** [observe] as the process runs it: the context, the handlers, the loop. *)
Definition observe_process {A} (context : Z * option A) (deadline : Z -> bool)
    (duration : option Z) (sch : schedule) : observed_process :=
  match deliver_all initial_signals (before sch) with
  | None => Killed
  | Some s =>
      match (UsbContext_new context.1 context.2).2 with
      | Ok _ =>
          match install_signal_handlers (between sch) s with
          | None => Killed
          | Some s => Ran (observe context deadline duration (polls_of s (turns sch)))
          end
      | _ => Ran (observe context deadline duration [])
      end
  end.

(** ** Lemmas *)

(** Both handlers are installed. *)
Definition installed (s : signal_state) : Prop := forall sig, number sig ∈ handlers s.

Lemma deliver_handled s sig : number sig ∈ handlers s -> deliver s sig = Some (request_stop s).
Proof. intros Hs. unfold deliver. by rewrite bool_decide_true. Qed.

Lemma deliver_default s sig : number sig ∉ handlers s -> deliver s sig = None.
Proof. intros Hs. unfold deliver. by rewrite bool_decide_false. Qed.

Lemma deliver_all_installed s sigs :
  installed s ->
  exists s', deliver_all s sigs = Some s' /\ installed s'
    /\ STOP_REQUESTED s' = STOP_REQUESTED s || negb (bool_decide (sigs = [])).
Proof.
  revert s. induction sigs as [|sig sigs IH]; intros s Hs.
  - exists s. rewrite orb_false_r. done.
  - unfold deliver_all. cbn [run_protocol]. rewrite (deliver_handled s sig) by apply Hs.
    cbn [mbind option_bind].
    destruct (IH (request_stop s) Hs) as (s' & H1 & H2 & H3). exists s'. split_and!; [done|done|].
    rewrite H3. cbn. by rewrite orb_true_r.
Qed.

(** The flag as the tests see it: set exactly when a signal has arrived. *)
Fixpoint flagged (stop : bool) (turns : list turn) : list poll :=
  match turns with
  | [] => []
  | t :: turns =>
      let stop := stop || negb (bool_decide (arrived t = [])) in
      {| stop_requested := stop; deadline_passed := late t; enumeration := listing t |}
      :: flagged stop turns
  end.

Lemma polls_of_eq turns : forall s,
  installed s -> polls_of s turns = flagged (STOP_REQUESTED s) turns.
Proof.
  induction turns as [|t turns IH]; intros s Hs; [done|]. cbn.
  destruct (deliver_all_installed s (arrived t) Hs) as (s' & -> & Hs' & Hf).
  by rewrite IH, Hf.
Qed.

Lemma flagged_app stop a b :
  Forall (fun t => arrived t = []) a -> flagged stop (a ++ b) = flagged stop a ++ flagged stop b.
Proof.
  intros Ha. induction Ha as [|t a Ht _ IH]; [done|]. cbn. rewrite Ht. cbn.
  by rewrite orb_false_r, IH.
Qed.

(** The loop ends at the first poll that sees the flag. *)
Lemma loop_stop has_deadline ps p rest : forall o,
  stop_requested p = true ->
  observe_loop has_deadline o (ps ++ p :: rest) =
    let '(es, r) := observe_loop has_deadline o ps in
    (es, match r with Ok (Running, o) => Ok (Finished, o) | _ => r end).
Proof.
  induction ps as [|q ps IH]; intros o Hp; cbn [app observe_loop].
  - by rewrite Hp.
  - case_test; [|done]. destruct (observe_turn o q) as [es [o'|e| |]]; try done. cbn [io_bind].
    rewrite IH by done. by destruct (observe_loop has_deadline o' ps) as [es' r].
Qed.

(** A run that would go on, stopped: it has closed its context. *)
Definition stopped (m : io observer_event ObserveError (Observe.status * observer)) :=
  match m.2 with
  | Ok (Running, o) => (m.1 ++ (Libusb <$> UsbContext_drop), Ok (Finished, o))
  | _ => m
  end.

Lemma observe_stop {A} (context : Z * option A) deadline duration ps p rest :
  stop_requested p = true ->
  observe context deadline duration (ps ++ p :: rest)
  = stopped (observe context deadline duration ps).
Proof.
  intros Hp. unfold observe, stopped.
  destruct (io_map _ _ _) as [es [raw|e| |]]; try done. cbn [io_bind].
  assert (Hloop : forall d o, drop_context (observe_loop d o (ps ++ p :: rest))
    = stopped (drop_context (observe_loop d o ps))).
  { intros d o. rewrite loop_stop by done. destruct (observe_loop d o ps) as [es' r].
    by destruct r as [[[] o']|e| |]. }
  destruct duration as [d|].
  - destruct (deadline d); [|done]. rewrite Hloop. unfold stopped.
    destruct (drop_context _) as [es' [[[] o']|e| |]]; cbn; try done. by rewrite app_assoc.
  - rewrite Hloop. unfold stopped.
    destruct (drop_context _) as [es' [[[] o']|e| |]]; cbn; try done. by rewrite app_assoc.
Qed.

Lemma deliver_initial sigs : deliver_all initial_signals sigs = None <-> sigs <> [].
Proof. destruct sigs as [|[] sigs]; cbn; naive_solver. Qed.

(** Between the two calls only an interrupt is handled. *)
Lemma deliver_between sigs : forall s,
  handlers s = [SIGINT] -> deliver_all s sigs = None <-> Terminate ∈ sigs.
Proof.
  induction sigs as [|sig sigs IH]; intros s Hs.
  - cbn. split; [done|]. by intros ?%elem_of_nil.
  - rewrite elem_of_cons. unfold deliver_all. cbn [run_protocol].
    destruct sig.
    + rewrite deliver_handled by by rewrite Hs; apply elem_of_cons; left. cbn [mbind option_bind].
      etransitivity; [by apply (IH (request_stop s))|]. naive_solver.
    + rewrite deliver_default by (by rewrite Hs, elem_of_cons, elem_of_nil; intros [|]). naive_solver.
Qed.

(** ** Theorems *)

(** C17 A signal stops the observer in an orderly way.  Without signals before the
    handlers are installed, the process is not killed, and when signals arrive
    before some test of the loop condition, the observer ends at exactly that
    test: what it has done is what it would have done over the turns before,
    followed by closing the libusb context, and it ends successfully unless it
    had ended before.  Nothing behind that test, further signals included, has
    an effect. *)
Theorem signal_stops_observer {A} (context : Z * option A) deadline duration quiet t rest :
  Forall (fun t => arrived t = []) quiet -> arrived t <> [] ->
  observe_process context deadline duration
    {| before := []; between := []; turns := quiet ++ t :: rest |}
  = Ran (stopped (observe context deadline duration (flagged false quiet)))
  /\ observe_process context deadline duration
       {| before := []; between := []; turns := quiet |}
     = Ran (observe context deadline duration (flagged false quiet))
  /\ Forall (fun p => stop_requested p = false) (flagged false quiet).
Proof.
  intros Hq Ht. unfold observe_process. cbn [before deliver_all run_protocol between turns].
  assert (Hpolls : forall ts, polls_of (signal SIGTERM (signal SIGINT initial_signals)) ts
    = flagged false ts).
  { intros ts. apply polls_of_eq. intros []; by repeat (apply elem_of_cons; (by left) || right). }
  assert (Hquiet : Forall (fun p => stop_requested p = false) (flagged false quiet)).
  { clear -Hq. induction Hq as [|t ts Ht _ IH]; [done|]. cbn. rewrite Ht. by constructor. }
  change (deliver_all initial_signals []) with (Some initial_signals). cbn iota.
  change (install_signal_handlers [] initial_signals)
    with (Some (signal SIGTERM (signal SIGINT initial_signals))). cbn iota.
  rewrite !Hpolls, flagged_app by done. cbn [flagged].
  rewrite observe_stop by (cbn; by rewrite bool_decide_false). split_and!; [| |done].
  - destruct (UsbContext_new context.1 context.2) as [es [raw|e| |]] eqn:E; cbn [snd]; [done|..];
      unfold observe, io_map; by rewrite E.
  - destruct (UsbContext_new context.1 context.2) as [es [raw|e| |]] eqn:E; cbn [snd]; [done|..];
      unfold observe, io_map; by rewrite E.
Qed.

(** The only way to be killed is a signal whose handler is not installed yet. *)
Theorem killed_iff {A} (context : Z * option A) deadline duration sch :
  observe_process context deadline duration sch = Killed <->
  before sch <> []
  \/ Terminate ∈ between sch /\ exists raw, (UsbContext_new context.1 context.2).2 = Ok raw.
Proof.
  unfold observe_process. pose proof (deliver_initial (before sch)) as Hb.
  destruct (deliver_all initial_signals (before sch)) as [s|] eqn:E; [|naive_solver].
  destruct (before sch) as [|sig sigs]; [|by destruct (proj2 Hb)]. injection E as <-. clear Hb.
  unfold install_signal_handlers.
  pose proof (deliver_between (between sch) (signal SIGINT initial_signals) eq_refl) as Hi.
  destruct ((UsbContext_new context.1 context.2).2) as [raw|e| |];
    [|by split; [|intros [|[_ [? ?]]]]..].
  destruct (deliver_all _ (between sch)); cbn [fmap option_fmap option_map]; naive_solver.
Qed.

(** ** Witness *)

Definition quiet_turns : list turn :=
  [{| arrived := []; late := false; listing := sample_list |};
   {| arrived := []; late := false; listing := sample_list |}].

Lemma signal_stops_observer_witness :
  let t := {| arrived := [Terminate; Interrupt]; late := false; listing := sample_list |} in
  let run := stopped (observe (0, Some tt) (fun _ => true) None (flagged false quiet_turns)) in
  observe_process (0, Some tt) (fun _ => true) None
    {| before := []; between := []; turns := quiet_turns ++ [t; t] |} = Ran run
  /\ len (reports run.1) = 2 /\ last (usb_calls run.1) = Some Exit.
Proof.
  cbv zeta. split; [|split; vm_compute; reflexivity].
  refine (proj1 (signal_stops_observer (0, Some tt) (fun _ => true) None quiet_turns
    {| arrived := [Terminate; Interrupt]; late := false; listing := sample_list |} _ _ _)).
  - by repeat constructor.
  - discriminate.
Defined.
