(* ===== verification/Main.v ===== *)
(** * Main: the whole program

    Models [main] and [print_screen_cast_version] of rust/src/main.rs over an
    explicit environment: the file system and the standard input, libusb, the
    clock and the signals (as polls of the observer), the allocators, [gdbus] and
    the standard streams.  A run of the program is the lines it writes and how it
    ends. *)

From S2P Require Import Prelude Text Wire JpegScan Envelope Modes Frame Pipeline Jpeg Cli.
From S2P Require Import Decode Simulate Screencast Usb Observe Display.

Open Scope Z_scope.




Section program.
Context `{TurboJpeg} `{UnicodeTables}.








(** ** Lemmas *)










(** ** Theorem *)




End program.

(** ** Witness *)



