(* ===== verification/JpegDecode.v ===== *)
(** * JpegDecode: the decompressor of the encoder's tests

    Models [Decompressor] of the tests of rust/src/jpeg.rs, which decodes what the
    encoder wrote.  TurboJPEG's decompression is an interface, as its compression is in
    [Jpeg]: the class [TurboJpegDecompress] has the entry points and what turbojpeg.h
    documents of them.  The calls are recorded, because they are unsafe: the
    destination must have [pitch * height] bytes, and the handle must live. *)

From S2P Require Import Prelude Text Fnv Frame Jpeg.

Open Scope Z_scope.

Definition TJPF_BGRA : Z := 8.

(** ** The library *)

(** What [tjDecompressHeader3] returns and writes through its four pointers. *)
Record tj_header := {
  header_result : Z;
  header_width : Z;
  header_height : Z;
  header_subsampling : Z;
  header_color_space : Z;
}.

(** The arguments of [tjDecompress2]. *)
Record tj_decode := {
  dec_jpeg : list Z;
  dec_size : Z;
  dec_destination : list Z;
  dec_width : Z;
  dec_pitch : Z;
  dec_height : Z;
  dec_format : Z;
  dec_flags : Z;
}.

Definition c_int_range (v : Z) : Prop := - c_int_max - 1 <= v <= c_int_max.

Class TurboJpegDecompress := {
  tj_dhandle : Type;
  tjInitDecompress : option tj_dhandle;
  tjDecompressHeader3 : tj_dhandle -> list Z -> Z -> tj_dhandle * tj_header;
  tjDecompress2 : tj_dhandle -> tj_decode -> tj_dhandle * (Z * list Z);
  (** The dimensions are of type [int]. *)
  header_range : forall h b n,
    c_int_range (header_width (tjDecompressHeader3 h b n).2) /\
    c_int_range (header_height (tjDecompressHeader3 h b n).2);
  (** The library writes into the destination and does not resize it. *)
  decode_length : forall h c, len (tjDecompress2 h c).2.2 = len (dec_destination c);
}.

Inductive tjd_event :=
| InitDecompress (handle : bool)
| DecompressHeader3 (jpeg : list Z) (size : Z)
| Decompress2 (call : tj_decode)
| DecompressErrorStr2
| DestroyDecompress.

(** The life of the handle; [None] when a call has none to use, or would lose it. *)
Definition tjd_step (s : tj_state) (e : tjd_event) : option tj_state :=
  match e, s with
  | InitDecompress handle, NoHandle => Some (if handle then Live else NoHandle)
  | DecompressHeader3 _ _, Live | Decompress2 _, Live | DecompressErrorStr2, Live => Some Live
  | DestroyDecompress, Live => Some NoHandle
  | _, _ => None
  end.

Definition tjd_run : tj_state -> list tjd_event -> option tj_state := run_protocol tjd_step.

(** ** Operations *)

Section decompressor.
Context `{Platform} `{TurboJpegDecompress}.

Definition dffi (A : Type) : Type := io tjd_event Empty_set A.

Definition Decompressor_new : dffi tj_dhandle :=
  match tjInitDecompress with
  | None => ([InitDecompress false], Panic)
  | Some h => ([InitDecompress true], Ok h)
  end.

Definition Decompressor_drop (h : tj_dhandle) : list tjd_event := [DestroyDecompress].

(** [x as u32] of a [c_int] *)
Definition as_u32 (v : Z) : Z := v mod 2 ^ 32.

(** A panic where the source unwraps an error. *)
Definition or_panic {E A} (m : exec E A) : exec Empty_set A :=
  match m with Ok a => Ok a | Err _ | Panic => Panic | NoFuel => NoFuel end.

(** [assert_eq!(result, 0, "{}", error_string(Some(self.0)))] *)
Definition assert_success (result : Z) : dffi unit :=
  if result =? 0 then ([], Ok tt) else ([DecompressErrorStr2], Panic).

Definition decode_bgra (h : tj_dhandle) (jpeg : EncodedFrame)
    : dffi (tj_dhandle * (Z * Z * Z * list Z)) :=
  let* jpeg_size := lift (expect (try_from c_ulong_max (len (encoded_bytes jpeg)))) in
  let '(h, header) := tjDecompressHeader3 h (encoded_bytes jpeg) jpeg_size in
  let* _ := emit [DecompressHeader3 (encoded_bytes jpeg) jpeg_size] in
  let* _ := assert_success (header_result header) in
  let width := header_width header in
  let height := header_height header in
  let* layout := lift (or_panic (FrameLayout_new (as_u32 width) (as_u32 height))) in
  let pixels := replicate (Z.to_nat (layout_byte_len layout)) 0 in
  let* pitch := lift (expect (try_from c_int_max (layout_stride layout))) in
  let call :=
    {| dec_jpeg := encoded_bytes jpeg; dec_size := jpeg_size; dec_destination := pixels;
       dec_width := width; dec_pitch := pitch; dec_height := height; dec_format := TJPF_BGRA;
       dec_flags := 0 |} in
  let '(h, (result, pixels)) := tjDecompress2 h call in
  let* _ := emit [Decompress2 call] in
  let* _ := assert_success result in
  lift (Ok (h, (as_u32 width, as_u32 height, header_subsampling header, pixels))).

(** ** Reference definitions *)

(** What turbojpeg.h requires of a call of [tjDecompress2]: the source has the
    announced size, and the destination [height] rows of [pitch] bytes that hold
    [width] pixels each, where the dimensions are those of the header. *)
Definition safe_decode (k : tj_decode) : Prop :=
  dec_size k = len (dec_jpeg k)
  /\ 1 <= dec_width k <= MAX_DIMENSION /\ 1 <= dec_height k <= MAX_DIMENSION
  /\ dec_pitch k = BGRX_BYTES_PER_PIXEL * dec_width k
  /\ len (dec_destination k) = dec_pitch k * dec_height k
  /\ len (dec_destination k) <= MAX_FRAME_BYTES
  /\ dec_format k = TJPF_BGRA.

Definition decode_calls (es : list tjd_event) : list tj_decode :=
  omap (fun e => match e with Decompress2 k => Some k | _ => None end) es.

(** The library reads a header with dimensions in range, and decodes. *)
Definition decodes (h : tj_dhandle) (b : list Z) (w hgt subsampling : Z) (pixels : list Z) : Prop :=
  let header := (tjDecompressHeader3 h b (len b)).2 in
  header_result header = 0 /\ header_width header = w /\ header_height header = hgt
  /\ header_subsampling header = subsampling
  /\ 1 <= w <= MAX_DIMENSION /\ 1 <= hgt <= MAX_DIMENSION /\ 4 * w * hgt <= MAX_FRAME_BYTES
  /\ (tjDecompress2 (tjDecompressHeader3 h b (len b)).1
       {| dec_jpeg := b; dec_size := len b; dec_destination := replicate (Z.to_nat (4 * w * hgt)) 0;
          dec_width := w; dec_pitch := 4 * w; dec_height := hgt; dec_format := TJPF_BGRA;
          dec_flags := 0 |}).2 = (0, pixels).

(** ** Lemmas *)

Lemma as_u32_range v : in_width u32_max (as_u32 v).
Proof. unfold in_width, as_u32, u32_max. pose proof (Z.mod_pos_bound v (2 ^ 32)). lia. Qed.

(** A layout for the cast dimensions exists only for dimensions that were positive. *)
Lemma layout_of_header w h l :
  c_int_range w -> c_int_range h -> FrameLayout_new (as_u32 w) (as_u32 h) = Ok l ->
  as_u32 w = w /\ as_u32 h = h /\ 1 <= w <= MAX_DIMENSION /\ 1 <= h <= MAX_DIMENSION /\
  layout_stride l = 4 * w /\ layout_byte_len l = 4 * w * h /\ 4 * w * h <= MAX_FRAME_BYTES.
Proof.
  intros Hw Hh E. apply FrameLayout_new_Ok in E as (Ew & Eh & Hl); [|apply as_u32_range..].
  destruct Hl as (H1 & H2 & H3 & H4 & H5). rewrite Ew, Eh in *.
  assert (Hcast : forall v, c_int_range v -> 1 <= as_u32 v <= MAX_DIMENSION -> as_u32 v = v).
  { intros v Hv Hb. unfold as_u32, c_int_range, c_int_max, MAX_DIMENSION in *.
    destruct (Z.leb_spec 0 v); [apply Z.mod_small; lia|].
    assert (v mod 2 ^ 32 = v + 2 ^ 32); [|lia].
    symmetry. apply (Z.mod_unique v (2 ^ 32) (-1)); lia. }
  pose proof (Hcast w Hw H1) as Ecw. pose proof (Hcast h Hh H2) as Ech. rewrite Ecw, Ech in *.
  split_and!; try done; try lia.
Qed.

Lemma layout_exists w h :
  1 <= w <= MAX_DIMENSION -> 1 <= h <= MAX_DIMENSION -> 4 * w * h <= MAX_FRAME_BYTES ->
  is_Some (match FrameLayout_new (as_u32 w) (as_u32 h) with Ok l => Some l | _ => None end).
Proof.
  intros Hw Hh Hm. assert (Hcast : forall v, 1 <= v <= MAX_DIMENSION -> as_u32 v = v).
  { unfold MAX_DIMENSION. intros v Hv. apply Z.mod_small. lia. }
  rewrite !Hcast by done. assert (E : FrameLayout_new w h =
    Ok {| layout_width := w; layout_height := h; layout_stride := 4 * w; layout_byte_len := 4 * w * h |}).
  { unfold MAX_DIMENSION in *.
    apply FrameLayout_new_Ok; [unfold in_width, u32_max; lia..|]. unfold layout_ok, MAX_DIMENSION. cbn. lia. }
  by rewrite E.
Qed.

(** The whole of [decode_bgra]: either it stops before the decoding or it makes one
    call, which is safe. *)
Lemma decode_spec h jpeg :
  let '(es, r) := decode_bgra h jpeg in
  tjd_run Live es = Some Live /\ Forall safe_decode (decode_calls es) /\
  match r with
  | Ok (_, (w, hgt, subsampling, pixels)) =>
      len (encoded_bytes jpeg) <= c_ulong_max /\
      decodes h (encoded_bytes jpeg) w hgt subsampling pixels /\ len pixels = 4 * w * hgt
  | Panic =>
      len (encoded_bytes jpeg) <= c_ulong_max ->
      forall w hgt subsampling pixels, ~ decodes h (encoded_bytes jpeg) w hgt subsampling pixels
  | Err _ | NoFuel => False
  end.
Proof.
  unfold decode_bgra, lift, expect, try_from. set (b := encoded_bytes jpeg).
  destruct (Z.leb_spec (len b) c_ulong_max) as [Hb|Hb]; cbn [io_bind];
    [|by split_and!; [|constructor|intros; lia]].
  pose proof (header_range h b (len b)) as [Hw Hh]. unfold decodes.
  destruct (tjDecompressHeader3 h b (len b)) as [h1 hd] eqn:Eh. cbn [fst snd] in *.
  cbn [io_bind emit]. unfold assert_success.
  destruct (Z.eqb_spec (header_result hd) 0) as [Hr|Hr]; cbn [io_bind app];
    [|by split_and!; [|constructor|intros _ w hgt ss px (? & _)]].
  pose proof (layout_exists (header_width hd) (header_height hd)) as Hex.
  pose proof (FrameLayout_new_returns (as_u32 (header_width hd)) (as_u32 (header_height hd))
    (as_u32_range _) (as_u32_range _)) as Hret.
  destruct (FrameLayout_new _ _) as [l|e| |] eqn:El; cbn [or_panic io_bind app]; [| |done|done].
  2: { split_and!; [done|constructor|].
       intros _ w hgt ss px (_ & <- & <- & _ & H1 & H2 & H3 & _). by destruct (Hex H1 H2 H3). }
  apply layout_of_header in El as (Ew & Ehg & H1 & H2 & Hs & Hl & H3); [|done..].
  rewrite Ew, Ehg, Hs, Hl. unfold MAX_DIMENSION in H1. clear Hex Hret.
  rewrite (proj2 (Z.leb_le _ c_int_max)) by (unfold c_int_max; lia). cbn [io_bind].
  set (call := {| dec_jpeg := b |}). pose proof (decode_length h1 call) as Hpx.
  destruct (tjDecompress2 h1 call) as [h2 [result px]] eqn:Ed. cbn [fst snd] in Hpx.
  assert (Hlen : len (dec_destination call) = 4 * header_width hd * header_height hd).
  { cbn. rewrite len_replicate. lia. }
  assert (Hsafe : safe_decode call).
  { unfold safe_decode. rewrite Hlen. cbn. unfold BGRX_BYTES_PER_PIXEL, MAX_DIMENSION in *. split_and!; try done; lia. }
  cbn [io_bind]. destruct (Z.eqb_spec result 0) as [->|Hne]; cbn [io_bind app].
  - split; [done|]. split; [by apply (Forall_singleton safe_decode call)|].
    split; [done|]. split; [|lia]. unfold MAX_DIMENSION in *.
    split_and!; try done; try lia. fold call. by rewrite Ed.
  - split; [done|]. split; [by apply (Forall_singleton safe_decode call)|]. intros _ w hgt ss pixels (_ & <- & <- & _ & _ & _ & _ & E).
    fold call in E. rewrite Ed in E. cbn in E. congruence.
Qed.

(** The whole life of a decompressor that decodes one image, and is dropped however
    that ends. *)
Definition decode_once (jpeg : EncodedFrame) : dffi (Z * Z * Z * list Z) :=
  let* h := Decompressor_new in
  finally (Decompressor_drop h) (
    let* (_, image) := decode_bgra h jpeg in
    lift (Ok image)).

(** The decompressor of the tests is safe, and faithful to the library: the handle is
    created once and destroyed once, also when an assertion fails; each call of
    [tjDecompress2] has a destination of exactly [pitch * height] bytes; and an image
    is returned exactly when the library reads a header with dimensions in range and
    decodes it. *)
Theorem decode_once_correct jpeg :
  let '(es, r) := decode_once jpeg in
  tjd_run NoHandle es = Some NoHandle /\ Forall safe_decode (decode_calls es) /\
  forall w hgt subsampling pixels,
    r = Ok (w, hgt, subsampling, pixels) <->
    len (encoded_bytes jpeg) <= c_ulong_max /\
    exists h, tjInitDecompress = Some h /\ decodes h (encoded_bytes jpeg) w hgt subsampling pixels.
Proof.
  unfold decode_once, Decompressor_new. destruct tjInitDecompress as [h|] eqn:Ei.
  2: { cbn. split_and!; [done|constructor|]. naive_solver. }
  pose proof (decode_spec h jpeg) as Hd. cbn [io_bind]. destruct (decode_bgra h jpeg) as [es r].
  destruct Hd as (Hrun & Hsafe & Hr).
  assert (Hmid : forall es', es' = es \/ es' = es ++ [] ->
    tjd_run NoHandle ([InitDecompress true] ++ es' ++ [DestroyDecompress]) = Some NoHandle /\
    Forall safe_decode (decode_calls ([InitDecompress true] ++ es' ++ [DestroyDecompress]))).
  { intros es' Hes'. assert (es' = es) as -> by (destruct Hes' as [->| ->]; by rewrite ?app_nil_r). split.
    - cbn. unfold tjd_run in Hrun. by rewrite (run_protocol_app _ _ _ _ _ Hrun).
    - unfold decode_calls. cbn. rewrite omap_app. cbn. by rewrite app_nil_r. }
  destruct r as [[h' [[[w hgt] ss] px]]| | |]; try done; unfold finally, lift; cbn [io_bind fst snd].
  - destruct (Hmid (es ++ [])) as [Ha Hb]; [by right|]. split; [exact Ha|]. split; [exact Hb|]. intros w' hgt' ss' px'. split.
    + intros [= <- <- <- <-]. split; [apply Hr|]. exists h. by destruct Hr as (_ & ? & _).
    + intros (_ & h2 & [= <-] & Hdec). destruct Hr as (_ & Hdec2 & _).
      destruct Hdec as (_ & <- & <- & <- & _ & _ & _ & E), Hdec2 as (_ & <- & <- & <- & _ & _ & _ & E2).
      congruence.
  - destruct (Hmid es) as [Ha Hb]; [by left|]. split; [exact Ha|]. split; [exact Hb|]. intros w hgt ss px. split; [done|].
    intros (Hlen & h2 & [= <-] & Hdec). by apply (Hr Hlen) in Hdec.
Qed.
End decompressor.
