(* ===== verification/UnitTests.v ===== *)
(** * UnitTests: the crate's own tests, run on the model

    Transcribes the [#[test]] functions of rust/src/protocol.rs, frame.rs, jpeg.rs,
    usb.rs, screencast.rs and main.rs, one definition per test under its name, with
    the fixtures they share, and evaluates each on the model.  A test is a
    computation that ends with [Ok tt]; a failed assertion, a failed [unwrap] and a
    panic of the code under test all end it with [Panic].

    The tests see a memory that is never exhausted, the Linux platform and, where
    they encode, the library of [Jpeg]'s witnesses; where they decode, a decompressor
    for it.  Left out are the assertions on addresses and on the capacity of a result
    ([as_ptr], [bytes.capacity()]) and the test of [Send] and [Sync], which the
    compiler decides.  The test of an 800 by 100 pattern is proved up to its comparison
    of two checksums over 320,000 pixel bytes each, too many to evaluate in a checked
    proof. *)

From S2P Require Import Prelude Text Wire JpegScan Envelope Modes Fnv Frame Pipeline.
From S2P Require Import Concurrency Jpeg JpegDecode Cli Decode Simulate Screencast Usb Display.

Open Scope Z_scope.

(** ** Assertions *)

Definition test : Type := exec Empty_set unit.

Definition assert (b : bool) : test := if b then Ok tt else Panic.
Definition assert_eq {A} `{EqDecision A} (x y : A) : test := assert (bool_decide (x = y)).
Definition assert_ne {A} `{EqDecision A} (x y : A) : test := assert (negb (bool_decide (x = y))).

(** [Result::unwrap], [Option::unwrap] *)
Definition unwrap {E A} (m : exec E A) : exec Empty_set A :=
  match m with Ok a => Ok a | Err _ | Panic => Panic | NoFuel => NoFuel end.
Definition unwrap_err {E A} (m : exec E A) : exec Empty_set E :=
  match m with Err e => Ok e | Ok _ | Panic => Panic | NoFuel => NoFuel end.

Definition is_ok {E A} (m : exec E A) : bool := match m with Ok _ => true | _ => false end.
Definition is_err {E A} (m : exec E A) : bool := match m with Err _ => true | _ => false end.

(** [for x in xs { body }] *)
Fixpoint for_each {A} (xs : list A) (body : A -> test) : test :=
  match xs with
  | [] => Ok tt
  | x :: xs => let! _ := body x in for_each xs body
  end.

Lemma tests_pass_check (ts : list test) : forallb is_ok ts = true -> Forall (eq (Ok tt)) ts.
Proof.
  intros H. apply Forall_forall. intros t Ht.
  apply list_elem_of_In, (proj1 (forallb_forall _ _) H) in Ht. by destruct t as [[]| | |].
Qed.

(** [s[a..b].fill(v)] *)
Definition fill {E} (s : list Z) (a b v : Z) : exec E (list Z) :=
  copy_from_slice s a b (replicate (Z.to_nat (b - a)) v).

Definition all_bytes (v : Z) (s : list Z) : bool := forallb (Z.eqb v) s.

#[export] Instance exec_eq_dec {E A} `{EqDecision E} `{EqDecision A} : EqDecision (exec E A).
Proof. solve_decision. Defined.
#[export] Instance FrameAck_eq_dec : EqDecision FrameAck.
Proof. solve_decision. Defined.
#[export] Instance WireHeader_eq_dec : EqDecision WireHeader.
Proof. solve_decision. Defined.
#[export] Instance BuildError_eq_dec : EqDecision BuildError.
Proof. solve_decision. Defined.
#[export] Instance ParseError_eq_dec : EqDecision ParseError.
Proof. solve_decision. Defined.
#[export] Instance FrameAckParseError_eq_dec : EqDecision FrameAckParseError.
Proof. solve_decision. Defined.
#[export] Instance FrameParseError_eq_dec : EqDecision FrameParseError.
Proof. solve_decision. Defined.
#[export] Instance FrameEnvelope_eq_dec : EqDecision FrameEnvelope.
Proof. solve_decision. Defined.

(** ** rust/src/protocol.rs *)

Module ProtocolTests.
Import FrameParseError.

Definition synthetic_frame_ack (sequence : Z) : exec Empty_set (list Z) :=
  let packet := replicate (Z.to_nat FRAME_ACK_SIZE) 0xa5 in
  let! packet := copy_from_slice packet 0 (len WIRE_MAGIC) WIRE_MAGIC in
  let! packet := copy_from_slice packet 12 16 (to_le_bytes 4 (as_u32 FRAME_ACK_SIZE)) in
  let! packet := copy_from_slice packet 16 20 (to_le_bytes 4 FRAME_ACK_SIGNATURE) in
  let! packet := slice_set packet 20 sequence in
  fill packet 21 24 0.

Definition frame_with_parts (jpeg : list Z) (decoder_length padding_length : Z)
    : exec Empty_set (list Z) :=
  let total := HEADER_SIZE + len jpeg + decoder_length + padding_length in
  let packet := replicate (Z.to_nat total) 0 in
  let! packet := copy_from_slice packet 0 (len WIRE_MAGIC) WIRE_MAGIC in
  let! declared := expect (try_from u32_max total) in
  let! packet := copy_from_slice packet 12 16 (to_le_bytes 4 declared) in
  let! packet := copy_from_slice packet 16 20 (to_le_bytes 4 FRAME_SIGNATURE) in
  let! packet := slice_set packet 20 FRAME_TYPE in
  let! packet := slice_set packet 21 FRAME_SUBTYPE in
  let! packet := slice_set packet 22 0x89 in
  let! packet := copy_from_slice packet HEADER_SIZE (HEADER_SIZE + len jpeg) jpeg in
  fill packet (HEADER_SIZE + len jpeg) (HEADER_SIZE + len jpeg + decoder_length) 0xa5.

Definition synthetic_frame (max_packet_size : Z) : exec Empty_set (list Z) :=
  let jpeg := synthetic_jpeg in
  let content_length := len jpeg + JPEG_DECODER_METADATA_SIZE in
  let! padded_length := unwrap (align_payload_length content_length max_packet_size) in
  frame_with_parts jpeg JPEG_DECODER_METADATA_SIZE (padded_length - content_length).

Definition parses_observed_frame_ack_fixture : test :=
  let! packet := synthetic_frame_ack 0x89 in
  assert_eq (parse_frame_ack packet)
    (Ok {| ack_sequence := 0x89; unclassified_bytes21_23 := [0; 0; 0] |}).

Definition frame_ack_rejects_every_truncation_and_an_oversized_packet : test :=
  let! packet := synthetic_frame_ack 0x37 in
  let! _ := for_each (seqZ 0 FRAME_ACK_SIZE) (fun actual =>
    let! truncated := slice_to packet actual in
    assert_eq (parse_frame_ack truncated)
      (Err (FrameAckParseError.InvalidPacketLength actual FRAME_ACK_SIZE))) in
  let oversized := packet ++ [0] in
  assert_eq (parse_frame_ack oversized)
    (Err (FrameAckParseError.InvalidPacketLength (FRAME_ACK_SIZE + 1) FRAME_ACK_SIZE)).

Definition frame_ack_rejects_bad_magic_length_and_signature : test :=
  let! bad_magic := synthetic_frame_ack 1 in
  let! b := slice_index bad_magic 0 in
  let! bad_magic := slice_set bad_magic 0 (Z.lxor b 0xff) in
  let! _ := assert_eq (parse_frame_ack bad_magic) (Err FrameAckParseError.BadMagic) in
  let! bad_length := synthetic_frame_ack 2 in
  let! bad_length := copy_from_slice bad_length 12 16 (to_le_bytes 4 512) in
  let! _ := assert_eq (parse_frame_ack bad_length)
    (Err (FrameAckParseError.InvalidDeclaredLength 512)) in
  let! bad_signature := synthetic_frame_ack 3 in
  let! bad_signature := copy_from_slice bad_signature 16 20 (to_le_bytes 4 0xdeadbeef) in
  assert_eq (parse_frame_ack bad_signature)
    (Err (FrameAckParseError.InvalidSignature 0xdeadbeef)).

Definition frame_ack_preserves_unclassified_bytes_without_rejecting_them : test :=
  for_each [21; 22; 23] (fun offset =>
    let! packet := synthetic_frame_ack 0xfe in
    let! packet := slice_set packet offset (Z.lor 0x80 offset) in
    let! ack := unwrap (parse_frame_ack packet) in
    let! _ := assert_eq (ack_sequence ack) 0xfe in
    let! byte := slice_index (unclassified_bytes21_23 ack) (offset - 21) in
    assert_eq byte (Z.lor 0x80 offset)).

Definition frame_ack_errors_have_specific_display_messages : test :=
  let! _ := assert_eq (display (FrameAckParseError.InvalidPacketLength 23 FRAME_ACK_SIZE))
    (lit "frame ACK packet is 23 bytes; expected exactly 1024") in
  assert_eq (display (FrameAckParseError.InvalidSignature 0xdeadbeef))
    (lit "invalid frame ACK signature 0xdeadbeef; expected 0x010001e9").

Definition heartbeat_contains_client_tag_and_zeroes_remaining_tail : test :=
  let! packet := unwrap (build_bulk_heartbeat_request 10346) in
  let! request := unwrap (parse_canonical_command_request packet) in
  let! _ := assert_eq (req_opcode request) 0xec in
  let! before := slice_range packet 21 HEARTBEAT_TAG_OFFSET in
  let! _ := assert (all_bytes 0 before) in
  let! tag := slice_range packet HEARTBEAT_TAG_OFFSET 40 in
  let! _ := assert_eq tag (lit "10346") in
  let! behind := slice_from packet 40 in
  assert (all_bytes 0 behind).

Definition heartbeat_rejects_a_tag_that_cannot_be_nul_terminated : test :=
  let! _ := assert (is_ok (build_bulk_heartbeat_request 99999999)) in
  assert_eq (build_bulk_heartbeat_request 100000000) (Err (ClientTagTooLong 9 8)).

Definition capabilities_request_has_observed_shape : test :=
  let! packet := build_capabilities_request in
  let! _ := assert_eq (len packet) 48 in
  let! request := unwrap (parse_canonical_command_request packet) in
  assert_eq (req_opcode request) 0x65.

Definition parses_observed_mode_table_and_stops_at_zero_row : test :=
  let packet := replicate 96 0 in
  let! packet := copy_from_slice packet 0 12 WIRE_MAGIC in
  let! packet := copy_from_slice packet 12 16 (to_le_bytes 4 32) in
  let! packet := copy_from_slice packet 48 52 (to_le_bytes 4 1600) in
  let! packet := copy_from_slice packet 52 56 (to_le_bytes 4 900) in
  let! packet := copy_from_slice packet 56 60 (to_le_bytes 4 75) in
  let! packet := copy_from_slice packet 60 64 (to_le_bytes 4 32) in
  let! packet := copy_from_slice packet 64 68 (to_le_bytes 4 1280) in
  let! packet := copy_from_slice packet 68 72 (to_le_bytes 4 720) in
  let! packet := copy_from_slice packet 72 76 (to_le_bytes 4 60) in
  let! packet := copy_from_slice packet 76 80 (to_le_bytes 4 16) in
  let! modes := unwrap (parse_observed_modes packet) in
  assert_eq modes
    [{| width := 1600; height := 900; refresh_hz := 75; bits_per_pixel := 32 |};
     {| width := 1280; height := 720; refresh_hz := 60; bits_per_pixel := 16 |}].

Definition rejects_bad_magic_and_inconsistent_request_length : test :=
  let! _ := assert_eq (parse_header (replicate 21 0)) (Err ParseError.BadMagic) in
  let! packet := unwrap (build_bulk_heartbeat_request 1) in
  let! packet := slice_set packet 12 48 in
  assert (match parse_canonical_command_request packet with
          | Err (ParseError.InvalidRequestLength _ _) => true
          | _ => false
          end).

Definition parses_borrowed_superspeed_frame_fixture : test :=
  let! packet := synthetic_frame SUPER_SPEED_MAX_PACKET_SIZE in
  let! frame := unwrap (parse_frame_envelope packet SUPER_SPEED_MAX_PACKET_SIZE) in
  let! _ := assert_eq (env_sequence frame) 0x89 in
  let! _ := assert_eq (unclassified_byte23 frame) 0 in
  let! _ := assert_eq (env_jpeg frame) synthetic_jpeg in
  let! _ := assert_eq (len (decoder_metadata frame)) JPEG_DECODER_METADATA_SIZE in
  let! _ := assert (all_bytes 0xa5 (decoder_metadata frame)) in
  let! _ := assert_eq (len (env_padding frame)) 992 in
  let! _ := assert (all_bytes 0 (env_padding frame)) in
  assert_eq ((len packet - HEADER_SIZE) mod SUPER_SPEED_MAX_PACKET_SIZE) 0.

Definition accepts_high_speed_alignment_explicitly : test :=
  let! packet := synthetic_frame HIGH_SPEED_MAX_PACKET_SIZE in
  let! frame := unwrap (parse_frame_envelope packet HIGH_SPEED_MAX_PACKET_SIZE) in
  let! _ := assert_eq (len (env_jpeg frame)) 32 in
  let! _ := assert_eq (len (env_padding frame)) 480 in
  assert_eq ((len packet - HEADER_SIZE) mod HIGH_SPEED_MAX_PACKET_SIZE) 0.

Definition jpeg_parser_skips_segment_eoi_and_entropy_byte_stuffing : test :=
  let jpeg := synthetic_jpeg in
  let! _ := assert_eq (parse_jpeg_end jpeg) (Ok (len jpeg)) in
  let! segment_eoi := slice_range jpeg 7 9 in
  let! _ := assert_eq segment_eoi [0xff; 0xd9] in
  let! stuffed := slice_range jpeg 23 26 in
  let! _ := assert_eq stuffed [0xff; 0x00; 0xd9] in
  assert_eq (parse_jpeg_end [0xff; 0xd8; 0xff; 0xda; 0x00; 0x02])
    (Err (InvalidJpegScanHeader 2 2 0)).

Definition reports_header_jpeg_and_decoder_truncation_separately : test :=
  let! _ := assert_eq
    (parse_frame_envelope (replicate (Z.to_nat (HEADER_SIZE - 1)) 0) HIGH_SPEED_MAX_PACKET_SIZE)
    (Err (TooShort (HEADER_SIZE - 1) HEADER_SIZE)) in
  let! truncated_marker := frame_with_parts [0xff; 0xd8; 0xff] 0 0 in
  let! _ := assert_eq (parse_frame_envelope truncated_marker HIGH_SPEED_MAX_PACKET_SIZE)
    (Err (TruncatedJpegMarker 2)) in
  let! truncated_metadata :=
    frame_with_parts synthetic_jpeg (JPEG_DECODER_METADATA_SIZE - 1) 0 in
  assert_eq (parse_frame_envelope truncated_metadata HIGH_SPEED_MAX_PACKET_SIZE)
    (Err (TruncatedDecoderMetadata (JPEG_DECODER_METADATA_SIZE - 1) JPEG_DECODER_METADATA_SIZE)).

Definition rejects_declared_length_mismatch_and_checked_length_overflow : test :=
  let! packet := synthetic_frame HIGH_SPEED_MAX_PACKET_SIZE in
  let declared := len packet - 1 in
  let! packet := copy_from_slice packet 12 16 (to_le_bytes 4 (as_u32 declared)) in
  let! _ := assert_eq (parse_frame_envelope packet HIGH_SPEED_MAX_PACKET_SIZE)
    (Err (DeclaredLengthMismatch declared (len packet))) in
  assert_eq (align_payload_length usize_max HIGH_SPEED_MAX_PACKET_SIZE) (Err LengthOverflow).

Definition rejects_nonzero_and_excess_padding : test :=
  let! nonzero := synthetic_frame HIGH_SPEED_MAX_PACKET_SIZE in
  let last := len nonzero - 1 in
  let! nonzero := slice_set nonzero last 0x7f in
  let! _ := assert_eq (parse_frame_envelope nonzero HIGH_SPEED_MAX_PACKET_SIZE)
    (Err (NonZeroPadding 479 0x7f)) in
  let! excessive :=
    frame_with_parts synthetic_jpeg JPEG_DECODER_METADATA_SIZE HIGH_SPEED_MAX_PACKET_SIZE in
  assert_eq (parse_frame_envelope excessive HIGH_SPEED_MAX_PACKET_SIZE)
    (Err (PaddingTooLong HIGH_SPEED_MAX_PACKET_SIZE (HIGH_SPEED_MAX_PACKET_SIZE - 1))).

Definition rejects_unaligned_payload_and_unknown_packet_size : test :=
  let jpeg := synthetic_jpeg in
  let! unaligned := frame_with_parts jpeg JPEG_DECODER_METADATA_SIZE 0 in
  let! _ := assert_eq (parse_frame_envelope unaligned HIGH_SPEED_MAX_PACKET_SIZE)
    (Err (UnalignedPayload (len jpeg + JPEG_DECODER_METADATA_SIZE)
            (HIGH_SPEED_MAX_PACKET_SIZE * 41) HIGH_SPEED_MAX_PACKET_SIZE)) in
  assert_eq (parse_frame_envelope unaligned 64) (Err (InvalidMaxPacketSize 64)).

Definition keeps_observed_sequence_byte_separate_from_unclassified_byte_23 : test :=
  let! packet := synthetic_frame HIGH_SPEED_MAX_PACKET_SIZE in
  let! packet := slice_set packet 23 1 in
  let! frame := unwrap (parse_frame_envelope packet HIGH_SPEED_MAX_PACKET_SIZE) in
  let! _ := assert_eq (env_sequence frame) 0x89 in
  assert_eq (unclassified_byte23 frame) 1.

Definition tests : list test :=
  [parses_observed_frame_ack_fixture;
   frame_ack_rejects_every_truncation_and_an_oversized_packet;
   frame_ack_rejects_bad_magic_length_and_signature;
   frame_ack_preserves_unclassified_bytes_without_rejecting_them;
   frame_ack_errors_have_specific_display_messages;
   heartbeat_contains_client_tag_and_zeroes_remaining_tail;
   heartbeat_rejects_a_tag_that_cannot_be_nul_terminated;
   capabilities_request_has_observed_shape;
   parses_observed_mode_table_and_stops_at_zero_row;
   rejects_bad_magic_and_inconsistent_request_length;
   parses_borrowed_superspeed_frame_fixture;
   accepts_high_speed_alignment_explicitly;
   jpeg_parser_skips_segment_eoi_and_entropy_byte_stuffing;
   reports_header_jpeg_and_decoder_truncation_separately;
   rejects_declared_length_mismatch_and_checked_length_overflow;
   rejects_nonzero_and_excess_padding;
   rejects_unaligned_payload_and_unknown_packet_size;
   keeps_observed_sequence_byte_separate_from_unclassified_byte_23].

(** The tests of the protocol module pass. *)
Theorem protocol_tests_pass : Forall (eq (Ok tt)) tests.
Proof. apply tests_pass_check. vm_compute. reflexivity. Qed.
End ProtocolTests.

(** ** rust/src/frame.rs *)

#[export] Instance FrameError_eq_dec : EqDecision FrameError.
Proof. solve_decision. Defined.
#[export] Instance Frame_eq_dec : EqDecision Frame.
Proof. solve_decision. Defined.
#[export] Instance SubmitOutcome_eq_dec : EqDecision SubmitOutcome.
Proof. solve_decision. Defined.
#[export] Instance PipelineError_eq_dec : EqDecision PipelineError.
Proof. solve_decision. Defined.
#[export] Instance GenerationMismatch_eq_dec : EqDecision GenerationMismatch.
Proof. solve_decision. Defined.

(** An allocator that refuses nothing below [isize::MAX]. *)
Definition memory (_ : Z) : bool := true.

(** [pixels.all(|pixel| pixel[3] == 255)] *)
Fixpoint all_opaque (pixels : list (list Z)) : exec Empty_set bool :=
  match pixels with
  | [] => Ok true
  | pixel :: pixels =>
      let! alpha := slice_index pixel 3 in
      if alpha =? 255 then all_opaque pixels else Ok false
  end.

(** *** The generator's pixels, without running over them *)

(** A sequence of pixels of four bytes, the last of which is 255. *)
Definition opaque_image (s : list Z) : Prop :=
  exists ps, s = concat ps /\ Forall (fun p => exists b g r, p = [b; g; r; 255]) ps.

Lemma opaque_image_app s t : opaque_image s -> opaque_image t -> opaque_image (s ++ t).
Proof.
  intros (ps & -> & Hp) (qs & -> & Hq). exists (ps ++ qs). by rewrite concat_app, Forall_app.
Qed.

Lemma opaque_image_range n i f :
  (forall j, i <= j < i + Z.of_nat n -> opaque_image (f j)) -> opaque_image (concat_range n i f).
Proof.
  revert i. induction n as [|n IH]; intros i Hf; cbn [concat_range]; [by exists []|].
  apply opaque_image_app; [apply Hf; lia|]. apply IH. intros j Hj. apply Hf. lia.
Qed.

Lemma pattern_image_opaque l seq : layout_ok l -> opaque_image (pattern_image l seq).
Proof.
  intros (Hw & Hh & _). apply opaque_image_range. intros y Hy. apply opaque_image_range. intros x Hx.
  unfold pattern_pixel.
  destruct (bar_pixel_spec (x * 8 / layout_width l) (in_square l seq x y)) as (Hl & _ & Ha);
    [apply bar_bounds; lia|].
  destruct (bar_pixel _ _) as [|b [|g [|r [|a [|? ?]]]]]; try done. cbn in Ha. injection Ha as ->.
  exists [[b; g; r; 255]]. split; [done|]. repeat constructor. by exists b, g, r.
Qed.

Lemma chunks_of_image ps :
  Forall (fun p => exists b g r, p = [b; g; r; 255]) ps -> chunks_exact 4 (concat ps) = ps.
Proof.
  induction 1 as [|p ps (b & g & r & ->) _ IH]; [done|]. cbn [concat].
  rewrite chunks_exact_app by (done || lia). by rewrite IH.
Qed.

Lemma all_opaque_image s : opaque_image s -> all_opaque (chunks_exact 4 s) = Ok true.
Proof.
  intros (ps & -> & Hp). rewrite chunks_of_image by done.
  induction Hp as [|p ps (b & g & r & ->) _ IH]; [done|]. exact IH.
Qed.

(** A frame of the generator's. *)
Definition pattern_frame (id : FrameId) (l : FrameLayout) : Frame :=
  {| frame_id := id; frame_layout := l; frame_pixels := pattern_image l (sequence id) |}.

Lemma unwrap_test_pattern id l :
  layout_ok l -> in_width u64_max (sequence id) ->
  unwrap (test_pattern memory id l) = Ok (pattern_frame id l).
Proof. intros. by rewrite test_pattern_eq. Qed.

Lemma bind_step {E A B} (a : A) (m : exec E A) (k : A -> exec E B) r :
  m = Ok a -> k a = r -> exec_bind m k = r.
Proof. by intros -> <-. Qed.

Module FrameTests.

Definition frame (generation sequence : Z) : exec Empty_set Frame :=
  let! layout := unwrap (FrameLayout_new 8 4) in
  unwrap (test_pattern memory {| generation := generation; sequence := sequence |} layout).

Definition layout_and_buffer_lengths_are_checked : test :=
  let! _ := assert_eq (FrameLayout_new 0 1) (Err ZeroDimension) in
  let! _ := assert (match FrameLayout_new (MAX_DIMENSION + 1) 1 with
                    | Err (DimensionTooLarge _ _ _) => true | _ => false end) in
  let! _ := assert (match FrameLayout_new MAX_DIMENSION MAX_DIMENSION with
                    | Err (FrameTooLarge _ _) => true | _ => false end) in
  let! layout := unwrap (FrameLayout_new 2 2) in
  let! _ := assert_eq (layout_stride layout) 8 in
  let! _ := assert (match from_bgrx {| generation := 1; sequence := 0 |} layout (replicate 15 0) with
                    | Err (PixelLength _ _) => true | _ => false end) in
  let inconsistent :=
    {| layout_width := 2; layout_height := 2; layout_stride := 8; layout_byte_len := 1 |} in
  let! _ := assert_eq (FrameLayout_validate inconsistent) (Err InconsistentLayout) in
  let! _ := assert (match from_bgrx {| generation := 1; sequence := 0 |} inconsistent [0] with
                    | Err InconsistentLayout => true | _ => false end) in
  assert_eq (allocate_zeroed memory usize_max) (Err (AllocationFailed usize_max)).

Definition bounded_queue_drops_oldest : test :=
  let! pipeline := unwrap (pipeline_new 2 7) in
  let! f := frame 7 0 in
  let '(pipeline, outcome) := submit pipeline f in
  let! _ := assert_eq outcome Queued in
  let! f := frame 7 1 in
  let '(pipeline, outcome) := submit pipeline f in
  let! _ := assert_eq outcome Queued in
  let! f := frame 7 2 in
  let '(pipeline, outcome) := submit pipeline f in
  let! _ := assert_eq outcome (DroppedOldest {| generation := 7; sequence := 0 |}) in
  let '(pipeline, taken) := try_take pipeline in
  let! taken := expect taken in
  let! _ := assert_eq (sequence (frame_id taken)) 1 in
  let '(pipeline, taken) := try_take pipeline in
  let! taken := expect taken in
  let! _ := assert_eq (sequence (frame_id taken)) 2 in
  let '(pipeline, taken) := try_take pipeline in
  let! _ := assert_eq taken None in
  let stats := snap_stats (snapshot pipeline) in
  let! _ := assert_eq (accepted stats) 3 in
  let! _ := assert_eq (dropped_capacity stats) 1 in
  assert_eq (dequeued stats) 2.

Definition generation_transition_clears_and_rejects_late_frames : test :=
  let! pipeline := unwrap (pipeline_new 2 3) in
  let! f := frame 3 4 in
  let '(pipeline, outcome) := submit pipeline f in
  let! _ := assert_eq outcome Queued in
  let '(pipeline, discarded) := begin_generation pipeline 4 in
  let! discarded := unwrap discarded in
  let! _ := assert_eq discarded 1 in
  let! f := frame 3 5 in
  let '(pipeline, outcome) := submit pipeline f in
  let! _ := assert_eq outcome (RejectedGeneration 4 3) in
  let! f := frame 4 0 in
  let '(pipeline, outcome) := submit pipeline f in
  let! _ := assert_eq outcome Queued in
  let! f := frame 4 0 in
  let '(pipeline, outcome) := submit pipeline f in
  let! _ := assert_eq outcome (RejectedSequence 0 0) in
  let '(pipeline, discarded) := begin_generation pipeline 4 in
  let! _ := assert (match discarded with
                    | Err (GenerationNotIncreasing _ _) => true | _ => false end) in
  let stats := snap_stats (snapshot pipeline) in
  let! _ := assert_eq (discarded_generation stats) 1 in
  let! _ := assert_eq (rejected_generation stats) 1 in
  assert_eq (rejected_sequence stats) 1.

Definition sink_gate_never_runs_for_an_old_generation : test :=
  let! pipeline := unwrap (pipeline_new 1 9) in
  let old_id := {| generation := 9; sequence := 3 |} in
  let '(pipeline, discarded) := begin_generation pipeline 10 in
  let! _ := unwrap discarded in
  let '(pipeline, called, result) :=
    with_current_generation pipeline old_id (fun _ => (true, tt)) false in
  let! _ := assert_eq result (inl {| mismatch_active := 10; mismatch_received := 9 |}) in
  let! _ := assert (negb called) in
  let! _ := assert_eq (rejected_sink_generation (snap_stats (snapshot pipeline))) 1 in
  let current_id := {| generation := 10; sequence := 0 |} in
  let '(pipeline, _, result) :=
    with_current_generation pipeline current_id (fun w => (w, 42)) tt in
  assert_eq result (inr 42).

(** The channels of the test order its two threads: the transition starts once the
    sink was entered, and the sink is released once the transition was seen to be
    blocked.  Thread 0 is the sink, thread 1 the transition. *)
Definition generation_transition_waits_for_atomic_sink_submission : test :=
  let! pipeline := unwrap (pipeline_new 1 2) in
  let id := {| generation := 2; sequence := 0 |} in
  let! (c, _) := expect (crun (initial pipeline 2) [ACall 0 (OpSink id); ALock 0; ARead 0; ABody 0]) in
  let! _ := assert (match c_threads c !! 0%nat with Some (InSink _) => true | _ => false end) in
  let! (c, _) := expect (crun c [ACall 1 (OpBegin 3)]) in
  let! _ := assert (match cstep c (ALock 1) with None => true | Some _ => false end) in
  let! (c, joined) := expect (crun c [ASinkReturns 0; AReturn 0]) in
  let! _ := assert (match joined with
                    | [ESinkReturns 0; EReturn 0 (OpSink _) (RSink (inr tt))] => true
                    | _ => false
                    end) in
  let! (c, joined) := expect (crun c [ALock 1; ARead 1; ABody 1; AReturn 1]) in
  let! _ := assert (match joined with
                    | [_; _; _; EReturn 1 (OpBegin 3) (RBegin (Ok _))] => true | _ => false end) in
  assert_eq (snap_generation (snapshot (c_data c))) 3.

Definition pattern_is_bgrx_and_changes_deterministically : test :=
  let! layout := unwrap (FrameLayout_new 800 100) in
  let! first := unwrap (test_pattern memory {| generation := 1; sequence := 0 |} layout) in
  let! second := unwrap (test_pattern memory {| generation := 1; sequence := 1 |} layout) in
  let yellow_offset := 99 * layout_stride layout + 150 * BGRX_BYTES_PER_PIXEL in
  let! yellow := slice_range (frame_pixels first) yellow_offset (yellow_offset + 4) in
  let! _ := assert_eq yellow [0; 255; 255; 255] in
  let! opaque := all_opaque (chunks_exact 4 (frame_pixels first)) in
  let! _ := assert opaque in
  let! _ := assert_ne (checksum first) (checksum second) in
  assert_eq (checksum first) (checksum first).

Definition tests : list test :=
  [layout_and_buffer_lengths_are_checked; bounded_queue_drops_oldest;
   generation_transition_clears_and_rejects_late_frames;
   sink_gate_never_runs_for_an_old_generation;
   generation_transition_waits_for_atomic_sink_submission].

(** The tests of the frame module pass. *)
Theorem frame_tests_pass : Forall (eq (Ok tt)) tests.
Proof. apply tests_pass_check. vm_compute. reflexivity. Qed.

Lemma compare_values (a b : Z) :
  (let! _ := assert true in let! _ := assert_ne a b in assert_eq a a) = assert_ne a b.
Proof.
  unfold assert_ne, assert_eq. rewrite (bool_decide_true (a = a)) by done. by destruct (bool_decide _).
Qed.

(** The test of the pattern comes down to its comparison of two checksums: the other
    assertions hold. *)
Theorem pattern_test_is_about_checksums :
  let layout :=
    {| layout_width := 800; layout_height := 100; layout_stride := 3200; layout_byte_len := 320000 |} in
  pattern_is_bgrx_and_changes_deterministically =
    assert_ne (checksum (pattern_frame {| generation := 1; sequence := 0 |} layout))
              (checksum (pattern_frame {| generation := 1; sequence := 1 |} layout)).
Proof.
  intros layout. assert (Hl : layout_ok layout) by (vm_compute; intuition discriminate).
  eapply bind_step; [vm_compute; reflexivity|]. fold layout.
  eapply bind_step; [by apply unwrap_test_pattern|]. eapply bind_step; [by apply unwrap_test_pattern|].
  cbv zeta. cbn [frame_pixels pattern_frame sequence].
  pose proof (pattern_image_pixel layout Hl 0 150 99 ltac:(cbn; lia) ltac:(cbn; lia)) as Hy. cbv zeta in Hy.
  apply (bind_step (subslice (pattern_image layout 0) (99 * layout_stride layout + 150 * 4)
    (99 * layout_stride layout + 150 * 4 + 4))).
  { apply slice_range_eq; [cbn; lia|]. rewrite pattern_image_length by done. cbn. lia. }
  rewrite Hy. apply (bind_step tt); [vm_compute; reflexivity|].
  apply (bind_step true); [by apply all_opaque_image, pattern_image_opaque|].
  apply compare_values.
Qed.
End FrameTests.

(** ** rust/src/jpeg.rs *)

Module JpegTests.

(** The encoder's side of [compression_is_deterministic_and_roundtrips_as_422], with
    the library of the witnesses: the first result. *)
Definition compression_is_deterministic (frame : Frame) : exec Empty_set EncodedFrame :=
  let! compressor := unwrap (Compressor_new.2) in
  let '(compressor, _, first) := compress_bgrx toy_grow compressor frame 90 in
  let! first := unwrap first in
  let scratch_capacity_before := scratch_capacity compressor in
  let '(compressor, _, second) := compress_bgrx toy_grow compressor frame 90 in
  let! second := unwrap second in
  let! _ := assert_eq (scratch_capacity compressor) scratch_capacity_before in
  let! _ := assert_eq (encoded_bytes first) (encoded_bytes second) in
  let! _ := assert_eq (EncodedFrame_checksum first) (EncodedFrame_checksum second) in
  let! _ := assert_eq (encoded_id first) (frame_id frame) in
  let! _ := assert_eq (encoded_width first, encoded_height first, encoded_quality first) (96, 64, 90) in
  Ok first.

(** [a.abs_diff(b)] *)
Definition abs_diff (a b : Z) : Z := Z.abs (a - b).

(** The error of a pixel, over the channels [0..3]. *)
Definition pixel_error (source decoded : list Z) : exec Empty_set Z :=
  let! s0 := slice_index source 0 in
  let! d0 := slice_index decoded 0 in
  let! s1 := slice_index source 1 in
  let! d1 := slice_index decoded 1 in
  let! s2 := slice_index source 2 in
  let! d2 := slice_index decoded 2 in
  Ok (abs_diff s0 d0 + abs_diff s1 d1 + abs_diff s2 d2).

(** The sum over the pixels of both images. *)
Fixpoint total_error (source decoded : list (list Z)) : exec Empty_set Z :=
  match source, decoded with
  | s :: source, d :: decoded =>
      let! e := pixel_error s d in
      let! rest := total_error source decoded in
      Ok (e + rest)
  | _, _ => Ok 0
  end.

Definition compression_is_deterministic_and_roundtrips_as_422 `{TurboJpegDecompress} : test :=
  let! layout := unwrap (FrameLayout_new 96 64) in
  let! frame := unwrap (test_pattern memory {| generation := 2; sequence := 7 |} layout) in
  let! first := compression_is_deterministic frame in
  let! (width, height, subsampling, decoded) := (decode_once first).2 in
  let! _ := assert_eq (width, height, subsampling) (96, 64, TJSAMP_422) in
  let! opaque := all_opaque (chunks_exact 4 decoded) in
  let! _ := assert opaque in
  let! total := total_error (chunks_exact 4 (frame_pixels frame)) (chunks_exact 4 decoded) in
  let channel_count := layout_width layout * layout_height layout * 3 in
  assert (total / channel_count <? 35).

(** A decompressor for the library of the witnesses, whose images all stand for the
    frame of the test. *)
Definition test_layout : FrameLayout :=
  {| layout_width := 96; layout_height := 64; layout_stride := 384; layout_byte_len := 24576 |}.

Lemma test_layout_ok : layout_ok test_layout.
Proof. vm_compute. intuition discriminate. Qed.

#[export] Program Instance toy_decompress : TurboJpegDecompress := {|
  tj_dhandle := unit;
  tjInitDecompress := Some tt;
  tjDecompressHeader3 _ _ _ :=
    (tt, {| header_result := 0; header_width := 96; header_height := 64;
            header_subsampling := TJSAMP_422; header_color_space := 1 |});
  tjDecompress2 _ c :=
    if len (dec_destination c) =? 24576 then (tt, (0, pattern_image test_layout 7))
    else (tt, (-1, dec_destination c));
|}.
Next Obligation. intros. vm_compute. intuition discriminate. Qed.
Next Obligation.
  intros h c. cbv beta. case_test as Hc; [|done]. cbn [fst snd].
  rewrite pattern_image_length by apply test_layout_ok. reflect_bool. by rewrite Hc.
Qed.

Definition rejects_invalid_quality_before_ffi : test :=
  let! layout := unwrap (FrameLayout_new 8 8) in
  let! frame := unwrap (test_pattern memory {| generation := 1; sequence := 0 |} layout) in
  let! compressor := unwrap (Compressor_new.2) in
  let '(compressor, _, result) := compress_bgrx toy_grow compressor frame 0 in
  let! _ := assert (is_err result) in
  let '(compressor, _, result) := compress_bgrx toy_grow compressor frame 101 in
  assert (is_err result).

Definition encoded_frame_from_old_generation_is_rejected_before_sink : test :=
  let! pipeline := unwrap (pipeline_new 1 4) in
  let! layout := unwrap (FrameLayout_new 64 48) in
  let! frame := unwrap (test_pattern memory {| generation := 4; sequence := 12 |} layout) in
  let '(pipeline, outcome) := submit pipeline frame in
  let! _ := assert_eq outcome Queued in
  let '(pipeline, taken) := try_take pipeline in
  let! in_flight := expect taken in
  let! compressor := unwrap (Compressor_new.2) in
  let '(compressor, _, encoded) := compress_bgrx toy_grow compressor in_flight 80 in
  let! encoded := unwrap encoded in
  let! _ := assert_eq (encoded_id encoded) (frame_id in_flight) in
  let '(pipeline, discarded) := begin_generation pipeline 5 in
  let! _ := unwrap discarded in
  let '(pipeline, reached_sink, result) :=
    with_current_generation pipeline (encoded_id encoded) (fun _ => (true, tt)) false in
  let! _ := assert_eq result (inl {| mismatch_active := 5; mismatch_received := 4 |}) in
  assert (negb reached_sink).

Definition checksum_matches_known_fnv1a_vectors : test :=
  let! _ := assert_eq (fnv1a64 []) 0xcbf29ce484222325 in
  assert_eq (fnv1a64 (lit "a")) 0xaf63dc4c8601ec8c.

Lemma toy_decodes e :
  len (encoded_bytes e) <= c_ulong_max ->
  (decode_once e).2 = Ok (96, 64, TJSAMP_422, pattern_image test_layout 7).
Proof.
  intros He. pose proof (decode_once_correct e) as Hd. destruct (decode_once e) as [es r].
  destruct Hd as (_ & _ & Hr). apply Hr. split; [done|]. exists tt. split; [done|].
  unfold decodes. cbn [tjDecompressHeader3 toy_decompress fst snd header_result header_width header_height
    header_subsampling tjDecompress2 dec_destination]. rewrite len_replicate.
  split_and!; try done.
Qed.

Lemma total_error_same ps :
  Forall (fun p => exists b g r, p = [b; g; r; 255]) ps -> total_error ps ps = Ok 0.
Proof.
  induction 1 as [|p ps (b & g & r & ->) _ IH]; [done|]. cbn [total_error].
  change (pixel_error [b; g; r; 255] [b; g; r; 255]) with
    (Ok (abs_diff b b + abs_diff g g + abs_diff r r) : exec Empty_set Z).
  assert (Ha : forall a, abs_diff a a = 0) by (unfold abs_diff; lia). by rewrite !Ha, IH.
Qed.

Lemma compression_passes :
  compression_is_deterministic (pattern_frame {| generation := 2; sequence := 7 |} test_layout) =
    Ok {| encoded_id := {| generation := 2; sequence := 7 |}; encoded_bytes := toy_jpeg;
          encoded_width := 96; encoded_height := 64; encoded_quality := 90 |}.
Proof. vm_compute. reflexivity. Qed.

Lemma roundtrip_passes : compression_is_deterministic_and_roundtrips_as_422 = Ok tt.
Proof.
  unfold compression_is_deterministic_and_roundtrips_as_422.
  apply (bind_step test_layout); [vm_compute; reflexivity|].
  eapply bind_step; [by apply unwrap_test_pattern; [apply test_layout_ok|]|].
  eapply bind_step; [apply compression_passes|].
  eapply bind_step; [apply toy_decodes; vm_compute; discriminate|]. cbv beta iota.
  eapply bind_step; [vm_compute; reflexivity|].
  pose proof (pattern_image_opaque test_layout 7 test_layout_ok) as Ho.
  eapply bind_step; [by apply all_opaque_image|]. eapply bind_step; [done|].
  destruct Ho as (ps & E & Hp). cbn [frame_pixels pattern_frame sequence]. rewrite E, chunks_of_image by done.
  eapply bind_step; [by apply total_error_same|]. done.
Qed.

(** The tests of the encoder pass. *)
Theorem jpeg_tests_pass :
  Forall (eq (Ok tt))
    [compression_is_deterministic_and_roundtrips_as_422; rejects_invalid_quality_before_ffi;
     encoded_frame_from_old_generation_is_rejected_before_sink;
     checksum_matches_known_fnv1a_vectors].
Proof.
  repeat (apply Forall_cons; split); [| | | |by constructor]; symmetry.
  - apply roundtrip_passes.
  - vm_compute. reflexivity.
  - eapply bind_step; [vm_compute; reflexivity|].
    apply (bind_step {| layout_width := 64; layout_height := 48; layout_stride := 256;
                      layout_byte_len := 12288 |}); [vm_compute; reflexivity|].
    eapply bind_step; [apply unwrap_test_pattern; vm_compute; intuition discriminate|].
    vm_compute. reflexivity.
  - vm_compute. reflexivity.
Qed.
End JpegTests.

(** ** rust/src/usb.rs *)

Module UsbTests.

(** [#[repr(C)]]: each field at the next multiple of its alignment, the size a
    multiple of the largest. *)
Definition repr_c (fields : list (Z * Z)) : Z * Z :=
  let align := foldr Z.max 1 (snd <$> fields) in
  let end_ := fold_left (fun offset '(size, align) =>
    (offset + align - 1) / align * align + size) fields 0 in
  ((end_ + align - 1) / align * align, align).

(** Size and alignment of the fields of [LibusbDeviceDescriptor]. *)
Definition descriptor_fields : list (Z * Z) :=
  let u8 := (1, 1) in let u16 := (2, 2) in
  [u8; u8; u16; u8; u8; u8; u8; u16; u16; u16; u8; u8; u8; u8].

Definition descriptor_matches_libusb_abi : test :=
  let! _ := assert_eq (repr_c descriptor_fields).1 18 in
  assert_eq (repr_c descriptor_fields).2 2.

Definition speed_values_match_libusb_enum : test :=
  let! _ := assert_eq (Speed_from 3) High in
  let! _ := assert_eq (Speed_from 4) Super in
  let! _ := assert_eq (Speed_from 5) SuperPlus in
  assert_eq (Speed_from 99) (Other 99).

Definition bcd_formatter_preserves_nibbles : test :=
  let! _ := assert_eq (format_bcd 0x0320) (lit "3.20") in
  assert_eq (format_bcd 0x0001) (lit "0.01").

(** The tests of the enumeration pass. *)
Theorem usb_tests_pass :
  Forall (eq (Ok tt))
    [descriptor_matches_libusb_abi; speed_values_match_libusb_enum;
     bcd_formatter_preserves_nibbles].
Proof. apply tests_pass_check. vm_compute. reflexivity. Qed.
End UsbTests.

(** ** rust/src/screencast.rs *)

Module ScreencastTests.

Definition parses_gdbus_variant_formats : test :=
  let! version := unwrap (parse_version_output (lit "(<4>,)" ++ [10])) in
  let! _ := assert_eq version 4 in
  let! version := unwrap (parse_version_output (lit "(<uint32 12>,)")) in
  assert_eq version 12.

Definition rejects_ambiguous_or_out_of_range_versions : test :=
  let! _ := assert (is_err (parse_version_output (lit "(4,)"))) in
  let! _ := assert (is_err (parse_version_output (lit "(<4 extra>,)"))) in
  assert (is_err (parse_version_output (lit "(<4294967296>,)"))).

(** The tests of the ScreenCast probe pass. *)
Theorem screencast_tests_pass :
  Forall (eq (Ok tt))
    [parses_gdbus_variant_formats; rejects_ambiguous_or_out_of_range_versions].
Proof. apply tests_pass_check. vm_compute. reflexivity. Qed.
End ScreencastTests.

(** ** rust/src/main.rs *)

#[export] Instance PatternOptions_eq_dec : EqDecision PatternOptions.
Proof. solve_decision. Defined.
#[export] Instance Command_eq_dec : EqDecision Command.
Proof. solve_decision. Defined.

Module MainTests.

(** [str::contains] *)
Fixpoint contains (s sub : list Z) : bool :=
  starts_with s sub || match s with [] => false | _ :: s => contains s sub end.

Definition parses_observe_duration : test :=
  let! command := unwrap (parse_args [lit "--observe"; lit "--duration"; lit "5"]) in
  assert_eq command (Cli.Observe (Some 5)).

Definition hex_parser_accepts_capture_friendly_separators : test :=
  let! bytes := unwrap (parse_hex (lit "73:6d 69" ++ [10] ++ lit "66")) in
  assert_eq bytes (lit "smif").

Definition rejects_zero_duration_and_odd_hex : test :=
  let! _ := assert (is_err (parse_args [lit "--observe"; lit "--duration"; lit "0"])) in
  assert (is_err (parse_hex (lit "abc"))).

Definition hex_parser_rejects_non_ascii_without_panicking : test :=
  assert (is_err (parse_hex (lit "a" ++ [233] ++ lit "x"))).

Definition parses_decode_hex_file_path_and_stdin : test :=
  let! command := unwrap (parse_args [lit "--decode-hex-file"; lit "capture.hex"]) in
  let! _ := assert_eq command (DecodeHexFile (lit "capture.hex")) in
  let! command := unwrap (parse_args [lit "--decode-hex-file"; lit "-"]) in
  assert_eq command (DecodeHexFile (lit "-")).

(** [io::Cursor] over bytes: a stream that does not break. *)
Definition cursor (bytes : list Z) : reader := {| stream := bytes; broken := None |}.

Definition bounded_hex_reader_counts_whitespace_and_rejects_before_parsing : test :=
  let! bytes := unwrap (read_hex_text (cursor (lit "00 " ++ [10])) 4) in
  let! _ := assert_eq bytes [0] in
  let! error := unwrap_err (read_hex_text (cursor (lit "xxxxx")) 4) in
  let! _ := assert (contains (display error) (lit "exceeds the 4 byte safety limit")) in
  assert (negb (contains (display error) (lit "invalid hex digit"))).

Definition generic_decoder_accepts_observed_opcode_specific_header_words : test :=
  for_each [(0x45, 8, 6); (0x32, 44, 0x10000006)] (fun '(opcode, word12, word16) =>
    let packet := replicate 44 0 in
    let! packet := copy_from_slice packet 0 (len WIRE_MAGIC) WIRE_MAGIC in
    let! packet := copy_from_slice packet 12 16 (to_le_bytes 4 word12) in
    let! packet := copy_from_slice packet 16 20 (to_le_bytes 4 word16) in
    let! packet := slice_set packet 20 opcode in
    assert (is_ok (decode packet).2)).

Definition parses_pattern_options_and_alias : test :=
  let expected_options :=
    {| opt_width := 1600; opt_height := 900; opt_frames := 3; opt_queue_capacity := 1;
       opt_quality := 91 |} in
  let! command := unwrap (parse_args
    [lit "--pattern"; lit "1600x900"; lit "--queue"; lit "1"; lit "--frames"; lit "3";
     lit "--quality"; lit "91"]) in
  let! _ := assert_eq command (Pattern expected_options false) in
  let! command := unwrap (parse_args
    [lit "--encode-plan"; lit "1600X900"; lit "--frames"; lit "3"; lit "--queue"; lit "1";
     lit "--quality"; lit "91"]) in
  assert_eq command (Pattern expected_options true).

Definition rejects_unsafe_pattern_options : test :=
  let! _ := assert (is_ok (parse_args [lit "--pattern"; lit "0x900"])) in
  let! _ := assert (is_err (simulate_pattern (fun _ => memory) (fun _ => toy_grow)
    {| opt_width := 0; opt_height := 900; opt_frames := 1; opt_queue_capacity := 1;
       opt_quality := 80 |} false).2) in
  let! _ := assert (is_err (parse_args
    [lit "--pattern"; lit "800x600"; lit "--frames"; lit "0"])) in
  let! _ := assert (is_err (parse_args
    [lit "--pattern"; lit "800x600"; lit "--queue"; lit "999"])) in
  assert (is_err (parse_args
    [lit "--encode-plan"; lit "800x600"; lit "--quality"; lit "0"])).

(** The tests of the command line pass. *)
Theorem main_tests_pass :
  Forall (eq (Ok tt))
    [parses_observe_duration; hex_parser_accepts_capture_friendly_separators;
     rejects_zero_duration_and_odd_hex; hex_parser_rejects_non_ascii_without_panicking;
     parses_decode_hex_file_path_and_stdin;
     bounded_hex_reader_counts_whitespace_and_rejects_before_parsing;
     generic_decoder_accepts_observed_opcode_specific_header_words;
     parses_pattern_options_and_alias; rejects_unsafe_pattern_options].
Proof. apply tests_pass_check. vm_compute. reflexivity. Qed.
End MainTests.
