(* ===== verification/Header.v ===== *)
(** * Header: the C protocol header

    Models include/smiusb/protocol.h, which the C++ daemon shares with the test of
    its layout, and the constants of libusb.h that the C and C++ programs use.  The
    theorem relates it to the Rust protocol module: the same constants, and the
    packed structures lay their fields where the Rust parser reads them. *)

From S2P Require Import Prelude Text Wire.

Open Scope Z_scope.

(** ** libusb.h *)

Definition LIBUSB_SUCCESS : Z := 0.
Definition LIBUSB_ERROR_NO_DEVICE : Z := -4.
Definition LIBUSB_ERROR_INTERRUPTED : Z := -10.
Definition LIBUSB_ERROR_NO_MEM : Z := -11.
Definition LIBUSB_HOTPLUG_EVENT_DEVICE_ARRIVED : Z := 1.
Definition LIBUSB_HOTPLUG_EVENT_DEVICE_LEFT : Z := 2.

(** ** Constants *)

Definition SMIUSB_VENDOR_ID : Z := 0x090c.
Definition SMIUSB_SM768_PRODUCT_ID : Z := 0x0768.
Definition SMIUSB_WIRE_MAGIC_SIZE : Z := 12.
Definition SMIUSB_SM768_HEADER_SIZE : Z := 48.
Definition SMIUSB_SM768_JPEG_DECODER_HEADER_SIZE : Z := 0x5000.
Definition SMIUSB_SM768_CAPABILITIES_RESPONSE : Z := 0x65.
Definition SMIUSB_SM768_OBSERVED_BULK_OUT_ENDPOINT : Z := 0x02.
Definition SMIUSB_SM768_OBSERVED_INTERRUPT_IN_ENDPOINT : Z := 0x81.
Definition SMIUSB_SM768_OBSERVED_HEARTBEAT_SIZE : Z := 44.
Definition SMIUSB_SM768_OBSERVED_INTERRUPT_READ_SIZE : Z := 1024.
Definition SMIUSB_WIRE_MAGIC : list Z := lit "smifalconsta".

(** ** Packed structures: the sizes of the fields, in order, without padding *)

(** [uint8_t magic[12]; uint32_t packet_word_le;] *)
Definition smiusb_wire_prefix : list Z := [SMIUSB_WIRE_MAGIC_SIZE; 4].

Definition sizeof (fields : list Z) : Z := fold_right Z.add 0 fields.
Definition offsetof (fields : list Z) (i : nat) : Z := sizeof (take i fields).

(** [struct smiusb_wire_prefix prefix; uint8_t packet_specific[48 - sizeof(prefix)];] *)
Definition smiusb_sm768_header : list Z :=
  [sizeof smiusb_wire_prefix; SMIUSB_SM768_HEADER_SIZE - sizeof smiusb_wire_prefix].

(** The bytes of a field of a structure at the start of a packet. *)
Definition field (fields : list Z) (i : nat) (packet : list Z) : list Z :=
  subslice packet (offsetof fields i) (offsetof fields i + nth i fields 0).

Definition header_magic (packet : list Z) : list Z :=
  field smiusb_wire_prefix 0 (field smiusb_sm768_header 0 packet).
Definition header_packet_word (packet : list Z) : Z :=
  from_le_bytes (field smiusb_wire_prefix 1 (field smiusb_sm768_header 0 packet)).

(** The [static_assert]s of the header. *)
Example static_asserts :
  sizeof smiusb_wire_prefix = 16 /\ sizeof smiusb_sm768_header = SMIUSB_SM768_HEADER_SIZE.
Proof. done. Qed.

(** tests/protocol_layout_test.c: [memcpy] of the magic into a zeroed header. *)
Definition protocol_layout_test : Z :=
  let header := replicate (Z.to_nat (sizeof smiusb_sm768_header)) 0 in
  let header := take (Z.to_nat SMIUSB_WIRE_MAGIC_SIZE) SMIUSB_WIRE_MAGIC
                ++ drop (Z.to_nat SMIUSB_WIRE_MAGIC_SIZE) header in
  if negb (bool_decide (header_magic header = lit "smifalconsta")) then 1 else
  if negb (sizeof smiusb_sm768_header =? SMIUSB_SM768_HEADER_SIZE) then 1 else 0.

Example protocol_layout_test_passes : protocol_layout_test = 0.
Proof. vm_compute. reflexivity. Qed.

Lemma subslice_subslice {A} (s : list A) a b c d :
  0 <= a -> 0 <= c -> c <= d -> d <= b - a ->
  subslice (subslice s a b) c d = subslice s (a + c) (a + d).
Proof.
  intros. unfold subslice. rewrite skipn_firstn_comm, take_take, drop_drop. f_equal; [lia|].
  f_equal. lia.
Qed.

(** The C header and the Rust protocol module agree: the constants that both
    define are equal, and for every packet with room for a header the C structure's
    magic and packet word are the bytes 0 to 11 and the word at 12 that the Rust
    parser reads; the parser accepts the magic exactly when it is the header's. *)
Theorem header_agrees `{Platform} p :
  byte_slice p -> 48 <= len p ->
  (SMIUSB_VENDOR_ID = VENDOR_ID /\ SMIUSB_SM768_PRODUCT_ID = SM768_PRODUCT_ID /\
   SMIUSB_WIRE_MAGIC = WIRE_MAGIC /\ SMIUSB_WIRE_MAGIC_SIZE = len WIRE_MAGIC /\
   SMIUSB_SM768_HEADER_SIZE = HEADER_SIZE /\
   SMIUSB_SM768_JPEG_DECODER_HEADER_SIZE = JPEG_DECODER_METADATA_SIZE /\
   SMIUSB_SM768_CAPABILITIES_RESPONSE = CAPABILITIES_OPCODE /\
   SMIUSB_SM768_OBSERVED_BULK_OUT_ENDPOINT = BULK_OUT_ENDPOINT /\
   SMIUSB_SM768_OBSERVED_INTERRUPT_IN_ENDPOINT = INTERRUPT_IN_ENDPOINT /\
   SMIUSB_SM768_OBSERVED_HEARTBEAT_SIZE = HEARTBEAT_SIZE /\
   SMIUSB_SM768_OBSERVED_INTERRUPT_READ_SIZE = FRAME_ACK_SIZE) /\
  exec_wp (parse_header p)
    (fun h => header_magic p = SMIUSB_WIRE_MAGIC /\ word12 h = header_packet_word p)
    (fun e => e = ParseError.BadMagic /\ header_magic p <> SMIUSB_WIRE_MAGIC).
Proof.
  intros Hp Hl. split; [by split_and!|].
  assert (Hm : header_magic p = take 12 p).
  { unfold header_magic, field. rewrite subslice_subslice by (vm_compute; discriminate). done. }
  assert (Hw : header_packet_word p = word_at p 12).
  { unfold header_packet_word, field. rewrite subslice_subslice by (vm_compute; discriminate). done. }
  rewrite parse_header_eq by apply Hp. rewrite (proj2 (Z.ltb_ge _ _)) by lia.
  rewrite Hm, Hw. by case_bool_decide.
Qed.

Lemma header_agrees_witness :
  byte_slice (observed_request ++ replicate 28 0) /\
  exec_wp (parse_header (observed_request ++ replicate 28 0))
    (fun h => word12 h = 8) (fun _ => False).
Proof.
  assert (Hb : byte_slice (observed_request ++ replicate 28 0))
    by (apply byte_slice_check; vm_compute; reflexivity).
  split; [exact Hb|].
  assert (Hl : 48 <= len (observed_request ++ replicate 28 0)) by (vm_compute; discriminate).
  destruct (header_agrees _ Hb Hl) as [_ W].
  destruct (parse_header (observed_request ++ replicate 28 0)) as [h|e| |] eqn:E.
  - destruct W as [_ W]. cbn [exec_wp]. rewrite W. vm_compute. reflexivity.
  - vm_compute in E. discriminate.
  - destruct W.
  - destruct W.
Defined.
