(* ===== verification/Threads.v ===== *)
(** * Threads: C and C++ programs as trees of atomic operations

    The C guard, the C++ daemon and the kernel code share memory between threads.  A function of
    theirs is a [prog]: a tree whose nodes are the atomic operations it performs,
    each continued by what it answers.  [perform] gives an operation its meaning on
    the shared state, or nothing while the operation blocks; a thread runs blocks of
    code that name their successor, so loops need no fuel.  [trun] interleaves the
    threads along a schedule, and [exec_prog] runs one alone.

    [safe] is the proof rule, rely and guarantee: a thread relies on what the other
    threads keep, guarantees the same to them, and every step preserves a global
    invariant.  [trun_ok] lifts it to every interleaving.  [fair_reaches] is the rule
    for what must happen: a well-founded step relation and a thread that can move. *)

From S2P Require Import Prelude.

(** ** Programs *)

Section programs.
Context {op : Type -> Type}.

Inductive prog (A : Type) : Type :=
| Ret (a : A)
| Do {R : Type} (o : op R) (k : R -> prog A).
Arguments Ret {A} a.
Arguments Do {A R} o k.

Fixpoint prog_bind {A B} (p : prog A) (k : A -> prog B) : prog B :=
  match p with
  | Ret a => k a
  | Do o f => Do o (fun r => prog_bind (f r) k)
  end.

(** One operation. *)
Definition act {R} (o : op R) : prog R := Do o Ret.

(** [for (x : xs) { body }] *)
Fixpoint prog_each {A} (xs : list A) (body : A -> prog unit) : prog unit :=
  match xs with
  | [] => Ret tt
  | x :: xs => prog_bind (body x) (fun _ => prog_each xs body)
  end.
End programs.
Arguments prog op A : clear implicits.
Arguments Ret {op A} a.
Arguments Do {op A R} o k.

Notation "'let%' x ':=' p 'in' k" := (prog_bind p (fun x => k))
  (at level 10, x pattern, p at level 100, k at level 200) : exec_scope.

(** ** Running threads *)

Section machine.
Context {op : Type -> Type} {S L : Type}.
Context (perform : forall R, op R -> nat -> S -> option (S * R)).

(** The block of code that a label names, in a thread; it ends with the label to
    go on with, if any. *)
Context (code : nat -> L -> prog op (option L)).

Arguments perform {R}.

(** A thread alone: the state it leaves, and its result unless it blocks. *)
Fixpoint exec_prog {A} (t : nat) (p : prog op A) (s : S) : S * option A :=
  match p with
  | Ret a => (s, Some a)
  | Do o k =>
      match perform o t s with
      | Some (s, r) => exec_prog t (k r) s
      | None => (s, None)
      end
  end.

Lemma exec_prog_bind {A B} t (p : prog op A) (k : A -> prog op B) s :
  exec_prog t (prog_bind p k) s =
    match exec_prog t p s with
    | (s, Some a) => exec_prog t (k a) s
    | (s, None) => (s, None)
    end.
Proof.
  revert s. induction p as [a|R o f IH]; intros s; cbn; [done|].
  by destruct (perform o t s) as [[s' r]|].
Qed.

Record conf := {
  shared : S;
  threads : list (prog op (option L));
}.

(** One step of a thread: an operation, or the move to the next block. *)
Definition tstep (c : conf) (t : nat) : option conf :=
  match threads c !! t with
  | Some (Do o k) =>
      match perform o t (shared c) with
      | Some (s, r) => Some {| shared := s; threads := <[t := k r]> (threads c) |}
      | None => None
      end
  | Some (Ret (Some l)) =>
      Some {| shared := shared c; threads := <[t := code t l]> (threads c) |}
  | Some (Ret None) | None => None
  end.

(** A schedule; a thread that cannot move is passed over. *)
Definition trun (c : conf) (schedule : list nat) : conf :=
  fold_left (fun c t => default c (tstep c t)) schedule c.

(** ** Safety of a thread *)

(** The global invariant; what a thread may rely on across the steps of the others;
    what must hold of the state when a thread reaches an operation. *)
Context (inv : S -> Prop) (rely : nat -> S -> S -> Prop).
Context (pre : forall R, op R -> nat -> S -> Prop).
Context `{rely_preorder : forall t, PreOrder (rely t)}.
Arguments pre {R}.

Fixpoint safe {A} (t : nat) (p : prog op A) (s : S) (Q : A -> S -> Prop) : Prop :=
  forall s', rely t s s' -> inv s' ->
  match p with
  | Ret a => Q a s'
  | Do o k =>
      pre o t s' /\
      forall s'' r, perform o t s' = Some (s'', r) ->
        inv s'' /\ (forall u, u <> t -> rely u s' s'') /\ safe t (k r) s'' Q
  end.

Lemma safe_rely {A} t (p : prog op A) s s' Q : safe t p s Q -> rely t s s' -> safe t p s' Q.
Proof using rely_preorder.
  intros Hp Hs. destruct p as [a|R o k]; cbn in *; intros s2 Hs2 Hi;
    (apply Hp; [by etrans|done]).
Qed.

Lemma safe_mono {A} t (p : prog op A) s (Q Q' : A -> S -> Prop) :
  safe t p s Q -> (forall a s, inv s -> Q a s -> Q' a s) -> safe t p s Q'.
Proof.
  intros Hp HQ. revert s Hp. induction p as [a|R o k IH]; cbn; intros s Hp s' Hs Hi.
  - by apply HQ, Hp.
  - destruct (Hp s' Hs Hi) as [Hpre Hk]. split; [done|].
    intros s'' r Ho. destruct (Hk s'' r Ho) as (? & ? & ?). split_and!; [done..|]. by apply IH.
Qed.

Lemma safe_bind {A B} t (p : prog op A) (k : A -> prog op B) s Q :
  safe t p s (fun a s => safe t (k a) s Q) -> safe t (prog_bind p k) s Q.
Proof using rely_preorder.
  revert s. induction p as [a|R o f IH]; cbn [prog_bind]; intros s Hp.
  - cbn in Hp. destruct (k a) as [b|R' o' k'] eqn:E; cbn; intros s' Hs Hi;
      specialize (Hp s' Hs Hi); rewrite ?E in Hp; cbn in Hp; by apply Hp.
  - cbn in Hp |- *. intros s' Hs Hi. destruct (Hp s' Hs Hi) as [Hpre Hk]. split; [done|].
    intros s'' r Ho. destruct (Hk s'' r Ho) as (? & ? & ?). split_and!; [done..|]. by apply IH.
Qed.

(** The rule for an operation, once [perform] is known to keep the invariant and to
    respect the other threads wherever the precondition holds. *)
Lemma safe_do {A R} t (o : op R) (k : R -> prog op A) s Q :
  (forall s s' r, inv s -> pre o t s -> perform o t s = Some (s', r) ->
     inv s' /\ forall u, u <> t -> rely u s s') ->
  (forall s', rely t s s' -> inv s' -> pre o t s') ->
  (forall s' s'' r, rely t s s' -> inv s' -> perform o t s' = Some (s'', r) -> inv s'' ->
     safe t (k r) s'' Q) ->
  safe t (Do o k) s Q.
Proof.
  intros Ho Hpre Hk. cbn. intros s' Hs Hi. split; [by apply Hpre|]. intros s'' r E.
  destruct (Ho s' s'' r Hi (Hpre s' Hs Hi) E) as [Hi' Hg]. split_and!; [done..|]. by eapply Hk.
Qed.

(** A loop whose body keeps an assertion. *)
Lemma safe_each {A} t (xs : list A) (body : A -> prog op unit) s (Q : S -> Prop) :
  (forall x s, x ∈ xs -> Q s -> inv s -> safe t (body x) s (fun _ => Q)) ->
  (forall s s', Q s -> rely t s s' -> inv s' -> Q s') ->
  Q s -> inv s -> safe t (prog_each xs body) s (fun _ => Q).
Proof using rely_preorder.
  intros Hbody Hstable. revert s. induction xs as [|x xs IH]; intros s HQ Hi; cbn [prog_each].
  - cbn. intros s' Hs Hi'. by eapply Hstable.
  - apply safe_bind. eapply safe_mono; [apply Hbody; [left|done|done]|].
    intros a s' Hi' HQ'. apply IH; [|done|done]. intros y s2 Hy. apply Hbody. by right.
Qed.

(** A loop that consumes its list. *)
Lemma safe_each_rest {A} t (xs : list A) (body : A -> prog op unit) s (Q : list A -> S -> Prop) :
  (forall x rest s, Q (x :: rest) s -> safe t (body x) s (fun _ => Q rest)) ->
  (forall rest s s', Q rest s -> rely t s s' -> inv s' -> Q rest s') ->
  Q xs s -> safe t (prog_each xs body) s (fun _ => Q []).
Proof using rely_preorder.
  intros Hbody Hstable. revert s. induction xs as [|x xs IH]; intros s HQ; cbn [prog_each].
  - cbn. intros s' Hs Hi'. by eapply Hstable.
  - apply safe_bind. eapply safe_mono; [by apply Hbody|]. intros a s' Hi' HQ'. by apply IH.
Qed.

(** ** Every interleaving *)

(** What a thread may assume at the start of a block, and what it leaves at its end. *)
Context (entry : nat -> L -> S -> Prop) (finished : nat -> S -> Prop).

Definition exit_of (t : nat) (next : option L) (s : S) : Prop :=
  match next with Some l => entry t l s | None => finished t s end.

Definition conf_ok (c : conf) : Prop :=
  inv (shared c) /\
  forall t p, threads c !! t = Some p -> safe t p (shared c) (exit_of t).

Hypothesis code_safe : forall t l s, entry t l s -> inv s -> safe t (code t l) s (exit_of t).

Lemma tstep_ok c t c' : conf_ok c -> tstep c t = Some c' -> conf_ok c'.
Proof using rely_preorder code_safe.
  intros [Hi Ht]. unfold tstep. destruct (threads c !! t) as [p|] eqn:Hp; [|done].
  pose proof (Ht t p Hp) as Hs. pose proof (lookup_lt_Some _ _ _ Hp) as Hlt.
  destruct p as [[l|]|R o k]; cbn in Hs; [|done|].
  - intros [= <-]. split; [done|]. cbn. intros u q Hq.
    destruct (decide (u = t)) as [->|Hne].
    + rewrite list_lookup_insert_eq in Hq by done. injection Hq as <-.
      apply code_safe; [|done]. by apply Hs.
    + rewrite list_lookup_insert_ne in Hq by done. by apply Ht.
  - destruct (Hs (shared c)) as [_ Hk]; [done..|].
    destruct (perform o t (shared c)) as [[s' r]|] eqn:Ho; [|done].
    intros [= <-]. destruct (Hk s' r eq_refl) as (Hi' & Hr & Hk'). split; [done|].
    cbn. intros u q Hq. destruct (decide (u = t)) as [->|Hne].
    + rewrite list_lookup_insert_eq in Hq by done. by injection Hq as <-.
    + rewrite list_lookup_insert_ne in Hq by done. eapply safe_rely; [by apply Ht|]. by apply Hr.
Qed.

Lemma trun_ok c schedule : conf_ok c -> conf_ok (trun c schedule).
Proof using rely_preorder code_safe.
  revert c. induction schedule as [|t ts IH]; intros c Hc; cbn; [done|].
  apply IH. destruct (tstep c t) as [c'|] eqn:E; cbn; [|done]. by eapply tstep_ok.
Qed.
End machine.

Arguments conf {op} S L.

(** ** Runs *)

Section runs.
Context {op : Type -> Type} {St L : Type}.
Context (perform : forall R, op R -> nat -> St -> option (St * R)).
Context (code : nat -> L -> prog op (option L)).

Lemma tstep_length c t c' : tstep perform code c t = Some c' -> length (threads c') = length (threads c).
Proof.
  unfold tstep. destruct (threads c !! t) as [[[]|R o k]|]; [|done| |done].
  - intros [= <-]. apply length_insert.
  - destruct (perform _ o t (shared c)) as [[]|]; [|done]. intros [= <-]. apply length_insert.
Qed.

Lemma trun_length c schedule : length (threads (trun perform code c schedule)) = length (threads c).
Proof.
  unfold trun. revert c. induction schedule as [|t ts IH]; intros c; [done|]. cbn.
  rewrite IH. destruct (tstep perform code c t) eqn:E; [|done]. by eapply tstep_length.
Qed.

Lemma tstep_thread c t c' : tstep perform code c t = Some c' -> (t < length (threads c))%nat.
Proof.
  unfold tstep. destruct (threads c !! t) eqn:Hp; [|done]. by apply lookup_lt_Some in Hp.
Qed.

(** ** Fair schedules *)

(** A schedule without end in which each of [n] threads has its turn again and again. *)
Definition fair (n : nat) (schedule : nat -> nat) : Prop :=
  forall t k, (t < n)%nat -> exists m, (k <= m)%nat /\ schedule m = t.

(** Two threads that take turns. *)
Lemma fair_alternate : fair 2 (fun n => n mod 2)%nat.
Proof.
  intros t n Ht. exists (2 * n + t)%nat. split; [lia|].
  rewrite Nat.add_comm, Nat.mul_comm, Nat.Div0.mod_add. by apply Nat.mod_small.
Qed.

Section fairness.
Context (c0 : conf (op := op) St L) (schedule : nat -> nat).
Context (schedule_fair : fair (length (threads c0)) schedule).

(** The configuration behind the first [k] turns. *)
Definition turns (k : nat) : conf (op := op) St L := trun perform code c0 (map schedule (seq 0 k)).

Lemma turns_S k : turns (S k) = default (turns k) (tstep perform code (turns k) (schedule k)).
Proof. unfold turns, trun. by rewrite seq_S, map_app, fold_left_app. Qed.

(** A thread that can move gets its turn, unless another one moves before. *)
Lemma turn_comes k t :
  is_Some (tstep perform code (turns k) t) ->
  exists m c', (k <= m)%nat /\ turns m = turns k /\ tstep perform code (turns k) (schedule m) = Some c'.
Proof using schedule_fair.
  intros [c1 E1]. pose proof (tstep_thread _ _ _ E1) as Ht. unfold turns in Ht at 1.
  rewrite trun_length in Ht. destruct (schedule_fair t k Ht) as (m & Hm & Em). clear Ht.
  remember (m - k)%nat as d eqn:Hd. revert k Hm Hd E1. induction d as [|d IH]; intros k Hm Hd E1.
  - assert (m = k) as -> by lia. exists k, c1. by rewrite Em.
  - destruct (tstep perform code (turns k) (schedule k)) as [c'|] eqn:E; [by exists k, c'|].
    assert (HS : turns (S k) = turns k) by by rewrite turns_S, E.
    destruct (IH (S k)) as (j & c' & Hj & Ej & Es); [lia|lia|by rewrite HS|].
    exists j, c'. rewrite HS in Ej, Es. split_and!; [lia|done|done].
Qed.

(** Where the steps cannot go on for ever before [P], and somebody can move as long as
    [P] does not hold, a fair schedule comes to [P]. *)
Lemma fair_reaches (P : conf (op := op) St L -> Prop) `{!forall c, Decision (P c)} :
  Acc (fun c' c => ~ P c /\ exists t, tstep perform code c t = Some c') c0 ->
  (forall k, ~ P (turns k) -> exists t, is_Some (tstep perform code (turns k) t)) ->
  exists k, P (turns k).
Proof using schedule_fair.
  intros Hacc Hmoves. cut (forall c k, Acc (fun c' c => ~ P c /\ exists t, tstep perform code c t = Some c') c ->
    turns k = c -> exists k, P (turns k)); [intros Hc; by apply (Hc c0 0%nat Hacc)|].
  clear Hacc. intros c k Hacc. revert k. induction Hacc as [c _ IH]. intros k <-.
  destruct (decide (P (turns k))) as [HP|HP]; [by exists k|]. destruct (Hmoves k HP) as (t & Ht).
  destruct (turn_comes k t Ht) as (m & c' & Hm & Em & Es).
  apply (IH c' (conj HP (ex_intro _ _ Es)) (S m)). rewrite turns_S, Em. by rewrite Es.
Qed.
End fairness.

End runs.

(** ** Threads without loops *)

Section straight.
Context {op : Type -> Type} {St : Type}.
Context (perform : forall R, op R -> nat -> St -> option (St * R)).
Context (code : nat -> Empty_set -> prog op (option Empty_set)).

(** What may be left of a program behind its next operation. *)
Inductive rest {A} : prog op A -> prog op A -> Prop :=
| rest_do R (o : op R) k r : rest (k r) (Do o k).

Lemma rest_wf {A} (p : prog op A) : Acc rest p.
Proof.
  induction p as [a|R o k IH]; constructor; intros q Hq; [by inversion Hq|].
  refine (match Hq in rest q p return
    (match p with Ret _ => True | Do o k => (forall r, Acc rest (k r)) -> Acc rest q end) with
    rest_do R o k r => fun IH => IH r end IH).
Qed.

Lemma rests_wf {A} (ps : list (prog op A)) :
  Acc (fun qs ps => exists t p q, ps !! t = Some p /\ rest q p /\ qs = <[t := q]> ps) ps.
Proof.
  induction ps as [|p ps IH]; [by constructor; intros qs (t & p & q & Hp & _)|].
  revert p. induction IH as [ps Hps IHps]. intros p. induction (rest_wf p) as [p _ IHp].
  constructor. intros qs ([|t] & p' & q & Hp & Hq & ->); cbn in Hp |- *.
  - injection Hp as ->. by apply IHp.
  - apply IHps. by exists t, p', q.
Qed.

Lemma straight_terminates c :
  Acc (fun c' c => exists t, tstep perform code c t = Some c') c.
Proof.
  remember (threads c) as ps eqn:Hps. revert c Hps. induction (rests_wf ps) as [ps _ IH]. intros c ->.
  constructor. intros c' [t E]. unfold tstep in E.
  destruct (threads c !! t) as [[[[]|]|R o k]|] eqn:Hp; [done| |done].
  destruct (perform R o t (shared c)) as [[s r]|]; [|done]. injection E as <-.
  eapply IH; [|done]. exists t, (Do o k), (k r). by split_and!.
Qed.
End straight.
