(* ===== verification/Guard.v ===== *)
(** * Guard: the libusb interposer

    Models src/guard/smiusb_guard.c, a library that is preloaded into the vendor's
    daemon and interposes libusb: calls with a null handle fail without reaching
    libusb, and (with the restart fence enabled) a disconnect ends the process
    before the vendor's code sees it.

    Each C function is a [prog] over the operations it performs on shared memory
    and on the system.  The vendor's threads are arbitrary: each is a function from
    the results of its earlier requests to its next one.  The system, libusb and
    the vendor's callbacks answer as the [environment] says, which may depend on
    everything that happened before. *)

From stdpp Require Import gmap functions.
From S2P Require Import Prelude Text Wire Header Threads.

Open Scope Z_scope.

(** ** Data *)

(** The functions that the guard replaces, [DECLARE_REAL]. *)
Inductive symbol :=
| libusb_bulk_transfer
| libusb_interrupt_transfer
| libusb_control_transfer
| libusb_claim_interface
| libusb_release_interface
| libusb_set_interface_alt_setting
| libusb_detach_kernel_driver
| libusb_reset_device
| libusb_close
| libusb_hotplug_register_callback.

#[export] Instance symbol_eq_dec : EqDecision symbol.
Proof. solve_decision. Defined.

Definition symbol_name (y : symbol) : list Z :=
  match y with
  | libusb_bulk_transfer => lit "libusb_bulk_transfer"
  | libusb_interrupt_transfer => lit "libusb_interrupt_transfer"
  | libusb_control_transfer => lit "libusb_control_transfer"
  | libusb_claim_interface => lit "libusb_claim_interface"
  | libusb_release_interface => lit "libusb_release_interface"
  | libusb_set_interface_alt_setting => lit "libusb_set_interface_alt_setting"
  | libusb_detach_kernel_driver => lit "libusb_detach_kernel_driver"
  | libusb_reset_device => lit "libusb_reset_device"
  | libusb_close => lit "libusb_close"
  | libusb_hotplug_register_callback => lit "libusb_hotplug_register_callback"
  end.

(** A call of a replaced function that takes a device handle; a pointer is an
    address, [None] is [NULL]. *)
Inductive call :=
| Bulk (handle : option Z) (endpoint data length : Z) (transferred : option Z) (timeout : Z)
| Interrupt (handle : option Z) (endpoint data length : Z) (transferred : option Z) (timeout : Z)
| Control (handle : option Z) (request_type request value index data length timeout : Z)
| ClaimInterface (handle : option Z) (interface_number : Z)
| ReleaseInterface (handle : option Z) (interface_number : Z)
| DetachKernelDriver (handle : option Z) (interface_number : Z)
| SetAltSetting (handle : option Z) (interface_number alternate_setting : Z)
| ResetDevice (handle : option Z)
| Close (handle : option Z).

Definition call_symbol (c : call) : symbol :=
  match c with
  | Bulk _ _ _ _ _ _ => libusb_bulk_transfer
  | Interrupt _ _ _ _ _ _ => libusb_interrupt_transfer
  | Control _ _ _ _ _ _ _ _ => libusb_control_transfer
  | ClaimInterface _ _ => libusb_claim_interface
  | ReleaseInterface _ _ => libusb_release_interface
  | DetachKernelDriver _ _ => libusb_detach_kernel_driver
  | SetAltSetting _ _ _ => libusb_set_interface_alt_setting
  | ResetDevice _ => libusb_reset_device
  | Close _ => libusb_close
  end.

Definition call_handle (c : call) : option Z :=
  match c with
  | Bulk h _ _ _ _ _ | Interrupt h _ _ _ _ _ | Control h _ _ _ _ _ _ _
  | ClaimInterface h _ | ReleaseInterface h _ | DetachKernelDriver h _
  | SetAltSetting h _ _ | ResetDevice h | Close h => h
  end.

(** The arguments of [libusb_hotplug_register_callback]. *)
Record registration := {
  reg_context : Z;
  reg_events : Z;
  reg_flags : Z;
  reg_vendor_id : Z;
  reg_product_id : Z;
  reg_device_class : Z;
  reg_callback : option Z;
  reg_user_data : Z;
  reg_callback_handle : Z;
}.

(** [struct guarded_hotplug_callback] *)
Record guarded_hotplug_callback := {
  callback : Z;
  user_data : Z;
}.

(** What the vendor's threads do that concerns the guard: call a replaced function,
    register a callback, or handle events, upon which libusb dispatches one of them
    to a registration. *)
Inductive request :=
| Call (c : call)
| Register (g : registration)
| HandleEvent (choose : list Z -> option Z) (context device event : Z).

(** Everything that can be observed, oldest first.  [EBlocked] is the increment of
    [blocked_calls], with the value the call gets; its message is an [EWrite], which
    other threads may overtake. *)
Inductive observation :=
| EBlocked (t : nat) (count : Z)
| EWrite (t : nat) (bytes : list Z)
| EExit (t : nat) (code : Z)
| EDlsym (t : nat) (y : symbol)
| EMalloc (t : nat) (p : option Z)
| EFree (t : nat) (p : Z)
| EReal (t : nat) (c : call)
| ERegister (t : nat) (g : registration) (p : option Z)
| EVendor (t : nat) (callback context device event user_data : Z)
| EReturn (t : nat) (q : request) (r : option Z).

Inductive once_state := NotRun | Initialising (t : nat) | Resolved.

#[export] Instance once_state_eq_dec : EqDecision once_state.
Proof. solve_decision. Defined.

(** How the process ended. *)
Inductive fate := Exited (code : Z) | Crashed.

(** The guard's variables, the memory it writes, and what has been observed.  An
    allocated record knows the thread that allocated it and its contents once they
    are stored. *)
Record state := {
  blocked_calls : Z;
  restart_on_disconnect : Z;
  once : symbol -> once_state;
  real : symbol -> option Z;
  dl_error : nat -> option (list Z);
  ints : gmap Z Z;
  heap : gmap Z (nat * option guarded_hotplug_callback);
  next_address : Z;
  registered : list Z;
  trace : list observation;
  ended : option fate;
}.

Definition initial_state : state :=
  {| blocked_calls := 0; restart_on_disconnect := 0; once := fun _ => NotRun;
     real := fun _ => None; dl_error := fun _ => None; ints := ∅; heap := ∅;
     next_address := 1; registered := []; trace := []; ended := None |}.

(** The system, libusb and the vendor's callbacks. *)
Record environment := {
  (** [getenv("SMIUSB_GUARD_RESTART_ON_DISCONNECT")] *)
  env_variable : option (list Z);
  (** [dlsym] of a symbol, and the error it leaves for [dlerror] *)
  env_dlsym : symbol -> option Z * option (list Z);
  (** the result of a real function and the integers it stores *)
  env_real : list observation -> Z * list (Z * Z);
  (** the result of registering, and the present devices it dispatches at once *)
  env_register : list observation -> Z * list (Z * Z);
  (** whether [malloc] succeeds *)
  env_malloc : list observation -> bool;
  (** [libusb_get_device_descriptor]: result, vendor and product *)
  env_descriptor : Z -> Z * Z * Z;
  (** the result of a callback of the vendor *)
  env_vendor : list observation -> Z;
}.

(** ** Operations *)

Inductive op : Type -> Type :=
| LoadFence : op Z
| StoreFence (v : Z) : op unit
| FetchAddBlocked : op Z
| Getenv : op (option (list Z))
| WriteStderr (bytes : list Z) : op unit
| Exit (code : Z) : op unit
| Dlerror : op (option (list Z))
| Dlsym (y : symbol) : op (option Z)
| StoreReal (y : symbol) (p : option Z) : op unit
| LoadReal (y : symbol) : op (option Z)
| OnceEnter (y : symbol) : op bool
| OnceLeave (y : symbol) : op unit
| StoreInt (p v : Z) : op unit
| Malloc : op (option Z)
| StoreRecord (p : Z) (g : guarded_hotplug_callback) : op unit
| LoadRecord (p : Z) : op guarded_hotplug_callback
| Free (p : Z) : op unit
| GetDescriptor (device : Z) : op (Z * Z * Z)
| CallReal (f : option Z) (c : call) : op Z
| CallRegister (f : option Z) (g : registration) (p : option Z) : op (Z * list (Z * Z))
| CallVendor (callback context device event user_data : Z) : op Z
| Registrations : op (list Z)
| Return (q : request) (r : option Z) : op unit.

#[local] Abbreviation program := (prog op).
#[local] Abbreviation act := (@Threads.act op _).

(** ** The functions of the guard *)

(** Whether the value of the variable enables the fence. *)
Definition enables (value : option (list Z)) : bool :=
  match value with
  | Some v => negb (bool_decide (v = [])) && negb (bool_decide (v = lit "0"))
  | None => false
  end.

Definition restart_fence_enabled : program bool :=
  let% cached := act LoadFence in
  if negb (cached =? 0) then Ret (cached =? 2) else
  let% value := act Getenv in
  let enabled := enables value in
  let% _ := act (StoreFence (if enabled then 2 else 1)) in
  Ret enabled.

(** [snprintf(message, sizeof(message), ...)], then [write] of as many bytes as
    [snprintf] reports, at most [sizeof(message)]. *)
Definition message_size : Z := 256.

Definition message_buffer (text : list Z) : list Z :=
  take (Z.to_nat (message_size - 1)) text ++ [0].

Definition write_message (text : list Z) : program unit :=
  let length := len text in
  if 0 <? length then
    let bytes := if message_size <? length then message_size else length in
    act (WriteStderr (take (Z.to_nat bytes) (message_buffer text)))
  else Ret tt.

Definition controlled_restart (reason : list Z) : program unit :=
  let% _ := write_message
    (lit "smiusb-guard: controlled daemon restart: " ++ reason ++ [10]) in
  act (Exit 0).

Definition restart_after_usb_disconnect (function_name : list Z) (result : Z) : program unit :=
  if result =? LIBUSB_ERROR_NO_DEVICE then
    let% enabled := restart_fence_enabled in
    if enabled then controlled_restart function_name else Ret tt
  else Ret tt.

Section arithmetic.
Context `{Platform}.

(** An [unsigned long] wraps. *)
Definition wrap_ulong (v : Z) : Z := v mod (c_ulong_max + 1).

Definition guard_log (function_name : list Z) : program unit :=
  let% old := act FetchAddBlocked in
  let count := wrap_ulong (old + 1) in
  write_message
    (lit "smiusb-guard: blocked " ++ function_name
     ++ lit " with NULL handle (returning LIBUSB_ERROR_NO_DEVICE, count=" ++ dec count
     ++ lit ")" ++ [10]).
End arithmetic.

Definition resolve_or_die (y : symbol) : program unit :=
  let% _ := act Dlerror in
  let% target := act (Dlsym y) in
  let% _ := act (StoreReal y target) in
  let% error := act Dlerror in
  match target, error with
  | Some _, None => Ret tt
  | _, _ =>
      let% _ := write_message
        (lit "smiusb-guard: cannot resolve " ++ symbol_name y ++ lit ": "
         ++ default (lit "unknown dynamic linker error") error ++ [10]) in
      act (Exit 127)
  end.

(** [pthread_once(&once_name, resolve_name)] *)
Definition pthread_once (y : symbol) : program unit :=
  let% first := act (OnceEnter y) in
  if first then
    let% _ := resolve_or_die y in
    act (OnceLeave y)
  else Ret tt.

(** A call through the pointer [real_name]. *)
Definition real_call (c : call) : program Z :=
  let% f := act (LoadReal (call_symbol c)) in
  act (CallReal f c).

Definition guarded_hotplug_dispatch (context device event p : Z) : program Z :=
  let% enabled :=
    if event =? LIBUSB_HOTPLUG_EVENT_DEVICE_LEFT then restart_fence_enabled else Ret false in
  let% _ :=
    if enabled then
      let% (result, id_vendor, id_product) := act (GetDescriptor device) in
      if (result =? LIBUSB_SUCCESS) && (id_vendor =? 0x090c) && (id_product =? 0x0768)
      then controlled_restart (lit "SM768 hotplug detach")
      else Ret tt
    else Ret tt in
  let% guarded := act (LoadRecord p) in
  act (CallVendor (callback guarded) context device event (user_data guarded)).

(** [real_libusb_hotplug_register_callback]: libusb may dispatch the present devices
    to the new callback before it returns. *)
Definition real_register (g : registration) (p : option Z) : program Z :=
  let% f := act (LoadReal libusb_hotplug_register_callback) in
  let% (result, present) := act (CallRegister f g p) in
  let% _ :=
    match p with
    | Some p =>
        prog_each present (fun '(device, event) =>
          let% _ := guarded_hotplug_dispatch (reg_context g) device event p in Ret tt)
    | None => Ret tt
    end in
  Ret result.

Definition hotplug_register_callback (g : registration) : program Z :=
  let% _ := pthread_once libusb_hotplug_register_callback in
  match reg_callback g with
  | None => real_register g None
  | Some function =>
      let% guarded := act Malloc in
      match guarded with
      | None => Ret LIBUSB_ERROR_NO_MEM
      | Some p =>
          let% _ := act (StoreRecord p {| callback := function; user_data := reg_user_data g |}) in
          let% result := real_register g (Some p) in
          let% _ := if negb (result =? LIBUSB_SUCCESS) then act (Free p) else Ret tt in
          Ret result
      end
  end.

Section functions.
Context `{Platform}.

(** [libusb_bulk_transfer] and [libusb_interrupt_transfer] *)
Definition guarded_transfer (c : call) (transferred : option Z) : program Z :=
  let function_name := symbol_name (call_symbol c) in
  match call_handle c with
  | None =>
      let% _ := match transferred with Some p => act (StoreInt p 0) | None => Ret tt end in
      let% _ := guard_log function_name in
      let% _ := restart_after_usb_disconnect function_name LIBUSB_ERROR_NO_DEVICE in
      Ret LIBUSB_ERROR_NO_DEVICE
  | Some _ =>
      let% _ := pthread_once (call_symbol c) in
      let% result := real_call c in
      let% _ := restart_after_usb_disconnect function_name result in
      Ret result
  end.

Definition guarded_control_transfer (c : call) : program Z :=
  let function_name := symbol_name (call_symbol c) in
  match call_handle c with
  | None =>
      let% _ := guard_log function_name in
      let% _ := restart_after_usb_disconnect function_name LIBUSB_ERROR_NO_DEVICE in
      Ret LIBUSB_ERROR_NO_DEVICE
  | Some _ =>
      let% _ := pthread_once (call_symbol c) in
      let% result := real_call c in
      let% _ := restart_after_usb_disconnect function_name result in
      Ret result
  end.

(** [NULL_GUARD_INTERFACE], [libusb_set_interface_alt_setting], [libusb_reset_device] *)
Definition null_guard (c : call) : program Z :=
  match call_handle c with
  | None =>
      let% _ := guard_log (symbol_name (call_symbol c)) in
      Ret LIBUSB_ERROR_NO_DEVICE
  | Some _ =>
      let% _ := pthread_once (call_symbol c) in
      real_call c
  end.

Definition guarded_close (c : call) : program unit :=
  match call_handle c with
  | None => guard_log (symbol_name (call_symbol c))
  | Some _ =>
      let% _ := pthread_once (call_symbol c) in
      let% _ := real_call c in
      Ret tt
  end.

(** The function that a call reaches; [libusb_close] returns nothing. *)
Definition intercept (c : call) : program (option Z) :=
  match c with
  | Bulk _ _ _ _ transferred _ | Interrupt _ _ _ _ transferred _ =>
      let% r := guarded_transfer c transferred in Ret (Some r)
  | Control _ _ _ _ _ _ _ _ => let% r := guarded_control_transfer c in Ret (Some r)
  | ClaimInterface _ _ | ReleaseInterface _ _ | DetachKernelDriver _ _
  | SetAltSetting _ _ _ | ResetDevice _ => let% r := null_guard c in Ret (Some r)
  | Close _ => let% _ := guarded_close c in Ret None
  end.
End functions.

(** ** The meaning of the operations *)

Definition set_fence (v : Z) (s : state) : state :=
  {| blocked_calls := blocked_calls s; restart_on_disconnect := v; once := once s;
     real := real s; dl_error := dl_error s; ints := ints s; heap := heap s;
     next_address := next_address s; registered := registered s; trace := trace s;
     ended := ended s |}.
Definition set_blocked (v : Z) (s : state) : state :=
  {| blocked_calls := v; restart_on_disconnect := restart_on_disconnect s; once := once s;
     real := real s; dl_error := dl_error s; ints := ints s; heap := heap s;
     next_address := next_address s; registered := registered s; trace := trace s;
     ended := ended s |}.
Definition set_once (y : symbol) (v : once_state) (s : state) : state :=
  {| blocked_calls := blocked_calls s; restart_on_disconnect := restart_on_disconnect s;
     once := <[y := v]> (once s); real := real s; dl_error := dl_error s; ints := ints s;
     heap := heap s; next_address := next_address s; registered := registered s;
     trace := trace s; ended := ended s |}.
Definition set_real (y : symbol) (p : option Z) (s : state) : state :=
  {| blocked_calls := blocked_calls s; restart_on_disconnect := restart_on_disconnect s;
     once := once s; real := <[y := p]> (real s); dl_error := dl_error s; ints := ints s;
     heap := heap s; next_address := next_address s; registered := registered s;
     trace := trace s; ended := ended s |}.
Definition set_dl_error (t : nat) (e : option (list Z)) (s : state) : state :=
  {| blocked_calls := blocked_calls s; restart_on_disconnect := restart_on_disconnect s;
     once := once s; real := real s; dl_error := <[t := e]> (dl_error s); ints := ints s;
     heap := heap s; next_address := next_address s; registered := registered s;
     trace := trace s; ended := ended s |}.
Definition store_ints (vs : list (Z * Z)) (s : state) : state :=
  {| blocked_calls := blocked_calls s; restart_on_disconnect := restart_on_disconnect s;
     once := once s; real := real s; dl_error := dl_error s;
     ints := foldr (fun '(p, v) m => <[p := v]> m) (ints s) vs; heap := heap s;
     next_address := next_address s; registered := registered s; trace := trace s;
     ended := ended s |}.
Definition set_heap (h : gmap Z (nat * option guarded_hotplug_callback)) (next : Z) (s : state)
    : state :=
  {| blocked_calls := blocked_calls s; restart_on_disconnect := restart_on_disconnect s;
     once := once s; real := real s; dl_error := dl_error s; ints := ints s; heap := h;
     next_address := next; registered := registered s; trace := trace s; ended := ended s |}.
Definition add_registered (p : Z) (s : state) : state :=
  {| blocked_calls := blocked_calls s; restart_on_disconnect := restart_on_disconnect s;
     once := once s; real := real s; dl_error := dl_error s; ints := ints s; heap := heap s;
     next_address := next_address s; registered := p :: registered s; trace := trace s;
     ended := ended s |}.
Definition emit (e : observation) (s : state) : state :=
  {| blocked_calls := blocked_calls s; restart_on_disconnect := restart_on_disconnect s;
     once := once s; real := real s; dl_error := dl_error s; ints := ints s; heap := heap s;
     next_address := next_address s; registered := registered s; trace := trace s ++ [e];
     ended := ended s |}.
Definition end_with (f : fate) (s : state) : state :=
  {| blocked_calls := blocked_calls s; restart_on_disconnect := restart_on_disconnect s;
     once := once s; real := real s; dl_error := dl_error s; ints := ints s; heap := heap s;
     next_address := next_address s; registered := registered s; trace := trace s;
     ended := Some f |}.

Section semantics.
Context `{Platform} (env : environment).

(** An operation of a running process. *)
Definition effect {R} (o : op R) (t : nat) (s : state) : option (state * R) :=
  match o in op R return option (state * R) with
  | LoadFence => Some (s, restart_on_disconnect s)
  | StoreFence v => Some (set_fence v s, tt)
  | FetchAddBlocked =>
      let count := wrap_ulong (blocked_calls s + 1) in
      Some (emit (EBlocked t count) (set_blocked count s), blocked_calls s)
  | Getenv => Some (s, env_variable env)
  | WriteStderr bytes => Some (emit (EWrite t bytes) s, tt)
  | Exit code => Some (end_with (Exited code) (emit (EExit t code) s), tt)
  | Dlerror => Some (set_dl_error t None s, dl_error s t)
  | Dlsym y =>
      let '(p, e) := env_dlsym env y in
      Some (emit (EDlsym t y) (set_dl_error t e s), p)
  | StoreReal y p => Some (set_real y p s, tt)
  | LoadReal y => Some (s, real s y)
  | OnceEnter y =>
      match once s y with
      | NotRun => Some (set_once y (Initialising t) s, true)
      | Initialising _ => None
      | Resolved => Some (s, false)
      end
  | OnceLeave y => Some (set_once y Resolved s, tt)
  | StoreInt p v => Some (store_ints [(p, v)] s, tt)
  | Malloc =>
      if env_malloc env (trace s) then
        let p := next_address s in
        Some (emit (EMalloc t (Some p)) (set_heap (<[p := (t, None)]> (heap s)) (p + 1) s), Some p)
      else Some (emit (EMalloc t None) s, None)
  | StoreRecord p g =>
      match heap s !! p with
      | Some (u, _) => Some (set_heap (<[p := (u, Some g)]> (heap s)) (next_address s) s, tt)
      | None => Some (end_with Crashed s, tt)
      end
  | LoadRecord p =>
      match heap s !! p with
      | Some (_, Some g) => Some (s, g)
      | _ => Some (end_with Crashed s, {| callback := 0; user_data := 0 |})
      end
  | Free p =>
      match heap s !! p with
      | Some _ => Some (emit (EFree t p) (set_heap (delete p (heap s)) (next_address s) s), tt)
      | None => Some (end_with Crashed s, tt)
      end
  | GetDescriptor device => Some (s, env_descriptor env device)
  | CallReal f c =>
      let s := emit (EReal t c) s in
      match f, call_handle c with
      | Some _, Some _ =>
          let '(result, stores) := env_real env (trace s) in
          Some (store_ints stores s, result)
      | _, _ => Some (end_with Crashed s, 0)
      end
  | CallRegister f g p =>
      let s := emit (ERegister t g p) s in
      match f with
      | Some _ =>
          let '(result, present) := env_register env (trace s) in
          if result =? LIBUSB_SUCCESS then
            Some (match p with Some p => add_registered p s | None => s end, (result, present))
          else Some (s, (result, []))
      | None => Some (end_with Crashed s, (0, []))
      end
  | CallVendor callback context device event user_data =>
      let s := emit (EVendor t callback context device event user_data) s in
      Some (s, env_vendor env (trace s))
  | Registrations => Some (s, registered s)
  | Return q r => Some (emit (EReturn t q r) s, tt)
  end.

(** Nothing happens once the process has ended. *)
Definition perform (R : Type) (o : op R) (t : nat) (s : state) : option (state * R) :=
  match ended s with Some _ => None | None => effect o t s end.

(** A thread of the vendor's serves its requests one after the other. *)
Definition serve (q : request) : program (option Z) :=
  match q with
  | Call c => intercept c
  | Register g => let% r := hotplug_register_callback g in Ret (Some r)
  | HandleEvent choose context device event =>
      let% known := act Registrations in
      match choose known with
      | Some p =>
          if bool_decide (p ∈ known) then
            let% r := guarded_hotplug_dispatch context device event p in Ret (Some r)
          else Ret None
      | None => Ret None
      end
  end.

Context (client : nat -> list (option Z) -> option request).

Definition vendor_thread (t : nat) (results : list (option Z))
    : program (option (list (option Z))) :=
  match client t results with
  | None => Ret None
  | Some q =>
      let% r := serve q in
      let% _ := act (Return q r) in
      Ret (Some (results ++ [r]))
  end.

(** The process: [n] threads that have made no request yet. *)
Definition start (n : nat) : conf state (list (option Z)) :=
  {| shared := initial_state; threads := (fun t => vendor_thread t []) <$> seq 0 n |}.

Definition process_after (n : nat) (schedule : list nat) : state :=
  shared (trun perform vendor_thread (start n) schedule).
End semantics.
