(* ===== verification/GuardSafety.v ===== *)
(** * GuardSafety: what the guard promises

    The invariant of [Guard] under every interleaving of the vendor's threads, by rely
    and guarantee; what each interposed function does on every branch; and the C tests
    of the guard, run on the model. *)

From stdpp Require Import gmap functions.
From S2P Require Import Prelude Text Wire Header Threads Guard.

Open Scope Z_scope.

#[local] Abbreviation program := (prog op).
#[local] Abbreviation act := (@Threads.act op _).

(** ** What the guard promises *)

Definition is_transfer (c : call) : bool :=
  match c with Bulk _ _ _ _ _ _ | Interrupt _ _ _ _ _ _ | Control _ _ _ _ _ _ _ _ => true
  | _ => false end.

Definition is_close (c : call) : bool := match c with Close _ => true | _ => false end.

Section promises.
Context `{Platform} (env : environment).

Definition fence_on : bool := enables (env_variable env).

Definition sm768 (device : Z) : bool :=
  let '(result, id_vendor, id_product) := env_descriptor env device in
  (result =? LIBUSB_SUCCESS) && (id_vendor =? VENDOR_ID) && (id_product =? SM768_PRODUCT_ID).

(** A request that returns: a null handle was refused with the right error, and
    under the fence no transfer reports a disconnect. *)
Definition return_ok (q : request) (r : option Z) : Prop :=
  match q with
  | Call c =>
      (call_handle c = None -> r = if is_close c then None else Some LIBUSB_ERROR_NO_DEVICE) /\
      (fence_on = true -> is_transfer c = true -> r <> Some LIBUSB_ERROR_NO_DEVICE)
  | _ => True
  end.

(** Under the fence the vendor's callback never sees the adapter leave. *)
Definition vendor_ok (device event : Z) : Prop :=
  fence_on = true -> event = LIBUSB_HOTPLUG_EVENT_DEVICE_LEFT -> sm768 device = false.

Definition observation_ok (e : observation) : Prop :=
  match e with
  | EReal _ c => is_Some (call_handle c)
  | EVendor _ _ _ device event _ => vendor_ok device event
  | EReturn _ q r => return_ok q r
  | _ => True
  end.

Definition blocked_counts (tr : list observation) : list Z :=
  omap (fun e => match e with EBlocked _ count => Some count | _ => None end) tr.

Definition resolutions (tr : list observation) : list symbol :=
  omap (fun e => match e with EDlsym _ y => Some y | _ => None end) tr.

(** The counts that blocked calls take, in the order of their increments: 1, 2, 3,
    ..., as an [unsigned long]. *)
Definition counts_up (counts : list Z) : Prop :=
  counts = wrap_ulong <$> seqZ 1 (len counts).

(** ** The invariant *)

Definition fence_code : Z := if fence_on then 2 else 1.

(** The decision about the fence is cached once it was made. *)
Definition fence_cached (s : state) : Prop :=
  restart_on_disconnect s = 0 \/ restart_on_disconnect s = fence_code.

Record guard_inv (s : state) : Prop := {
  gi_fence : fence_cached s;
  gi_resolved : forall y, once s y = Resolved -> is_Some (real s y);
  gi_registered : forall p, p ∈ registered s -> exists u g, heap s !! p = Some (u, Some g);
  gi_fresh : forall p, is_Some (heap s !! p) -> p < next_address s;
  gi_alive : ended s <> Some Crashed;
  gi_trace : Forall observation_ok (trace s);
  gi_counts : counts_up (blocked_counts (trace s));
  gi_blocked : blocked_calls s = wrap_ulong (len (blocked_counts (trace s)));
  gi_once : NoDup (resolutions (trace s)) /\
            forall y, y ∈ resolutions (trace s) -> once s y <> NotRun;
}.

(** What the other threads leave to thread [t]. *)
Record guard_rely (t : nat) (s s' : state) : Prop := {
  gr_resolved : forall y, once s y = Resolved -> once s' y = Resolved;
  gr_mine : forall y, once s y = Initialising t ->
    once s' y = Initialising t /\ real s' y = real s y /\
    (y ∈ resolutions (trace s') -> y ∈ resolutions (trace s));
  gr_owned : forall p g, heap s !! p = Some (t, g) ->
    heap s' !! p = Some (t, g) /\ (p ∈ registered s' -> p ∈ registered s);
  gr_registered : forall p, p ∈ registered s ->
    p ∈ registered s' /\ heap s' !! p = heap s !! p;
  gr_ended : is_Some (ended s) -> ended s' = ended s;
}.

#[export] Instance guard_rely_preorder t : PreOrder (guard_rely t).
Proof.
  split.
  - intros s. by constructor.
  - intros s1 s2 s3 H1 H2. constructor.
    + intros y Hy. by apply H2, H1.
    + intros y Hy. destruct (gr_mine _ _ _ H1 y Hy) as (Ha & Hb & Hc).
      destruct (gr_mine _ _ _ H2 y Ha) as (Hd & He & Hf).
      split_and!; [done|congruence|]. auto.
    + intros p g Hp. destruct (gr_owned _ _ _ H1 p g Hp) as [Ha Hb].
      destruct (gr_owned _ _ _ H2 p g Ha) as [Hc Hd]. auto.
    + intros p Hp. destruct (gr_registered _ _ _ H1 p Hp) as [Ha Hb].
      destruct (gr_registered _ _ _ H2 p Ha) as [Hc Hd]. split; [done|congruence].
    + intros He. rewrite (gr_ended _ _ _ H2); [by apply (gr_ended _ _ _ H1)|].
      by rewrite (gr_ended _ _ _ H1).
Qed.

(** What an operation needs of a running process. *)
Definition needs {R} (o : op R) (t : nat) (s : state) : Prop :=
  match o with
  | StoreFence v => v = fence_code
  | Dlsym y => once s y = Initialising t /\ y ∉ resolutions (trace s)
  | StoreReal y _ => once s y = Initialising t
  | OnceLeave y => once s y = Initialising t /\ is_Some (real s y)
  | StoreRecord p _ | Free p => (exists g, heap s !! p = Some (t, g)) /\ p ∉ registered s
  | LoadRecord p => exists u g, heap s !! p = Some (u, Some g)
  | CallReal f c => is_Some f /\ is_Some (call_handle c)
  | CallRegister f _ p =>
      is_Some f /\ match p with Some p => exists g, heap s !! p = Some (t, Some g) | None => True end
  | CallVendor _ _ device event _ => vendor_ok device event
  | Return q r => return_ok q r
  | _ => True
  end.

Definition guard_pre (R : Type) (o : op R) (t : nat) (s : state) : Prop :=
  ended s = None -> needs o t s.

(** ** Every operation keeps the invariant *)

Lemma blocked_counts_app tr tr' :
  blocked_counts (tr ++ tr') = blocked_counts tr ++ blocked_counts tr'.
Proof. apply omap_app. Qed.

Lemma resolutions_app tr tr' : resolutions (tr ++ tr') = resolutions tr ++ resolutions tr'.
Proof. apply omap_app. Qed.

Lemma wrap_ulong_succ n : wrap_ulong (wrap_ulong n + 1) = wrap_ulong (n + 1).
Proof. unfold wrap_ulong. by rewrite Zplus_mod_idemp_l. Qed.

Lemma counts_up_snoc counts :
  counts_up counts -> counts_up (counts ++ [wrap_ulong (len counts + 1)]).
Proof.
  unfold counts_up. intros E. rewrite len_app. change (len [wrap_ulong (len counts + 1)]) with 1.
  rewrite seqZ_app by (pose proof (len_nonneg counts); lia). rewrite fmap_app, <- E.
  by rewrite (Z.add_comm 1).
Qed.

(** A state that differs only where no thread looks. *)
Lemma rely_same u s s' :
  once s' = once s -> real s' = real s -> heap s' = heap s -> registered s' = registered s ->
  ended s = None -> resolutions (trace s') = resolutions (trace s) -> guard_rely u s s'.
Proof.
  intros E1 E2 E3 E4 E5 E6. constructor; rewrite ?E1, ?E2, ?E3, ?E4, ?E6; try done.
  intros [? ?]. congruence.
Qed.

(** An observation that is neither a count nor a resolution. *)
Definition plain (e : observation) : Prop :=
  blocked_counts [e] = [] /\ resolutions [e] = [].

Lemma trace_plain e s :
  plain e -> blocked_counts (trace (emit e s)) = blocked_counts (trace s)
  /\ resolutions (trace (emit e s)) = resolutions (trace s).
Proof.
  intros [E1 E2]. cbn [trace emit]. by rewrite blocked_counts_app, resolutions_app, E1, E2, !app_nil_r.
Qed.

Lemma emit_inv e s : guard_inv s -> plain e -> observation_ok e -> guard_inv (emit e s).
Proof.
  intros Hs Hp He. destruct (trace_plain e s Hp) as [E1 E2]. destruct Hs.
  constructor; rewrite ?E1, ?E2; try done. cbn. by apply Forall_app_2; [|constructor].
Qed.

Lemma emit_rely e s u : plain e -> ended s = None -> guard_rely u s (emit e s).
Proof. intros Hp He. apply rely_same; try done. by apply trace_plain. Qed.

Lemma fetch_add_ok t s :
  guard_inv s -> ended s = None ->
  let s' := emit (EBlocked t (wrap_ulong (blocked_calls s + 1)))
              (set_blocked (wrap_ulong (blocked_calls s + 1)) s) in
  guard_inv s' /\ forall u, guard_rely u s s'.
Proof.
  intros Hs He s'. assert (Er : resolutions (trace s') = resolutions (trace s))
    by (unfold s'; cbn; by rewrite resolutions_app, app_nil_r).
  assert (Ec : blocked_counts (trace s') =
    blocked_counts (trace s) ++ [wrap_ulong (len (blocked_counts (trace s)) + 1)]).
  { unfold s'. cbn. rewrite blocked_counts_app. cbn. do 2 f_equal.
    by rewrite (gi_blocked _ Hs), wrap_ulong_succ. }
  split; [|intros u; by apply rely_same].
  pose proof (gi_blocked _ Hs) as Hb. destruct Hs. constructor; rewrite ?Ec, ?Er; try done.
  - cbn. by apply Forall_app_2; [|repeat constructor].
  - by apply counts_up_snoc.
  - rewrite len_app. change (blocked_calls s') with (wrap_ulong (blocked_calls s + 1)).
    by rewrite Hb, wrap_ulong_succ.
Qed.

Lemma dlsym_ok t y e s :
  guard_inv s -> ended s = None -> once s y = Initialising t -> y ∉ resolutions (trace s) ->
  let s' := emit (EDlsym t y) (set_dl_error t e s) in
  guard_inv s' /\ forall u, u <> t -> guard_rely u s s'.
Proof.
  intros Hs He Hy Hn s'. assert (Er : resolutions (trace s') = resolutions (trace s) ++ [y])
    by (unfold s'; cbn; by rewrite resolutions_app).
  assert (Ec : blocked_counts (trace s') = blocked_counts (trace s))
    by (unfold s'; cbn; by rewrite blocked_counts_app, app_nil_r).
  split.
  - destruct Hs as [? ? ? ? ? ? ? ? [Hnd Hon]]. constructor; rewrite ?Ec, ?Er; try done.
    + cbn. by apply Forall_app_2; [|repeat constructor].
    + split.
      * apply NoDup_app. split_and!; [done|set_solver|]. apply NoDup_singleton.
      * intros z [Hz|Hz%list_elem_of_singleton]%elem_of_app; [by apply Hon|]. subst z. cbn. congruence.
  - intros u Hu. constructor; try done.
    + intros z Hz. split_and!; [done|done|]. rewrite Er.
      intros [Hin|Hin%list_elem_of_singleton]%elem_of_app; [done|]. congruence.
Qed.

Lemma set_once_ok t y v s :
  guard_inv s -> ended s = None -> once s y = NotRun \/ once s y = Initialising t ->
  v <> NotRun -> (v = Resolved -> is_Some (real s y)) ->
  (forall u, u <> t -> v <> Initialising u) ->
  guard_inv (set_once y v s) /\ forall u, u <> t -> guard_rely u s (set_once y v s).
Proof.
  intros Hs He Hy Hv Hr Hi. split.
  - destruct Hs as [? Hres ? ? ? ? ? ? [Hnd Hon]]. constructor; cbn; try done.
    + intros z. destruct (decide (z = y)) as [->|Hne].
      * by rewrite fn_lookup_insert.
      * rewrite fn_lookup_insert_ne by done. apply Hres.
    + split; [done|]. intros z Hz. destruct (decide (z = y)) as [->|Hne].
      * by rewrite fn_lookup_insert.
      * rewrite fn_lookup_insert_ne by done. by apply Hon.
  - intros u Hu. constructor; cbn; try done.
    + intros z Hz. rewrite fn_lookup_insert_ne; [done|]. intros ->. destruct Hy; congruence.
    + intros z Hz. rewrite fn_lookup_insert_ne; [done|]. intros ->. destruct Hy; congruence.
Qed.

Lemma set_real_ok t y p s :
  guard_inv s -> ended s = None -> once s y = Initialising t ->
  guard_inv (set_real y p s) /\ forall u, u <> t -> guard_rely u s (set_real y p s).
Proof.
  intros Hs He Hy. split.
  - pose proof (gi_resolved _ Hs) as Hres. destruct Hs. constructor; cbn; try done.
    intros z Hz. rewrite fn_lookup_insert_ne; [by apply Hres|]. intros ->. congruence.
  - intros u Hu. constructor; cbn; try done.
    + intros z Hz. rewrite fn_lookup_insert_ne; [done|]. intros ->. congruence.
Qed.

(** A change of a record that belongs to thread [t] and is not registered. *)
Lemma set_heap_ok t p v next s :
  guard_inv s -> ended s = None -> next_address s <= next -> p < next -> p ∉ registered s ->
  (forall u g, heap s !! p = Some (u, g) -> u = t) ->
  (forall u g, v = Some (u, g) -> u = t) ->
  let s' := set_heap (partial_alter (fun _ => v) p (heap s)) next s in
  guard_inv s' /\ forall u, u <> t -> guard_rely u s s'.
Proof.
  intros Hs He Hn Hp Hreg Hown Hv s'. assert (Hreg' : forall q, q ∈ registered s -> q <> p)
    by (intros q Hq ->; done).
  split.
  - pose proof (gi_registered _ Hs) as Hr. pose proof (gi_fresh _ Hs) as Hf.
    destruct Hs. constructor; cbn; try done.
    + intros q Hq. rewrite lookup_partial_alter_ne by (symmetry; by apply Hreg'). by apply Hr.
    + intros q. destruct (decide (q = p)) as [->|Hne]; [done|].
      rewrite lookup_partial_alter_ne by done. intros Hq%Hf. lia.
  - intros u Hu. constructor; cbn; try done.
    + intros q g Hq. rewrite lookup_partial_alter_ne; [done|]. intros <-. by destruct (Hown _ _ Hq).
    + intros q Hq. split; [done|]. rewrite lookup_partial_alter_ne; [done|]. symmetry. by apply Hreg'.
Qed.

Lemma end_with_ok code s :
  guard_inv s -> ended s = None ->
  guard_inv (end_with (Exited code) s) /\ forall u, guard_rely u s (end_with (Exited code) s).
Proof.
  intros Hs He. split; [destruct Hs; by constructor|].
  intros u. constructor; try done. intros [? ?]. congruence.
Qed.

Lemma add_registered_ok t p g s :
  guard_inv s -> ended s = None -> heap s !! p = Some (t, Some g) ->
  guard_inv (add_registered p s) /\ forall u, u <> t -> guard_rely u s (add_registered p s).
Proof.
  intros Hs He Hp. split.
  - pose proof (gi_registered _ Hs) as Hr. destruct Hs. constructor; cbn; try done.
    intros q [->|Hq]%elem_of_cons; [by eauto|by apply Hr].
  - intros u Hu. constructor; cbn; try done.
    + intros q g' Hq. split; [done|]. intros [->|?]%elem_of_cons; [congruence|done].
    + intros q Hq. split; [by right|done].
Qed.

Lemma store_ints_ok vs s :
  guard_inv s -> ended s = None ->
  guard_inv (store_ints vs s) /\ forall u, guard_rely u s (store_ints vs s).
Proof. intros Hs He. split; [destruct Hs; by constructor|intros u; by apply rely_same]. Qed.

(** A change of the state and then an observation. *)
Lemma then_emit e s s' (P : nat -> Prop) :
  guard_inv s' /\ (forall u, P u -> guard_rely u s s') -> ended s' = None ->
  plain e -> observation_ok e ->
  guard_inv (emit e s') /\ forall u, P u -> guard_rely u s (emit e s').
Proof.
  intros [Hs Hr] He Hp Ho. split; [by apply emit_inv|].
  intros u Hu. etrans; [by apply Hr|by apply emit_rely].
Qed.

Lemma emit_ok e s :
  guard_inv s -> ended s = None -> plain e -> observation_ok e ->
  guard_inv (emit e s) /\ forall u, guard_rely u s (emit e s).
Proof. intros. split; [by apply emit_inv|]. intros u. by apply emit_rely. Qed.

(** The operations that allocate and that call libusb. *)
Section calls.
Context (t : nat) (s s' : state) (Hs : guard_inv s) (He : ended s = None).

Lemma malloc_ok r :
  effect env Malloc t s = Some (s', r) -> guard_inv s' /\ forall u, u <> t -> guard_rely u s s'.
Proof using Hs He.
  cbn [effect]. destruct (env_malloc env (trace s)); intros [= <- <-].
  - apply (then_emit _ _ _ (fun u => u <> t)); try done.
    assert (Hfresh : heap s !! next_address s = None).
    { destruct (heap s !! next_address s) eqn:E; [|done].
      assert (next_address s < next_address s) by (apply (gi_fresh _ Hs); by eexists). lia. }
    apply set_heap_ok; try done; [lia|lia| | |naive_solver].
    + intros (u & g & E)%(gi_registered _ Hs). congruence.
    + intros u g E. congruence.
  - destruct (emit_ok (EMalloc t None) s Hs He) as [? ?]; [done..|]. auto.
Qed.

Lemma call_real_ok f c r :
  needs (CallReal f c) t s -> effect env (CallReal f c) t s = Some (s', r) ->
  guard_inv s' /\ forall u, u <> t -> guard_rely u s s'.
Proof using Hs He.
  cbn [effect needs]. intros [[f' ->] [h Hh]]. rewrite Hh. destruct (env_real _ _) as [result stores].
  intros [= <- <-]. destruct (emit_ok (EReal t c) s Hs He) as [Ha Hb]; [done|by exists h|].
  destruct (store_ints_ok stores _ Ha He) as [Hc Hd]. split; [done|]. intros u _. etrans; [apply Hb|apply Hd].
Qed.

Lemma call_register_ok f g p r :
  needs (CallRegister f g p) t s -> effect env (CallRegister f g p) t s = Some (s', r) ->
  guard_inv s' /\ forall u, u <> t -> guard_rely u s s'.
Proof using Hs He.
  cbn [effect needs]. intros [[f' ->] Hp]. destruct (emit_ok (ERegister t g p) s Hs He) as [Ha Hb]; [done..|].
  destruct (env_register _ _) as [result present]. destruct (result =? LIBUSB_SUCCESS).
  - intros [= <- <-]. destruct p as [p|]; [|by auto]. destruct Hp as [g' Hg].
    destruct (add_registered_ok t p g' _ Ha He Hg) as [Hc Hd]. split; [done|].
    intros u Hu. etrans; [by apply Hb|by apply Hd].
  - intros [= <- <-]. auto.
Qed.
End calls.

Lemma perform_ok (R : Type) (o : op R) t s s' r :
  guard_inv s -> guard_pre R o t s -> perform env R o t s = Some (s', r) ->
  guard_inv s' /\ forall u, u <> t -> guard_rely u s s'.
Proof.
  intros Hs Hpre. unfold perform. destruct (ended s) eqn:He; [done|].
  specialize (Hpre He). unfold guard_pre in Hpre.
  assert (Hweak : forall P : nat -> Prop, (forall u, P u) -> forall u, u <> t -> P u) by auto.
  destruct o; cbn [effect needs] in *.
  - intros [= <- <-]. by split; [|intros; reflexivity].
  - intros [= <- <-]. subst v. split; [|intros; by apply rely_same]. destruct Hs; constructor; try done.
    by right.
  - intros [= <- <-]. destruct (fetch_add_ok t s Hs He). auto.
  - intros [= <- <-]. by split; [|intros; reflexivity].
  - intros [= <- <-]. destruct (emit_ok (EWrite t bytes) s Hs He) as [? ?]; [done..|]. auto.
  - intros [= <- <-]. destruct (emit_ok (EExit t code) s Hs He) as [Ha Hb]; [done..|].
    destruct (end_with_ok code _ Ha He) as [Hc Hd]. split; [done|]. intros u _. etrans; [apply Hb|apply Hd].
  - intros [= <- <-]. split; [destruct Hs; by constructor|intros; by apply rely_same].
  - destruct (env_dlsym env y) as [p e]. intros [= <- <-]. destruct Hpre. by apply dlsym_ok.
  - intros [= <- <-]. by apply set_real_ok.
  - intros [= <- <-]. by split; [|intros; reflexivity].
  - destruct (once s y) eqn:Hy; [|done|].
    + intros [= <- <-]. apply set_once_ok; try done; [by left|]. intros u Hu [=]. done.
    + intros [= <- <-]. by split; [|intros; reflexivity].
  - intros [= <- <-]. destruct Hpre. apply set_once_ok; try done. by right.
  - intros [= <- <-]. destruct (store_ints_ok [(p, v)] s Hs He). auto.
  - by apply malloc_ok.
  - destruct Hpre as [[g' Hg] Hn]. rewrite Hg. intros [= <- <-].
    apply set_heap_ok; try done; [|naive_solver..]. apply (gi_fresh _ Hs). by eexists.
  - destruct Hpre as (u & g & Hg). rewrite Hg. intros [= <- <-]. by split; [|intros; reflexivity].
  - destruct Hpre as [[g Hg] Hn]. rewrite Hg. intros [= <- <-].
    apply (then_emit _ _ _ (fun u => u <> t)); try done.
    apply set_heap_ok; try done; [|naive_solver..]. apply (gi_fresh _ Hs). by eexists.
  - intros [= <- <-]. by split; [|intros; reflexivity].
  - by apply call_real_ok.
  - by apply call_register_ok.
  - intros [= <- <-]. edestruct emit_ok as [Ha Hb]; [exact Hs|exact He| | |split; [exact Ha|auto]]; done.
  - intros [= <- <-]. by split; [|intros; reflexivity].
  - intros [= <- <-]. edestruct emit_ok as [Ha Hb]; [exact Hs|exact He| | |split; [exact Ha|auto]]; done.
Qed.

(** ** Every function is safe *)

Definition gsafe {A} (t : nat) (p : program A) (s : state) (Q : A -> state -> Prop) : Prop :=
  safe (perform env) guard_inv guard_rely guard_pre t p s Q.

Lemma gsafe_do {A R} t (o : op R) (k : R -> program A) s Q :
  (forall s', guard_rely t s s' -> guard_inv s' -> ended s' = None -> needs o t s') ->
  (forall s' s'' r, guard_rely t s s' -> guard_inv s' -> ended s' = None ->
     effect env o t s' = Some (s'', r) -> guard_inv s'' -> gsafe t (k r) s'' Q) ->
  gsafe t (Do o k) s Q.
Proof.
  intros Hn Hk. apply safe_do.
  - intros s1 s2 r. apply perform_ok.
  - intros s' Hs Hi He. by apply Hn.
  - intros s' s'' r Hs Hi E Hi'. unfold perform in E. destruct (ended s') eqn:He; [done|]. by eapply Hk.
Qed.

Lemma gsafe_bind {A B} t (p : program A) (k : A -> program B) s Q :
  gsafe t p s (fun a s => gsafe t (k a) s Q) -> gsafe t (prog_bind p k) s Q.
Proof. apply safe_bind, _. Qed.

(** Sequencing through an intermediate assertion. *)
Lemma gsafe_seq {A B} t (p : program A) (k : A -> program B) s P Q :
  gsafe t p s P -> (forall a s', guard_inv s' -> P a s' -> gsafe t (k a) s' Q) ->
  gsafe t (prog_bind p k) s Q.
Proof. intros Hp Hk. apply gsafe_bind. eapply safe_mono; [exact Hp|]. intros; by apply Hk. Qed.

Lemma gsafe_ret {A} t (a : A) s (Q : A -> state -> Prop) :
  (forall s', guard_rely t s s' -> guard_inv s' -> Q a s') -> gsafe t (Ret a) s Q.
Proof. done. Qed.

(** Operations that change nothing that the thread itself holds. *)
Definition quiet {R} (o : op R) : bool :=
  match o with
  | LoadFence | StoreFence _ | FetchAddBlocked | Getenv | WriteStderr _ | Exit _ | Dlerror
  | LoadReal _ | StoreInt _ _ | GetDescriptor _ | CallReal _ _ | CallVendor _ _ _ _ _
  | Registrations | Return _ _ => true
  | _ => false
  end.

Lemma quiet_rely {R} (o : op R) t u s s' r :
  quiet o = true -> ended s = None -> needs o t s -> effect env o t s = Some (s', r) ->
  guard_rely u s s'.
Proof.
  intros Hq He Hn E.
  assert (Hobs : forall e s1, plain e -> ended s1 = None -> guard_rely u s s1 ->
    guard_rely u s (emit e s1)).
  { intros e s1 Hp He1 Hr. etrans; [exact Hr|by apply emit_rely]. }
  destruct o; try done; cbn [effect needs] in *;
    try (injection E as <- <-; first [reflexivity|by apply rely_same|by apply Hobs]).
  - injection E as <- <-. apply rely_same; try done. cbn. by rewrite resolutions_app, app_nil_r.
  - injection E as <- <-. etrans; [by apply (emit_rely (EExit t code))|].
    constructor; try done. cbn. intros [? ?]. congruence.
  - destruct Hn as [[f' ->] [h Hh]]. rewrite Hh in E. destruct (env_real _ _).
    injection E as <- <-. etrans; [by apply (emit_rely (EReal t c))|by apply rely_same].
Qed.

Lemma gsafe_quiet {A R} t (o : op R) (k : R -> program A) s Q :
  quiet o = true ->
  (forall s', guard_rely t s s' -> guard_inv s' -> ended s' = None -> needs o t s') ->
  (forall s' s'' r, guard_rely t s s' -> guard_inv s' -> ended s' = None ->
     effect env o t s' = Some (s'', r) -> guard_inv s'' -> guard_rely t s s'' ->
     gsafe t (k r) s'' Q) ->
  gsafe t (Do o k) s Q.
Proof.
  intros Hq Hn Hk. apply gsafe_do; [done|]. intros s' s'' r Hs Hi He E Hi'.
  eapply Hk; [done..|]. etrans; [exact Hs|]. eapply quiet_rely; [done..| |done]. by apply Hn.
Qed.

Lemma write_message_safe t text s :
  gsafe t (write_message text) s (fun _ s' => guard_rely t s s').
Proof.
  unfold write_message. case_test; [|by apply gsafe_ret].
  apply gsafe_quiet; [done..|]. intros s' s'' r _ _ _ _ _ Hr.
  apply gsafe_ret. intros s3 H3 _. by etrans.
Qed.

Lemma restart_fence_safe t s :
  gsafe t restart_fence_enabled s (fun b s' => guard_rely t s s' /\ b = fence_on).
Proof.
  unfold restart_fence_enabled. cbn [prog_bind Threads.act].
  apply gsafe_quiet; [done..|]. intros s1 s2 cached _ Hi _ E _ Hr. cbn in E. injection E as <- <-.
  case_test as Hc.
  - apply gsafe_ret. intros s3 H3 _. split; [by etrans|].
    destruct (gi_fence _ Hi) as [?|Hf]; [done|]. rewrite Hf. unfold fence_code. by destruct fence_on.
  - apply gsafe_quiet; [done..|]. intros s3 s4 value Hs _ _ E _ Hr'. cbn in E. injection E as <- <-.
    apply gsafe_quiet; [done|by intros|]. intros s5 s6 r _ _ _ _ _ Hr''.
    apply gsafe_ret. intros s7 H7 _. split; [|done]. etrans; [exact Hr|]. etrans; [exact Hr'|]. by etrans.
Qed.

(** The process has ended when this returns. *)
Lemma controlled_restart_safe t reason s :
  gsafe t (controlled_restart reason) s (fun _ s' => guard_rely t s s' /\ is_Some (ended s')).
Proof.
  unfold controlled_restart. eapply gsafe_seq; [apply write_message_safe|].
  intros ? s' _ Hs. apply gsafe_quiet; [done..|]. intros s1 s2 r _ _ _ E _ Hr. cbn in E.
  injection E as <- <-. apply gsafe_ret. intros s3 H3 _.
  split; [etrans; [exact Hs|]; by etrans|]. rewrite (gr_ended _ _ _ H3); by eexists.
Qed.

Lemma restart_after_safe t name result s :
  gsafe t (restart_after_usb_disconnect name result) s (fun _ s' =>
    guard_rely t s s' /\ (ended s' = None -> fence_on = true -> result <> LIBUSB_ERROR_NO_DEVICE)).
Proof.
  unfold restart_after_usb_disconnect. case_test; [|by apply gsafe_ret].
  eapply gsafe_seq; [apply restart_fence_safe|]. intros b s1 _ [H1 ->].
  destruct fence_on eqn:Hf.
  - eapply safe_mono; [apply controlled_restart_safe|]. intros ? s2 _ [H2 [f Hend]].
    split; [by etrans|]. congruence.
  - apply gsafe_ret. intros s2 H2 _. split; [by etrans|done].
Qed.

Lemma guard_log_safe t name s : gsafe t (guard_log name) s (fun _ s' => guard_rely t s s').
Proof.
  unfold guard_log. cbn [prog_bind Threads.act]. apply gsafe_quiet; [done..|].
  intros s1 s2 old _ _ _ _ _ Hr. eapply safe_mono; [apply write_message_safe|].
  intros ? s3 _ H3. by etrans.
Qed.

Lemma resolve_safe t y s :
  once s y = Initialising t -> y ∉ resolutions (trace s) ->
  gsafe t (resolve_or_die y) s (fun _ s' =>
    ended s' = None -> once s' y = Initialising t /\ is_Some (real s' y)).
Proof.
  intros Hy Hn. unfold resolve_or_die. cbn [prog_bind Threads.act].
  apply gsafe_quiet; [done..|]. intros _ s1 _ _ _ _ _ _ H1.
  destruct (gr_mine _ _ _ H1 y Hy) as (Hy1 & _ & Hn1).
  apply gsafe_do.
  { intros s2 H2 _ _. destruct (gr_mine _ _ _ H2 y Hy1) as (Hy2 & _ & Hn2). by split; [|auto]. }
  intros s2 s3 target H2 _ _ E _. destruct (gr_mine _ _ _ H2 y Hy1) as (Hy2 & _ & _).
  cbn in E. destruct (env_dlsym env y) as [p e]. injection E as <- <-.
  apply gsafe_do.
  { intros s4 H4 _ _. by apply (gr_mine _ _ _ H4 y). }
  intros s4 s5 r4 H4 _ _ E _. destruct (gr_mine _ _ _ H4 y Hy2) as (Hy4 & _ & _).
  cbn in E. injection E as <- <-.
  apply gsafe_quiet; [done..|]. intros _ s6 error _ _ _ _ _ H6.
  destruct (gr_mine _ _ _ H6 y Hy4) as (Hy6 & Hr6 & _). cbn in Hr6. rewrite fn_lookup_insert in Hr6.
  destruct p as [p|], error as [error|].
  2: { apply gsafe_ret. intros s7 H7 _ _. destruct (gr_mine _ _ _ H7 y Hy6) as (? & -> & _).
       by rewrite Hr6. }
  all: eapply gsafe_seq; [apply write_message_safe|]; intros ? s7 _ H7;
    apply gsafe_quiet; [done..|]; intros s8 s9 ? _ _ _ E _ _; cbn in E; injection E as <- <-;
    apply gsafe_ret; intros s10 H10 _ Hend; rewrite (gr_ended _ _ _ H10) in Hend; [done|by eexists].
Qed.

Lemma pthread_once_safe t y s :
  gsafe t (pthread_once y) s (fun _ s' => ended s' = None -> once s' y = Resolved).
Proof.
  unfold pthread_once. cbn [prog_bind Threads.act]. apply gsafe_do; [done|].
  intros s1 s2 first _ Hi _ E _. cbn in E. destruct (once s1 y) eqn:Hy; [|done|].
  - injection E as <- <-. eapply gsafe_seq; [apply (resolve_safe t y)|].
    + cbn. apply fn_lookup_insert.
    + cbn. intros Hin. by apply (proj2 (gi_once _ Hi) y).
    + intros ? s3 _ H3. destruct (ended s3) as [f|] eqn:He.
      * apply gsafe_do.
        { intros s4 H4 _ He4. rewrite (gr_ended _ _ _ H4) in He4 by (by rewrite He). congruence. }
        intros s4 s5 ? H4 _ He4. rewrite (gr_ended _ _ _ H4) in He4 by (by rewrite He). congruence.
      * destruct (H3 He) as [Hy3 Hr3]. apply gsafe_do.
        { intros s4 H4 _ _. destruct (gr_mine _ _ _ H4 y Hy3) as (? & Hr & _). cbn. by rewrite Hr. }
        intros s4 s5 ? H4 _ _ E _. cbn in E. injection E as <- <-.
        apply gsafe_ret. intros s6 H6 _ _. apply (gr_resolved _ _ _ H6). cbn. apply fn_lookup_insert.
  - injection E as <- <-. apply gsafe_ret. intros s3 H3 _ _. by apply (gr_resolved _ _ _ H3).
Qed.

Lemma real_call_safe t c s :
  (ended s = None -> once s (call_symbol c) = Resolved) -> is_Some (call_handle c) ->
  gsafe t (real_call c) s (fun _ _ => True).
Proof.
  intros Hy Hh. unfold real_call. cbn [prog_bind Threads.act]. apply gsafe_quiet; [done..|].
  intros s1 s2 f H1 Hi He E _ _. cbn in E. injection E as <- <-.
  assert (is_Some (real s1 (call_symbol c))) as [f Hf].
  { apply (gi_resolved _ Hi), (gr_resolved _ _ _ H1), Hy. destruct (ended s) eqn:Hs; [|done].
    rewrite (gr_ended _ _ _ H1) in He; [congruence|by rewrite Hs]. }
  apply gsafe_quiet; [done| |by intros; apply gsafe_ret].
  intros s3 _ _ _. split; [by exists f|done].
Qed.

Lemma dispatch_safe t context device event p s :
  p ∈ registered s ->
  gsafe t (guarded_hotplug_dispatch context device event p) s (fun _ s' => guard_rely t s s').
Proof.
  intros Hp. unfold guarded_hotplug_dispatch.
  apply (gsafe_seq _ _ _ _ (fun b s' => guard_rely t s s' /\
    b = (event =? LIBUSB_HOTPLUG_EVENT_DEVICE_LEFT) && fence_on)).
  { case_test; [apply restart_fence_safe|]. apply gsafe_ret. by intros. }
  intros b s1 _ [H1 ->].
  apply (gsafe_seq _ _ _ _ (fun _ s' => guard_rely t s s' /\
    (ended s' = None -> vendor_ok device event))).
  - destruct (event =? LIBUSB_HOTPLUG_EVENT_DEVICE_LEFT) eqn:Hev, fence_on eqn:Hf; cbn [andb].
    2-4: apply gsafe_ret; intros s2 H2 _; split; [by etrans|]; intros _; unfold vendor_ok;
      intros; reflect_bool; congruence.
    apply gsafe_quiet; [done..|]. intros s2 s3 d _ _ _ E _ H3. cbn in E. injection E as <- <-.
    destruct (env_descriptor env device) as [[result v] q] eqn:Hd. case_test as Hm.
    + eapply safe_mono; [apply controlled_restart_safe|]. intros ? s4 _ [H4 [f Hend]].
      split; [etrans; [exact H1|]; by etrans|congruence].
    + apply gsafe_ret. intros s4 H4 _. split; [etrans; [exact H1|]; by etrans|].
      intros _ _ _. unfold sm768. by rewrite Hd.
  - intros ? s2 _ [H2 Hv]. apply gsafe_do.
    { intros s3 H3 Hi _. apply (gi_registered _ Hi). apply (gr_registered _ _ _ H3).
      by apply (gr_registered _ _ _ H2). }
    intros s3 s4 g H3 Hi He E _. assert (p ∈ registered s3) as Hp3
      by (apply (gr_registered _ _ _ H3); by apply (gr_registered _ _ _ H2)).
    destruct (gi_registered _ Hi p Hp3) as (u & g' & Hg). cbn in E. rewrite Hg in E.
    injection E as <- <-.
    assert (ended s2 = None) as He2.
    { destruct (ended s2) eqn:E2; [|done]. rewrite (gr_ended _ _ _ H3) in He; [congruence|by rewrite E2]. }
    apply gsafe_quiet; [done| |]. { intros s5 _ _ _. by apply Hv. }
    intros s5 s6 r _ _ _ _ _ H6. apply gsafe_ret. intros s7 H7 _.
    etrans; [exact H2|]. etrans; [exact H3|]. by etrans.
Qed.

Lemma real_register_safe t g p s :
  (ended s = None -> once s libusb_hotplug_register_callback = Resolved) ->
  (forall q, p = Some q -> exists r, heap s !! q = Some (t, Some r) /\ q ∉ registered s) ->
  gsafe t (real_register g p) s (fun result s' =>
    forall q, p = Some q -> ended s' = None -> result <> LIBUSB_SUCCESS ->
      exists r, heap s' !! q = Some (t, Some r) /\ q ∉ registered s').
Proof.
  intros Hy Hp. unfold real_register. cbn [prog_bind Threads.act].
  apply gsafe_quiet; [done..|]. intros s1 s2 f H1 Hi He E _ _. cbn in E. injection E as <- <-.
  assert (is_Some (real s1 libusb_hotplug_register_callback)) as [f Hf].
  { apply (gi_resolved _ Hi), (gr_resolved _ _ _ H1), Hy. destruct (ended s) eqn:Hs; [|done].
    rewrite (gr_ended _ _ _ H1) in He; [congruence|by rewrite Hs]. }
  assert (Hp' : forall s', guard_rely t s1 s' -> forall q, p = Some q ->
    exists r, heap s' !! q = Some (t, Some r) /\ q ∉ registered s').
  { intros s' Hs' q Hq. destruct (Hp q Hq) as (r & Hr & Hn). exists r.
    destruct (gr_owned _ _ _ H1 q _ Hr) as [Hr1 Hn1].
    destruct (gr_owned _ _ _ Hs' q _ Hr1) as [Hr2 Hn2]. by split; [|auto]. }
  apply gsafe_do.
  { intros s2 H2 _ _. split; [by exists f|]. destruct p as [q|]; [|done].
    destruct (Hp' s2 H2 q eq_refl) as (r & ? & _). by exists r. }
  intros s2 s3 [result present] H2 _ He2 E Hi3. cbn in E. rewrite Hf in E.
  destruct (env_register _ _) as [result' present']. destruct (result' =? _) eqn:Hres; injection E as <- <- <-.
  - eapply (gsafe_seq _ _ _ _ (fun _ _ => True)).
    + destruct p as [q|]; [|by apply gsafe_ret].
      eapply safe_mono; [apply (safe_each _ _ _ _ t _ _ _ (fun s => q ∈ registered s))|done].
      * intros [device event] s4 _ Hq _. eapply gsafe_seq; [by apply dispatch_safe|].
        intros ? s5 _ H5. apply gsafe_ret. intros s6 H6 _. cbn beta in *.
        apply (gr_registered _ _ _ H6). by apply (gr_registered _ _ _ H5).
      * intros s4 s5 Hq H5 _. by apply (gr_registered _ _ _ H5).
      * left.
      * exact Hi3.
    + intros ? s4 _ _. apply gsafe_ret. intros s5 _ _ q _ _ Hne. by apply Z.eqb_eq in Hres.
  - assert (Hnone : match p with
      | Some q => prog_each [] (fun '(device, event) =>
          let% _ := guarded_hotplug_dispatch (reg_context g) device event q in Ret tt)
      | None => Ret tt end = Ret (op := op) tt) by (by destruct p).
    rewrite Hnone. cbn [prog_bind]. apply gsafe_ret. intros s4 H4 _ q Hq _ _.
    assert (Hr4 : guard_rely t s1 s4).
    { rewrite H2, <- H4. apply emit_rely; done. }
    exact (Hp' s4 Hr4 q Hq).
Qed.

Lemma register_safe t g s :
  gsafe t (hotplug_register_callback g) s (fun _ _ => True).
Proof.
  unfold hotplug_register_callback. eapply gsafe_seq; [apply pthread_once_safe|].
  intros ? s1 _ H1. destruct (reg_callback g) as [f|].
  2: { eapply safe_mono; [by apply real_register_safe|done]. }
  cbn [prog_bind Threads.act]. apply gsafe_do; [done|]. intros s2 s3 p H2 Hi2 He2 E Hi3. cbn in E.
  assert (Hy2 : once s2 libusb_hotplug_register_callback = Resolved).
  { apply (gr_resolved _ _ _ H2), H1. destruct (ended s1) eqn:Hs; [|done].
    rewrite (gr_ended _ _ _ H2) in He2; [congruence|by rewrite Hs]. }
  destruct (env_malloc env (trace s2)); injection E as <- <-; [|by apply gsafe_ret].
  assert (Hn : next_address s2 ∉ registered s2).
  { intros (u & r & Hr)%(gi_registered _ Hi2).
    assert (next_address s2 < next_address s2) by (apply (gi_fresh _ Hi2); by eexists). lia. }
  assert (Hown : forall s', guard_rely t (emit (EMalloc t (Some (next_address s2)))
      (set_heap (<[next_address s2 := (t, None)]> (heap s2)) (next_address s2 + 1) s2)) s' ->
    heap s' !! next_address s2 = Some (t, None) /\ next_address s2 ∉ registered s').
  { intros s' Hs'. destruct (gr_owned _ _ _ Hs' (next_address s2) None) as [? Hr].
    - cbn. apply lookup_insert_eq.
    - split; [done|]. intros Hin. apply Hn. by apply Hr in Hin. }
  set (p := next_address s2) in *. clearbody p.
  apply gsafe_do. { intros s3 Hs3 _ _. destruct (Hown s3 Hs3). by split; [eexists|]. }
  intros s3 s4 ? Hs3 _ He3 E _. destruct (Hown s3 Hs3) as [Hh3 Hn3]. cbn in E. rewrite Hh3 in E.
  injection E as <- <-. eapply gsafe_seq; [apply real_register_safe|].
  - intros _. apply (gr_resolved _ _ _ Hs3). done.
  - intros q [= <-]. eexists. cbn. by rewrite lookup_insert_eq.
  - intros result s5 _ H5. eapply (gsafe_seq _ _ _ _ (fun _ _ => True)); [|by intros; apply gsafe_ret].
    case_test; [|by apply gsafe_ret]. apply gsafe_do; [|by intros; apply gsafe_ret].
    intros s6 H6 _ He6. destruct (H5 p) as (r & Hr & Hn5); [done| |done|].
    + destruct (ended s5) eqn:Hs; [|done]. rewrite (gr_ended _ _ _ H6) in He6; [congruence|by rewrite Hs].
    + destruct (gr_owned _ _ _ H6 p _ Hr) as [? Hn6]. split; [by eexists|auto].
Qed.

(** What a guarded function returns while the process runs. *)
Definition answer_ok (c : call) (r : Z) : Prop :=
  (call_handle c = None -> r = LIBUSB_ERROR_NO_DEVICE) /\
  (fence_on = true -> is_transfer c = true -> r <> LIBUSB_ERROR_NO_DEVICE).

(** The two branches that the transfer functions share. *)
Lemma blocked_safe t c name s :
  call_handle c = None ->
  gsafe t (let% _ := guard_log name in
           let% _ := restart_after_usb_disconnect name LIBUSB_ERROR_NO_DEVICE in
           Ret LIBUSB_ERROR_NO_DEVICE) s
    (fun r s' => ended s' = None -> answer_ok c r).
Proof.
  intros Hc. eapply gsafe_seq; [apply guard_log_safe|]. intros ? s1 _ _.
  eapply gsafe_seq; [apply restart_after_safe|]. intros ? s2 _ [_ H2].
  apply gsafe_ret. intros s3 H3 _ He. split; [done|]. intros Hf _. apply H2; [|done].
  destruct (ended s2) eqn:E; [|done]. rewrite (gr_ended _ _ _ H3) in He; [congruence|by rewrite E].
Qed.

Lemma forwarded_safe t c name s :
  is_Some (call_handle c) ->
  gsafe t (let% _ := pthread_once (call_symbol c) in
           let% result := real_call c in
           let% _ := restart_after_usb_disconnect name result in
           Ret result) s
    (fun r s' => ended s' = None -> answer_ok c r).
Proof.
  intros Hc. eapply gsafe_seq; [apply pthread_once_safe|]. intros ? s1 _ H1.
  eapply gsafe_seq; [by apply real_call_safe|]. intros r s2 _ _.
  eapply gsafe_seq; [apply restart_after_safe|]. intros ? s3 _ [_ H3].
  apply gsafe_ret. intros s4 H4 _ He. split; [destruct Hc; congruence|]. intros Hf _.
  apply H3; [|done]. destruct (ended s3) eqn:E; [|done].
  rewrite (gr_ended _ _ _ H4) in He; [congruence|by rewrite E].
Qed.

Lemma null_guard_safe t c s :
  is_transfer c = false ->
  gsafe t (null_guard c) s (fun r s' => ended s' = None -> answer_ok c r).
Proof.
  intros Ht. unfold null_guard. destruct (call_handle c) as [h|] eqn:Hc.
  - eapply gsafe_seq; [apply pthread_once_safe|]. intros ? s1 _ H1.
    eapply safe_mono; [apply real_call_safe; [done|by exists h]|].
    intros r s2 _ _ _. split; congruence.
  - eapply gsafe_seq; [apply guard_log_safe|]. intros ? s1 _ _.
    apply gsafe_ret. intros s2 _ _ _. split; congruence.
Qed.

Lemma transfer_safe t c transferred s :
  gsafe t (guarded_transfer c transferred) s (fun r s' => ended s' = None -> answer_ok c r).
Proof.
  unfold guarded_transfer. destruct (call_handle c) as [h|] eqn:Hc.
  - apply forwarded_safe. by exists h.
  - eapply (gsafe_seq _ _ _ _ (fun _ _ => True)); [|intros; by apply blocked_safe].
    destruct transferred; [apply gsafe_quiet; [done..|]; intros|]; by apply gsafe_ret.
Qed.

Lemma control_safe t c s :
  gsafe t (guarded_control_transfer c) s (fun r s' => ended s' = None -> answer_ok c r).
Proof.
  unfold guarded_control_transfer. destruct (call_handle c) as [h|] eqn:Hc.
  - apply forwarded_safe. by exists h.
  - by apply blocked_safe.
Qed.

Lemma close_safe t c s : gsafe t (guarded_close c) s (fun _ _ => True).
Proof.
  unfold guarded_close. destruct (call_handle c) as [h|] eqn:Hc.
  - eapply gsafe_seq; [apply pthread_once_safe|]. intros ? s1 _ H1.
    eapply gsafe_seq; [apply real_call_safe; [done|by exists h]|]. intros. by apply gsafe_ret.
  - eapply safe_mono; [apply guard_log_safe|done].
Qed.

(** The result of a value-returning function, wrapped. *)
Lemma answer_safe t c (p : program Z) s :
  is_close c = false ->
  gsafe t p s (fun r s' => ended s' = None -> answer_ok c r) ->
  gsafe t (let% r := p in Ret (Some r)) s (fun r s' => ended s' = None -> return_ok (Call c) r).
Proof.
  intros Hcl Hp. eapply gsafe_seq; [exact Hp|]. intros r s1 _ H1. apply gsafe_ret.
  intros s2 H2 _ He. destruct H1 as [Ha Hb].
  - destruct (ended s1) eqn:E; [|done]. rewrite (gr_ended _ _ _ H2) in He; [congruence|by rewrite E].
  - split.
    + intros Hn. by rewrite Hcl, Ha.
    + intros Hf Ht [= Hr]. by apply Hb.
Qed.

Lemma intercept_safe t c s :
  gsafe t (intercept c) s (fun r s' => ended s' = None -> return_ok (Call c) r).
Proof.
  destruct c; cbn [intercept];
    try (apply answer_safe; [done|]; first [apply transfer_safe|apply control_safe|by apply null_guard_safe]).
  eapply gsafe_seq; [apply close_safe|]. intros. apply gsafe_ret. intros ? _ _ _. by split; cbn.
Qed.

Lemma serve_safe t q s : gsafe t (serve q) s (fun r s' => ended s' = None -> return_ok q r).
Proof.
  destruct q as [c|g|choose context device event]; cbn [serve].
  - apply intercept_safe.
  - eapply gsafe_seq; [apply register_safe|]. intros. by apply gsafe_ret.
  - cbn [prog_bind Threads.act]. apply gsafe_quiet; [done..|]. intros s1 s2 known _ _ _ E _ _.
    cbn in E. injection E as <- <-. destruct (choose (registered s1)) as [p|]; [|by apply gsafe_ret].
    case_bool_decide; [|by apply gsafe_ret]. eapply gsafe_seq; [by apply dispatch_safe|].
    intros. by apply gsafe_ret.
Qed.

(** ** Every run *)

Context (client : nat -> list (option Z) -> option request).

Lemma vendor_thread_safe t results s :
  gsafe t (vendor_thread client t results) s
    (exit_of (fun _ _ _ => True) (fun _ _ => True) t).
Proof.
  unfold vendor_thread. destruct (client t results) as [q|]; [|by apply gsafe_ret].
  eapply gsafe_seq; [apply serve_safe|]. intros r s1 _ H1. cbn [prog_bind Threads.act].
  apply gsafe_do; [|by intros; apply gsafe_ret].
  intros s2 H2 _ He. apply H1. destruct (ended s1) eqn:E; [|done].
  rewrite (gr_ended _ _ _ H2) in He; [congruence|by rewrite E].
Qed.

Lemma initial_guard_inv : guard_inv initial_state.
Proof.
  constructor; cbn; try done.
  - by left.
  - intros p Hp. by apply elem_of_nil in Hp.
  - intros p [? Hp]. by rewrite lookup_empty in Hp.
  - split; [constructor|]. intros y Hy. by apply elem_of_nil in Hy.
Qed.

Lemma process_inv n schedule : guard_inv (process_after env client n schedule).
Proof.
  unfold process_after.
  eapply (trun_ok (perform env) (vendor_thread client) guard_inv guard_rely guard_pre
    (fun _ _ _ => True) (fun _ _ => True)).
  - intros t l s _ _. apply vendor_thread_safe.
  - split; [apply initial_guard_inv|]. cbn. intros t p Hp.
    apply list_lookup_fmap_Some in Hp as (u & -> & Hu). apply lookup_seq in Hu as [-> _].
    apply vendor_thread_safe.
Qed.

(** C7 The guard protects every run of the preloaded process.  For any number of
    vendor threads that request anything in any order, any interleaving of their
    atomic steps, any answers of libusb, the linker, the allocator and the vendor's
    callbacks: no real function is reached with a null handle or through a null
    pointer, and no hotplug record is used after it is freed (the process does not
    crash in the guard); a request with a null handle returns
    LIBUSB_ERROR_NO_DEVICE; and with the fence enabled no transfer returns that
    error and no vendor callback sees the adapter leave (a device whose descriptor
    can be read and has the adapter's ids).  The blocked calls are counted 1, 2, 3,
    ... in the order of their atomic increments (two threads may write their
    messages in the other order), and every symbol is looked up at most once. *)
Theorem guard_protects n schedule :
  let s := process_after env client n schedule in
  ended s <> Some Crashed /\ Forall observation_ok (trace s) /\
  counts_up (blocked_counts (trace s)) /\ NoDup (resolutions (trace s)).
Proof. intros s. destruct (process_inv n schedule) as [? ? ? ? ? ? ? ? [? ?]]. done. Qed.

(** ** What each function does *)

#[local] Abbreviation exec := (exec_prog (perform env)).

(** The bytes that reach the standard error for a message. *)
Definition written (text : list Z) : list Z :=
  take (Z.to_nat (Z.min message_size (len text))) (message_buffer text).

(** A message of up to 255 bytes is written whole; of a longer one, the first 255
    bytes and the terminating NUL of the buffer. *)
Lemma written_eq text :
  written text = if len text <=? 255 then text else take 255 text ++ [0].
Proof.
  unfold written, message_buffer, message_size.
  change (Z.to_nat (256 - 1)) with 255%nat. destruct (Z.leb_spec (len text) 255) as [Hl|Hl].
  - rewrite (take_ge text) by (unfold len in *; lia). rewrite take_app_le by (unfold len in *; lia).
    rewrite take_ge; [done|]. unfold len in *. lia.
  - rewrite take_ge; [done|]. rewrite length_app, length_take. unfold len in *.
    change (length [0]) with 1%nat. lia.
Qed.

Lemma exec_write t text s :
  ended s = None -> 0 < len text ->
  exec t (write_message text) s = (emit (EWrite t (written text)) s, Some tt).
Proof.
  intros He Hl. unfold write_message. rewrite (proj2 (Z.ltb_lt _ _)) by done.
  cbn. unfold perform. rewrite He. cbn. unfold written. repeat f_equal.
  destruct (Z.ltb_spec message_size (len text)); lia.
Qed.

Lemma set_fence_same s : set_fence (restart_on_disconnect s) s = s.
Proof. by destruct s. Qed.

Lemma exec_fence t s :
  fence_cached s -> ended s = None ->
  exec t restart_fence_enabled s = (set_fence fence_code s, Some fence_on).
Proof.
  intros Hs He. unfold restart_fence_enabled. cbn. unfold perform at 1. rewrite He. cbn.
  destruct Hs as [Hf|Hf]; rewrite Hf.
  - cbn. unfold perform. rewrite He. cbn. by rewrite He.
  - assert (E : set_fence fence_code s = s) by (rewrite <- Hf; apply set_fence_same). rewrite E.
    unfold fence_code. by destruct fence_on.
Qed.

Definition restart_text (reason : list Z) : list Z :=
  lit "smiusb-guard: controlled daemon restart: " ++ reason ++ [10].

(** The process has said why and exited. *)
Definition restarted (t : nat) (reason : list Z) (s : state) : state :=
  end_with (Exited 0) (emit (EExit t 0) (emit (EWrite t (written (restart_text reason))) s)).

Lemma exec_restart t reason s :
  ended s = None -> exec t (controlled_restart reason) s = (restarted t reason s, Some tt).
Proof.
  intros He. unfold controlled_restart. rewrite exec_prog_bind, exec_write; [|done|len_lia].
  cbn. unfold perform. cbn. by rewrite He.
Qed.

(** Nothing follows the end of the process, except returning. *)
Definition after_transfer (t : nat) (c : call) (result : Z) (s : state) : state :=
  if result =? LIBUSB_ERROR_NO_DEVICE then
    let s := set_fence fence_code s in
    if fence_on then restarted t (symbol_name (call_symbol c)) s else s
  else s.

Lemma exec_after t c result s :
  fence_cached s -> ended s = None ->
  exec t (restart_after_usb_disconnect (symbol_name (call_symbol c)) result) s =
    (after_transfer t c result s, Some tt).
Proof.
  intros Hs He. unfold restart_after_usb_disconnect, after_transfer. case_test; [|done].
  rewrite exec_prog_bind, exec_fence by done. destruct fence_on; [|done]. by apply exec_restart.
Qed.

(** A blocked call: the count goes up and the log names the function. *)
Definition blocked_text (c : call) (count : Z) : list Z :=
  lit "smiusb-guard: blocked " ++ symbol_name (call_symbol c)
  ++ lit " with NULL handle (returning LIBUSB_ERROR_NO_DEVICE, count=" ++ dec count
  ++ lit ")" ++ [10].

Definition blocked (t : nat) (c : call) (s : state) : state :=
  let count := wrap_ulong (blocked_calls s + 1) in
  emit (EWrite t (written (blocked_text c count)))
    (emit (EBlocked t count) (set_blocked count s)).

Lemma exec_log t c s :
  ended s = None ->
  exec t (guard_log (symbol_name (call_symbol c))) s = (blocked t c s, Some tt).
Proof.
  intros He. unfold guard_log. cbn [prog_bind Threads.act exec_prog].
  unfold perform at 1. rewrite He. cbn [effect]. by apply exec_write; [|len_lia].
Qed.

(** A call that reaches libusb: the answer, and the state after it. *)
Definition real_result (t : nat) (c : call) (s : state) : Z :=
  (env_real env (trace s ++ [EReal t c])).1.
Definition after_real (t : nat) (c : call) (s : state) : state :=
  store_ints (env_real env (trace s ++ [EReal t c])).2 (emit (EReal t c) s).

(** What the linker answers can be used. *)
Definition usable (y : symbol) : bool :=
  match env_dlsym env y with (Some _, None) => true | _ => false end.

Definition unresolved_text (y : symbol) : list Z :=
  lit "smiusb-guard: cannot resolve " ++ symbol_name y ++ lit ": "
  ++ default (lit "unknown dynamic linker error") (env_dlsym env y).2 ++ [10].

(** The symbol has been looked up: its pointer is stored and the error taken. *)
Definition looked_up (t : nat) (y : symbol) (s : state) : state :=
  let s := set_dl_error t None (set_once y (Initialising t) s) in
  let s := emit (EDlsym t y) (set_dl_error t (env_dlsym env y).2 s) in
  set_dl_error t None (set_real y (env_dlsym env y).1 s).

(** The first use of a symbol looks it up; if that fails, the process has said why
    and exited with 127.  Later uses do nothing. *)
Definition resolve (t : nat) (y : symbol) (s : state) : state * bool :=
  match once s y with
  | Resolved => (s, true)
  | _ =>
      let s := looked_up t y s in
      if usable y then (set_once y Resolved s, true)
      else (end_with (Exited 127)
              (emit (EExit t 127) (emit (EWrite t (written (unresolved_text y))) s)), false)
  end.

(** No thread is inside [pthread_once] for the symbol. *)
Definition settled (s : state) (y : symbol) : Prop := once s y = NotRun \/ once s y = Resolved.

Lemma exec_once t y s :
  ended s = None -> settled s y ->
  exec t (pthread_once y) s =
    let '(s', ok) := resolve t y s in (s', if ok then Some tt else None).
Proof.
  intros He Hy. unfold pthread_once, resolve, usable, unresolved_text.
  destruct Hy as [Hy|Hy]; rewrite Hy.
  2: { cbn. unfold perform. rewrite He. cbn. by rewrite Hy. }
  cbn [prog_bind Threads.act exec_prog]. unfold perform at 1. rewrite He. cbn [effect].
  rewrite Hy. rewrite exec_prog_bind. unfold resolve_or_die.
  cbn [prog_bind Threads.act exec_prog].
  unfold perform at 1. cbn [ended set_once]. rewrite He. cbn [effect].
  unfold perform at 1. cbn [ended set_once set_dl_error]. rewrite He. cbn [effect].
  destruct (env_dlsym env y) as [target error] eqn:Ey.
  unfold perform at 1. cbn [ended set_once set_dl_error emit]. rewrite He. cbn [effect].
  unfold perform at 1. cbn [ended set_once set_dl_error emit set_real]. rewrite He. cbn [effect].
  cbn [dl_error set_dl_error emit set_real]. rewrite fn_lookup_insert.
  unfold looked_up. rewrite Ey. cbn [fst snd].
  set (s1 := set_dl_error t None (set_real y target _)).
  assert (ended s1 = None) as He1 by done.
  destruct target, error as [e|]; cbn [exec_prog Threads.act].
  1, 3, 4: rewrite exec_prog_bind, exec_write by (done || len_lia); cbn;
    unfold perform; cbn; rewrite He; cbn; done.
  unfold perform. by rewrite He1.
Qed.

(** A resolved symbol can be called, and nothing else has changed. *)
Lemma resolve_frame t y s s' :
  guard_inv s -> settled s y -> resolve t y s = (s', true) ->
  is_Some (real s' y) /\ ended s' = ended s /\ (fence_cached s -> fence_cached s') /\
  heap s' = heap s /\ registered s' = registered s /\ next_address s' = next_address s.
Proof.
  intros Hs Hy. unfold resolve, usable. destruct Hy as [Hy|Hy]; rewrite Hy.
  - destruct (env_dlsym env y) as [[f|] [e|]] eqn:Ey; try done. intros [= <-].
    unfold looked_up. rewrite Ey. cbn. rewrite fn_lookup_insert. by split_and!.
  - intros [= <-]. split_and!; try done. by apply (gi_resolved _ Hs).
Qed.

Lemma exec_real t c s :
  ended s = None -> is_Some (real s (call_symbol c)) -> is_Some (call_handle c) ->
  exec t (real_call c) s = (after_real t c s, Some (real_result t c s)).
Proof.
  intros He [f Hf] [h Hh]. unfold real_call, after_real, real_result. cbn.
  unfold perform. rewrite He. cbn. rewrite He. cbn. rewrite Hf, Hh. by destruct (env_real _ _).
Qed.

(** What a call without a handle stores for its caller. *)
Definition zero_transferred (c : call) (s : state) : state :=
  match c with
  | Bulk _ _ _ _ (Some p) _ | Interrupt _ _ _ _ (Some p) _ => store_ints [(p, 0)] s
  | _ => s
  end.

(** What a call does to the state, with [behind] after the result is known, and
    what it returns unless the process ends before. *)
Definition outcome (t : nat) (c : call) (behind : Z -> state -> state) (s : state)
    : state * option Z :=
  match call_handle c with
  | None =>
      (behind LIBUSB_ERROR_NO_DEVICE (blocked t c (zero_transferred c s)),
       Some LIBUSB_ERROR_NO_DEVICE)
  | Some _ =>
      let '(s, ok) := resolve t (call_symbol c) s in
      if ok then (behind (real_result t c s) (after_real t c s), Some (real_result t c s))
      else (s, None)
  end.

(** The branch with a handle, shared by the replaced functions. *)
Lemma exec_forward {A} t c (k : Z -> program A) s :
  guard_inv s -> ended s = None -> settled s (call_symbol c) -> is_Some (call_handle c) ->
  exec t (let% _ := pthread_once (call_symbol c) in let% r := real_call c in k r) s =
    let '(s', ok) := resolve t (call_symbol c) s in
    if ok then exec t (k (real_result t c s')) (after_real t c s') else (s', None).
Proof.
  intros Hs He Hy Hh. rewrite exec_prog_bind, exec_once by done.
  destruct (resolve t (call_symbol c) s) as [s' [|]] eqn:Er; [|done].
  destruct (resolve_frame _ _ _ _ Hs Hy Er) as (Hr & He' & _).
  by rewrite exec_prog_bind, exec_real by (done || congruence).
Qed.

Lemma after_real_frame t c s :
  ended (after_real t c s) = ended s /\ (fence_cached s -> fence_cached (after_real t c s)).
Proof. done. Qed.

(** The same branch of a transfer, which looks at the result. *)
Lemma exec_forward_transfer t c s :
  guard_inv s -> ended s = None -> settled s (call_symbol c) -> is_Some (call_handle c) ->
  exec t (let% _ := pthread_once (call_symbol c) in let% r := real_call c in
          let% _ := restart_after_usb_disconnect (symbol_name (call_symbol c)) r in Ret r) s =
    outcome t c (after_transfer t c) s.
Proof.
  intros Hs He Hy [h Hh]. rewrite exec_forward by (done || by eexists).
  unfold outcome. rewrite Hh.
  destruct (resolve t (call_symbol c) s) as [s' [|]] eqn:Er; [|done].
  destruct (resolve_frame _ _ _ _ Hs Hy Er) as (_ & He' & Hf & _).
  destruct (after_real_frame t c s') as [Hae Haf].
  rewrite exec_prog_bind, exec_after; [done| |congruence]. by apply Haf, Hf, Hs.
Qed.

Lemma guarded_transfer_eq t c transferred s :
  guard_inv s -> ended s = None -> (is_Some (call_handle c) -> settled s (call_symbol c)) ->
  match c with
  | Bulk _ _ _ _ p _ | Interrupt _ _ _ _ p _ => transferred = p
  | _ => False
  end ->
  exec t (guarded_transfer c transferred) s = outcome t c (after_transfer t c) s.
Proof.
  intros Hs He Hy Hp. unfold guarded_transfer. destruct (call_handle c) as [h|] eqn:Hh.
  { apply exec_forward_transfer; rewrite ?Hh; eauto. }
  unfold outcome. rewrite Hh.
  assert (E : exec t (match transferred with Some p => act (StoreInt p 0) | None => Ret tt end) s =
    (zero_transferred c s, Some tt)).
  { destruct c; try done; subst transferred;
      match goal with p : option Z |- _ => destruct p end; try done;
      cbn; unfold perform; by rewrite He. }
  assert (Hz : ended (zero_transferred c s) = None /\ fence_cached (zero_transferred c s)).
  { destruct Hs. destruct c; try done;
      match goal with |- context [zero_transferred (_ _ _ _ _ ?p _)] => by destruct p end. }
  rewrite exec_prog_bind, E, exec_prog_bind, exec_log, exec_prog_bind, exec_after; try done; apply Hz.
Qed.

Lemma guarded_control_eq t c s :
  guard_inv s -> ended s = None -> (is_Some (call_handle c) -> settled s (call_symbol c)) ->
  zero_transferred c s = s ->
  exec t (guarded_control_transfer c) s = outcome t c (after_transfer t c) s.
Proof.
  intros Hs He Hy Hz. unfold guarded_control_transfer. destruct (call_handle c) as [h|] eqn:Hh.
  { apply exec_forward_transfer; rewrite ?Hh; eauto. }
  unfold outcome. rewrite Hh, Hz, exec_prog_bind, exec_log, exec_prog_bind, exec_after; try done.
  apply Hs.
Qed.

Lemma null_guard_eq t c s :
  guard_inv s -> ended s = None -> (is_Some (call_handle c) -> settled s (call_symbol c)) ->
  zero_transferred c s = s ->
  exec t (null_guard c) s = outcome t c (fun _ s => s) s.
Proof.
  intros Hs He Hy Hz. unfold null_guard, outcome. destruct (call_handle c) as [h|] eqn:Hh.
  - rewrite exec_prog_bind, exec_once by (done || by apply Hy).
    destruct (resolve t (call_symbol c) s) as [s' [|]] eqn:Er; [|done].
    destruct (resolve_frame _ _ _ _ Hs (Hy ltac:(by eexists)) Er) as (Hr & He' & _).
    rewrite exec_real; (done || congruence || by rewrite Hh).
  - by rewrite Hz, exec_prog_bind, exec_log.
Qed.

(** A call of a replaced function: transfers look at the result, [libusb_close]
    returns nothing. *)
Definition call_outcome (t : nat) (c : call) (s : state) : state * option (option Z) :=
  let '(s', r) :=
    outcome t c (if is_transfer c then after_transfer t c else fun _ s => s) s in
  (s', (if is_close c then (fun _ => None) else Some) <$> r).

Lemma intercept_eq t c s :
  guard_inv s -> ended s = None -> (is_Some (call_handle c) -> settled s (call_symbol c)) ->
  exec t (intercept c) s = call_outcome t c s.
Proof.
  intros Hs He Hy. unfold call_outcome. destruct c; cbn [intercept is_transfer is_close].
  1-2: rewrite exec_prog_bind, guarded_transfer_eq by done; by destruct (outcome _ _ _ _) as [? [?|]].
  1: rewrite exec_prog_bind, guarded_control_eq by done; by destruct (outcome _ _ _ _) as [? [?|]].
  1-5: rewrite exec_prog_bind, null_guard_eq by done; by destruct (outcome _ _ _ _) as [? [?|]].
  rewrite exec_prog_bind. unfold guarded_close. cbn [call_handle] in *. destruct handle as [h|].
  - rewrite exec_forward by (done || by apply Hy || by eexists). unfold outcome. cbn [call_handle].
    by destruct (resolve _ _ _) as [s' [|]].
  - by rewrite exec_log.
Qed.

(** An event for the vendor's callback.  With the fence on, the adapter's departure
    ends the process instead; any other event reaches the callback that was
    registered, with its own user data. *)
Definition dispatched (t : nat) (g : guarded_hotplug_callback) (context device event : Z)
    (s : state) : state * option Z :=
  let left := event =? LIBUSB_HOTPLUG_EVENT_DEVICE_LEFT in
  let s := if left then set_fence fence_code s else s in
  if left && fence_on && sm768 device
  then (restarted t (lit "SM768 hotplug detach") s, None)
  else
    let s := emit (EVendor t (callback g) context device event (user_data g)) s in
    (s, Some (env_vendor env (trace s))).

(** The process has ended: a program that still has to act stays where it is. *)
Lemma exec_ended {A R} t (o : op R) (k : R -> program A) s :
  is_Some (ended s) -> exec t (Do o k) s = (s, None).
Proof. intros [f He]. cbn. unfold perform. by rewrite He. Qed.

Lemma exec_vendor t p u g context device event s :
  ended s = None -> heap s !! p = Some (u, Some g) ->
  exec t (let% guarded := act (LoadRecord p) in
          act (CallVendor (callback guarded) context device event (user_data guarded))) s =
    let s' := emit (EVendor t (callback g) context device event (user_data g)) s in
    (s', Some (env_vendor env (trace s'))).
Proof.
  intros He Hp. cbn. unfold perform. rewrite He. cbn. rewrite Hp. cbn. by rewrite He.
Qed.

Lemma exec_dispatch t context device event p u g s :
  ended s = None -> fence_cached s -> heap s !! p = Some (u, Some g) ->
  exec t (guarded_hotplug_dispatch context device event p) s =
    dispatched t g context device event s.
Proof.
  intros He Hf Hp. unfold guarded_hotplug_dispatch, dispatched.
  destruct (event =? LIBUSB_HOTPLUG_EVENT_DEVICE_LEFT); cbn [andb].
  2: { cbn [prog_bind]. by apply (exec_vendor t p u g). }
  rewrite exec_prog_bind, exec_fence by done. destruct fence_on; cbn [andb].
  2: { cbn [prog_bind]. by apply (exec_vendor t p u g). }
  pose proof (exec_vendor t p u g context device event (set_fence fence_code s) He Hp) as Hv.
  rewrite exec_prog_bind.
  assert (exec t (let% (result, id_vendor, id_product) := act (GetDescriptor device) in
      if (result =? LIBUSB_SUCCESS) && (id_vendor =? 0x090c) && (id_product =? 0x0768)
      then controlled_restart (lit "SM768 hotplug detach") else Ret tt) (set_fence fence_code s) =
    (if sm768 device then restarted t (lit "SM768 hotplug detach") (set_fence fence_code s)
     else set_fence fence_code s, Some tt)) as ->.
  { cbn [prog_bind Threads.act exec_prog]. unfold perform at 1. cbn [ended set_fence]. rewrite He.
    cbn [effect]. unfold sm768, VENDOR_ID, SM768_PRODUCT_ID.
    destruct (env_descriptor env device) as [[result vendor] product].
    destruct (_ && (product =? 0x768)); [by apply exec_restart|done]. }
  destruct (sm768 device); [|exact Hv]. by apply exec_ended.
Qed.

(** The devices that are present when a callback is registered, one after the
    other. *)
Fixpoint dispatched_all (t : nat) (g : guarded_hotplug_callback) (context : Z)
    (present : list (Z * Z)) (s : state) : state * bool :=
  match present with
  | [] => (s, true)
  | (device, event) :: present =>
      match dispatched t g context device event s with
      | (s, Some _) => dispatched_all t g context present s
      | (s, None) => (s, false)
      end
  end.

(** An event that is delivered changes nothing that the next one needs. *)
Lemma dispatched_frame t g context device event s s' r :
  dispatched t g context device event s = (s', Some r) -> fence_cached s ->
  ended s' = ended s /\ fence_cached s' /\ heap s' = heap s.
Proof.
  intros E Hf. unfold dispatched in E. case_match; [done|]. injection E as <- <-.
  case_match; cbn; split_and!; try done. by right.
Qed.

Lemma exec_dispatch_all t context p u g present : forall s,
  ended s = None -> fence_cached s -> heap s !! p = Some (u, Some g) ->
  exec t (prog_each present (fun '(device, event) =>
    let% _ := guarded_hotplug_dispatch context device event p in Ret tt)) s =
    let '(s', ok) := dispatched_all t g context present s in (s', if ok then Some tt else None).
Proof.
  induction present as [|[device event] present IH]; intros s He Hf Hp; [done|].
  cbn [prog_each dispatched_all].
  rewrite exec_prog_bind, exec_prog_bind, (exec_dispatch _ _ _ _ p u g) by done.
  destruct (dispatched t g context device event s) as [s' [r|]] eqn:Ed; [|done].
  destruct (dispatched_frame _ _ _ _ _ _ _ _ Ed Hf) as (He' & Hf' & Hh').
  cbn [exec_prog]. apply IH; congruence.
Qed.

(** The record of a new registration, and the state in which it is stored. *)
Definition new_record (function : Z) (g : registration) : guarded_hotplug_callback :=
  {| callback := function; user_data := reg_user_data g |}.
Definition recorded (t : nat) (r : guarded_hotplug_callback) (s : state) : state :=
  let p := next_address s in
  emit (EMalloc t (Some p)) (set_heap (<[p := (t, Some r)]> (heap s)) (p + 1) s).

(** What [libusb_hotplug_register_callback] does once its real function is
    resolved.  A null callback is passed on.  Any other is put into a record, which
    libusb gets in its place; the devices present are dispatched at once; if libusb
    refuses, the record is freed again. *)
Definition registered_outcome (t : nat) (g : registration) (s : state) : state * option Z :=
  match reg_callback g with
  | None =>
      let s := emit (ERegister t g None) s in (s, Some (env_register env (trace s)).1)
  | Some function =>
      if env_malloc env (trace s) then
        let p := next_address s in
        let before := heap s in
        let s := emit (ERegister t g (Some p)) (recorded t (new_record function g) s) in
        let '(result, present) := env_register env (trace s) in
        if result =? LIBUSB_SUCCESS then
          let '(s, ok) := dispatched_all t (new_record function g) (reg_context g) present
                            (add_registered p s) in
          (s, if ok then Some result else None)
        else (emit (EFree t p) (set_heap before (p + 1) s), Some result)
      else (emit (EMalloc t None) s, Some LIBUSB_ERROR_NO_MEM)
  end.

Definition register_outcome (t : nat) (g : registration) (s : state) : state * option Z :=
  let '(s, ok) := resolve t libusb_hotplug_register_callback s in
  if ok then registered_outcome t g s else (s, None).

Lemma exec_real_register t g s :
  ended s = None -> is_Some (real s libusb_hotplug_register_callback) ->
  exec t (real_register g None) s =
    let s' := emit (ERegister t g None) s in (s', Some (env_register env (trace s')).1).
Proof.
  intros He [f Hf]. unfold real_register. cbn. unfold perform. rewrite He. cbn. rewrite He. cbn.
  rewrite Hf. destruct (env_register _ _) as [result present]. cbn.
  by destruct (result =? LIBUSB_SUCCESS).
Qed.

(** libusb with the record in place of the callback. *)
Lemma exec_guarded_register t g r p s :
  ended s = None -> fence_cached s -> is_Some (real s libusb_hotplug_register_callback) ->
  heap s !! p = Some (t, Some r) ->
  exec t (let% result := real_register g (Some p) in
          let% _ := if negb (result =? LIBUSB_SUCCESS) then act (Free p) else Ret tt in
          Ret result) s =
    let s := emit (ERegister t g (Some p)) s in
    let '(result, present) := env_register env (trace s) in
    if result =? LIBUSB_SUCCESS then
      let '(s, ok) := dispatched_all t r (reg_context g) present (add_registered p s) in
      (s, if ok then Some result else None)
    else (emit (EFree t p) (set_heap (delete p (heap s)) (next_address s) s), Some result).
Proof.
  intros He Hf [f Hr] Hp. unfold real_register. rewrite !exec_prog_bind.
  cbn [Threads.act exec_prog]. unfold perform at 1. rewrite He. cbn [effect].
  rewrite exec_prog_bind. cbn [Threads.act exec_prog]. unfold perform at 1. rewrite He, Hr.
  cbn [effect]. destruct (env_register _ _) as [result present]. cbv zeta.
  destruct (Z.eqb_spec result LIBUSB_SUCCESS) as [->|Hne].
  - rewrite exec_prog_bind, (exec_dispatch_all _ _ p t r) by done.
    by destruct (dispatched_all _ _ _ _ _) as [s' [|]].
  - cbn. rewrite (proj2 (Z.eqb_neq _ _) Hne). cbn. unfold perform. cbn. rewrite He. cbn.
    by rewrite Hp.
Qed.

Lemma register_eq t g s :
  guard_inv s -> ended s = None -> settled s libusb_hotplug_register_callback ->
  exec t (hotplug_register_callback g) s = register_outcome t g s.
Proof.
  intros Hs He Hy. unfold hotplug_register_callback, register_outcome.
  rewrite exec_prog_bind, exec_once by done.
  destruct (resolve t libusb_hotplug_register_callback s) as [s1 [|]] eqn:Er; [|done].
  destruct (resolve_frame _ _ _ _ Hs Hy Er) as (Hr & He1 & Hf & Hh & Hg & Hn).
  rewrite He in He1. unfold registered_outcome.
  destruct (reg_callback g) as [function|]; [|by apply exec_real_register].
  destruct (env_malloc env (trace s1)) eqn:Hm.
  2: { cbn. unfold perform. rewrite He1. cbn. by rewrite Hm. }
  assert (heap s1 !! next_address s1 = None) as Hfresh.
  { apply eq_None_not_Some. intros Hp. rewrite Hh, Hn in *. apply (gi_fresh _ Hs) in Hp. lia. }
  set (r := new_record function g).
  set (k p := (let% result := real_register g (Some p) in
    let% _ := if negb (result =? LIBUSB_SUCCESS) then act (Free p) else Ret tt in Ret result)).
  transitivity (exec t (k (next_address s1)) (recorded t r s1)).
  { cbn. unfold perform at 1. rewrite He1. cbn. rewrite Hm. cbn.
    unfold perform at 1. cbn. rewrite He1. cbn. rewrite lookup_insert_eq.
    unfold recorded, emit, set_heap. cbn. by rewrite insert_insert_eq. }
  subst k. cbv beta. rewrite (exec_guarded_register t g r).
  2: done.
  2: by apply Hf, Hs.
  2: done.
  2: by cbn; rewrite lookup_insert_eq.
  cbv zeta. destruct (env_register _ _) as [result present].
  destruct (result =? LIBUSB_SUCCESS); [done|]. do 3 f_equal.
  cbn. by rewrite delete_insert_id.
Qed.

(** The symbol that a request resolves. *)
Definition request_symbol (q : request) : option symbol :=
  match q with
  | Call c => if call_handle c then Some (call_symbol c) else None
  | Register _ => Some libusb_hotplug_register_callback
  | HandleEvent _ _ _ _ => None
  end.

(** What serving a request does, and what the vendor gets back unless the process
    ends before. *)
Definition request_outcome (t : nat) (q : request) (s : state) : state * option (option Z) :=
  match q with
  | Call c => call_outcome t c s
  | Register g => let '(s, r) := register_outcome t g s in (s, Some <$> r)
  | HandleEvent choose context device event =>
      match (p ← choose (registered s); guard (p ∈ registered s);; heap s !! p) with
      | Some (_, Some g) =>
          let '(s, r) := dispatched t g context device event s in (s, Some <$> r)
      | _ => (s, Some None)
      end
  end.

(** C20 What every replaced function and the guard's own callback do, on every
    branch, as seen by a thread that runs them from any state the guard can reach
    ([guard_protects] covers the interleavings with other threads).
    The first use of a symbol looks it up, and if that fails logs and exits with
    127.  Without a handle: the caller's transferred count is set to 0, the block is
    counted and logged, and the result is LIBUSB_ERROR_NO_DEVICE.  With a handle:
    libusb is called once with the caller's arguments and its result is returned.
    A transfer that ends with LIBUSB_ERROR_NO_DEVICE then logs and exits the process
    with status 0 if the fence is enabled; [libusb_close] returns nothing.
    [libusb_hotplug_register_callback] passes a null callback on, reports
    LIBUSB_ERROR_NO_MEM without an allocation, and otherwise registers a record of
    the callback and its user data, which is kept exactly if libusb succeeds.  An
    event calls the recorded callback, unless it is the adapter's departure and the
    fence is enabled, which logs and exits with status 0. *)
Theorem requests_correct t q s :
  guard_inv s -> ended s = None -> (forall y, request_symbol q = Some y -> settled s y) ->
  exec t (serve q) s = request_outcome t q s.
Proof.
  intros Hs He Hy. destruct q as [c|g|choose context device event]; cbn [serve request_outcome].
  - apply intercept_eq; [done|done|]. intros [h Hh]. apply Hy. cbn. by rewrite Hh.
  - rewrite exec_prog_bind, register_eq by (done || by apply Hy).
    by destruct (register_outcome t g s) as [s' [r|]].
  - cbn [prog_bind Threads.act exec_prog]. unfold perform at 1. rewrite He. cbn [effect].
    destruct (choose (registered s)) as [p|]; [|done]. cbn [mbind option_bind].
    case_bool_decide as Hp; [rewrite option_guard_True by done|by rewrite option_guard_False].
    destruct (gi_registered _ Hs p Hp) as (u & g & Hg). cbn [mbind option_bind]. rewrite Hg.
    rewrite exec_prog_bind, (exec_dispatch _ _ _ _ p u g) by (done || apply Hs).
    by destruct (dispatched _ _ _ _ _ _) as [s' [r|]].
Qed.
End promises.

(** ** Witnesses and tests *)

(** A libusb whose transfers find no device. *)
Definition unplugged (variable : option (list Z)) : environment :=
  {| env_variable := variable; env_dlsym := fun _ => (Some 4096, None);
     env_real := fun _ => (LIBUSB_ERROR_NO_DEVICE, [(80, 5)]);
     env_register := fun _ => (LIBUSB_SUCCESS, [(7, LIBUSB_HOTPLUG_EVENT_DEVICE_ARRIVED)]);
     env_malloc := fun _ => true;
     env_descriptor := fun _ => (LIBUSB_SUCCESS, VENDOR_ID, SM768_PRODUCT_ID);
     env_vendor := fun _ => 0 |}.

Definition sample_registration : registration :=
  {| reg_context := 1; reg_events := 3; reg_flags := 1;
     reg_vendor_id := VENDOR_ID; reg_product_id := SM768_PRODUCT_ID; reg_device_class := -1;
     reg_callback := Some 512; reg_user_data := 9; reg_callback_handle := 88 |}.

Lemma requests_correct_witness :
  let env := unplugged (Some (lit "1")) in
  let run q := exec_prog (perform env) 0 (serve q) initial_state in
  let s := (run (Call (Bulk (Some 64) 2 128 8 (Some 80) 10))).1 in
  (ended s = Some (Exited 0) /\ ints s !! 80 = Some 5 /\
   resolutions (trace s) = [libusb_bulk_transfer]) /\
  run (Register sample_registration) =
    request_outcome env 0 (Register sample_registration) initial_state.
Proof.
  cbv zeta. split.
  - rewrite (requests_correct (unplugged (Some (lit "1"))) 0
      (Call (Bulk (Some 64) 2 128 8 (Some 80) 10)) initial_state
      (initial_guard_inv _) eq_refl); [vm_compute; split_and!; reflexivity|].
    intros y _. left. reflexivity.
  - apply (requests_correct (unplugged (Some (lit "1"))) 0 (Register sample_registration)
      initial_state (initial_guard_inv _) eq_refl).
    intros y _. left. reflexivity.
Defined.

(** tests/null_transfer_test.c, run with the guard preloaded: its exit status. *)
Definition expect_no_device (result : option (option Z)) : Z :=
  match result with
  | Some (Some r) => if r =? LIBUSB_ERROR_NO_DEVICE then 0 else 1
  | _ => 1
  end.

Definition null_transfer_test (env : environment) : Z :=
  let call c s := exec_prog (perform env) 0 (intercept c) s in
  let buffer := 128 in
  let transferred := 80 in
  let s := store_ints [(transferred, -1)] initial_state in
  let '(s, bulk) := call (Bulk None 0x02 buffer 8 (Some transferred) 10) s in
  let kept := if bool_decide (ints s !! transferred = Some 0) then 0 else 1 in
  let '(s, interrupt) := call (Interrupt None 0x81 buffer 8 (Some transferred) 10) s in
  let '(s, control) := call (Control None 0 0 0 0 buffer 8 10) s in
  let '(s, claim) := call (ClaimInterface None 0) s in
  let '(s, release) := call (ReleaseInterface None 0) s in
  let '(s, reset) := call (ResetDevice None) s in
  let '(s, _) := call (Close None) s in
  let failures := expect_no_device bulk + kept + expect_no_device interrupt
    + expect_no_device control + expect_no_device claim + expect_no_device release
    + expect_no_device reset in
  if failures =? 0 then 0 else 1.

(** tests/restart_fence_test.c: the child sets the variable, makes one call without
    a handle and exits with 91 if it comes back. *)
Definition restart_fence_child : option fate :=
  let env := unplugged (Some (lit "1")) in
  let child :=
    let% _ := intercept (Bulk None 0x02 128 8 (Some 80) 10) in
    act (Exit 91) in
  ended (exec_prog (perform env) 0 child (store_ints [(80, -1)] initial_state)).1.

Definition restart_fence_test : Z :=
  match restart_fence_child with Some (Exited 0) => 0 | _ => 1 end.

(** The guard's tests pass. *)
Theorem guard_tests_pass :
  null_transfer_test (unplugged None) = 0 /\ restart_fence_test = 0.
Proof. split; vm_compute; reflexivity. Qed.

(** Two threads, of which one registers a callback and handles events while the
    other transfers: with the fence, the first detach ends the process, and the
    vendor's callback has only seen the arrival. *)
Definition sample_client (t : nat) (results : list (option Z)) : option request :=
  match t, results with
  | O, [] => Some (Register sample_registration)
  | O, [_] => Some (HandleEvent head 1 7 LIBUSB_HOTPLUG_EVENT_DEVICE_LEFT)
  | S _, _ => Some (Call (ClaimInterface None 4))
  | _, _ => None
  end.

Definition sample_process : state :=
  process_after (unplugged (Some (lit "1"))) sample_client 2
    (flat_map (fun _ => [0; 0; 1]%nat) (seq 0 14)).

Example sample_process_ends :
  ended sample_process = Some (Exited 0) /\
  omap (fun e => match e with EVendor _ f _ d ev u => Some (f, d, ev, u) | _ => None end)
    (trace sample_process) = [(512, 7, LIBUSB_HOTPLUG_EVENT_DEVICE_ARRIVED, 9)] /\
  blocked_counts (trace sample_process) = [1; 2; 3].
Proof. vm_compute. split_and!; reflexivity. Qed.
