(* ===== verification/Daemon.v ===== *)
(** * Daemon: the C++ session manager

    Models src/daemon/smiusbd.cpp: [parse_options], [SessionManager] with its worker
    thread, [hotplug_callback] and [main].  The main thread runs the callbacks of
    libusb, which hand referenced devices to the worker through a queue under a
    mutex; the worker alone opens, keeps and closes the sessions.

    A function is a [prog]; libusb, the clock and the signals answer as the
    [environment] says.  The state keeps, beside the members of the class, who owns
    which device reference and which open handle.  What the language or libusb
    leaves undefined crashes ([allowed]): reading an uninitialised member, using a
    device without a reference, closing a handle twice, touching shared members
    outside the lock, destroying a thread that is not joined, overflowing the
    clock. *)

From stdpp Require Import functions.
From S2P Require Import Prelude Text Wire Header Threads.

Open Scope Z_scope.

(** ** Options *)

(** [isspace] in the C locale *)
Definition isspace (c : Z) : bool := (c =? 32) || ((9 <=? c) && (c <=? 13)).

Fixpoint skip_space (s : list Z) : list Z :=
  match s with
  | c :: r => if isspace c then skip_space r else s
  | [] => []
  end.

(** The digits at the start of a text: their value, and the rest. *)
Fixpoint strtoul_digits (acc : Z) (s : list Z) : Z * list Z :=
  match s with
  | c :: r => if is_ascii_digit c then strtoul_digits (10 * acc + (c - 48)) r else (acc, s)
  | [] => (acc, [])
  end.

(** [std::strtoul(s, &end, 10)]: the value, and [*end] as what is left, or [None]
    when there are no digits ([end == s]).  A minus sign negates in [unsigned
    long]; a value out of range is [ULONG_MAX]. *)
Definition strtoul `{Platform} (s : list Z) : Z * option (list Z) :=
  let '(negative, digits) :=
    match skip_space s with
    | c :: r => if c =? 45 then (true, r) else if c =? 43 then (false, r) else (false, c :: r)
    | [] => (false, [])
    end in
  match digits with
  | c :: _ =>
      if is_ascii_digit c then
        let '(v, rest) := strtoul_digits 0 digits in
        (if c_ulong_max <? v then c_ulong_max
         else if negative then (- v) mod (c_ulong_max + 1) else v, Some rest)
      else (0, None)
  | [] => (0, None)
  end.

(** [parse_options]: the duration in seconds, 0 for none; the program's name is the
    first argument. *)
Definition parse_options `{Platform} (argv : list (list Z)) : option Z :=
  match argv with
  | _ :: mode :: rest =>
      if negb (bool_decide (mode = lit "--observe")) then None else
      match rest with
      | [] => Some 0
      | [flag; seconds] =>
          if bool_decide (flag = lit "--duration") then
            match strtoul seconds with
            | (duration, Some []) =>
                if (0 <? duration) && (duration <=? u32_max) then Some duration else None
            | _ => None
            end
          else None
      | _ => None
      end
  | _ => None
  end.

(** ** State *)

(** [UsbEvent] *)
Record UsbEvent := {
  ev_device : Z;
  ev_event : Z;
}.

(** [DeviceSession] *)
Record DeviceSession := {
  ses_device : Z;
  ses_handle : Z;
  ses_generation : Z;
}.

(** What a program can own of libusb's. *)
Inductive resource :=
| Reference (device : Z)
| OpenHandle (handle : Z).

#[export] Instance resource_eq_dec : EqDecision resource.
Proof. solve_decision. Defined.

Definition session_resources (x : DeviceSession) : list resource :=
  [OpenHandle (ses_handle x); Reference (ses_device x)].

(** The lines the daemon prints; the program's name is [argv[0]], null when there are
    no arguments. *)
Inductive line :=
| LUsage (program : option (list Z))
| LInitFailed (result : Z)
| LRegistrationFailed (result : Z)
| LEventLoopFailed (result : Z)
| LOpenFailed (bus address result : Z)
| LArrived (device generation bus address : Z)
| LDeparted (device generation : Z).

(** Their text; [libusb_error_name] is libusb's.  A null name has no defined text
    ([printable]). *)
Definition line_text `{Platform} (error_name : Z -> list Z) (l : line) : list Z :=
  let lu g := dec (g mod (c_ulong_max + 1)) in
  match l with
  | LUsage program =>
      lit "usage: " ++ default [] program ++ lit " --observe [--duration SECONDS]" ++ [10]
      ++ lit "observe mode opens the SM768 but never claims an interface " ++ lit "or sends data" ++ [10]
  | LInitFailed result => lit "smiusbd: libusb_init: " ++ error_name result ++ [10]
  | LRegistrationFailed result => lit "smiusbd: hotplug registration: " ++ error_name result ++ [10]
  | LEventLoopFailed result => lit "smiusbd: event loop: " ++ error_name result ++ [10]
  | LOpenFailed bus address result =>
      lit "smiusbd: open failed for bus=" ++ dec bus ++ lit " address=" ++ dec address ++ lit ": "
      ++ error_name result ++ [10]
  | LArrived _ generation bus address =>
      lit "smiusbd: generation=" ++ lu generation ++ lit " arrived bus=" ++ dec bus
      ++ lit " address=" ++ dec address ++ lit " (observe-only; no interface claimed)" ++ [10]
  | LDeparted _ generation =>
      lit "smiusbd: generation=" ++ lu generation ++ lit " departed; closing on worker thread" ++ [10]
  end.

Inductive observation :=
| EAcquire (t : nat) (r : resource)
| ERelease (t : nat) (r : resource)
| EAccepted (e : UsbEvent)
| EProcessed (e : UsbEvent)
| EPrint (l : line).

Inductive fate := Exited (code : Z) | Crashed.

(** The members of [SessionManager]; the condition variable as whether the worker
    waits and was notified; the life of the worker; what each thread owns in its
    local variables; the operations performed so far; the trace.  [owes_notify] is
    for the proofs: set where a producer changes the predicate of the wait, cleared
    by its notification. *)
Record state := {
  mutex : option nat;
  queue : list UsbEvent;
  sessions : list DeviceSession;
  stopping : bool;
  generation : option Z;
  spawned : bool;
  waiting : bool;
  notified : bool;
  owes_notify : bool;
  worker_done : bool;
  joined : bool;
  hand : nat -> list resource;
  next_handle : Z;
  clock : nat;
  trace : list observation;
  ended : option fate;
}.

Definition initial_state : state :=
  {| mutex := None; queue := []; sessions := []; stopping := false; generation := None;
     spawned := false; waiting := false; notified := false; owes_notify := false;
     worker_done := false; joined := false; hand := fun _ => []; next_handle := 1; clock := 0;
     trace := []; ended := None |}.

(** Everything owned: by the queue, by the sessions, by the two threads. *)
Definition held (s : state) : list resource :=
  map (fun e => Reference (ev_device e)) (queue s)
  ++ flat_map session_resources (sessions s) ++ hand s 0 ++ hand s 1.

(** What the world answers; an answer may depend on when it is asked. *)
Record environment := {
  env_init : Z;
  (** registering: the result, and the devices it reports as present *)
  env_register : Z * list UsbEvent;
  (** [stop_requested], set by a signal *)
  env_stop_requested : nat -> bool;
  (** the steady clock, in nanoseconds *)
  env_now : nat -> Z;
  (** handling events: the result, and the events delivered *)
  env_events : nat -> Z * list UsbEvent;
  (** [libusb_get_device_descriptor]: result, vendor, product *)
  env_descriptor : Z -> Z * Z * Z;
  (** bus number and address *)
  env_location : Z -> Z * Z;
  (** the result of [libusb_open] *)
  env_open : nat -> Z;
  (** a wait may end without a notification *)
  env_spurious : nat -> bool;
}.

(** ** Operations *)

Inductive op : Type -> Type :=
| LibusbInit : op Z
| Spawn : op unit                          (* worker_(&SessionManager::worker_loop, this) *)
| InitGeneration : op unit                 (* generation_{0} *)
| RegisterCallback : op (Z * list UsbEvent)
| StopRequested : op bool
| Now : op Z
| AddSeconds (now seconds : Z) : op Z
| HandleEvents : op (Z * list UsbEvent)
| Deregister : op unit
| LibusbExit : op unit
| ReturnCode (code : Z) : op unit
| Print (l : line) : op unit
| RefDevice (device : Z) : op unit
| UnrefDevice (device : Z) : op unit
| Lock : op unit
| Unlock : op unit
| ReadStopping : op bool
| SetStopping : op unit
| PushBack (e : UsbEvent) : op unit
| QueueEmpty : op bool
| PopFront : op UsbEvent
| NotifyOne : op unit
| WaitBegin : op unit                      (* release the lock and start to wait *)
| WaitEnd : op unit                        (* be woken and take the lock again *)
| Join : op unit
| ThreadExit : op unit
| TakeQueue : op (list UsbEvent)           (* the loop over queue_ and its clear() *)
| GetDescriptor (device : Z) : op (Z * Z * Z)
| GetLocation (device : Z) : op (Z * Z)
| Open (device : Z) : op (Z * Z)
| CloseHandle (handle : Z) : op unit
| NextGeneration : op Z                    (* ++generation_ *)
| Find (device : Z) : op (option DeviceSession)
| Emplace (session : DeviceSession) : op bool
| Erase (device : Z) : op unit
| TakeSessions : op (list DeviceSession).  (* sessions_.clear() *)

#[local] Abbreviation program := (prog op).
#[local] Abbreviation act := (@Threads.act op _).

(** ** The functions of the daemon *)

(** [~DeviceSession]; neither pointer of a session is null. *)
Definition destroy_session (session : DeviceSession) : program unit :=
  let% _ := act (CloseHandle (ses_handle session)) in
  act (UnrefDevice (ses_device session)).

Definition enqueue (e : UsbEvent) : program unit :=
  let% _ := act (RefDevice (ev_device e)) in
  let% _ := act Lock in
  let% stopping := act ReadStopping in
  if stopping : bool then
    let% _ := act (UnrefDevice (ev_device e)) in
    act Unlock
  else
    let% _ := act (PushBack e) in
    let% _ := act Unlock in
    act NotifyOne.

(** The callback libusb runs, on the thread that registers or handles events. *)
Definition hotplug_callback (e : UsbEvent) : program unit := enqueue e.

(** The thread is joinable until the one join. *)
Definition stop : program unit :=
  let% _ := act Lock in
  let% stopping := act ReadStopping in
  if stopping : bool then act Unlock else
  let% _ := act SetStopping in
  let% _ := act Unlock in
  let% _ := act NotifyOne in
  act Join.

Definition is_target (device : Z) : program bool :=
  let% (result, id_vendor, id_product) := act (GetDescriptor device) in
  Ret ((result =? LIBUSB_SUCCESS) && (id_vendor =? SMIUSB_VENDOR_ID)
       && (id_product =? SMIUSB_SM768_PRODUCT_ID)).

(** [sessions_.contains(device)] *)
Definition contains (device : Z) : program bool :=
  let% found := act (Find device) in
  Ret (match found with Some _ => true | None => false end).

(** [handle_arrival] from the successful open on. *)
Definition add_session (device handle : Z) : program unit :=
  let% _ := act (RefDevice device) in
  let% generation := act NextGeneration in
  let session := {| ses_device := device; ses_handle := handle; ses_generation := generation |} in
  let% (bus, address) := act (GetLocation device) in
  let% _ := act (Print (LArrived device (ses_generation session) bus address)) in
  let% inserted := act (Emplace session) in
  if inserted : bool then Ret tt else destroy_session session.

Definition handle_arrival (device : Z) : program unit :=
  let% target := is_target device in
  let% known := if target : bool then contains device else Ret true in
  if known : bool then Ret tt else
  let% (result, handle) := act (Open device) in
  if negb (result =? LIBUSB_SUCCESS) then
    let% (bus, address) := act (GetLocation device) in
    act (Print (LOpenFailed bus address result))
  else add_session device handle.

Definition handle_departure (device : Z) : program unit :=
  let% found := act (Find device) in
  match found with
  | None => Ret tt
  | Some session =>
      let% _ := act (Erase device) in
      let% _ := act (Print (LDeparted device (ses_generation session))) in
      destroy_session session
  end.

(** Blocks of code: the entry of each thread and the heads of the loops. *)
Inductive label :=
| MainStart
| MainLoop (deadline result : Z)
| WorkerLoop
| WorkerWait.

(** The end of [worker_loop], behind the [break]. *)
Definition worker_end : program unit :=
  let% rest := act TakeQueue in
  let% _ := prog_each rest (fun e => act (UnrefDevice (ev_device e))) in
  let% open := act TakeSessions in
  let% _ := prog_each open destroy_session in
  act ThreadExit.

(** The body of the loop of [worker_loop] with an event taken from the queue. *)
Definition handle_event (event : UsbEvent) : program unit :=
  let% _ :=
    if ev_event event =? LIBUSB_HOTPLUG_EVENT_DEVICE_ARRIVED
    then handle_arrival (ev_device event)
    else handle_departure (ev_device event) in
  act (UnrefDevice (ev_device event)).

(** One turn of the loop of [worker_loop], from the test of the predicate on. *)
Definition worker_turn : program (option label) :=
  let% stopping := act ReadStopping in
  let% empty := act QueueEmpty in
  if negb (stopping || negb empty) then
    let% _ := act WaitBegin in
    let% _ := act WaitEnd in
    Ret (Some WorkerWait)
  else if empty && stopping then
    let% _ := act Unlock in
    let% _ := worker_end in
    Ret None
  else
    let% event := act PopFront in
    let% _ := act Unlock in
    let% _ := handle_event event in
    Ret (Some WorkerLoop).

(** The ends of [main], with the destructor of the session manager. *)
Definition shut_down (code : Z) : program (option label) :=
  let% _ := stop in
  let% _ := act LibusbExit in
  let% _ := stop in
  let% _ := act (ReturnCode code) in
  Ret None.

Definition main_end (result : Z) : program (option label) :=
  let% _ := act Deregister in
  shut_down (if (result =? LIBUSB_SUCCESS) || (result =? LIBUSB_ERROR_INTERRUPTED) then 0 else 1).

(** [steady_clock::time_point::max()], in nanoseconds in 64 bits *)
Definition i64_max : Z := 2 ^ 63 - 1.

(** The greatest time without a duration, otherwise the time now plus the seconds. *)
Definition find_deadline (duration : Z) : program Z :=
  if duration =? 0 then Ret i64_max else
  let% now := act Now in
  act (AddSeconds now duration).

(** [main] up to its loop. *)
Definition main_start `{Platform} (argv : list (list Z)) : program (option label) :=
  match parse_options argv with
  | None =>
      let% _ := act (Print (LUsage (head argv))) in
      let% _ := act (ReturnCode 2) in
      Ret None
  | Some duration =>
      let% result := act LibusbInit in
      if negb (result =? LIBUSB_SUCCESS) then
        let% _ := act (Print (LInitFailed result)) in
        let% _ := act (ReturnCode 1) in
        Ret None
      else
      let% _ := act Spawn in
      let% _ := act InitGeneration in
      let% (result, present) := act RegisterCallback in
      let% _ := prog_each present hotplug_callback in
      if negb (result =? LIBUSB_SUCCESS) then
        let% _ := act (Print (LRegistrationFailed result)) in
        shut_down 1
      else
      let% deadline := find_deadline duration in
      Ret (Some (MainLoop deadline result))
  end.

(** One turn of the loop of [main]. *)
Definition main_turn (deadline result : Z) : program (option label) :=
  let% requested := act StopRequested in
  let% now := if requested : bool then Ret deadline else act Now in
  if negb (now <? deadline) then main_end result else
  let% (result, events) := act HandleEvents in
  let% _ := prog_each events hotplug_callback in
  if negb (result =? LIBUSB_SUCCESS) && negb (result =? LIBUSB_ERROR_INTERRUPTED) then
    let% _ := act (Print (LEventLoopFailed result)) in
    main_end result
  else Ret (Some (MainLoop deadline result)).

Definition daemon_code `{Platform} (argv : list (list Z)) (t : nat) (l : label)
    : program (option label) :=
  match l with
  | MainStart => main_start argv
  | MainLoop deadline result => main_turn deadline result
  | WorkerLoop => let% _ := act Lock in Ret (Some WorkerWait)
  | WorkerWait => worker_turn
  end.

(** ** The meaning of the operations *)

Definition set_mutex (m : option nat) (s : state) : state :=
  {| mutex := m; queue := queue s; sessions := sessions s; stopping := stopping s;
     generation := generation s; spawned := spawned s; waiting := waiting s;
     notified := notified s; owes_notify := owes_notify s; worker_done := worker_done s;
     joined := joined s; hand := hand s; next_handle := next_handle s; clock := clock s;
     trace := trace s; ended := ended s |}.

Definition set_queue (q : list UsbEvent) (s : state) : state :=
  {| mutex := mutex s; queue := q; sessions := sessions s; stopping := stopping s;
     generation := generation s; spawned := spawned s; waiting := waiting s;
     notified := notified s; owes_notify := owes_notify s; worker_done := worker_done s;
     joined := joined s; hand := hand s; next_handle := next_handle s; clock := clock s;
     trace := trace s; ended := ended s |}.

Definition set_sessions (l : list DeviceSession) (s : state) : state :=
  {| mutex := mutex s; queue := queue s; sessions := l; stopping := stopping s;
     generation := generation s; spawned := spawned s; waiting := waiting s;
     notified := notified s; owes_notify := owes_notify s; worker_done := worker_done s;
     joined := joined s; hand := hand s; next_handle := next_handle s; clock := clock s;
     trace := trace s; ended := ended s |}.

Definition set_stopping (b : bool) (s : state) : state :=
  {| mutex := mutex s; queue := queue s; sessions := sessions s; stopping := b;
     generation := generation s; spawned := spawned s; waiting := waiting s;
     notified := notified s; owes_notify := owes_notify s; worker_done := worker_done s;
     joined := joined s; hand := hand s; next_handle := next_handle s; clock := clock s;
     trace := trace s; ended := ended s |}.

Definition set_generation (g : option Z) (s : state) : state :=
  {| mutex := mutex s; queue := queue s; sessions := sessions s; stopping := stopping s;
     generation := g; spawned := spawned s; waiting := waiting s; notified := notified s;
     owes_notify := owes_notify s; worker_done := worker_done s; joined := joined s;
     hand := hand s; next_handle := next_handle s; clock := clock s; trace := trace s;
     ended := ended s |}.

Definition set_spawned (b : bool) (s : state) : state :=
  {| mutex := mutex s; queue := queue s; sessions := sessions s; stopping := stopping s;
     generation := generation s; spawned := b; waiting := waiting s; notified := notified s;
     owes_notify := owes_notify s; worker_done := worker_done s; joined := joined s;
     hand := hand s; next_handle := next_handle s; clock := clock s; trace := trace s;
     ended := ended s |}.

Definition set_wait (w n : bool) (s : state) : state :=
  {| mutex := mutex s; queue := queue s; sessions := sessions s; stopping := stopping s;
     generation := generation s; spawned := spawned s; waiting := w; notified := n;
     owes_notify := owes_notify s; worker_done := worker_done s; joined := joined s;
     hand := hand s; next_handle := next_handle s; clock := clock s; trace := trace s;
     ended := ended s |}.

Definition set_owes (b : bool) (s : state) : state :=
  {| mutex := mutex s; queue := queue s; sessions := sessions s; stopping := stopping s;
     generation := generation s; spawned := spawned s; waiting := waiting s;
     notified := notified s; owes_notify := b; worker_done := worker_done s;
     joined := joined s; hand := hand s; next_handle := next_handle s; clock := clock s;
     trace := trace s; ended := ended s |}.

Definition set_done (b : bool) (s : state) : state :=
  {| mutex := mutex s; queue := queue s; sessions := sessions s; stopping := stopping s;
     generation := generation s; spawned := spawned s; waiting := waiting s;
     notified := notified s; owes_notify := owes_notify s; worker_done := b;
     joined := joined s; hand := hand s; next_handle := next_handle s; clock := clock s;
     trace := trace s; ended := ended s |}.

Definition set_joined (b : bool) (s : state) : state :=
  {| mutex := mutex s; queue := queue s; sessions := sessions s; stopping := stopping s;
     generation := generation s; spawned := spawned s; waiting := waiting s;
     notified := notified s; owes_notify := owes_notify s; worker_done := worker_done s;
     joined := b; hand := hand s; next_handle := next_handle s; clock := clock s;
     trace := trace s; ended := ended s |}.

Definition set_hand (t : nat) (rs : list resource) (s : state) : state :=
  {| mutex := mutex s; queue := queue s; sessions := sessions s; stopping := stopping s;
     generation := generation s; spawned := spawned s; waiting := waiting s;
     notified := notified s; owes_notify := owes_notify s; worker_done := worker_done s;
     joined := joined s; hand := <[t := rs]> (hand s); next_handle := next_handle s;
     clock := clock s; trace := trace s; ended := ended s |}.

Definition set_next_handle (h : Z) (s : state) : state :=
  {| mutex := mutex s; queue := queue s; sessions := sessions s; stopping := stopping s;
     generation := generation s; spawned := spawned s; waiting := waiting s;
     notified := notified s; owes_notify := owes_notify s; worker_done := worker_done s;
     joined := joined s; hand := hand s; next_handle := h; clock := clock s; trace := trace s;
     ended := ended s |}.

Definition tick  (s : state) : state :=
  {| mutex := mutex s; queue := queue s; sessions := sessions s; stopping := stopping s;
     generation := generation s; spawned := spawned s; waiting := waiting s;
     notified := notified s; owes_notify := owes_notify s; worker_done := worker_done s;
     joined := joined s; hand := hand s; next_handle := next_handle s; clock := S (clock s);
     trace := trace s; ended := ended s |}.

Definition emit (e : observation) (s : state) : state :=
  {| mutex := mutex s; queue := queue s; sessions := sessions s; stopping := stopping s;
     generation := generation s; spawned := spawned s; waiting := waiting s;
     notified := notified s; owes_notify := owes_notify s; worker_done := worker_done s;
     joined := joined s; hand := hand s; next_handle := next_handle s; clock := clock s;
     trace := trace s ++ [e]; ended := ended s |}.

Definition end_with (f : fate) (s : state) : state :=
  {| mutex := mutex s; queue := queue s; sessions := sessions s; stopping := stopping s;
     generation := generation s; spawned := spawned s; waiting := waiting s;
     notified := notified s; owes_notify := owes_notify s; worker_done := worker_done s;
     joined := joined s; hand := hand s; next_handle := next_handle s; clock := clock s;
     trace := trace s; ended := Some f |}.


Fixpoint remove_one (r : resource) (l : list resource) : list resource :=
  match l with
  | [] => []
  | x :: l => if decide (x = r) then l else x :: remove_one r l
  end.

(** Ownership is taken from a thread, or given to it. *)
Definition drop_from (t : nat) (rs : list resource) (s : state) : state :=
  set_hand t (foldr remove_one (hand s t) rs) s.
Definition give_to (t : nat) (rs : list resource) (s : state) : state :=
  set_hand t (rs ++ hand s t) s.

(** [std::map] as the list of its values in the order of their keys. *)
Section ordered.
Context {A : Type} (key : A -> Z).

Fixpoint find_key (k : Z) (l : list A) : option A :=
  match l with
  | [] => None
  | x :: r => if key x =? k then Some x else find_key k r
  end.

Fixpoint insert_key (x : A) (l : list A) : list A :=
  match l with
  | [] => [x]
  | y :: r => if key x <? key y then x :: l else y :: insert_key x r
  end.

Fixpoint erase_key (k : Z) (l : list A) : list A :=
  match l with
  | [] => []
  | x :: r => if key x =? k then r else x :: erase_key k r
  end.
End ordered.

Definition owns (t : nat) (rs : list resource) (s : state) : bool :=
  bool_decide (Forall (fun r => r ∈ hand s t) rs).

Definition locked_by (t : nat) (s : state) : bool := bool_decide (mutex s = Some t).

(** [%s] needs a string. *)
Definition printable (l : line) : bool :=
  match l with LUsage None => false | _ => true end.

(** What C++ and libusb allow.  The shared members are touched under the lock, except
    the queue by the worker when no producer can follow; the map and the counter
    belong to the worker; a device is used with a reference, which libusb itself
    holds during a callback. *)
Definition allowed {R} (o : op R) (t : nat) (s : state) : bool :=
  match o with
  | AddSeconds now seconds => now + 1000000000 * seconds <=? i64_max
  | Print l => printable l
  | LibusbExit => bool_decide (held s = [])
  | ReturnCode _ => negb (spawned s) || joined s
  | RefDevice d => (t =? 0)%nat || owns t [Reference d] s
  | UnrefDevice d | GetDescriptor d | GetLocation d | Open d => owns t [Reference d] s
  | CloseHandle h => owns t [OpenHandle h] s
  | Unlock | ReadStopping | SetStopping | QueueEmpty | WaitBegin => locked_by t s
  | PushBack e => locked_by t s && owns t [Reference (ev_device e)] s
  | PopFront => locked_by t s && bool_decide (queue s <> [])
  | Join => (t =? 0)%nat && negb (joined s)
  | TakeQueue => stopping s && (t =? 1)%nat
  | NextGeneration => (t =? 1)%nat && bool_decide (is_Some (generation s))
  | Find _ | Erase _ | TakeSessions => (t =? 1)%nat
  | Emplace x => (t =? 1)%nat && owns t (session_resources x) s
  | _ => true
  end.

Section semantics.
Context (env : environment).

(** An operation of a running process, or nothing while it blocks. *)
Definition effect {R} (o : op R) (t : nat) (s : state) : option (state * R) :=
  match o in op R return option (state * R) with
  | LibusbInit => Some (s, env_init env)
  | Spawn => Some (set_spawned true s, tt)
  | InitGeneration => Some (set_generation (Some 0) s, tt)
  | RegisterCallback => Some (s, env_register env)
  | StopRequested => Some (s, env_stop_requested env (clock s))
  | Now => Some (s, env_now env (clock s))
  | AddSeconds now seconds => Some (s, now + 1000000000 * seconds)
  | HandleEvents => Some (s, env_events env (clock s))
  | Deregister => Some (s, tt)
  | LibusbExit => Some (s, tt)
  | ReturnCode c => Some (end_with (Exited c) s, tt)
  | Print l => Some (emit (EPrint l) s, tt)
  | RefDevice d => Some (emit (EAcquire t (Reference d)) (give_to t [Reference d] s), tt)
  | UnrefDevice d => Some (emit (ERelease t (Reference d)) (drop_from t [Reference d] s), tt)
  | Lock => if mutex s is Some _ then None else Some (set_mutex (Some t) s, tt)
  | Unlock => Some (set_mutex None s, tt)
  | ReadStopping => Some (s, stopping s)
  | SetStopping => Some (set_owes true (set_stopping true s), tt)
  | PushBack e =>
      Some (emit (EAccepted e)
        (set_owes true (set_queue (queue s ++ [e]) (drop_from t [Reference (ev_device e)] s))), tt)
  | QueueEmpty => Some (s, bool_decide (queue s = []))
  | PopFront =>
      match queue s with
      | e :: q => Some (emit (EProcessed e) (give_to t [Reference (ev_device e)] (set_queue q s)), e)
      | [] => Some (s, {| ev_device := 0; ev_event := 0 |})
      end
  | NotifyOne => Some (set_owes false (set_wait (waiting s) (notified s || waiting s) s), tt)
  | WaitBegin => Some (set_wait true false (set_mutex None s), tt)
  | WaitEnd =>
      if mutex s is Some _ then None
      else if notified s || env_spurious env (clock s)
      then Some (set_wait false false (set_mutex (Some t) s), tt)
      else None
  | Join => if worker_done s then Some (set_joined true s, tt) else None
  | ThreadExit => Some (set_done true s, tt)
  | TakeQueue =>
      Some (give_to t (map (fun e => Reference (ev_device e)) (queue s)) (set_queue [] s), queue s)
  | GetDescriptor d => Some (s, env_descriptor env d)
  | GetLocation d => Some (s, env_location env d)
  | Open d =>
      let result := env_open env (clock s) in
      let h := next_handle s in
      if result =? LIBUSB_SUCCESS then
        Some (emit (EAcquire t (OpenHandle h)) (set_next_handle (h + 1) (give_to t [OpenHandle h] s)),
              (result, h))
      else Some (s, (result, 0))
  | CloseHandle h => Some (emit (ERelease t (OpenHandle h)) (drop_from t [OpenHandle h] s), tt)
  | NextGeneration =>
      let g := (default 0 (generation s) + 1) mod 2 ^ 64 in
      Some (set_generation (Some g) s, g)
  | Find d => Some (s, find_key ses_device d (sessions s))
  | Emplace x =>
      match find_key ses_device (ses_device x) (sessions s) with
      | Some _ => Some (s, false)
      | None =>
          Some (set_sessions (insert_key ses_device x (sessions s)) (drop_from t (session_resources x) s),
                true)
      end
  | Erase d =>
      match find_key ses_device d (sessions s) with
      | Some x =>
          Some (give_to t (session_resources x) (set_sessions (erase_key ses_device d (sessions s)) s), tt)
      | None => Some (s, tt)
      end
  | TakeSessions =>
      Some (give_to t (flat_map session_resources (sessions s)) (set_sessions [] s), sessions s)
  end.

(** A step of thread 0, the main thread, or 1, the worker.  The worker runs from its
    creation to its exit, nobody runs once the process has ended, and what is not
    allowed ends it. *)
Definition perform (R : Type) (o : op R) (t : nat) (s : state) : option (state * R) :=
  if ended s is Some _ then None
  else if (t =? 1)%nat && (negb (spawned s) || worker_done s) then None
  else effect o t (tick (if allowed o t s then s else end_with Crashed s)).
End semantics.

(** The two threads and their interleavings. *)
Definition daemon_start `{Platform} (argv : list (list Z)) : conf state label :=
  {| shared := initial_state; threads := [daemon_code argv 0 MainStart; daemon_code argv 1 WorkerLoop] |}.

Definition daemon_after `{Platform} (env : environment) (argv : list (list Z)) (schedule : list nat)
    : conf state label :=
  trun (perform env) (daemon_code argv) (daemon_start argv) schedule.

(** ** Examples *)

(** An adapter that is present, arrives again, leaves, and returns; then a signal. *)
Definition sample_environment : environment :=
  let arrived := {| ev_device := 7; ev_event := LIBUSB_HOTPLUG_EVENT_DEVICE_ARRIVED |} in
  let gone := {| ev_device := 7; ev_event := LIBUSB_HOTPLUG_EVENT_DEVICE_LEFT |} in
  {| env_init := 0; env_register := (0, [arrived]); env_stop_requested := fun n => (80 <=? n)%nat;
     env_now := fun n => Z.min (Z.of_nat n) 1000000000; env_events := fun _ => (0, [arrived; gone; arrived]);
     env_descriptor := fun _ => (0, SMIUSB_VENDOR_ID, SMIUSB_SM768_PRODUCT_ID);
     env_location := fun _ => (2, 5); env_open := fun _ => 0; env_spurious := fun _ => false |}.

Definition sample_argv : list (list Z) := [lit "smiusbd"; lit "--observe"; lit "--duration"; lit "30"].

Definition sample_run : state :=
  shared (daemon_after sample_environment sample_argv (flat_map (fun _ => [0; 1; 1]%nat) (seq 0 90))).

(** An arrival of a known device opens nothing, and every session gets a number of its
    own. *)
Example sample_run_prints :
  ended sample_run = Some (Exited 0) /\
  omap (fun e => match e with EPrint l => Some l | _ => None end) (trace sample_run) =
    [LArrived 7 1 2 5; LDeparted 7 1; LArrived 7 2 2 5; LDeparted 7 2; LArrived 7 3 2 5].
Proof. vm_compute. split; reflexivity. Qed.

Example sample_lines :
  line_text (fun _ => []) (LArrived 7 1 2 5) =
    lit "smiusbd: generation=1 arrived bus=2 address=5 (observe-only; no interface claimed)" ++ [10].
Proof. vm_compute. reflexivity. Qed.

(** ** Durations *)

Lemma strtoul_digits_spec acc ds :
  Forall (fun d => 0 <= d < 10) ds ->
  strtoul_digits acc (digit_char <$> ds) = (acc * 10 ^ len ds + digits_value 10 ds, []).
Proof.
  intros Hds. revert acc. induction Hds as [|d ds Hd Hds IH]; intros acc.
  - cbn. by rewrite Z.mul_1_r, Z.add_0_r.
  - cbn [fmap list_fmap strtoul_digits]. rewrite digit_char_is_digit by done.
    assert (digit_char d - 48 = d) as -> by (unfold digit_char; case_test; lia).
    rewrite IH. f_equal. change (d :: ds) with ([d] ++ ds).
    rewrite digits_value_app, len_app, Z.pow_add_r by len_lia. change (len [d]) with 1.
    change (digits_value 10 [d]) with (0 * 10 + d). ring.
Qed.

Lemma strtoul_dec `{Platform} n :
  0 <= n -> strtoul (dec n) = (if c_ulong_max <? n then c_ulong_max else n, Some []).
Proof.
  intros Hn. destruct (dec_chars n Hn) as [Hc Hl]. unfold strtoul.
  assert (Hd : strtoul_digits 0 (dec n) = (n, [])).
  { destruct (render_spec 10 n) as (ds & Hr & Hds & Hv & _); [lia|done|].
    unfold dec. rewrite Hr, strtoul_digits_spec by done. by rewrite Hv. }
  destruct (dec n) as [|c r]; [done|]. apply Forall_cons_1 in Hc as [Hc _].
  assert (isspace c = false /\ (c =? 45) = false /\ (c =? 43) = false) as (Hs & Hm & Hp).
  { unfold is_ascii_digit, isspace in *. reflect_bool. lia. }
  cbn [skip_space]. rewrite Hs, Hm, Hp, Hc, Hd. done.
Qed.

(** A duration that is written in decimal is accepted exactly when it is at least 1
    and fits 32 bits, where [unsigned long] has 64. *)
Lemma parse_options_dec `{Platform} program n :
  c_ulong_bits = 64 -> 0 <= n ->
  parse_options [program; lit "--observe"; lit "--duration"; dec n] =
    if (0 <? n) && (n <=? u32_max) then Some n else None.
Proof.
  intros Hb Hn. unfold parse_options. rewrite !bool_decide_true by done. cbn [negb].
  rewrite strtoul_dec by done. unfold c_ulong_max. rewrite Hb.
  destruct (Z.ltb_spec (2 ^ 64 - 1) n); [|done].
  rewrite (proj2 (Z.leb_gt n u32_max)) by (change u32_max with (2 ^ 32 - 1); lia). by rewrite !andb_false_r.
Qed.

(** A duration that was accepted fits 32 bits. *)
Lemma parse_options_bound `{Platform} argv d : parse_options argv = Some d -> 0 <= d <= u32_max.
Proof.
  unfold parse_options. destruct argv as [|p [|mode rest]]; [done..|]. case_test; [done|].
  destruct rest as [|flag [|seconds [|? ?]]]; [intros [= <-]; by vm_compute|done| |done].
  case_test; [|done]. destruct (strtoul seconds) as [v [[|? ?]|]]; [|done..].
  case_test; [|done]. intros [= <-]. reflect_bool. lia.
Qed.

(** Without a look at the sign and at [errno], a negative number wraps into the range,
    and where [unsigned long] has 32 bits an overflow saturates into it. *)
Example duration_wraps :
  parse_options (H := x86_64_linux)
    [lit "smiusbd"; lit "--observe"; lit "--duration"; lit "-18446744073709551615"] = Some 1.
Proof. vm_compute. reflexivity. Qed.

Lemma duration_saturates `{Platform} program n :
  c_ulong_bits = 32 -> u32_max < n ->
  parse_options [program; lit "--observe"; lit "--duration"; dec n] = Some u32_max.
Proof.
  intros Hb Hn. unfold parse_options. rewrite !bool_decide_true by done. cbn [negb].
  rewrite strtoul_dec by (change u32_max with (2 ^ 32 - 1) in *; lia). unfold c_ulong_max. rewrite Hb.
  by rewrite (proj2 (Z.ltb_lt (2 ^ 32 - 1) n) Hn).
Qed.
