(* ===== verification/DaemonSafety.v ===== *)
(** * DaemonSafety: every run of the daemon

    The invariant that the two threads of [Daemon] keep under every interleaving:
    references and handles balance, events are handled in the order in which they
    were accepted, sessions pair up with their numbers, a waiting worker is woken.
    From it: no undefined behaviour and no leak. *)

From stdpp Require Import functions.
From S2P Require Import Prelude Text Wire Header Threads Daemon.

Open Scope Z_scope.

#[local] Abbreviation program := (prog op).
#[local] Abbreviation act := (@Threads.act op _).

(** ** What the trace promises *)

Definition acquired (tr : list observation) : list resource :=
  omap (fun e => match e with EAcquire _ r => Some r | _ => None end) tr.
Definition released (tr : list observation) : list resource :=
  omap (fun e => match e with ERelease _ r => Some r | _ => None end) tr.
Definition accepted (tr : list observation) : list UsbEvent :=
  omap (fun e => match e with EAccepted e => Some e | _ => None end) tr.
Definition processed (tr : list observation) : list UsbEvent :=
  omap (fun e => match e with EProcessed e => Some e | _ => None end) tr.

(** The sessions that are open according to what was printed, and the last number
    given: a device arrives when it is not there, under the next number, and departs
    under the number it arrived with. *)
Definition replay_step (e : observation) (st : list (Z * Z) * Z) : option (list (Z * Z) * Z) :=
  match e with
  | EPrint (LArrived d g _ _) =>
      match find_key fst d st.1 with
      | Some _ => None
      | None => if g =? (st.2 + 1) mod 2 ^ 64 then Some (insert_key fst (d, g) st.1, g) else None
      end
  | EPrint (LDeparted d g) =>
      match find_key fst d st.1 with
      | Some (_, g') => if g =? g' then Some (erase_key fst d st.1, st.2) else None
      | None => None
      end
  | _ => Some st
  end.
Definition replay (tr : list observation) : option (list (Z * Z) * Z) :=
  fold_left (fun st e => st ≫= replay_step e) tr (Some ([], 0)).

(** Handles are closed on the worker thread only. *)
Definition closed_by_worker (e : observation) : Prop :=
  match e with ERelease t (OpenHandle _) => t = 1%nat | _ => True end.

(** ** The invariant *)

Record daemon_inv (s : state) : Prop := {
  di_fine : ended s <> Some Crashed;
  di_mutex : forall t, mutex s = Some t ->
    t = 0%nat \/ t = 1%nat /\ spawned s = true /\ worker_done s = false;
  di_balance : acquired (trace s) ≡ₚ released (trace s) ++ held s;
  di_fifo : accepted (trace s) = processed (trace s) ++ queue s;
  di_replay : is_Some (replay (trace s));
  di_queue : queue s <> [] -> is_Some (generation s);
  di_wait : waiting s = true -> notified s = false -> owes_notify s = false ->
    queue s = [] /\ stopping s = false;
  di_closed : Forall closed_by_worker (trace s);
  di_unborn : spawned s = false -> queue s = [] /\ sessions s = [] /\ hand s 1 = [];
  di_done : worker_done s = true ->
    stopping s = true /\ queue s = [] /\ sessions s = [] /\ hand s 1 = [];
  di_joined : joined s = true -> worker_done s = true;
  di_exit : is_Some (ended s) -> held s = [];
}.

(** What thread [t] keeps across the steps of the other thread. *)
Record daemon_rely (t : nat) (s s' : state) : Prop := {
  dr_ended : is_Some (ended s) -> ended s' = ended s;
  dr_hand : hand s' t = hand s t;
  dr_lock : mutex s = Some t <-> mutex s' = Some t;
  dr_locked : mutex s = Some t -> queue s' = queue s /\ stopping s' = stopping s;
  dr_generation : is_Some (generation s) -> is_Some (generation s');
  dr_spawned : spawned s = true -> spawned s' = true;
  dr_main : t = 0%nat ->
    stopping s' = stopping s /\ spawned s' = spawned s /\ joined s' = joined s /\
    owes_notify s' = owes_notify s /\ ended s' = ended s /\
    (generation s = None -> generation s' = None);
  dr_worker : t = 1%nat ->
    sessions s' = sessions s /\ waiting s' = waiting s /\ worker_done s' = worker_done s /\
    replay (trace s') = replay (trace s) /\
    default 0 (generation s') = default 0 (generation s) /\
    (stopping s = true -> stopping s' = true /\ queue s' = queue s);
}.

#[export] Instance daemon_rely_preorder t : PreOrder (daemon_rely t).
Proof.
  split.
  - intros s. constructor; try done; intros; by split_and!.
  - intros a b c [A1 A2 A3 A4 A5 A6 A7 A8] [B1 B2 B3 B4 B5 B6 B7 B8]. constructor.
    + intros H. rewrite B1; [by apply A1|]. by rewrite A1.
    + congruence.
    + by rewrite A3.
    + intros H. destruct (A4 H). destruct B4; [by apply A3|]. split; congruence.
    + auto.
    + auto.
    + intros H. destruct (A7 H) as (? & ? & ? & ? & ? & ?), (B7 H) as (? & ? & ? & ? & ? & ?).
      split_and!; [congruence..|auto].
    + intros H. destruct (A8 H) as (? & ? & ? & ? & ? & A), (B8 H) as (? & ? & ? & ? & ? & B).
      split_and!; [congruence..|]. intros Hs. destruct (A Hs). destruct B; [done|]. split; congruence.
Qed.

(** What an operation needs beyond being allowed: who performs it, and when. *)
Definition extra {R} (o : op R) (t : nat) (s : state) : Prop :=
  match o with
  | Spawn => t = 0%nat /\ spawned s = false
  | InitGeneration => t = 0%nat /\ generation s = None
  | ReturnCode _ => t = 0%nat /\ held s = []
  | Print (LArrived d g _ _) =>
      t = 1%nat /\ exists live count, replay (trace s) = Some (live, count) /\
      find_key fst d live = None /\ g = (count + 1) mod 2 ^ 64
  | Print (LDeparted d g) =>
      t = 1%nat /\ exists live count d', replay (trace s) = Some (live, count) /\
      find_key fst d live = Some (d', g)
  | CloseHandle _ | Open _ | PopFront => t = 1%nat
  | WaitBegin => t = 1%nat /\ queue s = [] /\ stopping s = false
  | Lock => mutex s <> Some t
  | SetStopping => t = 0%nat
  | PushBack _ => t = 0%nat /\ stopping s = false /\ spawned s = true /\ is_Some (generation s)
  | NotifyOne => t = 0%nat
  | WaitEnd => t = 1%nat /\ mutex s <> Some 1%nat /\ waiting s = true
  | Join => t = 0%nat /\ mutex s <> Some 0%nat /\ stopping s = true /\ owes_notify s = false /\ spawned s = true
  | ThreadExit =>
      t = 1%nat /\ mutex s <> Some 1%nat /\ stopping s = true /\ queue s = [] /\ sessions s = []
      /\ hand s 1 = []
  | TakeQueue => queue s = []
  | _ => True
  end.

Definition needs {R} (o : op R) (t : nat) (s : state) : Prop :=
  (t < 2)%nat /\ allowed o t s = true /\ extra o t s.

(** The thread is alive. *)
Definition runs (t : nat) (s : state) : Prop :=
  ended s = None /\ (t < 2)%nat /\ (t = 1%nat -> spawned s = true /\ worker_done s = false).

Definition daemon_pre (R : Type) (o : op R) (t : nat) (s : state) : Prop :=
  runs t s -> needs o t s.

(** ** Lists *)

Lemma remove_one_Permutation r l : r ∈ l -> l ≡ₚ r :: remove_one r l.
Proof.
  induction l as [|x l IH]; [by intros ?%elem_of_nil|]. cbn. case_decide as Hx; [by subst|].
  intros [->|Hr]%elem_of_cons; [done|]. rewrite (IH Hr) at 1. by constructor.
Qed.

Lemma remove_one_head r l : remove_one r (r :: l) = l.
Proof. cbn. by rewrite decide_True. Qed.

Lemma remove_one_other x r l : r <> x -> r ∈ l -> r ∈ remove_one x l.
Proof.
  intros Hne. induction l as [|y l IH]; [done|]. cbn. rewrite elem_of_cons.
  intros [->|Hr]; case_decide; [done|by left|done|]. right. auto.
Qed.

Lemma remove_all_Permutation rs l :
  NoDup rs -> Forall (fun r => r ∈ l) rs -> l ≡ₚ rs ++ foldr remove_one l rs.
Proof.
  intros Hn. induction Hn as [|r rs Hr Hn IH]; [done|]. cbn. intros [Hl Hrs]%Forall_cons_1.
  specialize (IH Hrs). rewrite (remove_one_Permutation r (foldr remove_one l rs)) in IH.
  - rewrite IH at 1. by rewrite Permutation_middle.
  - rewrite IH, elem_of_app in Hl. by destruct Hl.
Qed.

Section ordered.
Context {A B : Type} (key : A -> Z) (key' : B -> Z) (f : A -> B).

Lemma insert_key_Permutation x (l : list A) : insert_key key x l ≡ₚ x :: l.
Proof.
  induction l as [|y l IH]; [done|]. cbn. case_test; [done|]. rewrite IH. by rewrite Permutation_swap.
Qed.

Lemma erase_key_Permutation k x (l : list A) : find_key key k l = Some x -> l ≡ₚ x :: erase_key key k l.
Proof.
  induction l as [|y l IH]; [done|]. cbn. case_test; [by intros [= ->]|]. intros H.
  rewrite (IH H) at 1. by rewrite Permutation_swap.
Qed.

Lemma find_key_key k x (l : list A) : find_key key k l = Some x -> key x = k.
Proof. induction l as [|y l IH]; [done|]. cbn. case_test; [|done]. intros [= ->]. by reflect_bool. Qed.

Context (Hf : forall x, key' (f x) = key x).

Lemma find_key_map k (l : list A) : find_key key' k (map f l) = f <$> find_key key k l.
Proof using Hf. induction l as [|y l IH]; [done|]. cbn. rewrite Hf. by case_test. Qed.

Lemma insert_key_map x (l : list A) : insert_key key' (f x) (map f l) = map f (insert_key key x l).
Proof using Hf.
  induction l as [|y l IH]; [done|]. cbn. rewrite !Hf. case_test; [done|]. cbn. by rewrite IH.
Qed.

Lemma erase_key_map k (l : list A) : erase_key key' k (map f l) = map f (erase_key key k l).
Proof using Hf. induction l as [|y l IH]; [done|]. cbn. rewrite Hf. case_test; [done|]. cbn. by rewrite IH. Qed.
End ordered.

#[local] Arguments acquired : simpl never.
#[local] Arguments released : simpl never.
#[local] Arguments accepted : simpl never.
#[local] Arguments processed : simpl never.
#[local] Arguments replay : simpl never.
#[local] Arguments held : simpl never.

(** ** The trace grows by one *)

Lemma acquired_snoc tr e :
  acquired (tr ++ [e]) = acquired tr ++ match e with EAcquire _ r => [r] | _ => [] end.
Proof. unfold acquired. rewrite omap_app. f_equal. by destruct e. Qed.
Lemma released_snoc tr e :
  released (tr ++ [e]) = released tr ++ match e with ERelease _ r => [r] | _ => [] end.
Proof. unfold released. rewrite omap_app. f_equal. by destruct e. Qed.
Lemma accepted_snoc tr e :
  accepted (tr ++ [e]) = accepted tr ++ match e with EAccepted x => [x] | _ => [] end.
Proof. unfold accepted. rewrite omap_app. f_equal. by destruct e. Qed.
Lemma processed_snoc tr e :
  processed (tr ++ [e]) = processed tr ++ match e with EProcessed x => [x] | _ => [] end.
Proof. unfold processed. rewrite omap_app. f_equal. by destruct e. Qed.
Lemma replay_snoc tr e : replay (tr ++ [e]) = replay tr ≫= replay_step e.
Proof. unfold replay. by rewrite fold_left_app. Qed.

(** An observation that leaves the sessions alone. *)
Definition plain (e : observation) : bool :=
  match e with EPrint (LArrived _ _ _ _) | EPrint (LDeparted _ _) => false | _ => true end.

Lemma replay_plain tr e : plain e = true -> replay (tr ++ [e]) = replay tr.
Proof.
  rewrite replay_snoc. destruct (replay tr) as [st|]; [|done].
  destruct e as [| | | |[]]; done.
Qed.

(** ** Ownership *)

Lemma hand_set t u rs s : hand (set_hand t rs s) u = if decide (u = t) then rs else hand s u.
Proof.
  cbn. case_decide as Hu; [subst; by rewrite fn_lookup_insert|by rewrite fn_lookup_insert_ne by done].
Qed.

(** A change of one hand. *)
Lemma held_set_hand t rs out inn s :
  (t < 2)%nat -> out ++ rs ≡ₚ inn ++ hand s t -> out ++ held (set_hand t rs s) ≡ₚ inn ++ held s.
Proof.
  intros Ht Hrs. unfold held. rewrite !hand_set. cbn [queue sessions set_hand].
  assert (t = 0 \/ t = 1)%nat as [->| ->] by lia; cbn [decide].
  - rewrite decide_True, decide_False by done.
    rewrite (Permutation_app_comm out), (Permutation_app_comm inn), <- !app_assoc.
    do 2 f_equiv. rewrite (Permutation_app_comm _ out), (Permutation_app_comm _ inn), !app_assoc.
    by rewrite (Permutation_app_comm _ out), (Permutation_app_comm _ inn), Hrs.
  - rewrite decide_False, decide_True by done.
    rewrite (Permutation_app_comm out), (Permutation_app_comm inn), <- !app_assoc.
    do 3 f_equiv. by rewrite (Permutation_app_comm _ out), (Permutation_app_comm _ inn).
Qed.

Lemma held_give t rs s : (t < 2)%nat -> held (give_to t rs s) ≡ₚ rs ++ held s.
Proof. intros Ht. by apply (held_set_hand t _ []). Qed.

Lemma held_drop t rs s :
  (t < 2)%nat -> NoDup rs -> owns t rs s = true -> rs ++ held (drop_from t rs s) ≡ₚ held s.
Proof.
  intros Ht Hn Ho. apply (held_set_hand t _ _ []); [done|]. symmetry. apply remove_all_Permutation; [done|].
  by apply bool_decide_eq_true in Ho.
Qed.

(** Sessions that leave the map. *)
Lemma held_sessions s xs l :
  sessions s ≡ₚ xs ++ l -> held s ≡ₚ flat_map session_resources xs ++ held (set_sessions l s).
Proof.
  intros Hl. unfold held. cbn. rewrite (Permutation_flat_map session_resources Hl), flat_map_app.
  rewrite <- app_assoc, !app_assoc. do 3 f_equiv. apply Permutation_app_comm.
Qed.

(** ** What a run needs *)

(** The deadline, the one sum that [main] computes from the steady clock, fits the
    64-bit count of nanoseconds. *)
Definition deadline_fits `{Platform} (env : environment) (argv : list (list Z)) : Prop :=
  forall duration n, parse_options argv = Some duration -> 0 < duration ->
    env_now env n + 1000000000 * duration <= i64_max.

(** That, and a name in [argv[0]]; without them [main] itself is undefined. *)
Record meaningful `{Platform} (env : environment) (argv : list (list Z)) : Prop := {
  mf_name : argv <> [];
  mf_deadline : deadline_fits env argv;
}.

(** ** Every operation keeps the invariant *)

Section promises.
Context `{Platform} (env : environment) (argv : list (list Z)).

(** The invariant of a running process, and what the operation guarantees. *)
Definition keeps (t : nat) (s s' : state) : Prop :=
  daemon_inv s' /\ forall u, u <> t -> daemon_rely u s s'.

Lemma keeps_trans t s1 s2 s3 : keeps t s1 s2 -> keeps t s2 s3 -> keeps t s1 s3.
Proof. intros [_ H12] [H3 H23]. split; [done|]. intros u Hu. etrans; [by apply H12|by apply H23]. Qed.

(** The clauses that a change leaves alone. *)
Ltac clauses := constructor; cbn; first [done | assumption | by auto | by split_and! | idtac].

(** The clauses about the trace, after one more observation. *)
Ltac traced :=
  rewrite ?acquired_snoc, ?released_snoc, ?accepted_snoc, ?processed_snoc, ?replay_plain,
    ?Forall_app, ?app_nil_r by done; try done.

(** The hand of the worker is not the one that changes, or the worker is alive. *)
Lemma hand_one t rs s :
  runs t s -> (spawned s = false \/ worker_done s = true) -> hand s 1 = [] ->
  (<[t := rs]> (hand s)) 1%nat = [].
Proof.
  intros (_ & Ht & Hr) Hs Hh. destruct (decide (t = 1%nat)) as [->|Hne].
  - destruct (Hr eq_refl). destruct Hs; congruence.
  - by rewrite fn_lookup_insert_ne by done.
Qed.

(** A resource is acquired or released. *)
Lemma move_ok t s e rs :
  daemon_inv s -> runs t s ->
  match e with EAcquire _ _ | ERelease _ _ => True | _ => False end -> closed_by_worker e ->
  acquired (trace s ++ [e]) ≡ₚ released (trace s ++ [e]) ++ held (set_hand t rs s) ->
  keeps t s (emit e (set_hand t rs s)).
Proof.
  intros [Hfine Hmutex Hbal Hfifo Hrep Hqueue Hwait Hclosed Hunborn Hdone Hjoined Hexit] Hr He Hc Hb.
  pose proof Hr as (Hrun & _). assert (plain e = true) by (by destruct e).
  split; [clauses|intros u Hu; clauses]; traced.
  - by destruct e; rewrite ?app_nil_r.
  - by split; [|constructor].
  - intros Hs. destruct (Hunborn Hs) as (? & ? & ?). split_and!; [done..|].
    eapply hand_one; eauto.
  - intros Hs. destruct (Hdone Hs) as (? & ? & ? & ?). split_and!; [done..|].
    eapply hand_one; eauto.
  - intros [f Hf]. congruence.
  - by rewrite fn_lookup_insert_ne by done.
Qed.

Lemma acquire_ok t r s :
  daemon_inv s -> runs t s -> keeps t s (emit (EAcquire t r) (give_to t [r] s)).
Proof.
  intros Hs Hr. apply move_ok; [done..|]. rewrite acquired_snoc, released_snoc, app_nil_r.
  fold (give_to t [r] s). rewrite held_give by apply Hr.
  by rewrite (di_balance _ Hs), Permutation_app_comm, (app_assoc _ [r]), (Permutation_app_comm _ [r]), <- app_assoc.
Qed.

Lemma release_ok t r s :
  daemon_inv s -> runs t s -> owns t [r] s = true -> closed_by_worker (ERelease t r) ->
  keeps t s (emit (ERelease t r) (drop_from t [r] s)).
Proof.
  intros Hs Hr Ho Hc. apply move_ok; [done..|]. rewrite acquired_snoc, released_snoc, app_nil_r.
  fold (drop_from t [r] s). rewrite <- app_assoc, held_drop; [apply Hs|apply Hr| |done].
  apply NoDup_singleton.
Qed.

(** Ownership moves between the sessions and the worker. *)
Lemma shift_ok s l rs :
  daemon_inv s -> runs 1 s -> held (set_sessions l (set_hand 1 rs s)) ≡ₚ held s ->
  keeps 1 s (set_sessions l (set_hand 1 rs s)).
Proof.
  intros [Hfine Hmutex Hbal Hfifo Hrep Hqueue Hwait Hclosed Hunborn Hdone Hjoined Hexit] Hr Hh.
  pose proof Hr as (He & _ & Ha). destruct (Ha eq_refl) as [Hsp Hd].
  split; [clauses|intros u Hu; clauses].
  - by rewrite Hh.
  - congruence.
  - congruence.
  - rewrite He. by intros [].
  - by rewrite fn_lookup_insert_ne by done.
Qed.

Lemma print_ok t l s :
  daemon_inv s -> runs t s -> extra (Print l) t s -> keeps t s (emit (EPrint l) s).
Proof.
  intros [Hfine Hmutex Hbal Hfifo Hrep Hqueue Hwait Hclosed Hunborn Hdone Hjoined Hexit] Hr Hex.
  assert (Hrep' : is_Some (replay (trace s ++ [EPrint l])) /\
    (t <> 1%nat -> replay (trace s ++ [EPrint l]) = replay (trace s))).
  { destruct (plain (EPrint l)) eqn:Hp; [by rewrite replay_plain|]. rewrite replay_snoc.
    destruct l; try done; cbn in Hex.
    - destruct Hex as (-> & live & count & -> & Hf & ->). split; [|done]. cbn. rewrite Hf, Z.eqb_refl. by eexists.
    - destruct Hex as (-> & live & count & d' & -> & Hf). split; [|done]. cbn. rewrite Hf, Z.eqb_refl. by eexists. }
  destruct Hrep' as [Hrep1 Hrep2].
  split; [clauses|intros u Hu; clauses];
    rewrite ?acquired_snoc, ?released_snoc, ?accepted_snoc, ?processed_snoc, ?app_nil_r; try done.
  - apply Forall_app. by split; [|repeat constructor].
  - intros ->. rewrite Hrep2 by done. by split_and!.
Qed.

Lemma push_ok e s :
  daemon_inv s -> runs 0 s -> needs (PushBack e) 0 s ->
  keeps 0 s (emit (EAccepted e)
    (set_owes true (set_queue (queue s ++ [e]) (drop_from 0 [Reference (ev_device e)] s)))).
Proof.
  intros [Hfine Hmutex Hbal Hfifo Hrep Hqueue Hwait Hclosed Hunborn Hdone Hjoined Hexit] Hr
    (_ & Hal & _ & Hns & Hsp & Hg). cbn in Hal. apply andb_prop in Hal as [Hl Ho].
  apply bool_decide_eq_true in Hl. pose proof Hr as (He & _ & _).
  split; [clauses|intros u Hu; clauses]; traced.
  - rewrite Hbal. f_equiv. rewrite <- (held_drop 0 [Reference (ev_device e)] s); [|lia|apply NoDup_singleton|done].
    unfold held. cbn. rewrite map_app. cbn. by rewrite <- app_assoc, Permutation_middle.
  - by rewrite Hfifo, app_assoc.
  - split; [done|]. by repeat constructor.
  - intros ?. congruence.
  - intros Hd. destruct (Hdone Hd). congruence.
  - rewrite He. by intros [].
  - by rewrite fn_lookup_insert_ne by done.
  - intros Hm. congruence.
  - intros ->. split_and!; try done. intros ?. congruence.
Qed.

Lemma pop_ok e q s :
  daemon_inv s -> runs 1 s -> mutex s = Some 1%nat -> queue s = e :: q ->
  keeps 1 s (emit (EProcessed e) (give_to 1 [Reference (ev_device e)] (set_queue q s))).
Proof.
  intros [Hfine Hmutex Hbal Hfifo Hrep Hqueue Hwait Hclosed Hunborn Hdone Hjoined Hexit] Hr Hl Hq.
  pose proof Hr as (He & _ & Ha). destruct (Ha eq_refl) as [Hsp Hd].
  split; [clauses|intros u Hu; clauses]; traced.
  - rewrite Hbal. f_equiv.
    transitivity (held (give_to 1 [Reference (ev_device e)] (set_queue q s))); [|done].
    rewrite held_give by lia. unfold held. cbn. by rewrite Hq.
  - rewrite Hfifo, Hq. by rewrite <- app_assoc.
  - intros _. apply Hqueue. by rewrite Hq.
  - intros Hw Hn Ho. destruct (Hwait Hw Hn Ho). congruence.
  - split; [done|]. by repeat constructor.
  - congruence.
  - congruence.
  - rewrite He. by intros [].
  - by rewrite fn_lookup_insert_ne by done.
  - intros Hm. rewrite Hl in Hm. congruence.
Qed.

(** The queue is cleared when it is empty. *)
Lemma empty_queue_ok s :
  daemon_inv s -> runs 1 s -> queue s = [] -> keeps 1 s (give_to 1 [] (set_queue [] s)).
Proof.
  intros [Hfine Hmutex Hbal Hfifo Hrep Hqueue Hwait Hclosed Hunborn Hdone Hjoined Hexit] Hr Hq.
  pose proof Hr as (He & _ & Ha). destruct (Ha eq_refl) as [Hsp Hd].
  split; [clauses|intros u Hu; clauses]; try congruence.
  - rewrite held_give by lia. cbn. unfold held in *. cbn. by rewrite Hq in Hbal.
  - intros Hw Hn Ho. by destruct (Hwait Hw Hn Ho).
  - rewrite He. by intros [].
  - by rewrite fn_lookup_insert_ne by done.
Qed.

Lemma next_handle_ok t h s s' : keeps t s s' -> keeps t s (set_next_handle h s').
Proof.
  intros [[] Hr]. split; [by constructor|]. intros u Hu. destruct (Hr u Hu). by constructor.
Qed.

Definition synchronises {R} (o : op R) : bool :=
  match o with
  | Lock | Unlock | SetStopping | NotifyOne | WaitBegin | WaitEnd | Join | ThreadExit => true
  | _ => false
  end.

Lemma sync_ok {R} (o : op R) t s s' r :
  synchronises o = true -> daemon_inv s -> runs t s ->
  needs o t s -> effect env o t s = Some (s', r) -> keeps t s s'.
Proof.
  intros Ho Hs Hr Hn. pose proof Hn as (Ht & Hal & Hex). pose proof Hr as (He & _ & Hsp). pose proof Hs as
    [Hfine Hmutex Hbal Hfifo Hrep Hqueue Hwait Hclosed Hunborn Hdone Hjoined Hexit].
  destruct o; try done; cbn [effect allowed extra] in *.
  - destruct (mutex s) eqn:Hm; [done|]. intros [= <- <-].
    split; [clauses|intros u Hu; clauses]; try done.
    + intros u [= <-]. assert (t = 0 \/ t = 1)%nat as [->| ->] by lia; [by left|right; by destruct (Hsp eq_refl)].
    + rewrite Hm. split; congruence.
  - apply bool_decide_eq_true in Hal. intros [= <- <-]. split; [clauses|intros u Hu; clauses]; try done.
    rewrite Hal. split; congruence.
  - apply bool_decide_eq_true in Hal. subst t. intros [= <- <-]. split; [clauses|intros u Hu; clauses]; try done.
    + intros Hd. destruct (Hdone Hd) as (? & ? & ? & ?). by split_and!.
    + rewrite Hal. congruence.
  - subst t. intros [= <- <-]. split; [clauses|intros u Hu; clauses]; try done.
    + intros Hw Hn' _. rewrite Hw, orb_true_r in Hn'. done.
  - destruct Hex as (-> & Hq & Hst). apply bool_decide_eq_true in Hal. intros [= <- <-].
    split; [clauses|intros u Hu; clauses]; try done. rewrite Hal. split; congruence.
  - destruct Hex as (-> & Hm' & Hw). destruct (mutex s) eqn:Hm; [done|].
    destruct (notified s || env_spurious env (clock s)); [|done]. intros [= <- <-].
    split; [clauses|intros u Hu; clauses]; try done.
    + intros u [= <-]. right. by destruct (Hsp eq_refl).
    + rewrite Hm. split; congruence.
  - destruct Hex as (-> & ?). destruct (worker_done s) eqn:Hd; [|done]. intros [= <- <-].
    split; [clauses|intros u Hu; clauses]; try done. by rewrite Hd.
  - destruct Hex as (-> & Hm & ?). intros [= <- <-]. split; [clauses|intros u Hu; clauses]; try done.
    intros u Hu. destruct (Hmutex u Hu) as [?|(-> & _)]; [by left|congruence].
Qed.

Lemma emplace_ok x s :
  daemon_inv s -> runs 1 s -> owns 1 (session_resources x) s = true ->
  keeps 1 s (set_sessions (insert_key ses_device x (sessions s)) (drop_from 1 (session_resources x) s)).
Proof.
  intros Hs Hr Ho. apply shift_ok; [done..|]. fold (drop_from 1 (session_resources x) s).
  rewrite (held_sessions _ [x] (sessions s)) by apply insert_key_Permutation.
  apply (held_drop 1 (session_resources x) s); [lia| |done].
  unfold session_resources. apply NoDup_cons. split; [|apply NoDup_singleton].
  by intros [?|?%elem_of_nil]%elem_of_cons.
Qed.

(** Sessions leave the map with what they own. *)
Lemma remove_sessions_ok xs l s :
  daemon_inv s -> runs 1 s -> sessions s ≡ₚ xs ++ l ->
  keeps 1 s (give_to 1 (flat_map session_resources xs) (set_sessions l s)).
Proof.
  intros Hs Hr Hl. apply (shift_ok s l (flat_map session_resources xs ++ hand s 1)); [done..|].
  rewrite (held_sessions s xs l) by done.
  exact (held_give 1 (flat_map session_resources xs) (set_sessions l s) ltac:(lia)).
Qed.

Lemma effect_ok {R} (o : op R) t s s' r :
  daemon_inv s -> runs t s ->
  needs o t s -> effect env o t s = Some (s', r) -> keeps t s s'.
Proof.
  intros Hs Hr Hn. destruct (synchronises o) eqn:Hsy; [by apply sync_ok|].
  pose proof Hn as (Ht & Hal & Hex). pose proof Hr as (He & _ & Hsp). pose proof Hs as
    [Hfine Hmutex Hbal Hfifo Hrep Hqueue Hwait Hclosed Hunborn Hdone Hjoined Hexit].
  destruct o; try done; cbn [effect allowed extra] in *.
  all: try (intros [= <- <-]; split; [exact Hs|intros; reflexivity]).
  - destruct Hex as [-> Hsp0].
    intros [= <- <-]; split; [clauses|intros u Hu; clauses]; try done.
    intros u Hu. destruct (Hmutex u Hu) as [?|(? & ? & ?)]; auto.
  - destruct Hex as [-> Hg]. intros [= <- <-]; split; [clauses|intros u Hu; clauses]; try done.
    intros _. rewrite Hg. by split_and!.
  - destruct Hex as [-> Hh]. intros [= <- <-]; split; [clauses|intros u Hu; clauses]; try done.
    rewrite He. by intros [].
  - intros [= <- <-]. by apply print_ok.
  - intros [= <- <-]. by apply acquire_ok.
  - intros [= <- <-]. by apply release_ok.
  - intros [= <- <-]. destruct Hex as [-> ?]. by apply push_ok.
  - subst t. apply andb_prop in Hal as [Hl Hq].
    apply bool_decide_eq_true in Hl, Hq. destruct (queue s) as [|e q] eqn:E; [done|].
    intros [= <- <-]. by apply pop_ok.
  - apply andb_prop in Hal as [Hst Ht1]. apply Nat.eqb_eq in Ht1 as ->. intros [= <- <-].
    rewrite Hex. by apply empty_queue_ok.
  - subst t. destruct (env_open env (clock s) =? LIBUSB_SUCCESS); intros [= <- <-].
    + exact (next_handle_ok _ _ _ _ (acquire_ok 1 (OpenHandle (next_handle s)) s Hs Hr)).
    + split; [done|intros; reflexivity].
  - intros [= <- <-]. by apply release_ok.
  - apply andb_prop in Hal as [Ht1 Hg]. apply Nat.eqb_eq in Ht1 as ->. apply bool_decide_eq_true in Hg.
    intros [= <- <-]. split; [clauses|intros u Hu; clauses]; try done. intros _. split_and!; try done.
    intros Hn0. rewrite Hn0 in Hg. by destruct Hg.
  - apply andb_prop in Hal as [Ht1 Ho]. apply Nat.eqb_eq in Ht1 as ->.
    destruct (find_key _ _ _) eqn:Hf; intros [= <- <-]; [split; [done|intros; reflexivity]|].
    by apply emplace_ok.
  - apply Nat.eqb_eq in Hal as ->.
    destruct (find_key _ _ _) as [x|] eqn:Hf; intros [= <- <-]; [|split; [done|intros; reflexivity]].
    apply (remove_sessions_ok [x]); [done..|]. by apply erase_key_Permutation.
  - apply Nat.eqb_eq in Hal as ->. intros [= <- <-].
    apply (remove_sessions_ok (sessions s) []); [done..|]. by rewrite app_nil_r.
Qed.

Lemma tick_ok t s : daemon_inv s -> keeps t s (tick s).
Proof. intros []. split; [by constructor|]. intros u _. constructor; try done; intros; by split_and!. Qed.

(** A thread that moves is alive, and an operation that is allowed has its effect. *)
Lemma perform_inv {R} (o : op R) t s s' r :
  (t < 2)%nat -> perform env R o t s = Some (s', r) -> runs t s.
Proof.
  unfold perform. intros Ht. destruct (ended s) eqn:He; [done|].
  destruct ((t =? 1)%nat && _) eqn:Ha; [done|]. intros _. split_and!; [done..|].
  intros ->. cbn in Ha. destruct (spawned s), (worker_done s); done.
Qed.

Lemma perform_eq {R} (o : op R) t s :
  runs t s -> needs o t s -> perform env R o t s = effect env o t (tick s).
Proof.
  intros (He & _ & Hr) (_ & Ha & _). unfold perform. rewrite He, Ha.
  destruct (t =? 1)%nat eqn:Ht; [|done]. apply Nat.eqb_eq in Ht. by destruct (Hr Ht) as [-> ->].
Qed.

Lemma daemon_perform_ok {R} (o : op R) t s s' r :
  (t < 2)%nat -> daemon_inv s -> daemon_pre R o t s -> perform env R o t s = Some (s', r) -> keeps t s s'.
Proof.
  intros Ht Hs Hp E. pose proof (perform_inv _ _ _ _ _ Ht E) as Hr.
  rewrite perform_eq in E by auto. eapply keeps_trans; [by apply tick_ok|].
  eapply effect_ok; [by apply tick_ok|by apply Hr|by apply Hp|done].
Qed.

(** ** Every function is safe *)

Definition dsafe {A} (t : nat) (p : program A) (s : state) (Q : A -> state -> Prop) : Prop :=
  safe (perform env) daemon_inv daemon_rely daemon_pre t p s Q.

Lemma dsafe_do {A R} t (o : op R) (k : R -> program A) s Q :
  (t < 2)%nat ->
  (forall s', daemon_rely t s s' -> daemon_inv s' -> runs t s' -> needs o t s') ->
  (forall s' s'' r, daemon_rely t s s' -> daemon_inv s' -> runs t s' ->
     effect env o t (tick s') = Some (s'', r) -> daemon_inv s'' -> dsafe t (k r) s'' Q) ->
  dsafe t (Do o k) s Q.
Proof.
  intros Ht Hn Hk. apply safe_do.
  - intros s1 s2 r Hs Hp E. by eapply daemon_perform_ok.
  - intros s' Hs Hi Hr. by apply Hn.
  - intros s' s'' r Hs Hi E Hi'. pose proof (perform_inv _ _ _ _ _ Ht E) as Hr.
    rewrite perform_eq in E by auto. by eapply Hk.
Qed.

Lemma dsafe_seq {A B} t (p : program A) (k : A -> program B) s P Q :
  dsafe t p s P -> (forall a s', daemon_inv s' -> P a s' -> dsafe t (k a) s' Q) ->
  dsafe t (prog_bind p k) s Q.
Proof.
  intros Hp Hk. apply safe_bind; [apply _|]. eapply safe_mono; [exact Hp|]. intros; by apply Hk.
Qed.

Lemma dsafe_ret {A} t (a : A) s (Q : A -> state -> Prop) :
  (forall s', daemon_rely t s s' -> daemon_inv s' -> Q a s') -> dsafe t (Ret a) s Q.
Proof. done. Qed.

(** An assertion that the other thread cannot falsify. *)
Definition stable (t : nat) (P : state -> Prop) : Prop :=
  forall s s', P s -> daemon_rely t s s' -> P s'.

Lemma dsafe_step {A R} t (P : state -> Prop) (o : op R) (k : R -> program A) s Q :
  (t < 2)%nat -> stable t P -> P s ->
  (forall s, P s -> daemon_inv s -> runs t s -> needs o t s) ->
  (forall s s' r, P s -> daemon_inv s -> runs t s -> effect env o t (tick s) = Some (s', r) ->
     daemon_inv s' -> dsafe t (k r) s' Q) ->
  dsafe t (Do o k) s Q.
Proof.
  intros Ht Hst HP Hn Hk. apply dsafe_do; [done|..].
  - intros s' Hr Hi Hrun. apply Hn; [|done..]. by eapply Hst.
  - intros s' s'' r Hr Hi Hrun E Hi'. eapply (Hk s'); [|done..]. by eapply Hst.
Qed.

Lemma dsafe_return {A} t (P : state -> Prop) (a : A) s (Q : A -> state -> Prop) :
  stable t P -> P s -> (forall s, P s -> daemon_inv s -> Q a s) -> dsafe t (Ret a) s Q.
Proof. intros Hst HP HQ. apply dsafe_ret. intros s' Hr Hi. apply HQ; [|done]. by eapply Hst. Qed.

(** *** The main thread *)

(** What the main thread knows once the session manager is there. *)
Record main_at (owned : list resource) (locked owes stopped fin : bool) (s : state) : Prop := {
  ma_hand : hand s 0 = owned;
  ma_mutex : mutex s = Some 0%nat <-> locked = true;
  ma_owes : owes_notify s = owes;
  ma_generation : is_Some (generation s);
  ma_spawned : spawned s = true;
  ma_stopping : stopping s = stopped;
  ma_joined : joined s = fin;
}.

Lemma main_stable owned locked owes stopped fin : stable 0 (main_at owned locked owes stopped fin).
Proof.
  intros s s' [] Hr. destruct (dr_main _ _ _ Hr eq_refl) as (? & ? & ? & ? & ? & ?).
  constructor; try congruence.
  - rewrite (dr_hand _ _ _ Hr). congruence.
  - by rewrite <- (dr_lock _ _ _ Hr).
  - by apply (dr_generation _ _ _ Hr).
Qed.

Definition main_ready : state -> Prop := main_at [] false false false false.
Definition main_stopped : state -> Prop := main_at [] false false true true.

(** The next operation of the main thread, with what it knows named [Hm]; afterwards it
    knows the given values. *)
Ltac forget :=
  repeat match goal with H : runs _ _ |- _ => clear H | H : daemon_inv _ |- _ => clear H end.
Ltac main_step :=
  cbn [prog_bind Threads.act]; forget;
  lazymatch goal with
  | Hs : main_at _ _ _ _ _ ?s |- dsafe _ _ ?s _ =>
      eapply (dsafe_step 0 (main_at _ _ _ _ _)); [lia|apply main_stable|exact Hs|clear Hs..];
      [let Hm := fresh in intros ? Hm Hi Hrun; destruct Hm; split_and!; [lia|cbn|cbn]
      |intros ? ? ? Hm Hi Hrun E Hi'; cbn [effect] in E]
  end.
Ltac main_now owned locked owes stopped fin :=
  match goal with
  | Hm : main_at _ _ _ _ _ _, Hi' : daemon_inv ?st |- dsafe _ _ ?st _ =>
      assert (Hs : main_at owned locked owes stopped fin st);
      [destruct Hm; constructor; cbn; rewrite ?fn_lookup_insert; try done; try by split; congruence
      |clear Hm; revert Hs Hi'; generalize st; intros ? Hs Hi']
  end.
Ltac main_return :=
  eapply (dsafe_return 0 (main_at _ _ _ _ _)); [apply main_stable|eassumption|done].

Lemma locked_by_main s : mutex s = Some 0%nat <-> true = true -> locked_by 0 s = true.
Proof. intros Hm. apply bool_decide_eq_true. by apply Hm. Qed.

Lemma owns_head t r rs s : hand s t = r :: rs -> owns t [r] s = true.
Proof.
  intros Hh. apply bool_decide_eq_true. constructor; [|constructor]. rewrite Hh. left.
Qed.

Lemma owns_other t r r' s : hand s t = [r'; r] -> owns t [r] s = true.
Proof. intros Hh. apply bool_decide_eq_true. constructor; [|constructor]. rewrite Hh. right. left. Qed.

Lemma not_locked (m : option nat) t : (m = Some t <-> false = true) -> m <> Some t.
Proof. intros Hm E. by apply Hm in E. Qed.

Lemma lock_inv s s' t u :
  effect env Lock t s = Some (s', u) -> mutex s = None /\ s' = set_mutex (Some t) s.
Proof. cbn. destruct (mutex s); [done|]. by intros [= <-]. Qed.

Lemma enqueue_safe e s : main_ready s -> dsafe 0 (enqueue e) s (fun _ => main_ready).
Proof.
  intros Hs. unfold enqueue, main_ready in *.
  main_step; [done..|]. injection E as <- <-.
  main_now [Reference (ev_device e)] false false false false; [by rewrite ma_hand0|].
  main_step; [done|by apply not_locked|]. apply lock_inv in E as [Hl ->].
  main_now [Reference (ev_device e)] true false false false.
  main_step; [by apply locked_by_main|done|]. injection E as <- <-. cbn [stopping tick].
  rewrite (ma_stopping _ _ _ _ _ _ Hm).
  main_now [Reference (ev_device e)] true false false false.
  main_step; [by erewrite locked_by_main, owns_head|done|]. injection E as <- <-.
  main_now (@nil resource) true true false false; [by rewrite ma_hand0, remove_one_head|].
  main_step; [by apply locked_by_main|done|]. injection E as <- <-.
  main_now (@nil resource) false true false false.
  main_step; [done..|]. injection E as <- <-.
  main_now (@nil resource) false false false false. main_return.
Qed.

Lemma stop_safe s : main_ready s -> dsafe 0 stop s (fun _ => main_stopped).
Proof.
  intros Hs. unfold stop, main_ready, main_stopped in *.
  main_step; [done|by apply not_locked|]. apply lock_inv in E as [Hl ->].
  main_now (@nil resource) true false false false.
  main_step; [by apply locked_by_main|done|]. injection E as <- <-. cbn [stopping tick].
  rewrite (ma_stopping _ _ _ _ _ _ Hm). main_now (@nil resource) true false false false.
  main_step; [by apply locked_by_main|done|]. injection E as <- <-.
  main_now (@nil resource) true true true false.
  main_step; [by apply locked_by_main|done|]. injection E as <- <-.
  main_now (@nil resource) false true true false.
  main_step; [done..|]. injection E as <- <-. main_now (@nil resource) false false true false.
  main_step; [by rewrite ma_joined0|by split_and!; [|apply not_locked|..]|].
  destruct (worker_done _); [|done]. injection E as <- <-.
  main_now (@nil resource) false false true true. main_return.
Qed.

Lemma stop_again_safe s : main_stopped s -> dsafe 0 stop s (fun _ => main_stopped).
Proof.
  intros Hs. unfold stop, main_stopped in *.
  main_step; [done|by apply not_locked|]. apply lock_inv in E as [Hl ->].
  main_now (@nil resource) true false true true.
  main_step; [by apply locked_by_main|done|]. injection E as <- <-. cbn [stopping tick].
  rewrite (ma_stopping _ _ _ _ _ _ Hm). main_now (@nil resource) true false true true.
  main_step; [by apply locked_by_main|done|]. injection E as <- <-.
  main_now (@nil resource) false false true true. main_return.
Qed.

(** Once the worker is joined, everything is released. *)
Lemma stopped_held s : hand s 0 = [] -> joined s = true -> daemon_inv s -> held s = [].
Proof.
  intros Hh Hj Hi. destruct (di_done _ Hi (di_joined _ Hi Hj)) as (_ & Hq & Hs & H1).
  unfold held. by rewrite Hq, Hs, Hh, H1.
Qed.

(** The sessions of the map as they were printed. *)
Definition pairs (l : list DeviceSession) : list (Z * Z) :=
  map (fun x => (ses_device x, ses_generation x)) l.

(** The blocks of code and their ends. *)
Record worker_at (owned : list resource) (locked : bool) (s : state) : Prop := {
  wa_hand : hand s 1 = owned;
  wa_mutex : mutex s = Some 1%nat <-> locked = true;
  wa_replay : replay (trace s) = Some (pairs (sessions s), default 0 (generation s));
}.

Record main_new (born : bool) (s : state) : Prop := {
  mn_hand : hand s 0 = [];
  mn_mutex : mutex s <> Some 0%nat;
  mn_owes : owes_notify s = false;
  mn_generation : generation s = None;
  mn_spawned : spawned s = born;
  mn_stopping : stopping s = false;
  mn_joined : joined s = false;
}.

Definition entry (t : nat) (l : label) (s : state) : Prop :=
  match t, l with
  | 0%nat, MainStart => main_new false s
  | 0%nat, MainLoop _ _ => main_ready s
  | 1%nat, WorkerLoop => worker_at [] false s
  | 1%nat, WorkerWait => worker_at [] true s
  | _, _ => False
  end.

Definition finished (t : nat) (s : state) : Prop :=
  match t with 0%nat => is_Some (ended s) | _ => worker_done s = true end.

Lemma shut_down_safe c s : main_ready s -> dsafe 0 (shut_down c) s (exit_of entry finished 0).
Proof.
  intros Hs. unfold shut_down. eapply dsafe_seq; [by apply stop_safe|].
  clear s Hs. intros ? s Hi0 Hs. unfold main_stopped in Hs.
  main_step; [apply bool_decide_eq_true; by apply stopped_held|done|]. injection E as <- <-.
  main_now (@nil resource) false false true true.
  eapply dsafe_seq; [by apply stop_again_safe|].
  clear s Hs Hi'. intros ? s Hi0 Hs. unfold main_stopped in Hs.
  main_step; [by rewrite ma_spawned0, ma_joined0|by split; [|apply stopped_held]|]. injection E as <- <-.
  apply dsafe_ret. intros s' Hr _. cbn. rewrite (dr_ended _ _ _ Hr); by eexists.
Qed.

Lemma main_end_safe result s : main_ready s -> dsafe 0 (main_end result) s (exit_of entry finished 0).
Proof.
  intros Hs. unfold main_end, main_ready in *. main_step; [done..|]. injection E as <- <-.
  main_now (@nil resource) false false false false. by apply shut_down_safe.
Qed.

Lemma callbacks_safe events s :
  main_ready s -> daemon_inv s ->
  dsafe 0 (prog_each events hotplug_callback) s (fun _ => main_ready).
Proof.
  intros Hs Hi. apply safe_each; [apply _| | |done|done].
  - intros e s' _ Hs' _. by apply enqueue_safe.
  - intros s1 s2 H1 Hr _. by eapply main_stable.
Qed.

Lemma main_turn_safe deadline result s :
  main_ready s -> dsafe 0 (main_turn deadline result) s (exit_of entry finished 0).
Proof.
  intros Hs. unfold main_turn. unfold main_ready in Hs. main_step; [done..|]. injection E as <- <-.
  main_now (@nil resource) false false false false.
  eapply (dsafe_seq _ _ _ _ (fun _ => main_ready)).
  { destruct (env_stop_requested _ _); [main_return|]. main_step; [done..|]. injection E as <- <-.
    main_now (@nil resource) false false false false. main_return. }
  clear Hs. intros now s' _ H1. case_test; [by apply main_end_safe|].
  unfold main_ready in H1. main_step; [done..|]. injection E as <- <-.
  main_now (@nil resource) false false false false.
  destruct (env_events _ _) as [result' events].
  eapply dsafe_seq; [by apply callbacks_safe|]. clear Hs. intros ? s'' _ H2. unfold main_ready in H2. case_test; [|main_return].
  main_step; [done..|]. injection E as <- <-.
  main_now (@nil resource) false false false false. by apply main_end_safe.
Qed.

Lemma main_new_stable born : stable 0 (main_new born).
Proof.
  intros s s' [] Hr. destruct (dr_main _ _ _ Hr eq_refl) as (? & ? & ? & ? & ? & ?).
  constructor; try congruence; auto.
  - rewrite (dr_hand _ _ _ Hr). congruence.
  - by rewrite <- (dr_lock _ _ _ Hr).
Qed.

Lemma unborn_held s : hand s 0 = [] -> spawned s = false -> daemon_inv s -> held s = [].
Proof.
  intros Hh Hs Hi. destruct (di_unborn _ Hi Hs) as (Hq & Hl & H1).
  unfold held. by rewrite Hq, Hl, Hh, H1.
Qed.

Context (input_ok : meaningful env argv).

Lemma deadline_safe duration s :
  main_ready s -> parse_options argv = Some duration -> 0 <= duration -> dsafe 0 (find_deadline duration) s (fun _ => main_ready).
Proof using input_ok.
  intros Hs Hp Hd. unfold find_deadline. unfold main_ready in *. case_test; [main_return|].
  main_step; [done..|]. injection E as <- <-. main_now (@nil resource) false false false false.
  main_step; [|done|].
  - apply Z.leb_le. apply (mf_deadline _ _ input_ok); [done|lia].
  - injection E as <- <-. main_now (@nil resource) false false false false. main_return.
Qed.

Lemma usage_safe l c s :
  plain (EPrint l) = true -> printable l = true -> main_new false s ->
  dsafe 0 (let% _ := act (Print l) in let% _ := act (ReturnCode c) in Ret None) s
    (exit_of entry finished 0).
Proof.
  intros Hl Hpr Hs. cbn [prog_bind Threads.act].
  eapply (dsafe_step 0 (main_new false)); [lia|apply main_new_stable|done|..].
  { intros s1 _ _ _. split_and!; [lia|done|]. by destruct l. }
  intros s1 s2 ? [] Hi Hrun E Hi'. injection E as <- <-.
  eapply (dsafe_step 0 (main_new false)); [lia|apply main_new_stable|by constructor|..].
  { intros s2 [] Hi2 _. split_and!; [lia|cbn; by rewrite mn_spawned1|by split; [|apply unborn_held]]. }
  intros s2 s3 ? _ _ _ E _. injection E as <- <-.
  apply dsafe_ret. intros s' Hr _. cbn. rewrite (dr_ended _ _ _ Hr); by eexists.
Qed.

Lemma main_start_safe s :
  main_new false s -> dsafe 0 (main_start argv) s (exit_of entry finished 0).
Proof using input_ok.
  intros Hs. unfold main_start. destruct (parse_options argv) as [duration|] eqn:Hp.
  2: { apply usage_safe; [done| |done]. pose proof (mf_name _ _ input_ok). by destruct argv. }
  destruct (parse_options_bound _ _ Hp) as [Hd _]. cbn [prog_bind Threads.act].
  eapply (dsafe_step 0 (main_new false)); [lia|apply main_new_stable|done|..].
  { intros. by split_and!; [lia|..]. }
  intros s1 s2 ? [] _ _ E _. injection E as <- <-.
  case_test; [by apply usage_safe|]. cbn [prog_bind Threads.act].
  eapply (dsafe_step 0 (main_new false)); [lia|apply main_new_stable|by constructor|..].
  { intros s2 [] _ _. by split_and!; [lia|..]. }
  intros s2 s3 ? [] _ _ E _. injection E as <- <-.
  eapply (dsafe_step 0 (main_new true)); [lia|apply main_new_stable|by constructor|..].
  { intros s3 [] _ _. by split_and!; [lia|..]. }
  intros s3 s4 ? Hm _ _ E Hi'. injection E as <- <-.
  assert (Hs4 : main_ready (set_generation (Some 0) (tick s3))).
  { destruct Hm. by constructor. }
  revert Hs4 Hi'. generalize (set_generation (Some 0) (tick s3)). clear -input_ok Hp Hd. intros s Hs _.
  unfold main_ready in Hs. main_step; [done..|]. injection E as <- <-.
  main_now (@nil resource) false false false false. destruct (env_register env) as [result present].
  eapply dsafe_seq; [by apply callbacks_safe|]. clear -input_ok Hp Hd. intros ? s _ Hs. case_test.
  - unfold main_ready in Hs. main_step; [done..|]. injection E as <- <-.
    main_now (@nil resource) false false false false. by apply shut_down_safe.
  - eapply dsafe_seq; [by apply deadline_safe|]. clear -input_ok Hp Hd. intros d s _ Hs. unfold main_ready in Hs. main_return.
Qed.

(** *** The worker *)

(** What the worker knows: what it owns, the sessions [l], the last number [g], the
    sessions [live] and the last number [count] that were printed; that the manager is
    constructed ([born]), and that nothing will follow ([fin]). *)
Record worker_mid (live : list (Z * Z)) (count g : Z) (l : list DeviceSession) (born fin : bool)
    (owned : list resource) (locked : bool) (s : state) : Prop := {
  wm_hand : hand s 1 = owned;
  wm_mutex : mutex s = Some 1%nat <-> locked = true;
  wm_replay : replay (trace s) = Some (live, count);
  wm_generation : default 0 (generation s) = g;
  wm_sessions : sessions s = l;
  wm_born : born = true -> is_Some (generation s);
  wm_fin : fin = true -> stopping s = true /\ queue s = [];
}.

Lemma worker_stable live count g l born fin owned locked :
  stable 1 (worker_mid live count g l born fin owned locked).
Proof.
  intros s s' [] Hr. destruct (dr_worker _ _ _ Hr eq_refl) as (? & ? & ? & ? & ? & Hf).
  constructor; try congruence.
  - rewrite (dr_hand _ _ _ Hr). congruence.
  - by rewrite <- (dr_lock _ _ _ Hr).
  - intros Hb. apply (dr_generation _ _ _ Hr). auto.
  - intros Hb. destruct (wm_fin0 Hb) as [Hs <-]. auto.
Qed.

Lemma worker_at_mid owned locked s (born : bool) :
  worker_at owned locked s -> (born = true -> is_Some (generation s)) ->
  worker_mid (pairs (sessions s)) (default 0 (generation s)) (default 0 (generation s)) (sessions s)
    born false owned locked s.
Proof. intros [] Hb. by constructor. Qed.

Lemma worker_mid_at live g l born fin owned locked s :
  worker_mid live g g l born fin owned locked s ->
  live = pairs l -> worker_at owned locked s.
Proof. intros [] ->. constructor; try done. congruence. Qed.

Ltac worker_step :=
  cbn [prog_bind Threads.act]; forget;
  lazymatch goal with
  | Hs : worker_mid _ _ _ _ _ _ _ _ ?s |- dsafe _ _ ?s _ =>
      eapply (dsafe_step 1 (worker_mid _ _ _ _ _ _ _ _)); [lia|apply worker_stable|exact Hs|clear Hs..];
      [let Hm := fresh in intros ? Hm Hi Hrun; destruct Hm; split_and!; [lia|cbn|cbn]
      |intros ? ? ? Hm Hi Hrun E Hi'; cbn [effect] in E]
  end.
(** Afterwards it knows [P]. *)
Ltac worker_now P :=
  match goal with
  | Hm : worker_mid _ _ _ _ _ _ _ _ _ |- dsafe _ _ ?st _ =>
      assert (Hs : P st);
      [destruct Hm; constructor; cbn; rewrite ?fn_lookup_insert; try done; try by split; congruence
      |clear Hm; forget; revert Hs; generalize st; intros ? Hs]
  end.
Ltac worker_return :=
  eapply (dsafe_return 1 (worker_mid _ _ _ _ _ _ _ _)); [apply worker_stable|eassumption|intros].

Section session.
Context (live : list (Z * Z)) (count g : Z) (l : list DeviceSession) (born fin : bool).
#[local] Abbreviation at_ := (worker_mid live count g l born fin).

Lemma release_safe d rest s :
  at_ (Reference d :: rest) false s ->
  dsafe 1 (act (UnrefDevice d)) s (fun _ => at_ rest false).
Proof.
  intros Hs. worker_step; [by eapply owns_head|done|]. injection E as <- <-.
  worker_now (at_ rest false).
  - by rewrite wm_hand0, remove_one_head.
  - by rewrite replay_plain.
  - worker_return. done.
Qed.

Lemma destroy_safe x rest s :
  at_ (session_resources x ++ rest) false s ->
  dsafe 1 (destroy_session x) s (fun _ => at_ rest false).
Proof.
  intros Hs. unfold destroy_session. worker_step; [exact (owns_head _ _ _ _ wm_hand0)|done|]. injection E as <- <-.
  worker_now (at_ (Reference (ses_device x) :: rest) false).
  - rewrite wm_hand0. cbn [session_resources app]. by rewrite remove_one_head.
  - by rewrite replay_plain.
  - by apply release_safe.
Qed.
End session.

Lemma target_safe live count g l born fin d rest s :
  worker_mid live count g l born fin (Reference d :: rest) false s ->
  dsafe 1 (is_target d) s (fun _ => worker_mid live count g l born fin (Reference d :: rest) false).
Proof.
  intros Hs. unfold is_target. worker_step; [by eapply owns_head|done|]. injection E as <- <-.
  worker_now (worker_mid live count g l born fin (Reference d :: rest) false).
  destruct (env_descriptor env d) as [[? ?] ?]. worker_return. done.
Qed.

Lemma add_session_safe g l d h s :
  worker_mid (pairs l) g g l true false [OpenHandle h; Reference d] false s ->
  find_key ses_device d l = None ->
  dsafe 1 (add_session d h) s (fun _ => worker_at [Reference d] false).
Proof.
  intros Hs Hk. unfold add_session. set (live := pairs l) in *.
  worker_step; [by erewrite owns_other|done|]. injection E as <- <-.
  worker_now (worker_mid live g g l true false [Reference d; OpenHandle h; Reference d] false);
    [by rewrite wm_hand0|by rewrite replay_plain|].
  worker_step; [by apply bool_decide_eq_true, wm_born0|done|]. injection E as <- <-.
  cbn [tick generation]. rewrite (wm_generation _ _ _ _ _ _ _ _ _ Hm).
  set (g' := (g + 1) mod 2 ^ 64).
  worker_now (worker_mid live g g' l true false [Reference d; OpenHandle h; Reference d] false).
  worker_step; [by eapply owns_head|done|]. injection E as <- <-.
  worker_now (worker_mid live g g' l true false [Reference d; OpenHandle h; Reference d] false).
  destruct (env_location env d) as [bus address]. cbn [ses_generation].
  assert (Hf : find_key fst d live = None).
  { unfold live, pairs. by rewrite (find_key_map ses_device fst), Hk. }
  worker_step; [done|by split; [|exists live, g]|]. injection E as <- <-.
  worker_now (worker_mid (insert_key fst (d, g') live) g' g' l true false
    [Reference d; OpenHandle h; Reference d] false).
  { rewrite replay_snoc. cbn [trace tick]. rewrite wm_replay0. cbn. by rewrite Hf, Z.eqb_refl. }
  set (x := {| ses_device := d; ses_handle := h; ses_generation := g' |}).
  worker_step; [|done|].
  { apply bool_decide_eq_true. unfold session_resources. rewrite !Forall_cons, wm_hand0.
    split_and!; [right; left|left|constructor]. }
  cbn [tick sessions] in E. rewrite (wm_sessions _ _ _ _ _ _ _ _ _ Hm) in E. cbn [ses_device x] in E.
  rewrite Hk in E. injection E as <- <-.
  worker_now (worker_mid (insert_key fst (d, g') live) g' g' (insert_key ses_device x l) true false
    [Reference d] false).
  { by rewrite wm_hand0, !remove_one_head. }
  worker_return. eapply worker_mid_at; [done|]. unfold live, pairs. by rewrite <- (insert_key_map ses_device fst).
Qed.

Lemma handle_arrival_safe d s :
  worker_at [Reference d] false s -> is_Some (generation s) ->
  dsafe 1 (handle_arrival d) s (fun _ => worker_at [Reference d] false).
Proof.
  intros Hs Hb. apply (worker_at_mid _ _ _ true) in Hs; [|done]. unfold handle_arrival.
  revert Hs. generalize (default 0 (generation s)) as g, (sessions s) as l.
  clear Hb. intros g l Hs.
  set (live := pairs l) in *.
  eapply dsafe_seq; [by apply target_safe|]. clear s Hs. intros target s _ Hs.
  eapply (dsafe_seq _ _ _ _ (fun known s => worker_mid live g g l true false [Reference d] false s /\
    (known = false -> find_key ses_device d l = None))).
  { destruct target; [|worker_return; done]. unfold contains. worker_step; [done..|].
    injection E as <- <-. cbn [sessions tick]. rewrite (wm_sessions _ _ _ _ _ _ _ _ _ Hm).
    worker_now (worker_mid live g g l true false [Reference d] false).
    worker_return. split; [done|]. by destruct (find_key ses_device d l). }
  clear s Hs. intros known s _ [Hs Hk]. destruct known.
  { worker_return. by eapply worker_mid_at. }
  specialize (Hk eq_refl). worker_step; [by eapply owns_head|done|].
  destruct (_ =? LIBUSB_SUCCESS) eqn:Hok; injection E as <- <-; cbn [tick clock] in Hok;
    cbv beta iota; rewrite Hok; cbn [negb].
  2: { worker_now (worker_mid live g g l true false [Reference d] false).
    worker_step; [by eapply owns_head|done|]. injection E as <- <-.
    worker_now (worker_mid live g g l true false [Reference d] false).
    destruct (env_location env d) as [bus address].
    worker_step; [done..|]. injection E as <- <-.
    worker_now (worker_mid live g g l true false [Reference d] false); [by rewrite replay_plain|].
    worker_return. by eapply worker_mid_at. }
  set (h := next_handle _) in *.
  worker_now (worker_mid live g g l true false [OpenHandle h; Reference d] false);
    [by rewrite wm_hand0|by rewrite replay_plain|]. by apply (add_session_safe g l).
Qed.

Lemma handle_departure_safe d owned s :
  worker_at owned false s -> dsafe 1 (handle_departure d) s (fun _ => worker_at owned false).
Proof.
  intros Hs. apply (worker_at_mid _ _ _ false) in Hs; [|done]. unfold handle_departure.
  revert Hs. generalize (default 0 (generation s)) as g, (sessions s) as l.
  intros g l Hs. set (live := pairs l) in *.
  worker_step; [done..|]. injection E as <- <-. cbn [sessions tick].
  rewrite (wm_sessions _ _ _ _ _ _ _ _ _ Hm). worker_now (worker_mid live g g l false false owned false).
  destruct (find_key ses_device d l) as [x|] eqn:Hf; [|worker_return; by eapply worker_mid_at].
  set (l' := erase_key ses_device d l). set (live' := erase_key fst d live).
  worker_step; [done..|]. cbn [tick sessions] in E. rewrite (wm_sessions _ _ _ _ _ _ _ _ _ Hm), Hf in E.
  injection E as <- <-.
  worker_now (worker_mid live g g l' false false (session_resources x ++ owned) false);
    [by rewrite wm_hand0|].
  assert (Hf' : find_key fst d live = Some (ses_device x, ses_generation x)).
  { unfold live, pairs. by rewrite (find_key_map ses_device fst), Hf. }
  worker_step; [done|split; [done|by exists live, g, (ses_device x)]|]. injection E as <- <-.
  worker_now (worker_mid live' g g l' false false (session_resources x ++ owned) false).
  { rewrite replay_snoc. cbn [trace tick]. rewrite wm_replay0. cbn. by rewrite Hf', Z.eqb_refl. }
  eapply safe_mono; [by apply destroy_safe|]. intros ? s' _ Hs'. eapply worker_mid_at; [exact Hs'|].
  unfold live', live, pairs. by rewrite (erase_key_map ses_device fst).
Qed.

Lemma handle_event_safe e s :
  worker_at [Reference (ev_device e)] false s -> is_Some (generation s) ->
  dsafe 1 (handle_event e) s (fun _ => worker_at [] false).
Proof.
  intros Hs Hb. unfold handle_event.
  apply (dsafe_seq _ _ _ _ (fun _ => worker_at [Reference (ev_device e)] false)).
  { case_test; [by apply handle_arrival_safe|by apply handle_departure_safe]. }
  clear s Hs Hb. intros ? s _ Hs. apply (worker_at_mid _ _ _ false) in Hs; [|done].
  eapply safe_mono; [by apply release_safe|]. intros ? s' _ Hs'. eapply worker_mid_at; [exact Hs'|done].
Qed.

Lemma worker_end_safe s :
  worker_at [] false s -> stopping s = true -> queue s = [] ->
  dsafe 1 worker_end s (fun _ => finished 1).
Proof.
  intros Hs Hst Hq. unfold worker_end.
  assert (Hs' : worker_mid (pairs (sessions s)) (default 0 (generation s)) (default 0 (generation s))
    (sessions s) false true [] false s) by (destruct Hs; by constructor).
  clear Hs. revert Hs'. generalize (pairs (sessions s)) as live. intros live.
  generalize (default 0 (generation s)) as g, (sessions s) as l. clear Hst Hq. intros g l Hs.
  worker_step; [by rewrite (proj1 (wm_fin0 eq_refl))|by apply wm_fin0|].
  cbn [tick queue] in E. rewrite (proj2 (wm_fin _ _ _ _ _ _ _ _ _ Hm eq_refl)) in E. injection E as <- <-.
  worker_now (worker_mid live g g l false true [] false); [by destruct (wm_fin0 eq_refl)|].
  cbn [prog_each].
  worker_step; [done..|]. cbn [tick sessions] in E. rewrite (wm_sessions _ _ _ _ _ _ _ _ _ Hm) in E.
  injection E as <- <-.
  worker_now (worker_mid live g g [] false true (flat_map session_resources l) false);
    [by rewrite wm_hand0, app_nil_r|].
  apply (dsafe_seq _ _ _ _ (fun _ => worker_mid live g g [] false true [] false)).
  - apply (safe_each_rest _ _ _ _ 1 l destroy_session _
      (fun rest => worker_mid live g g [] false true (flat_map session_resources rest) false)).
    + intros x rest s' Hx. by apply destroy_safe.
    + intros rest sa sb H1 Hr _. by eapply worker_stable.
    + done.
  - intros ? s' _ H'. clear Hs. worker_step; [done| |].
    + split_and!; [done|by apply not_locked|by apply wm_fin0|by apply wm_fin0|done..].
    + injection E as <- <-. apply dsafe_ret. intros ? Hr _. cbn.
      by destruct (dr_worker _ _ _ Hr eq_refl) as (_ & _ & -> & _).
Qed.

(** What the worker sees under the lock. *)
Definition sees (stop : bool) (q : list UsbEvent) (s : state) : Prop :=
  worker_at [] true s /\ stopping s = stop /\ queue s = q.

Lemma worker_at_stable owned locked : stable 1 (worker_at owned locked).
Proof.
  intros s s' Hs Hr. eapply worker_mid_at; [|done]. eapply worker_stable; [|exact Hr].
  by apply (worker_at_mid _ _ _ false).
Qed.

Lemma sees_stable stop q : stable 1 (sees stop q).
Proof.
  intros s s' (Hs & <- & <-) Hr. destruct (dr_locked _ _ _ Hr) as [Hq Hst].
  - by apply (wa_mutex _ _ _ Hs).
  - split; [by eapply worker_at_stable|done].
Qed.

Lemma locked_by_worker s : worker_at [] true s -> locked_by 1 s = true.
Proof. intros []. apply bool_decide_eq_true. by apply wa_mutex0. Qed.

Lemma wait_safe s :
  sees false [] s ->
  dsafe 1 (let% _ := act WaitBegin in let% _ := act WaitEnd in Ret (Some WorkerWait)) s
    (exit_of entry finished 1).
Proof.
  intros Hs. cbn [prog_bind Threads.act].
  eapply (dsafe_step 1 (sees false [])); [lia|apply sees_stable|done|..].
  { intros s1 (H1 & ? & ?) _ _. by split_and!; [lia|apply locked_by_worker|..]. }
  intros s1 s2 ? ([] & _) _ _ E _. injection E as <- <-.
  eapply (dsafe_step 1 (fun s => worker_at [] false s /\ waiting s = true)); [lia| | |..].
  - intros s2 s3 [H2 Hw] Hr. split; [by eapply worker_at_stable|].
    by destruct (dr_worker _ _ _ Hr eq_refl) as (_ & -> & _).
  - by repeat constructor.
  - intros s2 [H2 Hw] _ _. split_and!; [lia|done|cbn]. by split_and!; [|apply not_locked, H2|].
  - intros s2 s3 ? [[] _] _ _ E _. cbn [effect tick mutex] in E.
    destruct (mutex s2) eqn:Hl; [done|]. destruct (_ || _); [|done]. injection E as <- <-.
    eapply dsafe_return; [apply (worker_at_stable [] true)|by constructor|done].
Qed.

Lemma take_safe stop e q s :
  sees stop (e :: q) s ->
  dsafe 1 (let% event := act PopFront in let% _ := act Unlock in let% _ := handle_event event in
           Ret (Some WorkerLoop)) s (exit_of entry finished 1).
Proof.
  intros Hs. cbn [prog_bind Threads.act].
  eapply (dsafe_step 1 (sees stop (e :: q))); [lia|apply sees_stable|done|..].
  { intros s1 (H1 & _ & Hq) _ _. split_and!; [lia| |done]. cbn. rewrite locked_by_worker by done.
    by apply bool_decide_eq_true; rewrite Hq. }
  intros s1 s2 ? ([] & _ & Hq) Hi _ E _. cbn [effect tick queue] in E. rewrite Hq in E. injection E as <- <-.
  assert (Hg : is_Some (generation s1)) by (apply Hi; by rewrite Hq).
  eapply (dsafe_step 1 (fun s => worker_at [Reference (ev_device e)] true s /\ is_Some (generation s)));
    [lia| | |..].
  - intros s2 s3 [H2 Hw] Hr. split; [by eapply worker_at_stable|]. by apply (dr_generation _ _ _ Hr).
  - split; [|done]. constructor; cbn; rewrite ?fn_lookup_insert, ?replay_plain; try done. congruence.
  - intros s2 [[] _] _ _. split_and!; [lia| |done]. apply bool_decide_eq_true. by apply wa_mutex1.
  - intros s2 s3 ? [[] Hg2] _ _ E _. injection E as <- <-.
    eapply dsafe_seq; [apply handle_event_safe; [by constructor|done]|].
    intros ? s3 _ H3. eapply dsafe_return; [apply (worker_at_stable [] false)|exact H3|done].
Qed.

Lemma leave_safe s :
  sees true [] s ->
  dsafe 1 (let% _ := act Unlock in let% _ := worker_end in Ret None) s (exit_of entry finished 1).
Proof.
  intros Hs. cbn [prog_bind Threads.act].
  eapply (dsafe_step 1 (sees true [])); [lia|apply sees_stable|done|..].
  { intros s1 [H1 _] _ _. by split_and!; [lia|apply locked_by_worker|..]. }
  intros s1 s2 ? ([] & Hst & Hq) _ _ E _. injection E as <- <-.
  eapply dsafe_seq; [apply worker_end_safe; [by constructor|done..]|].
  intros ? s2 _ H2. apply dsafe_ret. intros s3 Hr _.
  by destruct (dr_worker _ _ _ Hr eq_refl) as (_ & _ & H3 & _); cbn in *; rewrite H3.
Qed.

Lemma worker_turn_safe s :
  worker_at [] true s -> dsafe 1 worker_turn s (exit_of entry finished 1).
Proof.
  intros Hs. unfold worker_turn. cbn [prog_bind Threads.act].
  eapply (dsafe_step 1 (worker_at [] true)); [lia|apply worker_at_stable|done|..].
  { intros s1 H1 _ _. by split_and!; [lia|apply locked_by_worker|..]. }
  intros s1 s2 ? H1 _ _ E _. injection E as <- <-. cbn [tick stopping].
  assert (H2 : sees (stopping s1) (queue s1) (tick s1)) by (destruct H1; split_and!; [by constructor|done..]).
  revert H2. generalize (stopping s1), (queue s1), (tick s1). clear -env. intros stop q s Hs.
  eapply (dsafe_step 1 (sees stop q)); [lia|apply sees_stable|done|..].
  { intros s1 [H1 _] _ _. by split_and!; [lia|apply locked_by_worker|..]. }
  intros s1 s2 ? H1 _ _ E _. injection E as <- <-. cbn [tick queue].
  assert (H2 : sees stop q (tick s1)) by (destruct H1 as ([] & ? & ?); split_and!; [by constructor|done..]).
  replace (queue s1) with q by (by destruct H1 as (_ & _ & <-)).
  revert H2. generalize (tick s1). clear -env. intros s Hs. destruct stop, q as [|e q].
  - by apply leave_safe.
  - by apply (take_safe true e q).
  - by apply wait_safe.
  - by apply (take_safe false e q).
Qed.

Lemma lock_safe s :
  worker_at [] false s -> dsafe 1 (let% _ := act Lock in Ret (Some WorkerWait)) s (exit_of entry finished 1).
Proof.
  intros Hs. cbn [prog_bind Threads.act].
  eapply (dsafe_step 1 (worker_at [] false)); [lia|apply worker_at_stable|done|..].
  { intros s1 [] _ _. by split_and!; [lia|done|apply not_locked]. }
  intros s1 s2 ? [] _ _ E _. apply lock_inv in E as [_ ->].
  eapply dsafe_return; [apply (worker_at_stable [] true)|by constructor|done].
Qed.

(** ** Every run *)

Lemma code_safe t l s :
  entry t l s -> daemon_inv s -> dsafe t (daemon_code argv t l) s (exit_of entry finished t).
Proof using input_ok.
  intros Hl _. destruct t as [|[|t]], l; try done; cbn [daemon_code].
  - by apply main_start_safe.
  - by apply main_turn_safe.
  - by apply lock_safe.
  - by apply worker_turn_safe.
Qed.

Lemma initial_daemon_inv : daemon_inv initial_state.
Proof. by constructor. Qed.

Lemma daemon_conf_ok schedule :
  conf_ok (perform env) daemon_inv daemon_rely daemon_pre entry finished (daemon_after env argv schedule).
Proof using input_ok.
  apply trun_ok; [apply _|apply code_safe|]. split; [apply initial_daemon_inv|].
  intros t p Hp. destruct t as [|[|t]]; [..|done]; injection Hp as <-.
  - apply (code_safe 0 MainStart); [by constructor|apply initial_daemon_inv].
  - apply (code_safe 1 WorkerLoop); [by constructor|apply initial_daemon_inv].
Qed.

Lemma daemon_two_threads schedule : length (threads (daemon_after env argv schedule)) = 2%nat.
Proof. apply trun_length. Qed.

End promises.

(** C8 Safety of the daemon: whatever libusb and the signals answer and however the two
    threads interleave, for every argument vector that has the program's name and every
    steady clock to which the duration on the command line, if there is one, can be
    added without overflow.  There is no undefined behaviour: no race on
    the members, no use of a device without a reference, no close or release of what
    is not owned, no read of [generation_] before it is initialised, no destruction
    of a running thread.  Events are handled in the order in which the callback
    accepted them; a session is opened for a device that has none, under the next
    number, and closes under its own; handles are closed on the worker only.  At
    every moment what was acquired and not released is exactly what the queue, the
    sessions and the two threads hold, and when [main] has returned, every accepted
    event was handled and every reference and handle was released exactly once. *)
Theorem daemon_safe `{Platform} env argv schedule :
  argv <> [] -> deadline_fits env argv ->
  let s := shared (daemon_after env argv schedule) in
  ended s <> Some Crashed /\
  acquired (trace s) ≡ₚ released (trace s) ++ held s /\
  accepted (trace s) = processed (trace s) ++ queue s /\
  is_Some (replay (trace s)) /\ Forall closed_by_worker (trace s) /\
  (is_Some (ended s) ->
     acquired (trace s) ≡ₚ released (trace s) /\ accepted (trace s) = processed (trace s)).
Proof.
  intros Hname Hclock s.
  destruct (daemon_conf_ok env argv (Build_meaningful _ _ _ Hname Hclock) schedule) as [Hi _].
  fold s in Hi. split_and!; [apply Hi..|]. intros He. pose proof (di_exit _ Hi He) as Hh. split.
  - rewrite (di_balance _ Hi), Hh. by rewrite app_nil_r.
  - rewrite (di_fifo _ Hi). unfold held in Hh. apply app_eq_nil in Hh as [Hq _].
    apply map_eq_nil in Hq. by rewrite Hq, app_nil_r.
Qed.

(** Both conditions are needed: without arguments the usage line reads a null name,
    and a clock near its end overflows. *)
Definition late_environment : environment :=
  let e := sample_environment in
  {| env_init := env_init e; env_register := (0, []); env_stop_requested := env_stop_requested e;
     env_now := fun _ => i64_max; env_events := env_events e; env_descriptor := env_descriptor e;
     env_location := env_location e; env_open := env_open e; env_spurious := env_spurious e |}.

Example undefined_runs :
  ended (shared (daemon_after sample_environment [] [0; 0]%nat)) = Some Crashed /\
  ended (shared (daemon_after late_environment sample_argv (replicate 12 0%nat))) = Some Crashed.
Proof. vm_compute. split; reflexivity. Qed.

(** ** Witnesses *)

(** A clock that reads at most [2 ^ 62] nanoseconds, 146 years, leaves room for every
    duration that [parse_options] accepts. *)
Lemma early_clock `{Platform} env argv :
  (forall n, env_now env n <= 2 ^ 62) -> deadline_fits env argv.
Proof.
  intros Hn duration n Hd _. apply parse_options_bound in Hd. specialize (Hn n).
  unfold i64_max. change u32_max with (2 ^ 32 - 1) in Hd. lia.
Qed.

Lemma sample_clock `{Platform} : deadline_fits sample_environment sample_argv.
Proof. apply early_clock. intros n. cbn. lia. Qed.

Lemma daemon_safe_witness :
  ended sample_run = Some (Exited 0) /\
  acquired (trace sample_run) ≡ₚ released (trace sample_run) /\ length (acquired (trace sample_run)) = 13%nat.
Proof.
  destruct (daemon_safe sample_environment sample_argv
    (flat_map (fun _ => [0; 1; 1]%nat) (seq 0 90)) ltac:(discriminate) sample_clock)
    as (_ & _ & _ & _ & _ & Hend).
  split_and!; [vm_compute; reflexivity| |vm_compute; reflexivity].
  apply Hend. eexists. vm_compute. reflexivity.
Defined.
