(* ===== verification/DaemonLiveness.v ===== *)
(** * DaemonLiveness: the daemon does not get stuck and can be stopped

    On the invariant of [DaemonSafety]: no deadlock and no lost wake-up, and once a stop
    is requested, the process can always run to its end. *)

From S2P Require Import Prelude Text Wire Header Threads Daemon DaemonSafety.

Open Scope Z_scope.

#[local] Abbreviation program := (prog op).

Section liveness.
Context `{Platform} (env : environment) (argv : list (list Z)).
Context (input_ok : meaningful env argv).

(** An operation that does not wait goes ahead. *)
Definition waits {R} (o : op R) : bool :=
  match o with Lock | WaitEnd | Join => true | _ => false end.

Lemma effect_total {R} (o : op R) t s : waits o = false -> is_Some (effect env o t s).
Proof.
  destruct o; try done; intros _; cbn [effect];
    repeat match goal with |- context [match ?x with _ => _ end] => destruct x end; by eexists.
Qed.

(** The worker, when it is alive, moves if it holds the lock, or if nobody does and it
    was notified. *)
Lemma worker_moves c :
  conf_ok (perform env) daemon_inv daemon_rely daemon_pre entry finished c ->
  length (threads c) = 2%nat -> runs 1 (shared c) ->
  (mutex (shared c) = Some 1%nat \/
   mutex (shared c) = None /\ (waiting (shared c) = true -> notified (shared c) = true)) ->
  is_Some (tstep (perform env) (daemon_code argv) c 1).
Proof.
  intros [Hi Hc] Hlen Hrun Hm. unfold tstep.
  destruct (threads c !! 1%nat) as [p|] eqn:Hp.
  2: { assert (length (threads c) <= 1)%nat by exact (proj1 (lookup_ge_None _ _) Hp). lia. }
  specialize (Hc 1%nat p Hp). destruct p as [[l|]|R o k].
  - by eexists.
  - cbn in Hc. specialize (Hc (shared c) ltac:(reflexivity) Hi). destruct Hrun as (_ & _ & Hr).
    destruct (Hr eq_refl). cbn in Hc. congruence.
  - cbn in Hc. destruct (Hc (shared c) ltac:(reflexivity) Hi) as [Hpre _]. specialize (Hpre Hrun).
    rewrite perform_eq by done.
    assert (is_Some (effect env o 1 (tick (shared c)))) as [[s' r] ->]; [|by eexists].
    destruct (waits o) eqn:Hw; [|by apply effect_total]. destruct Hpre as (_ & _ & Hex).
    destruct o; try done; cbn in *.
    + destruct Hm as [?|[-> _]]; [done|by eexists].
    + destruct Hex as (_ & ? & Hwt). destruct Hm as [?|[-> Hn]]; [done|]. rewrite (Hn Hwt). by eexists.
    + by destruct Hex.
Qed.

Lemma main_moves c :
  conf_ok (perform env) daemon_inv daemon_rely daemon_pre entry finished c ->
  length (threads c) = 2%nat -> ended (shared c) = None ->
  is_Some (tstep (perform env) (daemon_code argv) c 0) \/
  mutex (shared c) = Some 1%nat \/
  (mutex (shared c) <> Some 0%nat /\ stopping (shared c) = true /\ owes_notify (shared c) = false /\
   spawned (shared c) = true /\ worker_done (shared c) = false).
Proof.
  intros [Hi Hc] Hlen He. unfold tstep.
  destruct (threads c !! 0%nat) as [p|] eqn:Hp.
  2: { assert (length (threads c) <= 0)%nat by exact (proj1 (lookup_ge_None _ _) Hp). lia. }
  specialize (Hc 0%nat p Hp). destruct p as [[l|]|R o k].
  - left. by eexists.
  - cbn in Hc. specialize (Hc (shared c) ltac:(reflexivity) Hi). rewrite He in Hc. by destruct Hc.
  - cbn in Hc. assert (Hrun : runs 0 (shared c)) by (split_and!; [done|lia|done]).
    destruct (Hc (shared c) ltac:(reflexivity) Hi) as [Hpre _]. specialize (Hpre Hrun).
    rewrite perform_eq by done. destruct (waits o) eqn:Hw.
    + destruct Hpre as (_ & _ & Hex). destruct o; try done; cbn in *.
      * destruct (mutex (shared c)) as [t|] eqn:Hm; [|left; by eexists].
        destruct (di_mutex _ Hi t Hm) as [->|[-> _]]; [done|by right; left].
      * destruct Hex as [? _]. done.
      * destruct (worker_done (shared c)) eqn:Hd; [left; by eexists|]. right. right. naive_solver.
    + left. destruct (effect_total o 0 (tick (shared c)) Hw) as [[s' r] ->]. by eexists.
Qed.

(** No deadlock. *)
Lemma some_thread_moves c :
  conf_ok (perform env) daemon_inv daemon_rely daemon_pre entry finished c ->
  length (threads c) = 2%nat -> ended (shared c) = None ->
  exists t c', tstep (perform env) (daemon_code argv) c t = Some c'.
Proof.
  intros [Hi Hsafe] Hl He.
  destruct (main_moves c (conj Hi Hsafe) Hl He) as [[c' E]|[Hm|(Hm & Hst & Ho & Hsp & Hd)]].
  - by exists 0%nat, c'.
  - destruct (di_mutex _ Hi _ Hm) as [?|(_ & Hsp & Hd)]; [done|].
    destruct (worker_moves c) as [c' E]; [done|done|by split_and!; [|lia|]|by left|]. by exists 1%nat, c'.
  - destruct (worker_moves c) as [c' E]; [done|done|by split_and!; [|lia|]| |by exists 1%nat, c'].
    destruct (mutex (shared c)) as [t|] eqn:Hmu.
    + destruct (di_mutex _ Hi _ Hmu) as [->|(-> & _)]; [done|by left].
    + right. split; [done|]. intros Hw. destruct (notified (shared c)) eqn:Hn; [done|].
      destruct (di_wait _ Hi Hw Hn Ho). congruence.
Qed.

(** ** Reaching a configuration *)

#[local] Abbreviation ok := (conf_ok (perform env) daemon_inv daemon_rely daemon_pre entry finished).
#[local] Abbreviation step := (tstep (perform env) (daemon_code argv)).
#[local] Abbreviation runs_to := (trun (perform env) (daemon_code argv)).

Definition reaches (c c' : conf state label) : Prop := exists schedule, runs_to c schedule = c'.

Lemma reaches_refl c : reaches c c.
Proof. by exists []. Qed.

Lemma reaches_step c t c' c'' : step c t = Some c' -> reaches c' c'' -> reaches c c''.
Proof. intros E [ts <-]. exists (t :: ts). unfold trun. cbn. by rewrite E. Qed.

Lemma reaches_trans c1 c2 c3 : reaches c1 c2 -> reaches c2 c3 -> reaches c1 c3.
Proof. intros [ts <-] [us <-]. exists (ts ++ us). unfold trun. by rewrite fold_left_app. Qed.

(** The two threads, side by side. *)
Definition both (s : state) (p q : program (option label)) : conf state label :=
  {| shared := s; threads := [p; q] |}.

Definition good (s : state) (p q : program (option label)) : Prop := ok (both s p q).

Lemma step_good s p q t s' p' q' : good s p q -> step (both s p q) t = Some (both s' p' q') -> good s' p' q'.
Proof using input_ok. intros Hc E. eapply tstep_ok; [apply _|by apply code_safe|exact Hc|exact E]. Qed.

(** What the thread that is about to act knows. *)
Lemma good_needs s p q t R (o : op R) k :
  good s p q -> [p; q] !! t = Some (Do o k) -> runs t s -> needs o t s.
Proof.
  intros [Hi Hc] Hp Hr. specialize (Hc t _ Hp). cbn in Hc.
  by destruct (Hc s ltac:(reflexivity) Hi) as [Hpre _]; apply Hpre.
Qed.

Lemma good_ends s p q t a :
  good s p q -> [p; q] !! t = Some (Ret a) -> exit_of entry finished t a s.
Proof. intros [Hi Hc] Hp. exact (Hc t _ Hp s ltac:(reflexivity) Hi). Qed.

Lemma good_inv s p q : good s p q -> daemon_inv s.
Proof. by intros [Hi _]. Qed.

(** *** A step of a thread *)

Lemma effect_clock {R} (o : op R) t s s' r : effect env o t s = Some (s', r) -> clock s' = clock s.
Proof.
  destruct o; cbn [effect]; try (by intros [= <- <-]);
    repeat match goal with |- context [match ?x with _ => _ end] => destruct x end;
    try done; by intros [= <- <-].
Qed.

(** Only the main thread adds to the queue. *)
Lemma effect_queue {R} (o : op R) s s' r :
  needs o 1 s -> effect env o 1 s = Some (s', r) -> (length (queue s') <= length (queue s))%nat.
Proof.
  intros (_ & _ & Hex). destruct o; cbn [effect extra] in *; try (by intros [= <- <-]);
    repeat match goal with |- context [match ?x with _ => _ end] => destruct x eqn:? end;
    try done; intros [= <- <-]; cbn; try lia; try by destruct Hex.
  by rewrite Heql.
Qed.

Lemma act_ok s p q t R (o : op R) k s' r :
  (t < 2)%nat -> good s p q -> [p; q] !! t = Some (Do o k) -> runs t s ->
  effect env o t (tick s) = Some (s', r) ->
  keeps t s s' /\ clock s' = S (clock s) /\ perform env R o t s = Some (s', r).
Proof.
  intros Ht Hg Hp Hr E. pose proof (good_needs _ _ _ _ _ _ _ Hg Hp Hr) as Hn.
  assert (Ep : perform env R o t s = Some (s', r)) by by rewrite perform_eq.
  split_and!; [|by rewrite (effect_clock _ _ _ _ _ E)|done].
  by eapply daemon_perform_ok; [|eapply good_inv|intros ?|].
Qed.

Lemma worker_act s p R (o : op R) k s' r :
  good s p (Do o k) -> runs 1 s -> effect env o 1 (tick s) = Some (s', r) ->
  good s' p (k r) /\ daemon_rely 0 s s' /\ (clock s <= clock s')%nat /\
  step (both s p (Do o k)) 1 = Some (both s' p (k r)).
Proof using input_ok.
  intros Hg Hr E. destruct (act_ok s p (Do o k) 1 _ o k s' r) as ([_ Hrely] & Hclock & Ep); [lia|done..|].
  assert (Es : step (both s p (Do o k)) 1 = Some (both s' p (k r))).
  { unfold tstep. cbn. by rewrite Ep. }
  split_and!; [by eapply step_good|by apply Hrely|lia|done].
Qed.

Lemma main_act s q R (o : op R) k s' r :
  good s (Do o k) q -> runs 0 s -> effect env o 0 (tick s) = Some (s', r) ->
  good s' (k r) q /\ (clock s <= clock s')%nat /\
  step (both s (Do o k) q) 0 = Some (both s' (k r) q).
Proof using input_ok.
  intros Hg Hr E. destruct (act_ok s (Do o k) q 0 _ o k s' r) as (_ & Hclock & Ep); [lia|done..|].
  assert (Es : step (both s (Do o k) q) 0 = Some (both s' (k r) q)).
  { unfold tstep. cbn. by rewrite Ep. }
  split_and!; [by eapply step_good|lia|done].
Qed.

Lemma worker_next s p l :
  good s p (Ret (Some l)) ->
  good s p (daemon_code argv 1 l) /\
  step (both s p (Ret (Some l))) 1 = Some (both s p (daemon_code argv 1 l)).
Proof using input_ok.
  intros Hg. assert (E : step (both s p (Ret (Some l))) 1 = Some (both s p (daemon_code argv 1 l))) by done.
  split; [by eapply step_good|done].
Qed.

Lemma main_next s q l :
  good s (Ret (Some l)) q ->
  good s (daemon_code argv 0 l) q /\
  step (both s (Ret (Some l)) q) 0 = Some (both s (daemon_code argv 0 l) q).
Proof using input_ok.
  intros Hg. assert (E : step (both s (Ret (Some l)) q) 0 = Some (both s (daemon_code argv 0 l) q)) by done.
  split; [by eapply step_good|done].
Qed.

(** The state as far as the main thread cares, after steps of the worker. *)
Definition after_worker (s s' : state) : Prop := daemon_rely 0 s s' /\ (clock s <= clock s')%nat.

Lemma after_worker_refl s : after_worker s s.
Proof. by split. Qed.

Lemma after_worker_trans s1 s2 s3 : after_worker s1 s2 -> after_worker s2 s3 -> after_worker s1 s3.
Proof. intros [? ?] [? ?]. split; [by etrans|lia]. Qed.

Lemma after_worker_ended s s' : after_worker s s' -> ended s' = ended s.
Proof. intros [Hr _]. by destruct (dr_main _ _ _ Hr eq_refl) as (_ & _ & _ & _ & -> & _). Qed.

(** ** The worker lets go of the lock *)

Definition frees {R} (o : op R) : bool := match o with Unlock | WaitBegin => true | _ => false end.

(** Every path through the block unlocks, or ends in [P]. *)
Fixpoint unlocks_or (P : option label -> Prop) (p : program (option label)) : Prop :=
  match p with
  | Ret a => P a
  | Do o k => frees o = true \/ forall r, unlocks_or P (k r)
  end.

Lemma unlocks_or_any (P : option label -> Prop) p : (forall a, P a) -> unlocks_or P p.
Proof. intros HP. induction p as [a|R o k IH]; cbn; auto. Qed.

Lemma worker_turn_unlocks : unlocks_or (fun _ => False) worker_turn.
Proof.
  cbn. right. intros stop. right. intros empty. destruct stop, empty; cbn; auto.
Qed.

Lemma worker_holds s p R (o : op R) k :
  good s p (Do o k) -> mutex s = Some 1%nat -> ended s = None ->
  exists s' r, effect env o 1 (tick s) = Some (s', r) /\ runs 1 s.
Proof.
  intros Hg Hm He. pose proof (good_inv _ _ _ Hg) as Hi.
  assert (Hr : runs 1 s).
  { destruct (di_mutex _ Hi _ Hm) as [?|(_ & ? & ?)]; [done|]. by split_and!; [|lia|]. }
  pose proof (good_needs _ _ _ 1 _ _ _ Hg eq_refl Hr) as (_ & _ & Hex).
  destruct (waits o) eqn:Hw.
  - destruct o; try done; cbn in Hex; naive_solver.
  - destruct (effect_total o 1 (tick s) Hw) as [[s' r] E]. by exists s', r.
Qed.

Lemma unlock_reached P s p q :
  unlocks_or P q -> good s p q -> mutex s = Some 1%nat -> ended s = None ->
  exists s' q', reaches (both s p q) (both s' p q') /\ good s' p q' /\ after_worker s s' /\
    (mutex s' = Some 1%nat -> exists a, q' = Ret a /\ P a).
Proof using input_ok.
  revert s. induction q as [a|R o k IH]; intros s Hu Hg Hm He.
  { exists s, (Ret a). split_and!; [apply reaches_refl|done|apply after_worker_refl|by exists a]. }
  destruct (worker_holds _ _ _ _ _ Hg Hm He) as (s' & r & E & Hr).
  destruct (worker_act _ _ _ _ _ _ _ Hg Hr E) as (Hg' & Hrely & Hc & Es).
  assert (Ha : after_worker s s') by done.
  destruct (decide (mutex s' = Some 1%nat)) as [Hm'|Hm'].
  2: { exists s', (k r). by split_and!; [eapply reaches_step, reaches_refl|..]. }
  destruct Hu as [Hf|Hu].
  { destruct o; try done; cbn in E; injection E as <- <-; done. }
  destruct (IH r s') as (s2 & q2 & Hr2 & Hg2 & Ha2 & Hm2); [done..|by rewrite (after_worker_ended _ _ Ha)|].
  exists s2, q2. split_and!; [by eapply reaches_step|done|by eapply after_worker_trans|done].
Qed.

Lemma worker_unlocks s p q :
  good s p q -> mutex s = Some 1%nat -> ended s = None ->
  exists s' q', reaches (both s p q) (both s' p q') /\ good s' p q' /\ after_worker s s' /\
    mutex s' <> Some 1%nat.
Proof using input_ok.
  intros Hg Hm He.
  destruct (unlock_reached (fun _ => True) s p q) as (s1 & q1 & Hr1 & Hg1 & Ha1 & Hm1); [by apply unlocks_or_any|done..|].
  destruct (decide (mutex s1 = Some 1%nat)) as [Hm'|Hm']; [|by exists s1, q1].
  destruct (Hm1 Hm') as (a & -> & _). pose proof (good_ends _ _ _ 1 _ Hg1 eq_refl) as Hend.
  destruct a as [l|].
  2: { cbn in Hend. destruct (di_mutex _ (good_inv _ _ _ Hg1) _ Hm') as [?|(_ & _ & ?)]; congruence. }
  destruct l; try done; cbn in Hend; [by apply Hend in Hm'|].
  destruct (worker_next _ _ _ Hg1) as [Hg2 E2].
  destruct (unlock_reached (fun _ => False) s1 p (daemon_code argv 1 WorkerWait)) as
    (s3 & q3 & Hr3 & Hg3 & Ha3 & Hm3); [apply worker_turn_unlocks|done..|by rewrite (after_worker_ended _ _ Ha1)|].
  exists s3, q3. split_and!; [|done|by eapply after_worker_trans|].
  - eapply reaches_trans; [exact Hr1|]. by eapply reaches_step.
  - intros Hm4. by destruct (Hm3 Hm4) as (? & _ & ?).
Qed.
(** ** A worker that is told to stop finishes *)

(** Every path through the block ends in [P]. *)
Fixpoint ends_in (P : option label -> Prop) (p : program (option label)) : Prop :=
  match p with
  | Ret a => P a
  | Do o k => forall r, ends_in P (k r)
  end.

Lemma ends_in_any (P : option label -> Prop) p : (forall a, P a) -> ends_in P p.
Proof. intros HP. induction p as [a|R o k IH]; cbn; auto. Qed.

Lemma ends_in_bind {A} P (p : program A) k :
  (forall a, ends_in P (k a)) -> ends_in P (prog_bind p k).
Proof. intros Hk. induction p as [a|R o f IH]; cbn; auto. Qed.

(** The main thread waits in [join]. *)
Record joining (s : state) : Prop := {
  jo_ended : ended s = None;
  jo_mutex : mutex s <> Some 0%nat;
  jo_stopping : stopping s = true;
  jo_owes : owes_notify s = false;
  jo_spawned : spawned s = true;
}.

Lemma joining_after s s' : joining s -> after_worker s s' -> joining s'.
Proof.
  intros [] [Hr _]. destruct (dr_main _ _ _ Hr eq_refl) as (? & ? & ? & ? & ? & _).
  constructor; try congruence. by rewrite <- (dr_lock _ _ _ Hr).
Qed.

Lemma joining_moves s p R (o : op R) k :
  good s p (Do o k) -> joining s -> worker_done s = false ->
  exists s' r, effect env o 1 (tick s) = Some (s', r) /\ runs 1 s /\ (length (queue s') <= length (queue s))%nat.
Proof.
  intros Hg [] Hd. pose proof (good_inv _ _ _ Hg) as Hi.
  assert (Hr : runs 1 s) by by split_and!; [|lia|].
  pose proof (good_needs _ _ _ 1 _ _ _ Hg eq_refl Hr) as Hn.
  destruct (worker_moves (both s p (Do o k))) as [c' E]; [done..| |].
  { cbn. destruct (mutex s) as [t|] eqn:Hm.
    - destruct (di_mutex _ Hi _ Hm) as [->|(-> & _)]; [done|by left].
    - right. split; [done|]. intros Hw. destruct (notified s) eqn:Hnot; [done|].
      destruct (di_wait _ Hi Hw Hnot); congruence. }
  unfold tstep in E. cbn in E. rewrite perform_eq in E by done.
  destruct (effect env o 1 (tick s)) as [[s' r]|] eqn:Ef; [|done]. exists s', r.
  split_and!; [done..|]. by apply (effect_queue o (tick s) s' r).
Qed.

Lemma joining_run P n s p q :
  ends_in P q -> good s p q -> joining s -> (length (queue s) <= n)%nat ->
  exists s' q', reaches (both s p q) (both s' p q') /\ good s' p q' /\ after_worker s s' /\
    (length (queue s') <= n)%nat /\ (worker_done s' = false -> exists a, q' = Ret a /\ P a).
Proof using input_ok.
  revert s. induction q as [a|R o k IH]; intros s HP Hg Hj Hn.
  { exists s, (Ret a). split_and!; [apply reaches_refl|done|apply after_worker_refl|done|by exists a]. }
  destruct (worker_done s) eqn:Hd.
  { exists s, (Do o k). split_and!; [apply reaches_refl|done|apply after_worker_refl|done|congruence]. }
  destruct (joining_moves _ _ _ _ _ Hg Hj Hd) as (s' & r & E & Hr & Hq).
  destruct (worker_act _ _ _ _ _ _ _ Hg Hr E) as (Hg' & Hrely & Hc & Es).
  assert (Ha : after_worker s s') by done.
  destruct (IH r s') as (s2 & q2 & Hr2 & Hg2 & Ha2 & Hq2 & Hd2);
    [done|done|by eapply joining_after|lia|].
  exists s2, q2. split_and!; [by eapply reaches_step|done|by eapply after_worker_trans|done|done].
Qed.

Definition worker_finishes (s : state) (p q : program (option label)) : Prop :=
  exists s' q', reaches (both s p q) (both s' p q') /\ good s' p q' /\ after_worker s s' /\
    worker_done s' = true.

Lemma finishes_trans s p q s1 q1 :
  reaches (both s p q) (both s1 p q1) -> after_worker s s1 -> worker_finishes s1 p q1 ->
  worker_finishes s p q.
Proof.
  intros Hr Ha (s' & q' & Hr' & Hg' & Ha' & Hd). exists s', q'.
  split_and!; [by eapply reaches_trans|done|by eapply after_worker_trans|done].
Qed.

Lemma finishes_none s p q :
  ends_in (eq None) q -> good s p q -> joining s -> worker_finishes s p q.
Proof using input_ok.
  intros HP Hg Hj. destruct (joining_run (eq None) (length (queue s)) s p q) as
    (s' & q' & Hr & Hg' & Ha & _ & Hd); [done..|].
  destruct (worker_done s') eqn:E; [by exists s', q'|]. destruct (Hd eq_refl) as (a & -> & <-).
  pose proof (good_ends _ _ _ 1 _ Hg' eq_refl) as Hend. cbn in Hend. congruence.
Qed.

(** A turn of the loop takes an event or is the last. *)
Lemma turn_finishes n s p :
  (forall s q, good s p q -> joining s -> (length (queue s) < n)%nat -> worker_finishes s p q) ->
  good s p worker_turn -> joining s -> (length (queue s) <= n)%nat -> worker_done s = false ->
  worker_finishes s p worker_turn.
Proof using input_ok.
  intros IH Hg Hj Hn Hd. assert (Hrun : forall s, joining s -> worker_done s = false -> runs 1 s).
  { intros s0 [] ?. by split_and!; [|lia|]. }
  destruct (worker_act _ _ _ _ _ _ _ Hg (Hrun _ Hj Hd) eq_refl) as (Hg1 & Hr1 & Hc1 & E1).
  assert (Ha1 : after_worker s (tick s)) by done. pose proof (joining_after _ _ Hj Ha1) as Hj1.
  destruct (worker_act _ _ _ _ _ _ _ Hg1 (Hrun _ Hj1 Hd) eq_refl) as (Hg2 & Hr2 & Hc2 & E2).
  assert (Ha2 : after_worker s (tick (tick s))) by by split; [etrans|lia].
  pose proof (joining_after _ _ Hj Ha2) as Hj2.
  eapply finishes_trans; [eapply reaches_step; [exact E1|]; eapply reaches_step, reaches_refl; exact E2|done|].
  revert Hg2. cbn [stopping tick queue]. rewrite (jo_stopping _ Hj). destruct (queue s) as [|e q] eqn:Hq;
    [rewrite bool_decide_true by done|rewrite bool_decide_false by done]; cbn [negb orb andb]; intros Hg2.
  - apply finishes_none; [|done..]. intros r. by apply (ends_in_bind _ worker_end).
  - destruct (worker_act _ _ _ _ _ (emit (EProcessed e) (give_to 1 [Reference (ev_device e)]
      (set_queue q (tick (tick (tick s)))))) e Hg2 (Hrun _ Hj2 Hd)) as (Hg3 & Hr3 & Hc3 & E3).
    { cbn [effect]. cbn [tick queue]. by rewrite Hq. }
    eapply finishes_trans; [by eapply reaches_step, reaches_refl|done|]. apply IH; [done| |cbn in *; lia].
    by eapply joining_after.
Qed.

Lemma finishes_done s p q : good s p q -> worker_done s = true -> worker_finishes s p q.
Proof. exists s, q. by split_and!; [apply reaches_refl| |apply after_worker_refl|]. Qed.

(** From the end of a block of the loop. *)
Lemma loop_finishes n s p l :
  (forall s q, good s p q -> joining s -> (length (queue s) < n)%nat -> worker_finishes s p q) ->
  good s p (Ret (Some l)) -> joining s -> (length (queue s) <= n)%nat -> worker_done s = false ->
  worker_finishes s p (Ret (Some l)).
Proof using input_ok.
  intros IH Hg Hj Hn Hd. destruct (worker_next _ _ _ Hg) as [Hg1 E1].
  eapply finishes_trans; [by eapply reaches_step, reaches_refl|apply after_worker_refl|].
  pose proof (good_ends _ _ _ 1 _ Hg eq_refl) as Hend. destruct l; try done; [|by apply (turn_finishes n)].
  destruct (joining_run (eq (Some WorkerWait)) n s p (daemon_code argv 1 WorkerLoop)) as
    (s1 & q1 & Hr1 & Hg2 & Ha1 & Hq1 & Hd1); [by intros r|done..|].
  eapply finishes_trans; [exact Hr1|done|]. pose proof (joining_after _ _ Hj Ha1) as Hj1.
  destruct (worker_done s1) eqn:Ed; [by apply finishes_done|].
  destruct (Hd1 eq_refl) as (a & -> & <-). destruct (worker_next _ _ _ Hg2) as [Hg3 E3].
  eapply finishes_trans; [by eapply reaches_step, reaches_refl|apply after_worker_refl|].
  by apply (turn_finishes n).
Qed.

Lemma worker_stops s p q : good s p q -> joining s -> worker_finishes s p q.
Proof using input_ok.
  remember (length (queue s)) as n eqn:Hn. apply eq_sym, Nat.eq_le_incl in Hn. revert s q Hn.
  induction n as [n IHn] using lt_wf_ind. intros s q Hn Hg Hj.
  destruct (joining_run (fun _ => True) n s p q) as (s1 & q1 & Hr1 & Hg1 & Ha1 & Hq1 & Hd1);
    [by apply ends_in_any|done..|].
  eapply finishes_trans; [exact Hr1|done|]. pose proof (joining_after _ _ Hj Ha1) as Hj1.
  destruct (worker_done s1) eqn:Ed; [by apply finishes_done|].
  destruct (Hd1 eq_refl) as ([l|] & -> & _).
  - apply (loop_finishes n); [|done..]. intros s2 q2 Hg2 Hj2 Hlt. by apply (IHn (length (queue s2))).
  - pose proof (good_ends _ _ _ 1 _ Hg1 eq_refl) as Hend. cbn in Hend. congruence.
Qed.

(** ** The main thread comes to its end *)

(** The main thread alone acts, after steps of the worker if it has to wait. *)
Lemma main_goes_on s q R (o : op R) k :
  good s (Do o k) q -> ended s = None ->
  exists s' r q', reaches (both s (Do o k) q) (both s' (k r) q') /\ good s' (k r) q' /\
    (clock s <= clock s')%nat.
Proof using input_ok.
  intros Hg He. assert (Hrun : forall s, ended s = None -> runs 0 s) by (intros; by split_and!; [|lia|]).
  pose proof (good_needs _ _ _ 0 _ _ _ Hg eq_refl (Hrun _ He)) as (_ & _ & Hex).
  assert (Hact : forall s1 q1, reaches (both s (Do o k) q) (both s1 (Do o k) q1) -> good s1 (Do o k) q1 ->
    after_worker s s1 -> is_Some (effect env o 0 (tick s1)) ->
    exists s' r q', reaches (both s (Do o k) q) (both s' (k r) q') /\ good s' (k r) q' /\
      (clock s <= clock s')%nat).
  { intros s1 q1 Hr1 Hg1 Ha1 [[s2 r] E]. destruct (main_act _ _ _ _ _ _ _ Hg1 (Hrun s1
      (eq_trans (after_worker_ended _ _ Ha1) He)) E) as (Hg2 & Hc & Es).
    exists s2, r, q1. split_and!; [|done|destruct Ha1; lia].
    eapply reaches_trans; [exact Hr1|]. by eapply reaches_step, reaches_refl. }
  destruct (waits o) eqn:Hw.
  2: { apply (Hact s q); [apply reaches_refl|done|apply after_worker_refl|by apply effect_total]. }
  destruct o; try done; cbn in Hex.
  - destruct (mutex s) as [t|] eqn:Hm.
    + destruct (di_mutex _ (good_inv _ _ _ Hg) _ Hm) as [->|(-> & _)]; [done|].
      destruct (worker_unlocks s _ q Hg Hm He) as (s1 & q1 & Hr1 & Hg1 & Ha1 & Hm1).
      apply (Hact s1 q1); [done..|]. cbn. destruct (mutex s1) as [t|] eqn:Hm2; [|by eexists].
      destruct (di_mutex _ (good_inv _ _ _ Hg1) _ Hm2) as [->|(-> & _)]; [|done].
      apply (dr_lock _ _ _ (proj1 Ha1)) in Hm2. congruence.
    + apply (Hact s q); [apply reaches_refl|done|apply after_worker_refl|]. cbn. rewrite Hm. by eexists.
  - by destruct Hex.
  - destruct Hex as (_ & Hm & Hst & Ho & Hsp). destruct (worker_stops s _ q Hg) as (s1 & q1 & Hr1 & Hg1 & Ha1 & Hd1);
      [by constructor|]. apply (Hact s1 q1); [done..|]. cbn. rewrite Hd1. by eexists.
Qed.

Lemma main_run P s p q :
  ends_in P p -> good s p q ->
  exists s' p' q', reaches (both s p q) (both s' p' q') /\ good s' p' q' /\ (clock s <= clock s')%nat /\
    (ended s' = None -> exists a, p' = Ret a /\ P a).
Proof using input_ok.
  revert s q. induction p as [a|R o k IH]; intros s q HP Hg.
  { exists s, (Ret a), q. split_and!; [apply reaches_refl|done|lia|by exists a]. }
  destruct (ended s) as [f|] eqn:He.
  { exists s, (Do o k), q. split_and!; [apply reaches_refl|done|lia|congruence]. }
  destruct (main_goes_on _ _ _ _ _ Hg He) as (s1 & r & q1 & Hr1 & Hg1 & Hc1).
  destruct (IH r s1 q1) as (s2 & p2 & q2 & Hr2 & Hg2 & Hc2 & He2); [done..|].
  exists s2, p2, q2. split_and!; [by eapply reaches_trans|done|lia|done].
Qed.

Definition ends (c : conf state label) : Prop := exists c', reaches c c' /\ is_Some (ended (shared c')).

Lemma ends_reaches c c' : reaches c c' -> ends c' -> ends c.
Proof. intros Hr (c2 & Hr2 & He). exists c2. split; [by eapply reaches_trans|done]. Qed.

Lemma main_end_ends result : ends_in (eq None) (main_end result).
Proof.
  unfold main_end, shut_down. repeat (apply ends_in_bind; intros ?). done.
Qed.

Lemma none_ends s p q : ends_in (eq None) p -> good s p q -> ends (both s p q).
Proof using input_ok.
  intros HP Hg. destruct (main_run _ _ _ _ HP Hg) as (s' & p' & q' & Hr & Hg' & _ & He).
  exists (both s' p' q'). split; [done|]. cbn. destruct (ended s') eqn:E; [by eexists|].
  destruct (He eq_refl) as (a & -> & <-). pose proof (good_ends _ _ _ 0 _ Hg' eq_refl) as Hend.
  cbn in Hend. by rewrite E in Hend.
Qed.

(** With a stop requested, a turn of the loop of [main] is the last. *)
Lemma loop_ends deadline result s q :
  good s (Ret (Some (MainLoop deadline result))) q -> ended s = None ->
  (forall n, (clock s <= n)%nat -> env_stop_requested env n = true) ->
  ends (both s (Ret (Some (MainLoop deadline result))) q).
Proof using input_ok.
  intros Hg He Hstop. destruct (main_next _ _ _ Hg) as [Hg1 E1].
  eapply ends_reaches; [by eapply reaches_step, reaches_refl|].
  destruct (main_act _ _ _ _ _ _ _ Hg1 ltac:(by split_and!; [|lia|]) eq_refl) as (Hg2 & _ & E2).
  eapply ends_reaches; [by eapply reaches_step, reaches_refl|].
  revert Hg2. rewrite Hstop by (cbn; lia). cbn [prog_bind]. rewrite (proj2 (Z.ltb_ge _ _)) by done.
  intros Hg2. apply none_ends; [apply main_end_ends|done].
Qed.

Lemma main_start_leads : ends_in (fun a => a <> Some MainStart) (main_start argv).
Proof.
  unfold main_start. destruct (parse_options argv); repeat (apply ends_in_bind; intros ?); [|done].
  repeat first [done | apply ends_in_bind; intros ? | case_test | destruct a2].
Qed.

Lemma stop_ends s p q :
  good s p q -> (forall n, (clock s <= n)%nat -> env_stop_requested env n = true) -> ends (both s p q).
Proof using input_ok.
  intros Hg Hstop.
  assert (Hleaf : forall s1 a q1, good s1 (Ret a) q1 -> (clock s <= clock s1)%nat ->
    ended s1 = None -> a <> Some MainStart -> ends (both s1 (Ret a) q1)).
  { intros s1 a q1 Hg1 Hc1 He1 Ha. pose proof (good_ends _ _ _ 0 _ Hg1 eq_refl) as Hend.
    destruct a as [l|]; cbn in Hend; [|by rewrite He1 in Hend; destruct Hend].
    destruct l; try done. apply loop_ends; [done..|]. intros n Hn. apply Hstop. lia. }
  assert (Hrun : forall s1 p1 q1 P, good s1 p1 q1 -> (clock s <= clock s1)%nat -> ends_in P p1 ->
    (forall s2 a q2, good s2 (Ret a) q2 -> (clock s <= clock s2)%nat -> ended s2 = None -> P a ->
       ends (both s2 (Ret a) q2)) -> ends (both s1 p1 q1)).
  { intros s1 p1 q1 P Hg1 Hc1 HP Hk.
    destruct (main_run P s1 p1 q1 HP Hg1) as (s2 & p2 & q2 & Hr & Hg2 & Hc2 & He2).
    destruct (ended s2) as [f|] eqn:E; [exists (both s2 p2 q2); split; [done|]; by exists f|].
    destruct (He2 eq_refl) as (a & -> & Ha). eapply ends_reaches; [exact Hr|].
    apply Hk; [done|lia|done|done]. }
  apply (Hrun s p q (fun _ => True)); [done|lia|by apply ends_in_any|].
  intros s1 a q1 Hg1 Hc1 He1 _. destruct a as [[| | |]|]; try by apply Hleaf.
  destruct (main_next _ _ _ Hg1) as [Hg2 E2]. eapply ends_reaches; [by eapply reaches_step, reaches_refl|].
  by apply (Hrun s1 _ q1 (fun a => a <> Some MainStart)); [|done|apply main_start_leads|].
Qed.

Lemma good_after schedule :
  exists p q, daemon_after env argv schedule = both (shared (daemon_after env argv schedule)) p q /\
    good (shared (daemon_after env argv schedule)) p q.
Proof using input_ok.
  pose proof (daemon_conf_ok env argv input_ok schedule) as Hc.
  pose proof (daemon_two_threads env argv schedule) as Hl.
  destruct (daemon_after env argv schedule) as [s [|p [|q [|? ?]]]]; try done.
  by exists p, q.
Qed.

(** The daemon does not get stuck, and it can be stopped.  In every configuration
    that is reached, until [main] has returned, one of the threads can take a step,
    even when no wait ends without a notification: there is no deadlock and no lost
    wake-up.  And from every configuration, once a stop is requested, the process can
    run to its end: the main thread leaves its loop at the next test, the worker is
    woken, handles the events that are still queued, closes its sessions and is
    joined. *)
Theorem daemon_never_stuck schedule :
  let c := daemon_after env argv schedule in
  (ended (shared c) = None ->
     exists t c', tstep (perform env) (daemon_code argv) c t = Some c') /\
  ((forall n, (clock (shared c) <= n)%nat -> env_stop_requested env n = true) ->
     exists more code, ended (shared (daemon_after env argv (schedule ++ more))) = Some (Exited code)).
Proof using input_ok.
  destruct (good_after schedule) as (p & q & E & Hg). cbv zeta.
  set (s := shared (daemon_after env argv schedule)) in *. split.
  - intros He. apply some_thread_moves; [by apply daemon_conf_ok|apply daemon_two_threads|done].
  - intros Hstop. destruct (stop_ends _ _ _ Hg Hstop) as (c' & [more Hr] & [f He]).
    assert (Hmore : daemon_after env argv (schedule ++ more) = c').
    { unfold daemon_after, trun. rewrite fold_left_app. rewrite <- Hr, <- E. done. }
    exists more. destruct f as [code|].
    + exists code. by rewrite Hmore.
    + destruct (daemon_conf_ok env argv input_ok (schedule ++ more)) as [Hi _].
      rewrite Hmore in Hi. by destruct (di_fine _ Hi).
Qed.
End liveness.

(** ** Witness *)

(** The sample, stopped at once, from the middle of its start. *)
Definition stopped_environment : environment :=
  let e := sample_environment in
  {| env_init := env_init e; env_register := env_register e; env_stop_requested := fun _ => true;
     env_now := env_now e; env_events := env_events e; env_descriptor := env_descriptor e;
     env_location := env_location e; env_open := env_open e; env_spurious := env_spurious e |}.

Lemma daemon_never_stuck_witness :
  exists more code,
    ended (shared (daemon_after stopped_environment sample_argv ([0; 0; 0; 0; 1; 0; 1]%nat ++ more)))
      = Some (Exited code).
Proof.
  apply (daemon_never_stuck stopped_environment sample_argv); [|by intros].
  split; [done|]. exact sample_clock.
Defined.
