(* ===== verification/DaemonTermination.v ===== *)
(** * DaemonTermination: a daemon that is told to stop does stop

    [DaemonLiveness] shows that the process can be run to its end; here, that a fair
    scheduler cannot help running it there.  The step relation of the two threads is
    well founded once stops are requested and waits end by notification only: the
    worker, alone, empties the queue and then waits or leaves; the main thread leaves
    its loop at the next test. *)

From stdpp Require Import well_founded.
From S2P Require Import Prelude Text Wire Header Threads Daemon DaemonSafety DaemonLiveness.

Open Scope Z_scope.

#[local] Abbreviation program := (prog op).

Section termination.
Context `{Platform} (env : environment) (argv : list (list Z)).
Context (input_ok : meaningful env argv).

(** From some operation on, a stop is requested and no wait ends by itself. *)
Context (N : nat).
Context (stops : forall n, (N <= n)%nat -> env_stop_requested env n = true /\ env_spurious env n = false).

#[local] Abbreviation step := (tstep (perform env) (daemon_code argv)).
#[local] Abbreviation good := (good env).

(** The steps of a process that has not ended. *)
Definition next (c' c : conf state label) : Prop :=
  ended (shared c) = None /\ exists t, step c t = Some c'.

Definition terminates (s : state) (p q : program (option label)) : Prop := Acc next (both s p q).

(** ** A step of a thread, taken apart *)

Lemma main_step s p q c' :
  good s p q -> ended s = None -> step (both s p q) 0 = Some c' ->
  match p with
  | Ret (Some l) => c' = both s (daemon_code argv 0 l) q /\ good s (daemon_code argv 0 l) q
  | Ret None => False
  | Do o k =>
      exists s' r, effect env o 0 (tick s) = Some (s', r) /\ c' = both s' (k r) q /\
        good s' (k r) q /\ clock s' = S (clock s)
  end.
Proof using input_ok.
  intros Hg He E. destruct p as [[l|]|R o k]; [|done|].
  - injection E as <-. split; [done|]. by apply (main_next env argv).
  - assert (Hr : runs 0 s) by by split_and!; [|lia|].
    pose proof (good_needs env s _ q 0 _ _ _ Hg eq_refl Hr) as Hn.
    unfold tstep in E. cbn in E. rewrite perform_eq in E by done.
    destruct (effect env o 0 (tick s)) as [[s' r]|] eqn:Ef; [|done]. injection E as <-.
    exists s', r. split_and!; [done..| |by rewrite (effect_clock env o 0 _ _ _ Ef)].
    by apply (main_act env argv input_ok s q R o k s' r).
Qed.

Lemma worker_step s p q c' :
  good s p q -> ended s = None -> step (both s p q) 1 = Some c' ->
  match q with
  | Ret (Some l) => c' = both s p (daemon_code argv 1 l) /\ good s p (daemon_code argv 1 l)
  | Ret None => False
  | Do o k =>
      exists s' r, effect env o 1 (tick s) = Some (s', r) /\ c' = both s' p (k r) /\
        good s' p (k r) /\ clock s' = S (clock s) /\ (length (queue s') <= length (queue s))%nat
  end.
Proof using input_ok.
  intros Hg He E. destruct q as [[l|]|R o k]; [|done|].
  - injection E as <-. split; [done|]. by apply (worker_next env argv).
  - unfold tstep in E. cbn in E. destruct (perform env R o 1 s) as [[s' r]|] eqn:Ep; [|done].
    injection E as <-. pose proof (perform_inv env o 1 s s' r ltac:(lia) Ep) as Hr.
    pose proof (good_needs env s p _ 1 _ _ _ Hg eq_refl Hr) as Hn. rewrite perform_eq in Ep by done.
    exists s', r. split_and!; [done..| |by rewrite (effect_clock env o 1 _ _ _ Ep)|].
    + by apply (worker_act env argv input_ok s p R o k s' r).
    + by apply (effect_queue env o (tick s) s' r).
Qed.

(** ** The worker alone comes to rest *)

Section worker.
Context (p : program (option label)).

(** The steps of the worker, while the main thread stays where it is. *)
Definition worker_next_step (c' c : conf state label) : Prop :=
  ended (shared c) = None /\ step c 1 = Some c'.

Definition rests (s : state) (q : program (option label)) : Prop :=
  Acc worker_next_step (both s p q).

Lemma rests_do s R (o : op R) k :
  good s p (Do o k) ->
  (forall s' r, effect env o 1 (tick s) = Some (s', r) -> good s' p (k r) ->
     clock s' = S (clock s) -> (length (queue s') <= length (queue s))%nat -> rests s' (k r)) ->
  rests s (Do o k).
Proof using input_ok.
  intros Hg Hk. constructor. intros c' [He E].
  destruct (worker_step s p _ c' Hg He E) as (s' & r & Ef & -> & Hg' & Hc & Hq). by apply Hk.
Qed.

Lemma rests_goto s l :
  good s p (Ret (Some l)) ->
  (good s p (daemon_code argv 1 l) -> rests s (daemon_code argv 1 l)) -> rests s (Ret (Some l)).
Proof using input_ok.
  intros Hg Hk. constructor. intros c' [He E].
  destruct (worker_step s p _ c' Hg He E) as [-> Hg']. by apply Hk.
Qed.

Lemma rests_none s : good s p (Ret None) -> rests s (Ret None).
Proof. constructor. by intros c' [He E]. Qed.

(** A block rests if what it leads to does. *)
Lemma rests_tree P n s q :
  (forall s a, good s p (Ret a) -> (N <= clock s)%nat -> (length (queue s) <= n)%nat -> P a ->
     rests s (Ret a)) ->
  ends_in P q -> good s p q -> (N <= clock s)%nat -> (length (queue s) <= n)%nat -> rests s q.
Proof using input_ok.
  intros Hleaf. revert s. induction q as [a|R o k IH]; intros s HP Hg HN Hn; [by apply Hleaf|].
  apply rests_do; [done|]. intros s' r _ Hg' Hc Hq. apply IH; [done..|lia|lia].
Qed.

(** A turn of the loop waits, is the last, or takes an event from the queue. *)
Lemma rests_turn n s :
  (forall s q, good s p q -> (N <= clock s)%nat -> (length (queue s) < n)%nat -> rests s q) ->
  good s p worker_turn -> (N <= clock s)%nat -> (length (queue s) <= n)%nat -> rests s worker_turn.
Proof using input_ok stops.
  intros IH Hg HN Hn. apply rests_do; [done|]. intros s1 stop [= <- <-] Hg1 Hc1 _.
  apply rests_do; [done|]. intros s2 empty [= <- <-] Hg2 Hc2 _. cbn [tick queue stopping] in *.
  destruct (queue s) as [|e q] eqn:Hq;
    [rewrite bool_decide_true in Hg2 |- * by done|rewrite bool_decide_false in Hg2 |- * by done].
  - destruct (stopping s); cbn [negb orb andb] in *.
    + eapply (rests_tree (eq None) n); [|by intros r; apply (ends_in_bind _ worker_end)|done|cbn; lia|by cbn; rewrite Hq].
      intros s3 a Hg3 _ _ <-. by apply rests_none.
    + apply rests_do; [done|]. intros s3 [] [= <-] Hg3 Hc3 _. apply rests_do; [done|].
      intros s4 r E _ _ _. cbn in E. destruct (stops (S (S (S (S (clock s)))))) as [_ Hs]; [lia|].
      cbn in E. rewrite Hs in E. done.
  - rewrite orb_true_r in Hg2 |- *. cbn [negb andb] in *. apply rests_do; [done|].
    intros s3 r E Hg3 Hc3 _. apply IH; [done|cbn in *; lia|]. cbn in E. rewrite Hq in E.
    injection E as <- <-. cbn in *. lia.
Qed.

Lemma worker_rests s q : good s p q -> (N <= clock s)%nat -> rests s q.
Proof using input_ok stops.
  remember (length (queue s)) as n eqn:Hn. apply eq_sym, Nat.eq_le_incl in Hn. revert s q Hn.
  induction n as [n IHn] using lt_wf_ind. intros s q Hn Hg HN.
  assert (Hturn : forall s, good s p worker_turn -> (N <= clock s)%nat -> (length (queue s) <= n)%nat ->
    rests s worker_turn).
  { intros s1 ???. apply (rests_turn n); [|done..]. intros s2 q2 ? ? Hlt. by apply (IHn (length (queue s2))). }
  apply (rests_tree (fun _ => True) n); [|by apply ends_in_any|done..].
  intros s1 a Hg1 HN1 Hn1 _. destruct a as [l|]; [|by apply rests_none].
  apply rests_goto; [done|]. intros Hg2. pose proof (good_ends env _ _ _ 1 _ Hg1 eq_refl) as Hend.
  destruct l; try (exfalso; exact Hend); [|by apply Hturn].
  apply rests_do; [done|]. intros s3 r _ Hg3 Hc3 Hq3. apply rests_goto; [done|].
  intros Hg4. apply Hturn; [done|lia|lia].
Qed.
End worker.

(** ** The main thread comes to its end *)

(** The main thread gets its turn: a configuration terminates if whatever the main
    thread does next leads to one that does. *)
Lemma main_turns p s q :
  (forall s q c', good s p q -> (N <= clock s)%nat -> ended s = None -> step (both s p q) 0 = Some c' ->
     Acc next c') ->
  good s p q -> (N <= clock s)%nat -> terminates s p q.
Proof using input_ok stops.
  intros Hmain Hg HN. pose proof (worker_rests p s q Hg HN) as Hacc. revert Hg HN.
  unfold rests in Hacc. remember (both s p q) as c eqn:Ec. revert s q Ec.
  induction Hacc as [c _ IH]. intros s q -> Hg HN. constructor. intros c' [He [t E]]. cbn in He.
  destruct t as [|[|t]]; [by eapply Hmain| |done].
  assert (exists s' q', c' = both s' p q' /\ good s' p q' /\ (N <= clock s')%nat) as (s' & q' & -> & Hg' & HN').
  { pose proof (worker_step s p q c' Hg He E) as Hw. destruct q as [[l|]|R o k]; [|done|].
    - destruct Hw as [-> ?]. by eexists _, _.
    - destruct Hw as (s' & r & _ & -> & ? & ? & _). eexists _, _. split_and!; [done..|lia]. }
  by eapply IH.
Qed.

Lemma main_tree P p s q :
  (forall s a q, good s (Ret a) q -> (N <= clock s)%nat -> P a -> terminates s (Ret a) q) ->
  ends_in P p -> good s p q -> (N <= clock s)%nat -> terminates s p q.
Proof using input_ok stops.
  intros Hleaf. revert s q. induction p as [a|R o k IH]; intros s q HP Hg HN; [by apply Hleaf|].
  apply main_turns; [|done..]. intros s1 q1 c' Hg1 HN1 He E.
  destruct (main_step s1 _ q1 c' Hg1 He E) as (s' & r & _ & -> & Hg' & Hc). apply IH; [done..|lia].
Qed.

Lemma terminates_none s q : good s (Ret None) q -> terminates s (Ret None) q.
Proof.
  intros Hg. pose proof (good_ends env _ _ _ 0 _ Hg eq_refl) as Hend. constructor. intros c' [He _].
  cbn in Hend, He. rewrite He in Hend. by destruct Hend.
Qed.

(** A turn of the loop is the last. *)
Lemma terminates_loop deadline result s q :
  good s (Ret (Some (MainLoop deadline result))) q -> (N <= clock s)%nat ->
  terminates s (Ret (Some (MainLoop deadline result))) q.
Proof using input_ok stops.
  intros Hg HN. apply main_turns; [|done..]. clear s q Hg HN. intros s q c' Hg HN He E.
  destruct (main_step s _ q c' Hg He E) as [-> Hg']. apply main_turns; [|done..].
  clear s q Hg HN He E Hg'. intros s q c' Hg HN He E.
  destruct (main_step s _ q c' Hg He E) as (s' & r & [= <- <-] & -> & Hg' & Hc).
  revert Hg'. destruct (stops (S (clock s))) as [-> _]; [lia|]. cbn [prog_bind].
  rewrite (proj2 (Z.ltb_ge _ _)) by done. intros Hg'.
  apply (main_tree (eq None)); [|apply main_end_ends|done|cbn in *; lia].
  intros s1 a q1 Hg1 _ <-. by apply terminates_none.
Qed.

Lemma terminates_late s p q : good s p q -> (N <= clock s)%nat -> terminates s p q.
Proof using input_ok stops.
  assert (Hleaf : forall s a q, good s (Ret a) q -> (N <= clock s)%nat -> a <> Some MainStart ->
    terminates s (Ret a) q).
  { intros s1 [l|] q1 Hg1 HN1 Ha; [|by apply terminates_none].
    pose proof (good_ends env _ _ _ 0 _ Hg1 eq_refl) as Hend.
    destruct l; try (exfalso; exact Hend); [done|]. by apply terminates_loop. }
  intros Hg HN. apply (main_tree (fun _ => True)); [|by apply ends_in_any|done..].
  intros s1 a q1 Hg1 HN1 _. destruct a as [[|d r| |]|]; [|by apply Hleaf..].
  apply main_turns; [|done..]. intros s2 q2 c' Hg2 HN2 He2 E.
  destruct (main_step s2 _ q2 c' Hg2 He2 E) as [-> Hg3].
  by apply (main_tree (fun a => a <> Some MainStart)); [|apply main_start_leads|..].
Qed.

(** ** Until the stop is requested *)

Definition at_end {A} (p : program A) : nat := if p is Ret _ then 1 else 0.

Lemma code_acts t l : at_end (daemon_code argv t l) = 0%nat.
Proof. destruct l; try done. cbn. unfold main_start. by destruct (parse_options argv). Qed.

Lemma at_end_le {A} (p : program A) : (at_end p <= 1)%nat.
Proof. destruct p; cbn; lia. Qed.

(** Every operation advances the clock, and every block starts with one. *)
Lemma always_terminates s p q : good s p q -> terminates s p q.
Proof using input_ok stops.
  remember (3 * (N - clock s) + at_end p + at_end q)%nat as m eqn:Hm. revert s p q Hm.
  induction m as [m IH] using lt_wf_ind. intros s p q Hm Hg.
  destruct (decide (N <= clock s)%nat) as [HN|HN]; [by apply terminates_late|].
  constructor. intros c' [He [[|[|t]] E]]; [| |done].
  - pose proof (main_step s p q c' Hg He E) as Hs. pose proof (at_end_le q).
    destruct p as [[l|]|R o k]; [|done|].
    + destruct Hs as [-> Hg']. eapply IH; [|done..]. rewrite code_acts. cbn in *. lia.
    + destruct Hs as (s' & r & _ & -> & Hg' & Hc). pose proof (at_end_le (k r)).
      eapply IH; [|done..]. cbn in *. lia.
  - pose proof (worker_step s p q c' Hg He E) as Hs. pose proof (at_end_le p).
    destruct q as [[l|]|R o k]; [|done|].
    + destruct Hs as [-> Hg']. eapply IH; [|done..]. rewrite code_acts. cbn in *. lia.
    + destruct Hs as (s' & r & _ & -> & Hg' & Hc & _). pose proof (at_end_le (k r)).
      eapply IH; [|done..]. cbn in *. lia.
Qed.

(** Nothing happens to a process that has ended. *)
Lemma ended_stays c schedule :
  is_Some (ended (shared c)) -> shared (trun (perform env) (daemon_code argv) c schedule) = shared c.
Proof.
  unfold trun. revert c. induction schedule as [|t ts IH]; intros c He; [done|]. cbn.
  destruct (step c t) as [c'|] eqn:E; [|by apply IH]. cbn.
  assert (Hs : shared c' = shared c); [|rewrite <- Hs in He |- *; by apply IH].
  unfold tstep in E. destruct (threads c !! t) as [[[l|]|R o q]|]; [by injection E as <-|done| |done].
  unfold perform in E. destruct He as [f Hf]. by rewrite Hf in E.
Qed.
End termination.

(** C9 The daemon stops when it is told to.  However the scheduler interleaves the two
    threads, and whatever libusb reports in the meantime, as long as no thread is kept
    from running for ever: if from some point on a stop is requested and waits end only
    by notification, then [main] returns, with a code, and the process stays ended.  As
    in [daemon_safe], [argv[0]] is there, and the clock leaves room for the duration.  No
    fairness of the mutex is needed: the worker may take it back any number of times,
    but it runs out of events, and then it waits or is on its way out. *)
Theorem daemon_terminates `{Platform} env argv schedule :
  argv <> [] -> deadline_fits env argv ->
  (exists N, forall n, (N <= n)%nat -> env_stop_requested env n = true /\ env_spurious env n = false) ->
  fair 2 schedule ->
  exists k code, forall j, (k <= j)%nat ->
    ended (shared (daemon_after env argv (map schedule (seq 0 j)))) = Some (Exited code).
Proof.
  intros Hname Hfits [N Hstops] Hfair. pose proof (Build_meaningful _ _ _ Hname Hfits) as Hclock.
  destruct (good_after env argv Hclock []) as (p & q & E & Hg).
  pose proof (always_terminates env argv Hclock N Hstops _ _ _ Hg) as Hacc. unfold terminates in Hacc.
  rewrite <- E in Hacc.
  destruct (fair_reaches (perform env) (daemon_code argv) (daemon_start argv) schedule Hfair
    (fun c => is_Some (ended (shared c)))) as [k Hk].
  - refine (Acc_impl _ _ _ Hacc _). intros c' c [He Ht]. by split; [apply eq_None_not_Some|].
  - intros k Hk. destruct (some_thread_moves env argv (daemon_after env argv (map schedule (seq 0 k))))
      as (t & c' & Et); [by apply daemon_conf_ok|apply daemon_two_threads|by apply eq_None_not_Some|].
    exists t. by exists c'.
  - destruct (daemon_conf_ok env argv Hclock (map schedule (seq 0 k))) as [Hi _].
    assert (exists code, ended (shared (daemon_after env argv (map schedule (seq 0 k)))) = Some (Exited code))
      as [code Hc]. { destruct Hk as [[code|] He]; [by exists code|by destruct (di_fine _ Hi)]. }
    exists k, code. intros j Hj. rewrite <- Hc. f_equal. replace j with (k + (j - k))%nat by lia.
    unfold daemon_after at 1, trun. rewrite seq_app, map_app, fold_left_app. by apply (ended_stays env argv).
Qed.

(** The sample, with the threads taking turns. *)
Lemma daemon_terminates_witness :
  exists k code, forall j, (k <= j)%nat ->
    ended (shared (daemon_after sample_environment sample_argv (map (fun n => n mod 2)%nat (seq 0 j))))
      = Some (Exited code).
Proof.
  apply (daemon_terminates sample_environment sample_argv (fun n => n mod 2)%nat
    ltac:(discriminate) sample_clock).
  - exists 80%nat. intros n Hn. split; [by apply Nat.leb_le|done].
  - apply fair_alternate.
Defined.
