(* ===== verification/Vmap.v ===== *)
(** * Vmap: the persistent mapping of an EVDI buffer

    Models src/kernel/evdi/patches/0001-serialize-persistent-vmap.patch.  The patch
    changes the kernel module EVDI, whose source is not in the repository: what the
    hunks show is translated, with the added lines, and with the removed ones under
    names in [unpatched_].  What they leave out is a parameter: the lines between the
    hunks in [EvdiBuild], the answers of the allocators in [environment].

    Each user of a GEM object is a thread that holds a reference to it, makes any
    calls that map it, and drops its reference; the last one to do so frees the
    object, as DRM promises.  The kernel's own checks ([BUG_ON] on the counter of the
    dma-buf, a missing mapping that is read, pages that go while they are mapped, use
    after free) end a run in [bug]. *)

From stdpp Require Import gmap.
From S2P Require Import Prelude Threads.

Open Scope Z_scope.

(** ** Operations *)

(** The rest of [evdi_gem_free_object], behind the mapping. *)
Inductive teardown :=
| PrimeGemDestroy       (** drops the dma-buf, which checks its counter *)
| ReleasePages          (** the lines that the patch does not show *)
| FreeMmapOffset
| DestroyVmapLock
| DestroyPagesLock
| ObjectRelease
| Kfree.

Inductive op : Type -> Type :=
| LockVmap : op unit
| UnlockVmap : op unit
| GetVmapping : op Z
| SetVmapping (v : Z) : op unit
| SetIomem (b : bool) : op unit
| DmaBufVmapInto : op (Z * Z * bool)   (** code, address, whether it is I/O memory *)
| DmaBufVmap : op Z                    (** address or [NULL], the older interface *)
| DmaBufVunmap : op unit
| PinPages : op Z
| UnpinPages : op unit
| MapPages : op Z                      (** [vmap(obj->pages, ...)] *)
| UnmapPages (v : Z) : op unit         (** [vunmap] *)
| CopyOut : op unit                    (** the rest of GRABPIX, which reads the mapping *)
| ObjectPut : op bool                  (** whether it was the last reference *)
| Teardown (w : teardown) : op unit.

#[local] Abbreviation program := (prog op).

Definition ENOMEM : Z := 12.
Definition EFAULT : Z := 14.

(** How the module is built, what the object is, and the lines of [evdi_gem_vunmap]
    that lie between the hunks. *)
Class EvdiBuild := {
  map_struct : bool;           (** [KERNEL_VERSION(5, 11, 0) <= LINUX_VERSION_CODE || defined(EL8)] *)
  imported : bool;             (** [evdi_drm_gem_object_use_import_attach] *)
  import_attach : bool;
  vma_offset_manager : bool;
  unmap_import_struct : program unit;
  unmap_pages : program unit;
}.

(** What those lines do: one unmapping of the dma-buf; the pages are unmapped and the
    field is reset. *)
Class EvdiBuildOk `{EvdiBuild} := {
  unmap_import_struct_ok : unmap_import_struct = act DmaBufVunmap;
  unmap_pages_ok :
    unmap_pages =
      (let% v := act GetVmapping in
       let% _ := act (UnmapPages v) in
       act (SetVmapping 0));
}.

(** A call that maps the object. *)
Inductive request :=
| CursorSet (obj : bool)       (** with an object or without *)
| Grabpix.

(** ** The patched functions *)

Section patched.
Context `{EvdiBuild}.

(** [evdi_gem_vmap] up to [out_unlock]. *)
Definition vmap_locked : program Z :=
  let% vmapping := act GetVmapping in
  if negb (vmapping =? 0) then Ret 0 else
  if imported then
    if map_struct then
      let% (ret, vaddr, is_iomem) := act DmaBufVmapInto in
      if negb (ret =? 0) then Ret (- ENOMEM) else
      let% _ := act (SetVmapping vaddr) in
      let% _ := act (SetIomem is_iomem) in
      Ret ret
    else
      let% vaddr := act DmaBufVmap in
      let% _ := act (SetVmapping vaddr) in
      let% vmapping := act GetVmapping in
      if vmapping =? 0 then Ret (- ENOMEM) else Ret 0
  else
  let% ret := act PinPages in
  if negb (ret =? 0) then Ret ret else
  let% vaddr := act MapPages in
  let% _ := act (SetVmapping vaddr) in
  let% vmapping := act GetVmapping in
  if vmapping =? 0 then
    let% _ := act UnpinPages in
    Ret (- ENOMEM)
  else Ret ret.

Definition evdi_gem_vmap : program Z :=
  let% _ := act LockVmap in
  let% ret := vmap_locked in
  let% _ := act UnlockVmap in
  Ret ret.

(** [evdi_gem_vunmap] up to [out_unlock]. *)
Definition vunmap_locked : program unit :=
  let% vmapping := act GetVmapping in
  if vmapping =? 0 then Ret tt else
  if imported then
    let% _ := if map_struct then unmap_import_struct else act DmaBufVunmap in
    act (SetVmapping 0)
  else
  let% vmapping := act GetVmapping in
  let% _ := if negb (vmapping =? 0) then unmap_pages else Ret tt in
  act UnpinPages.

Definition evdi_gem_vunmap : program unit :=
  let% _ := act LockVmap in
  let% _ := vunmap_locked in
  act UnlockVmap.

Definition evdi_gem_free_object : program unit :=
  let% _ := evdi_gem_vunmap in
  let% _ := if import_attach then act (Teardown PrimeGemDestroy) else Ret tt in
  let% _ := act (Teardown ReleasePages) in
  let% _ := if vma_offset_manager then act (Teardown FreeMmapOffset) else Ret tt in
  let% _ := act (Teardown DestroyVmapLock) in
  let% _ := act (Teardown DestroyPagesLock) in
  let% _ := act (Teardown ObjectRelease) in
  act (Teardown Kfree).

(** The call in [evdi_cursor_set], with its code. *)
Definition cursor_map (obj : bool) : program Z := if obj then evdi_gem_vmap else Ret 0.

(** The call in [evdi_painter_grabpix_ioctl], and what it leads to. *)
Definition grabpix_map : program Z :=
  let% ret := evdi_gem_vmap in
  if negb (ret =? 0) then Ret (- EFAULT) else
  let% _ := act CopyOut in
  Ret 0.
End patched.

(** ** The functions as they were *)

Section unpatched.
Context `{EvdiBuild}.

Definition unpatched_gem_vmap : program Z :=
  if imported then
    if map_struct then
      let% (ret, vaddr, is_iomem) := act DmaBufVmapInto in
      if negb (ret =? 0) then Ret (- ENOMEM) else
      let% _ := act (SetVmapping vaddr) in
      let% _ := act (SetIomem is_iomem) in
      Ret 0
    else
      let% vaddr := act DmaBufVmap in
      let% _ := act (SetVmapping vaddr) in
      let% vmapping := act GetVmapping in
      if vmapping =? 0 then Ret (- ENOMEM) else Ret 0
  else
  let% ret := act PinPages in
  if negb (ret =? 0) then Ret ret else
  let% vaddr := act MapPages in
  let% _ := act (SetVmapping vaddr) in
  let% vmapping := act GetVmapping in
  if vmapping =? 0 then Ret (- ENOMEM) else Ret 0.

Definition unpatched_gem_vunmap : program unit :=
  if imported then
    let% _ := if map_struct then unmap_import_struct else act DmaBufVunmap in
    act (SetVmapping 0)
  else
  let% vmapping := act GetVmapping in
  let% _ := if negb (vmapping =? 0) then unmap_pages else Ret tt in
  act UnpinPages.

Definition unpatched_free_object : program unit :=
  let% vmapping := act GetVmapping in
  let% _ := if negb (vmapping =? 0) then unpatched_gem_vunmap else Ret tt in
  let% _ := if import_attach then act (Teardown PrimeGemDestroy) else Ret tt in
  let% _ := act (Teardown ReleasePages) in
  let% _ := if vma_offset_manager then act (Teardown FreeMmapOffset) else Ret tt in
  let% _ := act (Teardown DestroyPagesLock) in
  let% _ := act (Teardown ObjectRelease) in
  act (Teardown Kfree).

Definition unpatched_cursor_map (obj : bool) : program Z :=
  if obj then
    let% vmapping := act GetVmapping in
    if vmapping =? 0 then unpatched_gem_vmap else Ret 0
  else Ret 0.

Definition unpatched_grabpix_map : program Z :=
  let% vmapping := act GetVmapping in
  let% err :=
    if vmapping =? 0 then
      let% ret := unpatched_gem_vmap in
      if ret =? - ENOMEM then Ret (- EFAULT) else
      let% vmapping := act GetVmapping in
      if vmapping =? 0 then Ret (- EFAULT) else Ret 0
    else Ret 0 in
  if negb (err =? 0) then Ret err else
  let% _ := act CopyOut in
  Ret 0.
End unpatched.

(** ** Users of the object *)

(** A thread that makes its calls and drops its reference. *)
Definition user (call : request -> program Z) (free : program unit) (calls : list request)
    : program (option Empty_set) :=
  let% _ := prog_each calls (fun c => let% _ := call c in Ret tt) in
  let% last := act ObjectPut in
  let% _ := if last : bool then free else Ret tt in
  Ret None.

Definition map_call `{EvdiBuild} (c : request) : program Z :=
  match c with CursorSet obj => cursor_map obj | Grabpix => grabpix_map end.

Definition unpatched_call `{EvdiBuild} (c : request) : program Z :=
  match c with CursorSet obj => unpatched_cursor_map obj | Grabpix => unpatched_grabpix_map end.

(** ** The meaning of the operations *)

(** What the allocators answer at a time: an error or an address, which is not [NULL]. *)
Record environment := {
  env_dma_vmap : nat -> positive + positive;
  env_iomem : nat -> bool;
  env_pin : nat -> option positive;
  env_vmap : nat -> option positive;
}.

(** The object, and what it holds of the dma-buf and of its pages. *)
Record state := {
  vmap_lock : option nat;
  vmapping : Z;
  vmap_is_iomem : bool;
  vmapping_counter : Z;        (** of the dma-buf *)
  vmap_ptr : Z;                (** of the dma-buf *)
  pages_pin_count : Z;
  page_maps : Z;               (** mappings of the pages in the kernel *)
  references : gset nat;       (** the threads that hold one *)
  freeing : option nat;        (** the thread that dropped the last one *)
  freed : bool;
  clock : nat;
  bug : bool;
}.

Definition set_lock (l : option nat) (s : state) : state :=
  {| vmap_lock := l; vmapping := vmapping s; vmap_is_iomem := vmap_is_iomem s;
     vmapping_counter := vmapping_counter s; vmap_ptr := vmap_ptr s;
     pages_pin_count := pages_pin_count s; page_maps := page_maps s; references := references s;
     freeing := freeing s; freed := freed s; clock := clock s; bug := bug s |}.

Definition set_vmapping (v : Z) (s : state) : state :=
  {| vmap_lock := vmap_lock s; vmapping := v; vmap_is_iomem := vmap_is_iomem s;
     vmapping_counter := vmapping_counter s; vmap_ptr := vmap_ptr s;
     pages_pin_count := pages_pin_count s; page_maps := page_maps s; references := references s;
     freeing := freeing s; freed := freed s; clock := clock s; bug := bug s |}.

Definition set_iomem (b : bool) (s : state) : state :=
  {| vmap_lock := vmap_lock s; vmapping := vmapping s; vmap_is_iomem := b;
     vmapping_counter := vmapping_counter s; vmap_ptr := vmap_ptr s;
     pages_pin_count := pages_pin_count s; page_maps := page_maps s; references := references s;
     freeing := freeing s; freed := freed s; clock := clock s; bug := bug s |}.

Definition set_dma (counter ptr : Z) (s : state) : state :=
  {| vmap_lock := vmap_lock s; vmapping := vmapping s; vmap_is_iomem := vmap_is_iomem s;
     vmapping_counter := counter; vmap_ptr := ptr;
     pages_pin_count := pages_pin_count s; page_maps := page_maps s; references := references s;
     freeing := freeing s; freed := freed s; clock := clock s; bug := bug s |}.

Definition set_pages (pins maps : Z) (s : state) : state :=
  {| vmap_lock := vmap_lock s; vmapping := vmapping s; vmap_is_iomem := vmap_is_iomem s;
     vmapping_counter := vmapping_counter s; vmap_ptr := vmap_ptr s;
     pages_pin_count := pins; page_maps := maps; references := references s;
     freeing := freeing s; freed := freed s; clock := clock s; bug := bug s |}.

Definition set_references (r : gset nat) (f : option nat) (s : state) : state :=
  {| vmap_lock := vmap_lock s; vmapping := vmapping s; vmap_is_iomem := vmap_is_iomem s;
     vmapping_counter := vmapping_counter s; vmap_ptr := vmap_ptr s;
     pages_pin_count := pages_pin_count s; page_maps := page_maps s; references := r;
     freeing := f; freed := freed s; clock := clock s; bug := bug s |}.

Definition set_freed (s : state) : state :=
  {| vmap_lock := vmap_lock s; vmapping := vmapping s; vmap_is_iomem := vmap_is_iomem s;
     vmapping_counter := vmapping_counter s; vmap_ptr := vmap_ptr s;
     pages_pin_count := pages_pin_count s; page_maps := page_maps s; references := references s;
     freeing := freeing s; freed := true; clock := clock s; bug := bug s |}.

Definition tick (s : state) : state :=
  {| vmap_lock := vmap_lock s; vmapping := vmapping s; vmap_is_iomem := vmap_is_iomem s;
     vmapping_counter := vmapping_counter s; vmap_ptr := vmap_ptr s;
     pages_pin_count := pages_pin_count s; page_maps := page_maps s; references := references s;
     freeing := freeing s; freed := freed s; clock := S (clock s); bug := bug s |}.

Definition set_bug (s : state) : state :=
  {| vmap_lock := vmap_lock s; vmapping := vmapping s; vmap_is_iomem := vmap_is_iomem s;
     vmapping_counter := vmapping_counter s; vmap_ptr := vmap_ptr s;
     pages_pin_count := pages_pin_count s; page_maps := page_maps s; references := references s;
     freeing := freeing s; freed := freed s; clock := clock s; bug := true |}.

(** A thread may use the object while it holds a reference or frees it. *)
Definition alive (t : nat) (s : state) : Prop := t ∈ references s \/ freeing s = Some t.

#[export] Instance alive_dec t s : Decision (alive t s).
Proof. unfold alive. apply _. Defined.

(** What the kernel checks. *)
Definition permitted {R} (o : op R) (t : nat) (s : state) : bool :=
  match o with
  | UnlockVmap => bool_decide (vmap_lock s = Some t)
  | DmaBufVunmap => 0 <? vmapping_counter s
  | UnpinPages => 0 <? pages_pin_count s
  | UnmapPages v => (0 <? page_maps s) && negb (v =? 0)
  | CopyOut => negb (vmapping s =? 0)
  | ObjectPut => bool_decide (t ∈ references s)
  | Teardown PrimeGemDestroy => vmapping_counter s =? 0
  | Teardown ReleasePages => (pages_pin_count s =? 0) && (page_maps s =? 0)
  | Teardown (DestroyVmapLock | Kfree) => bool_decide (vmap_lock s = None)
  | _ => true
  end.

Definition allowed {R} (o : op R) (t : nat) (s : state) : bool :=
  negb (freed s) && bool_decide (alive t s) && permitted o t s.

Section semantics.
Context (env : environment).

(** [dma_buf_vmap]: a buffer that is mapped is shared, its counter grows. *)
Definition dma_vmap (s : state) : state * (Z * Z) :=
  if 0 <? vmapping_counter s
  then (set_dma (vmapping_counter s + 1) (vmap_ptr s) s, (0, vmap_ptr s))
  else match env_dma_vmap env (clock s) with
       | inl e => (s, (Z.neg e, 0))
       | inr a => (set_dma 1 (Z.pos a) s, (0, Z.pos a))
       end.

(** An operation, or nothing while it waits for the lock. *)
Definition effect {R} (o : op R) (t : nat) (s : state) : option (state * R) :=
  match o in op R return option (state * R) with
  | LockVmap => if vmap_lock s is Some _ then None else Some (set_lock (Some t) s, tt)
  | UnlockVmap => Some (set_lock None s, tt)
  | GetVmapping => Some (s, vmapping s)
  | SetVmapping v => Some (set_vmapping v s, tt)
  | SetIomem b => Some (set_iomem b s, tt)
  | DmaBufVmapInto =>
      let '(s, (ret, vaddr)) := dma_vmap s in
      Some (s, (ret, vaddr, env_iomem env (clock s)))
  | DmaBufVmap => let '(s, (_, vaddr)) := dma_vmap s in Some (s, vaddr)
  | DmaBufVunmap =>
      let n := vmapping_counter s - 1 in
      Some (set_dma n (if n =? 0 then 0 else vmap_ptr s) s, tt)
  | PinPages =>
      match env_pin env (clock s) with
      | Some e => Some (s, Z.neg e)
      | None => Some (set_pages (pages_pin_count s + 1) (page_maps s) s, 0)
      end
  | UnpinPages => Some (set_pages (pages_pin_count s - 1) (page_maps s) s, tt)
  | MapPages =>
      match env_vmap env (clock s) with
      | Some a => Some (set_pages (pages_pin_count s) (page_maps s + 1) s, Z.pos a)
      | None => Some (s, 0)
      end
  | UnmapPages _ => Some (set_pages (pages_pin_count s) (page_maps s - 1) s, tt)
  | CopyOut => Some (s, tt)
  | ObjectPut =>
      let rest := references s ∖ {[t]} in
      if decide (rest = ∅) then Some (set_references rest (Some t) s, true)
      else Some (set_references rest (freeing s) s, false)
  | Teardown Kfree => Some (set_freed s, tt)
  | Teardown _ => Some (s, tt)
  end.

Definition perform (R : Type) (o : op R) (t : nat) (s : state) : option (state * R) :=
  if bug s then None else effect o t (tick (if allowed o t s then s else set_bug s)).
End semantics.

(** A new object, with a reference for each thread. *)
Definition new_object (n : nat) : state :=
  {| vmap_lock := None; vmapping := 0; vmap_is_iomem := false; vmapping_counter := 0; vmap_ptr := 0;
     pages_pin_count := 0; page_maps := 0; references := set_seq 0 n; freeing := None;
     freed := false; clock := 0; bug := false |}.

(** The users are straight-line code: no block follows another. *)
Definition no_code (t : nat) (l : Empty_set) : program (option Empty_set) := match l with end.

Definition object_start `{EvdiBuild} (calls : list (list request)) : conf state Empty_set :=
  {| shared := new_object (length calls); threads := map (user map_call evdi_gem_free_object) calls |}.

Definition object_after `{EvdiBuild} (env : environment) (calls : list (list request))
    (schedule : list nat) : conf state Empty_set :=
  trun (perform env) no_code (object_start calls) schedule.

Definition unpatched_after `{EvdiBuild} (env : environment) (calls : list (list request))
    (schedule : list nat) : conf state Empty_set :=
  trun (perform env) no_code
    {| shared := new_object (length calls);
       threads := map (user unpatched_call unpatched_free_object) calls |} schedule.

(** ** Examples *)

(** An imported buffer on a current kernel, and a buffer of the module's own on an old
    one. *)
#[local] Instance imported_build : EvdiBuild := {|
  map_struct := true; imported := true; import_attach := true; vma_offset_manager := true;
  unmap_import_struct := act DmaBufVunmap;
  unmap_pages := let% v := act GetVmapping in let% _ := act (UnmapPages v) in act (SetVmapping 0) |}.

#[export] Instance imported_build_ok : EvdiBuildOk (H := imported_build).
Proof. done. Defined.

Definition local_build : EvdiBuild := {|
  map_struct := false; imported := false; import_attach := false; vma_offset_manager := true;
  unmap_import_struct := act DmaBufVunmap;
  unmap_pages := let% v := act GetVmapping in let% _ := act (UnmapPages v) in act (SetVmapping 0) |}.

Definition sample_environment : environment :=
  {| env_dma_vmap := fun _ => inr 4096%positive; env_iomem := fun _ => false;
     env_pin := fun _ => None; env_vmap := fun _ => None |}.

(** The race of docs/kernel-panic-2026-09-02.md: two GRABPIX calls both see no mapping,
    both map the dma-buf; the one unmapping of the last user leaves the counter at 1,
    which the dma-buf finds at its release. *)
Example unpatched_race :
  let schedule := [0; 1; 0; 1]%nat ++ replicate 10 0%nat ++ replicate 14 1%nat in
  let s := shared (unpatched_after sample_environment [[Grabpix]; [Grabpix]] schedule) in
  bug s = true /\ vmapping_counter s = 1 /\ vmapping s = 0.
Proof. vm_compute. by split_and!. Qed.

(** A mapping of the pages that fails leaves them pinned, with a single user. *)
Example unpatched_leak :
  let s := shared (unpatched_after (H := local_build) sample_environment [[CursorSet true]] (replicate 20 0%nat)) in
  bug s = true /\ pages_pin_count s = 1.
Proof. vm_compute. by split_and!. Qed.

(** The patched code under the same schedules. *)
Example patched_same_schedule :
  let schedule := [0; 1; 0; 1]%nat ++ replicate 10 0%nat ++ replicate 30 1%nat in
  let s := shared (object_after sample_environment [[Grabpix]; [Grabpix]] schedule) in
  bug s = false /\ freed s = true /\ vmapping_counter s = 0.
Proof. vm_compute. by split_and!. Qed.

Example patched_no_leak :
  let s := shared (object_after (H := local_build) sample_environment [[CursorSet true]] (replicate 30 0%nat)) in
  bug s = false /\ freed s = true /\ pages_pin_count s = 0.
Proof. vm_compute. by split_and!. Qed.
