(* ===== verification/VmapSafety.v ===== *)
(** * VmapSafety: one mapping, shared and released once

    On [Vmap], for any number of users, any calls and any interleaving: the kernel's
    checks never fire, the persistent mapping and the references it stands for agree,
    nothing is left when the object goes, and it goes. *)

From stdpp Require Import gmap well_founded.
From S2P Require Import Prelude Threads Vmap.

Open Scope Z_scope.

#[local] Abbreviation program := (prog op).

(** ** Invariant and interference *)

(** The mapping and what it holds. *)
Record accounts `{EvdiBuild} (v counter pins maps : Z) : Prop := {
  ac_counter : counter = if imported && negb (v =? 0) then 1 else 0;
  ac_pins : pins = if negb imported && negb (v =? 0) then 1 else 0;
  ac_maps : maps = pins;
}.

Definition settled `{EvdiBuild} (s : state) : Prop :=
  accounts (vmapping s) (vmapping_counter s) (pages_pin_count s) (page_maps s).

Section safety.
Context `{EvdiBuild} (env : environment) (n : nat).

Record vmap_inv (s : state) : Prop := {
  vi_fine : bug s = false;
  vi_lock : forall t, vmap_lock s = Some t -> alive t s;
  vi_settled : vmap_lock s = None -> settled s;
  vi_references : references s = ∅ -> is_Some (freeing s);
  vi_bound : forall t, alive t s -> (t < n)%nat;
  vi_freeing : forall t, freeing s = Some t -> references s = ∅;
  vi_freed : freed s = true -> is_Some (freeing s) /\ vmap_lock s = None /\ vmapping s = 0;
}.

(** What thread [t] keeps across the steps of the others. *)
Record vmap_rely (t : nat) (s s' : state) : Prop := {
  vr_references : t ∈ references s' <-> t ∈ references s;
  vr_freeing : freeing s' = Some t <-> freeing s = Some t;
  vr_lock : vmap_lock s' = Some t <-> vmap_lock s = Some t;
  vr_locked : vmap_lock s = Some t ->
    vmapping s' = vmapping s /\ vmapping_counter s' = vmapping_counter s /\
    pages_pin_count s' = pages_pin_count s /\ page_maps s' = page_maps s;
  vr_mapped : t ∈ references s -> vmapping s <> 0 -> vmapping s' <> 0;
  vr_alone : freeing s = Some t -> s' = s;
}.

#[export] Instance vmap_rely_preorder t : PreOrder (vmap_rely t).
Proof.
  split.
  - intros s. constructor; try done; intros; by split_and!.
  - intros a b c [A1 A2 A3 A4 A5 A6] [B1 B2 B3 B4 B5 B6]. constructor.
    + by rewrite B1.
    + by rewrite B2.
    + by rewrite B3.
    + intros Ha. destruct (A4 Ha) as (? & ? & ? & ?). destruct B4 as (? & ? & ? & ?); [by apply A3|].
      split_and!; congruence.
    + intros ??. apply B5; [by apply A1|by apply A5].
    + intros Ha. rewrite B6; [by apply A6|]. by apply A2.
Qed.

(** What an operation needs, besides being allowed. *)
Definition extra {R} (o : op R) (t : nat) (s : state) : Prop :=
  match o with
  | LockVmap => vmap_lock s <> Some t
  | UnlockVmap => settled s
  | SetVmapping v => vmap_lock s = Some t /\ (v = 0 -> vmapping s = 0 \/ freeing s = Some t)
  | DmaBufVmapInto | DmaBufVmap | DmaBufVunmap | PinPages | UnpinPages | MapPages | UnmapPages _ =>
      vmap_lock s = Some t
  | ObjectPut => vmap_lock s <> Some t
  | Teardown Kfree => freeing s = Some t /\ vmapping s = 0
  | _ => True
  end.

Definition vmap_pre (R : Type) (o : op R) (t : nat) (s : state) : Prop :=
  allowed o t s = true /\ extra o t s.

Lemma vmap_perform_eq {R} (o : op R) t s :
  vmap_inv s -> vmap_pre R o t s -> perform env R o t s = effect env o t (tick s).
Proof. intros Hi [Ha _]. unfold perform. by rewrite (vi_fine _ Hi), Ha. Qed.

Lemma allowed_alive {R} (o : op R) t s :
  allowed o t s = true -> freed s = false /\ alive t s /\ permitted o t s = true.
Proof.
  unfold allowed. intros Ha. apply andb_true_iff in Ha as [Ha Hp]. apply andb_true_iff in Ha as [Hf Ha].
  apply negb_true_iff in Hf. by apply bool_decide_eq_true in Ha.
Qed.

(** Two threads that may use the object both hold references. *)
Lemma both_alive t u s : vmap_inv s -> alive t s -> alive u s -> t <> u -> freeing s = None /\ t ∈ references s.
Proof.
  intros Hi Ht Hu Hne. destruct (freeing s) as [w|] eqn:Hf.
  - pose proof (vi_freeing _ Hi w Hf) as He. unfold alive in *. rewrite He, Hf in *.
    destruct Ht as [?|?]; [set_solver|]. destruct Hu as [?|?]; [set_solver|]. congruence.
  - split; [done|]. destruct Ht as [?|?]; [done|congruence].
Qed.

(** An operation under the lock changes nothing that others look at. *)
Lemma locked_ok t s s' :
  vmap_inv s -> vmap_lock s = Some t ->
  vmap_lock s' = vmap_lock s -> references s' = references s -> freeing s' = freeing s ->
  freed s' = freed s -> bug s' = bug s ->
  (vmapping s <> 0 -> vmapping s' = 0 -> freeing s = Some t) ->
  vmap_inv s' /\ forall u, u <> t -> vmap_rely u s s'.
Proof.
  intros Hi Hl El Er Ef Efr Eb Hv. split.
  - destruct Hi. unfold alive in *. constructor; unfold alive; rewrite ?El, ?Er, ?Ef, ?Efr, ?Eb; try done.
    + by rewrite Hl.
    + intros Hfr. destruct (vi_freed0 Hfr) as (_ & ? & _). congruence.
  - intros u Hu. pose proof (vi_lock _ Hi _ Hl) as Ha. constructor; rewrite ?El, ?Er, ?Ef; try done.
    + intros Hl2. congruence.
    + intros Hr Hv1 Hv2. pose proof (vi_freeing _ Hi t (Hv Hv1 Hv2)). set_solver.
    + intros Hfr. destruct (both_alive t u s Hi Ha (or_intror Hfr)) as [? _]; [done|congruence].
Qed.

(** An operation that changes nothing but the time. *)
Lemma idle_ok t s b :
  vmap_inv s -> alive t s ->
  vmap_inv (set_iomem b (tick s)) /\ vmap_inv (tick s) /\
  forall u, u <> t -> vmap_rely u s (set_iomem b (tick s)) /\ vmap_rely u s (tick s).
Proof.
  intros Hi Ha. split_and!; [by destruct Hi; constructor..|].
  intros u Hu. assert (freeing s <> Some u).
  { intros Hf. destruct (both_alive t u s Hi Ha (or_intror Hf)); [done|congruence]. }
  split; constructor; try done; intros; by split_and!.
Qed.

Lemma lock_ok t s :
  vmap_inv s -> alive t s -> vmap_lock s = None -> freed s = false ->
  vmap_inv (set_lock (Some t) (tick s)) /\ forall u, u <> t -> vmap_rely u s (set_lock (Some t) (tick s)).
Proof.
  intros Hi Ha Hl Hf. split.
  - destruct Hi. constructor; cbn; try done; [by intros u [= <-]|]. by rewrite Hf.
  - intros u Hu. constructor; cbn; try done; rewrite ?Hl; try done.
    + split; [|done]. by intros [= <-].
    + intros Hfr. destruct (both_alive t u s Hi Ha (or_intror Hfr)); [done|congruence].
Qed.

Lemma unlock_ok t s :
  vmap_inv s -> vmap_lock s = Some t -> settled s ->
  vmap_inv (set_lock None (tick s)) /\ forall u, u <> t -> vmap_rely u s (set_lock None (tick s)).
Proof.
  intros Hi Hl Hs. pose proof (vi_lock _ Hi _ Hl) as Ha. split.
  - destruct Hi. constructor; cbn; try done. intros Hf. destruct (vi_freed0 Hf) as (? & ? & ?). congruence.
  - intros u Hu. constructor; cbn; try done; rewrite ?Hl.
    + split; [done|congruence].
    + intros Hfr. destruct (both_alive t u s Hi Ha (or_intror Hfr)); [done|congruence].
Qed.

Lemma put_ok t s s' r :
  vmap_inv s -> t ∈ references s -> vmap_lock s <> Some t ->
  effect env ObjectPut t (tick s) = Some (s', r) ->
  vmap_inv s' /\ forall u, u <> t -> vmap_rely u s s'.
Proof.
  intros Hi Hr Hl E. assert (Hf : freeing s = None).
  { destruct (freeing s) as [w|] eqn:Hf; [|done]. pose proof (vi_freeing _ Hi w Hf). set_solver. }
  pose proof (vi_bound _ Hi t (or_introl Hr)) as Hb.
  cbn in E. destruct (decide _) as [He|He]; injection E as <- <-.
  all: split; [destruct Hi; constructor; unfold alive in *; cbn; try done|
    intros u Hu; constructor; cbn; rewrite ?Hf; try done; try set_solver].
  - intros u Hu. left. destruct (vi_lock0 u Hu) as [?|?]; [|congruence]. set_solver.
  - intros u [?|[= ->]]; [set_solver|done].
  - intros Hfr. by destruct (vi_freed0 Hfr) as ([? ?] & _); congruence.
  - intros u Hu. destruct (vi_lock0 u Hu) as [?|?]; [|congruence]. left. set_solver.
  - intros u [?|?]; [|congruence]. apply vi_bound0. left. set_solver.
  - intros w Hw. congruence.
Qed.

Lemma kfree_ok t s :
  vmap_inv s -> freeing s = Some t -> vmap_lock s = None -> vmapping s = 0 ->
  vmap_inv (set_freed (tick s)) /\ forall u, u <> t -> vmap_rely u s (set_freed (tick s)).
Proof.
  intros Hi Hf Hl Hv. split.
  - destruct Hi. constructor; cbn; try done.
  - intros u Hu. constructor; cbn; try done. intros Hf2. congruence.
Qed.

Lemma vmap_perform_ok {R} (o : op R) t s s' r :
  vmap_inv s -> vmap_pre R o t s -> perform env R o t s = Some (s', r) ->
  vmap_inv s' /\ forall u, u <> t -> vmap_rely u s s'.
Proof.
  intros Hi Hp. rewrite vmap_perform_eq by done. destruct Hp as [Ha Hx].
  apply allowed_alive in Ha as (Hfr & Ha & Hp). destruct (idle_ok t s false Hi Ha) as (_ & Hi1 & Hr1).
  assert (Hidle : vmap_inv (tick s) /\ forall u, u <> t -> vmap_rely u s (tick s)).
  { split; [done|]. intros u Hu. by apply Hr1. }
  destruct o; cbn [effect extra permitted] in *; unfold dma_vmap; cbn [tick vmap_lock];
    try (intros [= <- <-]; exact Hidle);
    try (by repeat (case_match; simplify_eq); intros; simplify_eq; first [exact Hidle|by apply (locked_ok t)]).
  - destruct (vmap_lock s) eqn:Hl; [done|]. intros [= <- <-]. by apply lock_ok.
  - intros [= <- <-]. apply unlock_ok; [done| |done]. by apply bool_decide_eq_true in Hp.
  - intros [= <- <-]. destruct Hx as [Hl Hv]. apply (locked_ok t); try done. cbn. intros Hv1 Hv2.
    by destruct (Hv Hv2).
  - intros [= <- <-]. destruct (idle_ok t s b Hi Ha) as (Hi2 & _ & Hr2). split; [done|]. intros u Hu. by apply Hr2.
  - intros E. eapply put_ok; [done| |done|exact E]. by apply bool_decide_eq_true in Hp.
  - destruct w; try (intros [= <- <-]; exact Hidle). intros [= <- <-]. apply bool_decide_eq_true in Hp.
    destruct Hx. by apply kfree_ok.
Qed.

(** ** Every function is safe *)

Definition vsafe {A} (t : nat) (p : program A) (s : state) (Q : A -> state -> Prop) : Prop :=
  safe (perform env) vmap_inv vmap_rely vmap_pre t p s Q.

Definition stable (t : nat) (P : state -> Prop) : Prop := forall s s', P s -> vmap_rely t s s' -> P s'.

Lemma vsafe_step {A R} t (P : state -> Prop) (o : op R) (k : R -> program A) s Q :
  stable t P -> P s ->
  (forall s', P s' -> vmap_inv s' -> freed s' = false /\ alive t s' /\ permitted o t s' = true /\ extra o t s') ->
  (forall s' s'' r, P s' -> vmap_inv s' -> effect env o t (tick s') = Some (s'', r) -> vmap_inv s'' ->
     vsafe t (k r) s'' Q) ->
  vsafe t (Do o k) s Q.
Proof.
  intros HP Hs Hpre Hk.
  assert (Hp : forall s', P s' -> vmap_inv s' -> vmap_pre R o t s').
  { intros s' Hs' Hi. destruct (Hpre s' Hs' Hi) as (Hf & Ha & Hp & Hx). split; [|done].
    unfold allowed. by rewrite Hf, Hp, bool_decide_true. }
  apply safe_do.
  - intros s1 s2 r Hi Hs1 E. by eapply vmap_perform_ok.
  - intros s' Hr Hi. apply Hp; [by eapply HP|done].
  - intros s' s'' r Hr Hi E Hi'. rewrite vmap_perform_eq in E; [|done|apply Hp; [by eapply HP|done]].
    by apply (Hk s' s'' r); [eapply HP| | |].
Qed.

Lemma vsafe_ret {A} t (P : state -> Prop) (a : A) s (Q : A -> state -> Prop) :
  stable t P -> P s -> (forall s', P s' -> vmap_inv s' -> Q a s') -> vsafe t (Ret a) s Q.
Proof. intros HP Hs HQ s' Hr Hi. apply HQ; [by eapply HP|done]. Qed.

Lemma vsafe_seq {A B} t (p : program A) (k : A -> program B) s P Q :
  vsafe t p s P -> (forall a s', vmap_inv s' -> P a s' -> vsafe t (k a) s' Q) ->
  vsafe t (prog_bind p k) s Q.
Proof.
  intros Hp Hk. apply safe_bind; [apply _|]. eapply safe_mono; [exact Hp|]. intros; by apply Hk.
Qed.

(** A thread holds a reference, or it is the last. *)
Definition entitled (last : bool) (t : nat) (s : state) : Prop :=
  if last then freeing s = Some t else t ∈ references s.

Lemma entitled_stable last t : stable t (entitled last t).
Proof. intros s s' Hs Hr. destruct last; cbn in *; [by apply (vr_freeing _ _ _ Hr)|by apply (vr_references _ _ _ Hr)]. Qed.

Lemma entitled_alive last t s : entitled last t s -> alive t s.
Proof. destruct last; [by right|by left]. Qed.

(** Under the lock a thread knows the fields. *)
Record inside (last : bool) (t : nat) (v counter pins maps : Z) (s : state) : Prop := {
  in_entitled : entitled last t s;
  in_lock : vmap_lock s = Some t;
  in_vmapping : vmapping s = v;
  in_counter : vmapping_counter s = counter;
  in_pins : pages_pin_count s = pins;
  in_maps : page_maps s = maps;
}.

Lemma inside_stable last t v counter pins maps : stable t (inside last t v counter pins maps).
Proof.
  intros s s' [He Hl Hv Hc Hp Hm] Hr. destruct (vr_locked _ _ _ Hr Hl) as (? & ? & ? & ?).
  constructor; try congruence; [by eapply entitled_stable|by apply (vr_lock _ _ _ Hr)].
Qed.

Lemma vsafe_inside {A R} last t v counter pins maps (o : op R) (k : R -> program A) s Q :
  inside last t v counter pins maps s ->
  (forall s', inside last t v counter pins maps s' -> permitted o t s' = true /\ extra o t s') ->
  (forall s' s'' r, inside last t v counter pins maps s' -> effect env o t (tick s') = Some (s'', r) ->
     vsafe t (k r) s'' Q) ->
  vsafe t (Do o k) s Q.
Proof.
  intros Hs Hpre Hk. eapply vsafe_step; [apply inside_stable|exact Hs|..].
  - intros s' Hs' Hi. destruct (Hpre s' Hs'). split_and!; [|by eapply entitled_alive, in_entitled|done..].
    destruct (freed s') eqn:Hf; [|done]. destruct (vi_freed _ Hi Hf) as (_ & Hl & _).
    by rewrite (in_lock _ _ _ _ _ _ _ Hs') in Hl.
  - intros s' s'' r Hs' _ E _. by eapply Hk.
Qed.

(** Outside the lock: a user of the object, who may know that it is mapped, or the
    thread that frees it. *)
Record outside (t : nat) (mapped : bool) (s : state) : Prop := {
  ou_reference : t ∈ references s;
  ou_lock : vmap_lock s <> Some t;
  ou_mapped : mapped = true -> vmapping s <> 0;
}.

Lemma outside_stable t mapped : stable t (outside t mapped).
Proof.
  intros s s' [Hr Hl Hm] Hs. constructor.
  - by apply (vr_references _ _ _ Hs).
  - by rewrite (vr_lock _ _ _ Hs).
  - intros ?. apply (vr_mapped _ _ _ Hs); auto.
Qed.

Record closing (t : nat) (s : state) : Prop := {
  cl_freeing : freeing s = Some t;
  cl_lock : vmap_lock s = None;
  cl_freed : freed s = false;
}.

Lemma closing_stable t (P : state -> Prop) : stable t (fun s => closing t s /\ P s).
Proof. intros s s' [Hc HP] Hr. by rewrite (vr_alone _ _ _ Hr (cl_freeing _ _ Hc)). Qed.

(** A reference keeps the object. *)
Lemma referenced_not_freed t s : vmap_inv s -> t ∈ references s -> freed s = false /\ freeing s = None.
Proof.
  intros Hi Hr. assert (Hf : freeing s = None).
  { destruct (freeing s) as [w|] eqn:Hf; [|done]. pose proof (vi_freeing _ Hi w Hf). set_solver. }
  split; [|done]. destruct (freed s) eqn:E; [|done]. destruct (vi_freed _ Hi E) as ([? ?] & _). congruence.
Qed.

(** What a block under the lock leaves: the fields agree again, and the mapping is
    there if the block reports success. *)
Definition balanced (last : bool) (t : nat) (P : Z -> Prop) (s : state) : Prop :=
  exists v counter pins maps, inside last t v counter pins maps s /\ accounts v counter pins maps /\ P v.

Lemma balanced_stable last t P : stable t (balanced last t P).
Proof.
  intros s s' (v & c & p & m & Hin & Hac & HP) Hr. exists v, c, p, m. split_and!; [|done..].
  by eapply inside_stable.
Qed.

Lemma balanced_ret {A} last t (a : A) s (P : A -> Z -> Prop) v counter pins maps :
  inside last t v counter pins maps s -> accounts v counter pins maps -> P a v ->
  vsafe t (Ret a) s (fun a => balanced last t (P a)).
Proof.
  intros Hin Hac HP. eapply vsafe_ret; [apply (balanced_stable last t (P a))| |done].
  by exists v, counter, pins, maps.
Qed.

(** The lock is taken, with the fields in agreement. *)
Lemma lock_step {A} last t (k : unit -> program A) s Q (P : state -> Prop) :
  stable t P -> P s ->
  (forall s, P s -> vmap_inv s -> entitled last t s /\ vmap_lock s <> Some t /\ freed s = false) ->
  (forall s, balanced last t (fun _ => True) s -> vsafe t (k tt) s Q) ->
  vsafe t (Do LockVmap k) s Q.
Proof.
  intros HP Hs Hf Hk. eapply vsafe_step; [exact HP|exact Hs|..].
  - intros s' Hs' Hi. destruct (Hf s' Hs' Hi) as (He & Hl & Hfr). split_and!; [done| |done|done].
    by eapply entitled_alive.
  - intros s' s'' [] Hs' Hi E _. destruct (Hf s' Hs' Hi) as (He & _). cbn in E.
    destruct (vmap_lock s') eqn:Hl; [done|]. injection E as <-. apply Hk.
    exists (vmapping s'), (vmapping_counter s'), (pages_pin_count s'), (page_maps s').
    split_and!; [|by apply (vi_settled _ Hi)|done]. by constructor.
Qed.

(** *** The operations under the lock *)

Section locked.
Context {A : Type} (last : bool) (t : nat) (v counter pins maps : Z) (s : state).
Context (Q : A -> state -> Prop).
Context (here : inside last t v counter pins maps s).
#[local] Abbreviation within := (inside last t).

#[local] Ltac locked_step :=
  eapply vsafe_inside;
    [exact here|
     intros ? []; cbn; subst; split_and?; rewrite ?bool_decide_true by done; try done; try lia|
     let E := fresh "E" in
     intros ? ? ? [] E; cbn in E; unfold dma_vmap in E; cbn in E; subst; repeat case_match; simplify_eq; try (exfalso; lia)].

#[local] Ltac fields := constructor; cbn; first [done | lia].

Lemma in_get (k : Z -> program A) :
  (forall s, within v counter pins maps s -> vsafe t (k v) s Q) -> vsafe t (Do GetVmapping k) s Q.
Proof using here. intros Hk. locked_step. apply Hk. fields. Qed.

Lemma in_set w (k : unit -> program A) :
  (w = 0 -> v = 0 \/ last = true) ->
  (forall s, within w counter pins maps s -> vsafe t (k tt) s Q) -> vsafe t (Do (SetVmapping w) k) s Q.
Proof using here.
  intros Hw Hk. locked_step; [|apply Hk; fields].
  intros ->. destruct Hw as [?| ->]; [done|by left|by right].
Qed.

Lemma in_iomem b (k : unit -> program A) :
  (forall s, within v counter pins maps s -> vsafe t (k tt) s Q) -> vsafe t (Do (SetIomem b) k) s Q.
Proof using here. intros Hk. locked_step. apply Hk. fields. Qed.

Lemma in_dma_into (k : Z * Z * bool -> program A) :
  counter = 0 ->
  (forall e b s, within v 0 pins maps s -> vsafe t (k (Z.neg e, 0, b)) s Q) ->
  (forall a b s, within v 1 pins maps s -> vsafe t (k (0, Z.pos a, b)) s Q) ->
  vsafe t (Do DmaBufVmapInto k) s Q.
Proof using here. intros Hc Hfail Hok. locked_step; [apply Hfail|apply Hok]; fields. Qed.

Lemma in_dma (k : Z -> program A) :
  counter = 0 ->
  (forall s, within v 0 pins maps s -> vsafe t (k 0) s Q) ->
  (forall a s, within v 1 pins maps s -> vsafe t (k (Z.pos a)) s Q) ->
  vsafe t (Do DmaBufVmap k) s Q.
Proof using here. intros Hc Hfail Hok. locked_step; [apply Hfail|apply Hok]; fields. Qed.

Lemma in_dma_unmap (k : unit -> program A) :
  0 < counter ->
  (forall s, within v (counter - 1) pins maps s -> vsafe t (k tt) s Q) -> vsafe t (Do DmaBufVunmap k) s Q.
Proof using here. intros Hc Hk. locked_step; apply Hk; fields. Qed.

Lemma in_pin (k : Z -> program A) :
  (forall e s, within v counter pins maps s -> vsafe t (k (Z.neg e)) s Q) ->
  (forall s, within v counter (pins + 1) maps s -> vsafe t (k 0) s Q) ->
  vsafe t (Do PinPages k) s Q.
Proof using here. intros Hfail Hok. locked_step; [apply Hfail|apply Hok]; fields. Qed.

Lemma in_unpin (k : unit -> program A) :
  0 < pins ->
  (forall s, within v counter (pins - 1) maps s -> vsafe t (k tt) s Q) -> vsafe t (Do UnpinPages k) s Q.
Proof using here. intros Hp Hk. locked_step. apply Hk. fields. Qed.

Lemma in_map (k : Z -> program A) :
  (forall s, within v counter pins maps s -> vsafe t (k 0) s Q) ->
  (forall a s, within v counter pins (maps + 1) s -> vsafe t (k (Z.pos a)) s Q) ->
  vsafe t (Do MapPages k) s Q.
Proof using here. intros Hfail Hok. locked_step; [apply Hok|apply Hfail]; fields. Qed.

Lemma in_unmap w (k : unit -> program A) :
  0 < maps -> w <> 0 ->
  (forall s, within v counter pins (maps - 1) s -> vsafe t (k tt) s Q) -> vsafe t (Do (UnmapPages w) k) s Q.
Proof using here. intros Hm Hw Hk. locked_step. apply Hk. fields. Qed.
End locked.

(** *** The functions *)

(** The rule of an operation, from the fields that are known; the end of a block. *)
Tactic Notation "locked" uconstr(rule) :=
  match goal with
  | Hin : inside _ _ _ _ _ _ ?s |- vsafe _ _ ?s _ => eapply rule; [exact Hin|..]; clear s Hin
  end.

Ltac block_ends :=
  match goal with
  | Hi : imported = _ |- _ => eapply balanced_ret; [eassumption|constructor; by rewrite ?Hi|done]
  end.

Lemma vmap_locked_safe t s :
  balanced false t (fun _ => True) s ->
  vsafe t vmap_locked s (fun ret => balanced false t (fun v => ret = 0 -> v <> 0)).
Proof.
  intros (v & c & p & m & Hin & Hac & _). locked in_get. intros s Hin.
  destruct (Z.eqb_spec v 0) as [->|Hv]; cbn [negb]; [|by eapply balanced_ret].
  destruct Hac as [Hc Hp Hm]. rewrite andb_false_r in Hc, Hp. subst c p m.
  destruct imported eqn:Hi; [destruct map_struct|].
  - locked in_dma_into; [done|intros e b s Hin; block_ends|]. intros a b s Hin.
    locked in_set; [done|]. intros s Hin. locked in_iomem. intros s Hin. block_ends.
  - locked in_dma; [done|intros s Hin|intros a s Hin]; (locked in_set; [by auto|]); intros s Hin;
      locked in_get; intros s Hin; block_ends.
  - locked in_pin; [intros e s Hin; block_ends|]. intros s Hin.
    locked in_map; [intros s Hin|intros a s Hin]; (locked in_set; [by auto|]); intros s Hin;
      locked in_get; intros s Hin; [|block_ends].
    locked in_unpin; [done|]. intros s Hin. block_ends.
Qed.

(** The lock is released by a user, who keeps what it knows of the mapping. *)
Lemma unlock_user {A} t (b : bool) (k : unit -> program A) s Q P :
  balanced false t P s -> (b = true -> forall v, P v -> v <> 0) ->
  (forall s, outside t b s -> vsafe t (k tt) s Q) -> vsafe t (Do UnlockVmap k) s Q.
Proof.
  intros (v & c & p & m & Hin & Hac & HP) Hb Hk. eapply vsafe_inside; [exact Hin|..].
  - intros s' [? Hl <- <- <- <-]. cbn. by rewrite Hl, bool_decide_true.
  - intros s' s'' [] [] [= <-]. apply Hk. constructor; cbn; [done..|]. intros ->. subst. by apply Hb.
Qed.

Lemma evdi_gem_vmap_safe t mapped s :
  outside t mapped s -> vsafe t evdi_gem_vmap s (fun ret => outside t (ret =? 0)).
Proof.
  intros Hs. eapply (lock_step false); [apply outside_stable|exact Hs|..].
  { intros s' [] Hi. split_and!; [done..|]. by eapply referenced_not_freed. }
  clear s Hs. intros s Hs. eapply vsafe_seq; [by apply vmap_locked_safe|]. clear s Hs.
  intros ret s _ Hs. eapply (unlock_user t (ret =? 0)); [exact Hs|by intros ?%Z.eqb_eq v; auto|].
  clear s Hs. intros s Hs. by eapply vsafe_ret; [apply outside_stable|..].
Qed.

Lemma map_call_safe t c s : outside t false s -> vsafe t (map_call c) s (fun _ => outside t false).
Proof.
  intros Hs. assert (Hweak : forall b s, outside t b s -> outside t false s) by by intros b s1 [].
  destruct c as [[]|]; cbn [map_call cursor_map].
  - eapply safe_mono; [by eapply evdi_gem_vmap_safe|]. intros r s1 _. apply Hweak.
  - by eapply vsafe_ret; [apply outside_stable|..].
  - eapply vsafe_seq; [by eapply evdi_gem_vmap_safe|]. clear s Hs. intros ret s _ Hs. cbv beta in Hs.
    destruct (ret =? 0); cbn [negb].
    + eapply vsafe_step; [apply outside_stable|exact Hs|..].
      * intros s1 [Hr Hl Hv] Hi. split_and!; [by eapply referenced_not_freed|by left| |done].
        cbn. apply negb_true_iff, Z.eqb_neq. by apply Hv.
      * intros s1 s2 [] [Hr Hl Hv] _ [= <-] _. by apply (vsafe_ret t (outside t false)); [apply outside_stable|constructor|].
    + by eapply vsafe_ret; [apply outside_stable|..].
Qed.

Context (build_ok : EvdiBuildOk).

Lemma vunmap_locked_safe t s :
  balanced true t (fun _ => True) s ->
  vsafe t vunmap_locked s (fun _ => balanced true t (fun v => v = 0)).
Proof using build_ok.
  intros (v & c & p & m & Hin & Hac & _). unfold vunmap_locked.
  rewrite unmap_import_struct_ok, unmap_pages_ok. locked in_get. intros s Hin.
  destruct (Z.eqb_spec v 0) as [->|Hv]; cbn [negb]; [by eapply balanced_ret|].
  destruct Hac as [Hc Hp Hm]. rewrite (proj2 (Z.eqb_neq _ _) Hv) in Hc, Hp. cbn [negb] in Hc, Hp.
  destruct imported eqn:Hi; cbn in Hc, Hp; subst c p m.
  - assert (Hu : vsafe t (Do DmaBufVunmap (fun _ => act (SetVmapping 0))) s
      (fun _ => balanced true t (fun v => v = 0))).
    { locked in_dma_unmap; [done|]. intros s Hin. locked in_set; [by auto|]. intros s Hin. block_ends. }
    by destruct map_struct.
  - locked in_get. intros s Hin. rewrite (proj2 (Z.eqb_neq _ _) Hv). cbn [negb prog_bind act].
    locked in_get. intros s Hin. locked in_unmap; [done..|]. intros s Hin.
    locked in_set; [by auto|]. intros s Hin. locked in_unpin; [done|]. intros s Hin. block_ends.
Qed.

Lemma evdi_gem_vunmap_safe t s :
  closing t s -> vsafe t evdi_gem_vunmap s (fun _ s => closing t s /\ vmapping s = 0).
Proof using build_ok.
  intros Hs. eapply (lock_step true); [apply (closing_stable t (fun _ => True))|by split|..].
  { intros s' [[Hf Hl Hfr] _] _. split_and!; [done|by rewrite Hl|done]. }
  clear s Hs. intros s Hs. eapply vsafe_seq; [by apply vunmap_locked_safe|]. clear s Hs.
  intros [] s _ (v & c & p & m & Hin & Hac & ->). eapply vsafe_step; [apply inside_stable|exact Hin|..].
  - intros s' [Hf Hl Hv <- <- <-] Hi. split_and!; [|by right|cbn; by rewrite Hl, bool_decide_true|].
    2: { cbn. unfold settled. by rewrite Hv. }
    destruct (freed s') eqn:E; [|done]. destruct (vi_freed _ Hi E) as (_ & ? & _). congruence.
  - intros s' s'' [] [Hf Hl Hv _ _ _] Hi [= <-] _.
    eapply vsafe_ret; [apply (closing_stable t (fun s => vmapping s = 0))| |done].
    split; [|done]. constructor; cbn; [done..|].
    destruct (freed s') eqn:E; [|done]. destruct (vi_freed _ Hi E) as (_ & ? & _). congruence.
Qed.

(** What is left of the freeing, all with nothing mapped. *)
Lemma teardown_step {A} t w (k : unit -> program A) s Q :
  closing t s -> vmapping s = 0 -> w <> Kfree ->
  (forall s, closing t s -> vmapping s = 0 -> vsafe t (k tt) s Q) ->
  vsafe t (Do (Teardown w) k) s Q.
Proof.
  intros Hs Hv Hw Hk. eapply vsafe_step; [apply (closing_stable t (fun s => vmapping s = 0))|by split|..].
  - intros s' [[Hf Hl Hfr] Hv'] Hi. split_and!; [done|by right| |by destruct w].
    destruct (vi_settled _ Hi Hl) as [Hc Hp Hm]. rewrite Hv' in Hc, Hp. rewrite andb_false_r in Hc, Hp.
    destruct w; cbn; rewrite ?Hm, ?Hc, ?Hp, ?Hl; done.
  - intros s' s'' [] [[Hf Hl Hfr] Hv'] _ E _. assert (s'' = tick s') as ->; [|by apply Hk].
    by destruct w; try done; injection E as <-.
Qed.

Lemma evdi_gem_free_object_safe t s :
  closing t s -> vsafe t evdi_gem_free_object s (fun _ s => freeing s = Some t /\ freed s = true).
Proof using build_ok.
  intros Hs. eapply vsafe_seq; [by apply evdi_gem_vunmap_safe|]. clear s Hs. intros [] s _ [Hs Hv].
  assert (Hend : forall s, closing t s -> vmapping s = 0 ->
    vsafe t (act (Teardown Kfree)) s (fun _ s => freeing s = Some t /\ freed s = true)).
  { clear s Hs Hv. intros s Hs Hv.
    eapply vsafe_step; [apply (closing_stable t (fun s => vmapping s = 0))|by split|..].
    - intros s' [[Hf Hl Hfr] Hv'] _. split; [done|]. split; [by right|]. split; [cbn; by rewrite Hl|done].
    - intros s' s'' [] [[Hf Hl Hfr] Hv'] _ [= <-] _.
      eapply (vsafe_ret t (fun s => freeing s = Some t /\ freed s = true)); [|done|done].
      intros s1 s2 [Hf1 Hfr1] Hr. by rewrite (vr_alone _ _ _ Hr Hf1). }
  destruct import_attach, vma_offset_manager;
    repeat (apply teardown_step; [done..|]; clear s Hs Hv; intros s Hs Hv); by apply Hend.
Qed.

(** *** A user of the object *)

Definition finished (t : nat) (s : state) : Prop :=
  (t ∉ references s) /\ vmap_lock s <> Some t /\ (freeing s = Some t -> freed s = true).

Lemma finished_stable t : stable t (finished t).
Proof.
  intros s s' (Hr & Hl & Hf) Hs. unfold finished.
  rewrite (vr_references _ _ _ Hs), (vr_lock _ _ _ Hs), (vr_freeing _ _ _ Hs). split_and!; [done..|].
  intros Hfr. rewrite (vr_alone _ _ _ Hs Hfr). by apply Hf.
Qed.

Lemma user_safe t calls s :
  outside t false s -> vmap_inv s ->
  vsafe t (user map_call evdi_gem_free_object calls) s (exit_of (fun _ (l : Empty_set) _ => False) finished t).
Proof using build_ok.
  intros Hs Hi. eapply vsafe_seq.
  { apply (safe_each _ _ _ _ t _ _ _ (outside t false)); [| |done|done].
    - intros c s1 _ Hs1 _. eapply vsafe_seq; [by apply map_call_safe|]. clear s Hs Hi s1 Hs1. intros r s _ Hs.
      by apply (vsafe_ret t (outside t false)); [apply outside_stable|..].
    - intros s1 s2 Hs1 Hr _. by eapply outside_stable. }
  clear s Hs Hi. intros r0 s _ Hs. eapply vsafe_step; [apply outside_stable|exact Hs|..].
  - intros s1 [Hr Hl _] Hi. split_and!; [by eapply referenced_not_freed|by left| |done].
    by apply bool_decide_eq_true.
  - intros s1 s2 last [Hr Hl _] Hi E Hi2. destruct (referenced_not_freed t s1 Hi Hr) as [Hfr Hf].
    cbn in E. destruct (decide _) as [He|He]; injection E as <- <-.
    + eapply vsafe_seq; [apply evdi_gem_free_object_safe|].
      * constructor; [done| |done]. cbn. destruct (vmap_lock s1) as [u|] eqn:El; [|done].
        destruct (vi_lock _ Hi2 u El) as [Hu|Hu]; cbn in Hu; [set_solver|]. congruence.
      * intros [] s2 Hi3 [Hf3 Hfr3]. eapply vsafe_ret; [apply finished_stable| |done].
        pose proof (vi_freeing _ Hi3 _ Hf3). destruct (vi_freed _ Hi3 Hfr3) as (_ & ? & _).
        split_and!; [set_solver|congruence|done].
    + eapply vsafe_ret; [apply finished_stable| |done]. unfold finished. cbn. rewrite Hf. split_and!; [set_solver|done|done].
Qed.
End safety.

(** ** All users *)

Section users.
Context `{EvdiBuild} (env : environment) (calls : list (list request)).
Context (some_user : calls <> []).

#[local] Abbreviation n := (length calls).
#[local] Abbreviation ok :=
  (conf_ok (perform env) (vmap_inv n) vmap_rely vmap_pre (fun _ (l : Empty_set) _ => False) finished).

Lemma new_object_inv : vmap_inv n (new_object n).
Proof using some_user.
  assert (n <> 0%nat) by by destruct calls.
  constructor; cbn; try done.
  - constructor; cbn; by rewrite ?andb_false_r.
  - intros He. assert (0%nat ∈ (set_seq 0 n : gset nat)) by (apply elem_of_set_seq; lia). set_solver.
  - intros t [Ht|?]; [|done]. apply elem_of_set_seq in Ht. lia.
Qed.

Lemma effect_moves {R} (o : op R) t s :
  (if o is LockVmap then vmap_lock s = None else True) -> is_Some (effect env o t s).
Proof.
  destruct o; try done; cbn [effect]; unfold dma_vmap; try (intros ->);
    repeat match goal with |- context [match ?x with _ => _ end] => destruct x end; by eexists.
Qed.

(** Somebody can move as long as the object is there. *)
Lemma some_user_moves c :
  ok c -> length (threads c) = n -> freed (shared c) = false ->
  exists t, is_Some (tstep (perform env) no_code c t).
Proof using some_user.
  intros [Hi Hc] Hlen Hfr.
  assert (Hmove : forall t, alive t (shared c) ->
    (vmap_lock (shared c) = None \/ vmap_lock (shared c) = Some t) -> is_Some (tstep (perform env) no_code c t)).
  { intros t Ha Hl. pose proof (vi_bound _ _ Hi t Ha) as Hb. rewrite <- Hlen in Hb.
    unfold tstep. destruct (threads c !! t) as [p|] eqn:Hp.
    2: { assert (length (threads c) <= t)%nat by exact (proj1 (lookup_ge_None _ _) Hp). lia. }
    specialize (Hc t p Hp).
    destruct p as [[[]|]|R o k]; cbn in Hc; specialize (Hc (shared c) ltac:(reflexivity) Hi).
    - destruct Hc as (Hr & _ & Hf). destruct Ha as [?|Ha]; [done|]. by rewrite (Hf Ha) in Hfr.
    - destruct Hc as [Hpre _]. rewrite (vmap_perform_eq env n) by done.
      assert (is_Some (effect env o t (tick (shared c)))) as [[s' r] ->]; [|by eexists].
      apply effect_moves. destruct o; try done. destruct Hl as [?|Hl]; [done|]. by destruct Hpre as [_ ?]. }
  destruct (vmap_lock (shared c)) as [t|] eqn:Hl.
  { exists t. apply Hmove; [by apply (vi_lock _ _ Hi)|by right]. }
  destruct (decide (references (shared c) = ∅)) as [He|He].
  - destruct (vi_references _ _ Hi He) as [t Ht]. exists t. apply Hmove; [by right|by left].
  - apply set_choose_L in He as [t Ht]. exists t. apply Hmove; [by left|by left].
Qed.

Context (build_ok : EvdiBuildOk).

Lemma object_ok schedule : ok (object_after env calls schedule).
Proof using build_ok some_user.
  apply trun_ok; [apply _|done|]. split; [apply new_object_inv|]. intros t p Hp.
  cbn in Hp. apply list_lookup_fmap_Some in Hp as (l & -> & Hl). apply lookup_lt_Some in Hl.
  apply user_safe; [done|constructor; cbn; [apply elem_of_set_seq; lia|done|done]|apply new_object_inv].
Qed.

End users.

(** C10 The patched mapping of a buffer is shared, and released exactly once.  For every
    build of the module, imported buffers and its own, any number of users with any
    calls of GRABPIX and of the cursor, whatever the allocators answer and however the
    threads interleave, with the last user freeing the object: none of the kernel's
    checks fires, so the counter of the dma-buf is 0 when it is dropped, GRABPIX never
    reads a mapping that is not there, and nothing is used after it is freed.  Outside
    the lock, the dma-buf is mapped once, or the pages pinned and mapped once, exactly
    if the object has a mapping; and when the object is gone, nothing is left. *)
Theorem vmap_balanced `{EvdiBuild} env calls schedule :
  EvdiBuildOk -> calls <> [] ->
  let s := shared (object_after env calls schedule) in
  bug s = false /\
  (vmap_lock s = None ->
     vmapping_counter s = (if imported && negb (vmapping s =? 0) then 1 else 0) /\
     pages_pin_count s = (if negb imported && negb (vmapping s =? 0) then 1 else 0) /\
     page_maps s = pages_pin_count s) /\
  (freed s = true -> vmapping_counter s = 0 /\ pages_pin_count s = 0 /\ page_maps s = 0).
Proof.
  intros Hok Hcalls s. destruct (object_ok env calls Hcalls Hok schedule) as [Hi _]. fold s in Hi.
  assert (Hs : vmap_lock s = None -> settled s) by apply (vi_settled _ _ Hi).
  split_and!; [apply (vi_fine _ _ Hi)|by intros []%Hs|].
  intros Hf. destruct (vi_freed _ _ Hi Hf) as (_ & Hl & Hv). destruct (Hs Hl) as [Hc Hp Hm].
  rewrite Hv in Hc, Hp. rewrite andb_false_r in Hc, Hp. split_and!; congruence.
Qed.

(** Two users of an imported buffer, in the order of the race. *)
Lemma vmap_balanced_witness :
  let s := shared (object_after (H := imported_build) sample_environment [[Grabpix]; [CursorSet true; Grabpix]]
    (flat_map (fun _ => [0; 1]%nat) (seq 0 40))) in
  freed s = true /\ bug s = false /\ vmapping_counter s = 0.
Proof.
  intros s. assert (Hf : freed s = true) by (vm_compute; reflexivity).
  destruct (vmap_balanced (H := imported_build) sample_environment [[Grabpix]; [CursorSet true; Grabpix]]
    (flat_map (fun _ => [0; 1]%nat) (seq 0 40)) imported_build_ok ltac:(done)) as (Hb & _ & Hfreed).
  split; [exact Hf|]. split; [exact Hb|]. exact (proj1 (Hfreed Hf)).
Defined.

(** C11 The object goes: nobody waits for the lock for ever.  Under every fair schedule
    all users return from their calls and the last one frees the object. *)
Theorem object_is_freed `{EvdiBuild} env calls schedule :
  EvdiBuildOk -> calls <> [] -> fair (length calls) schedule ->
  exists k, freed (shared (object_after env calls (map schedule (seq 0 k)))) = true.
Proof.
  intros Hok Hcalls Hfair.
  destruct (fair_reaches (perform env) no_code (object_start calls) schedule
    ltac:(cbn; by rewrite length_map) (fun c => freed (shared c) = true)) as [k Hk].
  - refine (Acc_impl _ _ _ (straight_terminates (perform env) no_code _) _). by intros c' c [_ Ht].
  - intros k Hk. apply (some_user_moves env calls Hcalls); [by apply object_ok| |by apply not_true_is_false].
    unfold turns. rewrite trun_length. cbn. by rewrite length_map.
  - by exists k.
Qed.

Lemma object_is_freed_witness :
  exists k, freed (shared (object_after (H := imported_build) sample_environment [[Grabpix]; [Grabpix]]
    (map (fun n => n mod 2)%nat (seq 0 k)))) = true.
Proof.
  apply (object_is_freed (H := imported_build) sample_environment [[Grabpix]; [Grabpix]] (fun n => n mod 2)%nat
    imported_build_ok ltac:(done)).
  apply fair_alternate.
Defined.
