(* ===== verification/Probe.v ===== *)
(** * Probe: the C enumeration tool

    Models src/probe/smiusb_probe.c: it prints the descriptors of the adapters that
    are present and, with [--watch], of those that come and go.  The program is a
    [prog] of one thread over what it asks of libusb and of the system.  libusb's
    allocations are part of the state: reading a configuration that was freed, an
    index out of range, a leak at the exit are visible as a crash or in the state. *)

From S2P Require Import Prelude Text Wire Header Threads.

Open Scope Z_scope.

(** ** libusb's descriptors *)

Record endpoint_descriptor := {
  bEndpointAddress : Z;
  bmAttributes : Z;
  wMaxPacketSize : Z;
  bInterval : Z;
}.

Record interface_descriptor := {
  bInterfaceNumber : Z;
  bAlternateSetting : Z;
  bInterfaceClass : Z;
  bInterfaceSubClass : Z;
  bInterfaceProtocol : Z;
  bNumEndpoints : Z;
  endpoints : list endpoint_descriptor;
}.

Record interface := {
  num_altsetting : Z;
  altsetting : list interface_descriptor;
}.

Record config_descriptor := {
  bConfigurationValue : Z;
  bNumInterfaces : Z;
  cfg_bmAttributes : Z;
  MaxPower : Z;
  interfaces : list interface;
}.

Record device_descriptor := {
  idVendor : Z;
  idProduct : Z;
  bcdUSB : Z;
  bcdDevice : Z;
  bNumConfigurations : Z;
}.

(** ** State *)

Definition SMI_VENDOR_ID : Z := 0x090c.
Definition SMI_SM768_PRODUCT_ID : Z := 0x0768.
Definition LIBUSB_ENDPOINT_DIR_MASK : Z := 0x80.
Definition LIBUSB_TRANSFER_TYPE_MASK : Z := 0x03.

Inductive observation :=
| Out (text : list Z)
| Err (text : list Z)
| Flush.

Inductive fate := Exited (code : Z) | Crashed.

(** The context, the device list and the configuration descriptors that libusb has
    handed out and not got back; the number of questions asked to the world. *)
Record state := {
  context : bool;
  device_list : bool;
  registered : bool;
  configs : list (Z * config_descriptor);
  clock : nat;
  trace : list observation;
  ended : option fate;
}.

Record world := {
  w_init : Z;
  (** [libusb_get_device_list]: the count or an error, and the devices *)
  w_list : Z * list Z;
  w_descriptor : Z -> Z * device_descriptor;
  (** bus number and address *)
  w_location : Z -> Z * Z;
  w_config : Z -> Z -> Z * config_descriptor;
  w_register : Z;
  w_error_name : Z -> list Z;
  (** [stop_requested], set by a signal *)
  w_stop : nat -> bool;
  (** [time(NULL)] *)
  w_time : nat -> Z;
  (** handling events: the result, and the devices with their events *)
  w_events : nat -> Z * list (Z * Z);
}.

Definition initial_state : state :=
  {| context := false; device_list := false; registered := false; configs := [];
     clock := 0; trace := []; ended := None |}.

Inductive op : Type -> Type :=
| Init : op Z
| ExitContext : op unit
| GetDeviceList : op (Z * list Z)
| FreeDeviceList : op unit
| GetDescriptor (device : Z) : op (Z * device_descriptor)
| GetLocation (device : Z) : op (Z * Z)
| GetConfig (device index : Z) : op (Z * Z)          (* the result, and a pointer *)
| Deref (config : Z) : op config_descriptor
| FreeConfig (config : Z) : op unit
| ErrorName (code : Z) : op (list Z)
| Write (o : observation) : op unit
| Register : op Z
| Deregister : op unit
| StopRequested : op bool
| Time : op Z
| HandleEvents : op (Z * list (Z * Z))
| Undefined : op unit
| Return (code : Z) : op unit.

#[local] Abbreviation program := (prog op).
#[local] Abbreviation act := (@Threads.act op _).

(** ** The functions of the probe *)

Definition print (text : list Z) : program unit := act (Write (Out (text ++ [10]))).
Definition complain (text : list Z) : program unit := act (Write (Err (text ++ [10]))).

(** [array[index]]; out of range is undefined. *)
Definition at_index {A} (array : list A) (index : Z) (body : A -> program unit) : program unit :=
  match array !! Z.to_nat index with
  | Some x => body x
  | None => act Undefined
  end.

(** [for (T i = 0; i < bound; ++i) body], with [i] wrapped by the type [T]; the fuel
    bounds the turns, and a loop that needs more does not end. *)
Fixpoint loop (wrap : Z -> Z) (fuel : nat) (i bound : Z) (body : Z -> program unit) : program unit :=
  match fuel with
  | O => act Undefined
  | S fuel =>
      if i <? bound then
        let% _ := body i in
        loop wrap fuel (wrap (i + 1)) bound body
      else Ret tt
  end.

(** A [uint8_t] counter, and an [int] one. *)
Definition wrap_u8 (v : Z) : Z := v mod 256.
Definition for_u8 (bound : Z) (body : Z -> program unit) : program unit :=
  loop wrap_u8 (S (Z.to_nat bound)) 0 bound body.
Definition for_int (bound : Z) (body : Z -> program unit) : program unit :=
  loop (fun v => v) (S (Z.to_nat bound)) 0 bound body.

Definition endpoint_direction (e : endpoint_descriptor) : list Z :=
  if negb (Z.land (bEndpointAddress e) LIBUSB_ENDPOINT_DIR_MASK =? 0) then lit "IN" else lit "OUT".

Definition endpoint_type (e : endpoint_descriptor) : list Z :=
  let kind := Z.land (bmAttributes e) LIBUSB_TRANSFER_TYPE_MASK in
  if kind =? 0 then lit "control"
  else if kind =? 1 then lit "isochronous"
  else if kind =? 2 then lit "bulk"
  else if kind =? 3 then lit "interrupt"
  else lit "unknown".

Definition endpoint_line (e : endpoint_descriptor) : list Z :=
  lit "      endpoint=0x" ++ hex_pad 2 (bEndpointAddress e) ++ lit " direction=" ++ endpoint_direction e
  ++ lit " type=" ++ endpoint_type e ++ lit " max_packet=" ++ dec (wMaxPacketSize e)
  ++ lit " interval=" ++ dec (bInterval e).

Definition print_endpoint (e : endpoint_descriptor) : program unit := print (endpoint_line e).

Definition alternate_line (a : interface_descriptor) : list Z :=
  lit "    interface=" ++ dec (bInterfaceNumber a) ++ lit " alt=" ++ dec (bAlternateSetting a)
  ++ lit " class=" ++ hex_pad 2 (bInterfaceClass a) ++ lit "/" ++ hex_pad 2 (bInterfaceSubClass a)
  ++ lit "/" ++ hex_pad 2 (bInterfaceProtocol a) ++ lit " endpoints=" ++ dec (bNumEndpoints a).

Definition config_line (index : Z) (c : config_descriptor) : list Z :=
  lit "  config=" ++ dec index ++ lit " value=" ++ dec (bConfigurationValue c)
  ++ lit " interfaces=" ++ dec (bNumInterfaces c) ++ lit " attributes=0x"
  ++ hex_pad 2 (cfg_bmAttributes c) ++ lit " power=" ++ dec (MaxPower c * 2) ++ lit "mA".

Definition bcd (v : Z) : list Z := hex (Z.shiftr v 8) ++ lit "." ++ hex_pad 2 (Z.land v 0xff).

Definition device_line (event : list Z) (bus address : Z) (d : device_descriptor) : list Z :=
  event ++ lit " bus=" ++ dec bus ++ lit " address=" ++ dec address
  ++ lit " vid:pid=" ++ hex_pad 4 (idVendor d) ++ lit ":" ++ hex_pad 4 (idProduct d)
  ++ lit " usb=" ++ bcd (bcdUSB d) ++ lit " device=" ++ bcd (bcdDevice d)
  ++ lit " configurations=" ++ dec (bNumConfigurations d).

(** The body of the loop over the alternate settings. *)
Definition print_alternate (a : interface_descriptor) : program unit :=
  let% _ := print (alternate_line a) in
  for_u8 (bNumEndpoints a) (fun i => at_index (endpoints a) i print_endpoint).

(** The configuration that a pointer points to, in the loops of [print_device]. *)
Definition print_config (config index : Z) : program unit :=
  let% c := act (Deref config) in
  let% _ := print (config_line index c) in
  for_u8 (bNumInterfaces c) (fun i =>
    let% c := act (Deref config) in
    at_index (interfaces c) i (fun n =>
      for_int (num_altsetting n) (fun j =>
        let% _ := act (Deref config) in
        at_index (altsetting n) j print_alternate))).

Definition print_device (device : Z) (event : list Z) : program unit :=
  let% (result, descriptor) := act (GetDescriptor device) in
  if negb (result =? LIBUSB_SUCCESS) then
    let% name := act (ErrorName result) in
    complain (lit "descriptor read failed: " ++ name)
  else if negb (idVendor descriptor =? SMI_VENDOR_ID)
       || negb (idProduct descriptor =? SMI_SM768_PRODUCT_ID) then Ret tt
  else
  let% (bus, address) := act (GetLocation device) in
  let% _ := print (device_line event bus address descriptor) in
  let% _ := for_u8 (bNumConfigurations descriptor) (fun index =>
    let% (result, config) := act (GetConfig device index) in
    if negb (result =? LIBUSB_SUCCESS) then
      let% name := act (ErrorName result) in
      complain (lit "configuration " ++ dec index ++ lit " read failed: " ++ name)
    else
      let% _ := print_config config index in
      act (FreeConfig config)) in
  act (Write Flush).

Definition hotplug_callback (device event : Z) : program unit :=
  print_device device (if event =? LIBUSB_HOTPLUG_EVENT_DEVICE_ARRIVED then lit "arrived" else lit "left").

(** [(int)count] *)
Definition to_int (v : Z) : Z := (v + 2 ^ 31) mod 2 ^ 32 - 2 ^ 31.

(** [ssize_t] counts the devices. *)
Definition enumerate : program Z :=
  let% (count, devices) := act GetDeviceList in
  if count <? 0 then
    let% name := act (ErrorName (to_int count)) in
    let% _ := complain (lit "USB enumeration failed: " ++ name) in
    Ret 1
  else
  let% _ := for_int count (fun index => at_index devices index (fun d => print_device d (lit "present"))) in
  let% _ := act FreeDeviceList in
  Ret 0.

(** [atoi]; a number that [int] does not represent is undefined. *)
Definition is_space (c : Z) : bool := (c =? 32) || ((9 <=? c) && (c <=? 13)).
Fixpoint atoi_digits (acc : Z) (s : list Z) : Z :=
  match s with
  | c :: r => if is_ascii_digit c then atoi_digits (10 * acc + (c - 48)) r else acc
  | [] => acc
  end.
Fixpoint atoi (s : list Z) : option Z :=
  match s with
  | [] => Some 0
  | c :: r =>
      if is_space c then atoi r else
      let v := if c =? 45 then - atoi_digits 0 r
               else if c =? 43 then atoi_digits 0 r else atoi_digits 0 s in
      if (- 2 ^ 31 <=? v) && (v <? 2 ^ 31) then Some v else None
  end.

(** The head of the watching loop. *)
Record watching := { deadline : Z; last_result : Z }.

Definition finish (code : Z) : program (option watching) :=
  let% _ := act (Return code) in Ret None.

(** [main] behind its arguments; [watch_seconds] is 0 without [--watch]. *)
Definition probe (watch_seconds : Z) : program (option watching) :=
  let% result := act Init in
  if negb (result =? LIBUSB_SUCCESS) then
    let% name := act (ErrorName result) in
    let% _ := complain (lit "libusb_init failed: " ++ name) in
    finish 1
  else
  let% result := enumerate in
  if negb (result =? 0) || (watch_seconds =? 0) then
    let% _ := act ExitContext in
    finish result
  else
  let% result := act Register in
  if negb (result =? LIBUSB_SUCCESS) then
    let% name := act (ErrorName result) in
    let% _ := complain (lit "hotplug registration failed: " ++ name) in
    let% _ := act ExitContext in
    finish 1
  else
  let% now := act Time in
  Ret (Some {| deadline := now + watch_seconds; last_result := result |}).

(** [fprintf(stderr, "usage: %s ...", argv[0])]; without arguments [argv[0]] is
    null, and printing it is undefined. *)
Definition usage (argv : list (list Z)) : program (option watching) :=
  match argv with
  | [] => let% _ := act Undefined in Ret None
  | name :: _ =>
      let% _ := complain (lit "usage: " ++ name ++ lit " [--watch SECONDS]") in
      finish 2
  end.

Definition main_start (argv : list (list Z)) : program (option watching) :=
  match argv with
  | [_; flag; seconds] =>
      if bool_decide (flag = lit "--watch") then
        match atoi seconds with
        | None => let% _ := act Undefined in Ret None
        | Some watch_seconds =>
            if watch_seconds <? 1 then
              let% _ := complain (lit "--watch requires a positive number of seconds") in
              finish 2
            else probe watch_seconds
        end
      else usage argv
  | [_] => probe 0
  | _ => usage argv
  end.

Definition main_end (result : Z) : program (option watching) :=
  let% _ := act Deregister in
  let% _ := act ExitContext in
  finish (if (result =? LIBUSB_SUCCESS) || (result =? LIBUSB_ERROR_INTERRUPTED) then 0 else 1).

(** One turn of the watching loop. *)
Definition main_turn (w : watching) : program (option watching) :=
  let% requested := act StopRequested in
  let% now := if requested : bool then Ret (deadline w) else act Time in
  if negb (now <? deadline w) then main_end (last_result w) else
  let% (result, events) := act HandleEvents in
  let% _ := prog_each events (fun '(device, event) => hotplug_callback device event) in
  if negb (result =? LIBUSB_SUCCESS) && negb (result =? LIBUSB_ERROR_INTERRUPTED) then
    let% name := act (ErrorName result) in
    let% _ := complain (lit "event loop failed: " ++ name) in
    main_end result
  else Ret (Some {| deadline := deadline w; last_result := result |}).

(** ** The meaning of the operations *)

Definition set_libusb (c l r : bool) (s : state) : state :=
  {| context := c; device_list := l; registered := r; configs := configs s; clock := clock s;
     trace := trace s; ended := ended s |}.
Definition set_configs (cs : list (Z * config_descriptor)) (s : state) : state :=
  {| context := context s; device_list := device_list s; registered := registered s; configs := cs;
     clock := clock s; trace := trace s; ended := ended s |}.
Definition tick (s : state) : state :=
  {| context := context s; device_list := device_list s; registered := registered s;
     configs := configs s; clock := S (clock s); trace := trace s; ended := ended s |}.
Definition said (os : list observation) (s : state) : state :=
  {| context := context s; device_list := device_list s; registered := registered s;
     configs := configs s; clock := clock s; trace := trace s ++ os; ended := ended s |}.
Definition end_with (f : fate) (s : state) : state :=
  {| context := context s; device_list := device_list s; registered := registered s;
     configs := configs s; clock := clock s; trace := trace s; ended := Some f |}.

(** An address that is not in use. *)
Definition fresh (s : state) : Z := 1 + foldr Z.max 0 (map fst (configs s)).

Fixpoint find_config (p : Z) (cs : list (Z * config_descriptor)) : option config_descriptor :=
  match cs with
  | [] => None
  | (q, c) :: cs => if q =? p then Some c else find_config p cs
  end.

Fixpoint drop_config (p : Z) (cs : list (Z * config_descriptor)) : list (Z * config_descriptor) :=
  match cs with
  | [] => []
  | (q, c) :: cs => if q =? p then cs else (q, c) :: drop_config p cs
  end.

Definition nothing : config_descriptor :=
  {| bConfigurationValue := 0; bNumInterfaces := 0; cfg_bmAttributes := 0; MaxPower := 0;
     interfaces := [] |}.

(** libusb is used between its initialisation and its exit. *)
Definition in_context (s : state) : state := if context s then s else end_with Crashed s.

Section semantics.
Context (w : world).

Definition effect {R} (o : op R) (s : state) : state * R :=
  match o in op R return state * R with
  | Init => (set_libusb (w_init w =? LIBUSB_SUCCESS) (device_list s) (registered s) s, w_init w)
  | ExitContext => (set_libusb false (device_list s) (registered s) (in_context s), tt)
  | GetDeviceList => (set_libusb (context s) (0 <=? (w_list w).1) (registered s) (in_context s), w_list w)
  | FreeDeviceList =>
      (set_libusb (context s) false (registered s) (if device_list s then s else end_with Crashed s), tt)
  | GetDescriptor d => (in_context s, w_descriptor w d)
  | GetLocation d => (in_context s, w_location w d)
  | GetConfig d i =>
      let '(result, c) := w_config w d i in
      if result =? LIBUSB_SUCCESS
      then (set_configs ((fresh s, c) :: configs s) (in_context s), (result, fresh s))
      else (in_context s, (result, 0))
  | Deref p =>
      match find_config p (configs s) with
      | Some c => (s, c)
      | None => (end_with Crashed s, nothing)
      end
  | FreeConfig p =>
      match find_config p (configs s) with
      | Some _ => (set_configs (drop_config p (configs s)) s, tt)
      | None => (end_with Crashed s, tt)
      end
  | ErrorName code => (s, w_error_name w code)
  | Write o => (said [o] s, tt)
  | Register =>
      (set_libusb (context s) (device_list s) (w_register w =? LIBUSB_SUCCESS) (in_context s), w_register w)
  | Deregister => (set_libusb (context s) (device_list s) false (in_context s), tt)
  | StopRequested => (tick s, w_stop w (clock s))
  | Time => (tick s, w_time w (clock s))
  | HandleEvents => (tick (in_context s), w_events w (clock s))
  | Undefined => (end_with Crashed s, tt)
  | Return code => (end_with (Exited code) s, tt)
  end.

Definition perform (R : Type) (o : op R) (t : nat) (s : state) : option (state * R) :=
  match ended s with Some _ => None | None => Some (effect o s) end.

Definition run {A} (p : program A) (s : state) : state * option A := exec_prog perform 0 p s.

(** The program: its start, then up to [fuel] turns of its loop; it has ended when
    there is no next turn. *)
Fixpoint watch (fuel : nat) (next : watching) (s : state) : state * bool :=
  match fuel with
  | O => (s, false)
  | S fuel =>
      match run (main_turn next) s with
      | (s, Some (Some next)) => watch fuel next s
      | (s, _) => (s, true)
      end
  end.

Definition probe_main (fuel : nat) (argv : list (list Z)) : state * bool :=
  match run (main_start argv) initial_state with
  | (s, Some (Some next)) => watch fuel next s
  | (s, _) => (s, true)
  end.
End semantics.

(** ** The report, without loops *)

Section report.
Context (w : world).

Definition alternate_report (a : interface_descriptor) : list observation :=
  Out (alternate_line a ++ [10]) :: map (fun e => Out (endpoint_line e ++ [10])) (endpoints a).

Definition config_report (device index : Z) : list observation :=
  let '(result, c) := w_config w device index in
  if negb (result =? LIBUSB_SUCCESS) then
    [Err ((lit "configuration " ++ dec index ++ lit " read failed: " ++ w_error_name w result) ++ [10])]
  else
    Out (config_line index c ++ [10])
    :: flat_map (fun n => flat_map alternate_report (altsetting n)) (interfaces c).

Definition device_report (device : Z) (event : list Z) : list observation :=
  let '(result, d) := w_descriptor w device in
  if negb (result =? LIBUSB_SUCCESS) then
    [Err ((lit "descriptor read failed: " ++ w_error_name w result) ++ [10])]
  else if negb (idVendor d =? SMI_VENDOR_ID) || negb (idProduct d =? SMI_SM768_PRODUCT_ID) then []
  else
    let '(bus, address) := w_location w device in
    Out (device_line event bus address d ++ [10])
    :: flat_map (config_report device) (seqZ 0 (bNumConfigurations d)) ++ [Flush].

(** What libusb documents of its descriptors: the counts are those of the arrays, and
    have one byte. *)
Definition alternate_ok (a : interface_descriptor) : Prop :=
  bNumEndpoints a = len (endpoints a) /\ bNumEndpoints a <= 255.
Definition interface_ok (n : interface) : Prop :=
  num_altsetting n = len (altsetting n) /\ Forall alternate_ok (altsetting n).
Definition config_ok (c : config_descriptor) : Prop :=
  bNumInterfaces c = len (interfaces c) /\ bNumInterfaces c <= 255 /\
  Forall interface_ok (interfaces c).

Record world_ok : Prop := {
  wo_configs : forall d, bNumConfigurations (w_descriptor w d).2 <= 255;
  wo_config : forall d i, (w_config w d i).1 = LIBUSB_SUCCESS -> config_ok (w_config w d i).2;
  wo_list : 0 <= (w_list w).1 -> (w_list w).1 = len (w_list w).2;
}.

(** ** Programs that only speak *)

Lemma run_bind {A B} (p : program A) (k : A -> program B) s :
  run w (let% a := p in k a) s =
    match run w p s with (s, Some a) => run w (k a) s | (s, None) => (s, None) end.
Proof. apply exec_prog_bind. Qed.

Lemma run_act {A R} (o : op R) (k : R -> program A) s :
  ended s = None -> run w (let% a := act o in k a) s = run w (k (effect w o s).2) (effect w o s).1.
Proof. intros He. unfold run. cbn. unfold perform. rewrite He. by destruct (effect w o s). Qed.

Lemma run_last {R} (o : op R) s :
  ended s = None -> run w (act o) s = ((effect w o s).1, Some (effect w o s).2).
Proof. intros He. unfold run. cbn. unfold perform. rewrite He. by destruct (effect w o s). Qed.

Lemma said_said o1 o2 s : said o2 (said o1 s) = said (o1 ++ o2) s.
Proof. unfold said. cbn. by rewrite app_assoc. Qed.

Lemma said_nil s : said [] s = s.
Proof. destruct s. unfold said. cbn. by rewrite app_nil_r. Qed.

(** Where [P] holds, the program prints [os] and changes nothing else. *)
Definition says (P : state -> Prop) (p : program unit) (os : list observation) : Prop :=
  forall s, P s -> run w p s = (said os s, Some tt).

(** A condition on what is not printed. *)
Definition silent (P : state -> Prop) : Prop := forall s os, P s -> P (said os s).

Section speaking.
Context (P : state -> Prop) (HP : silent P) (Hrun : forall s, P s -> ended s = None).

Lemma says_ret : says P (Ret tt) [].
Proof. intros s _. by rewrite said_nil. Qed.

Lemma says_bind p q os os' :
  says P p os -> says P q os' -> says P (let% _ := p in q) (os ++ os').
Proof using HP.
  intros Hp Hq s Hs. rewrite run_bind, (Hp s Hs), (Hq (said os s)) by by apply HP.
  by rewrite said_said.
Qed.

Lemma says_print text : says P (print text) [Out (text ++ [10])].
Proof using Hrun. intros s Hs. unfold run, print. cbn. unfold perform. by rewrite Hrun. Qed.

(** A counting loop whose counter does not wrap says what its turns say, in order. *)
Lemma says_loop wrap (body : Z -> program unit) report n fuel i :
  (forall j, 0 <= j < i + Z.of_nat n -> wrap (j + 1) = j + 1) -> 0 <= i -> (n < fuel)%nat ->
  (forall j, i <= j < i + Z.of_nat n -> says P (body j) (report j)) ->
  says P (loop wrap fuel i (i + Z.of_nat n) body) (flat_map report (seqZ i (Z.of_nat n))).
Proof using HP.
  revert fuel i. induction n as [|n IH]; intros fuel i Hw Hi Hf Hx;
    (destruct fuel as [|fuel]; [lia|]); cbn [loop].
  - rewrite (proj2 (Z.ltb_ge _ _)) by lia. apply says_ret.
  - rewrite (proj2 (Z.ltb_lt _ _)), seqZ_cons by lia. cbn [flat_map].
    apply says_bind; [apply Hx; lia|]. rewrite Hw by lia.
    replace (i + Z.of_nat (S n)) with ((i + 1) + Z.of_nat n) in * by lia.
    replace (Z.pred (Z.of_nat (S n))) with (Z.of_nat n) by lia. apply IH; [done|lia..|].
    intros j Hj. apply Hx. lia.
Qed.

Lemma says_for_u8 n body report :
  n <= 255 -> (forall j, 0 <= j < n -> says P (body j) (report j)) ->
  says P (for_u8 n body) (flat_map report (seqZ 0 n)).
Proof using HP.
  intros Hn Hx. unfold for_u8. destruct (Z.leb_spec 0 n) as [H0|H0].
  - rewrite <- (Z2Nat.id n H0) at 2 3. apply (says_loop wrap_u8 body report _ _ 0); [|lia..|].
    + intros j Hj. unfold wrap_u8. apply Z.mod_small. lia.
    + intros j Hj. apply Hx. lia.
  - cbn [loop]. rewrite (proj2 (Z.ltb_ge _ _)) by lia. unfold seqZ. rewrite Z2Nat.nonpos by lia.
    apply says_ret.
Qed.

Lemma says_for_int n body report :
  (forall j, 0 <= j < n -> says P (body j) (report j)) ->
  says P (for_int n body) (flat_map report (seqZ 0 n)).
Proof using HP.
  intros Hx. unfold for_int. destruct (Z.leb_spec 0 n) as [H0|H0].
  - rewrite <- (Z2Nat.id n H0) at 2 3. apply (says_loop (fun v => v) body report _ _ 0); [done|lia..|].
    intros j Hj. apply Hx. lia.
  - cbn [loop]. rewrite (proj2 (Z.ltb_ge _ _)) by lia. unfold seqZ. rewrite Z2Nat.nonpos by lia.
    apply says_ret.
Qed.
End speaking.

(** Indexing an array over its whole length visits its elements. *)
Lemma flat_map_index {A B} (xs : list A) (f : A -> list B) :
  flat_map (fun j => match xs !! Z.to_nat j with Some x => f x | None => [] end) (seqZ 0 (len xs))
  = flat_map f xs.
Proof.
  induction xs as [|x xs IH] using rev_ind; [done|].
  rewrite len_app. change (len [x]) with 1. rewrite seqZ_app, !flat_map_app by len_lia.
  f_equal.
  - rewrite <- IH, !flat_map_concat_map. f_equal. apply map_ext_in. intros j Hj.
    apply list_elem_of_In, elem_of_seqZ in Hj. rewrite lookup_app_l; [done|]. unfold len in Hj. lia.
  - rewrite seqZ_cons by lia. cbn [flat_map]. rewrite lookup_app_r by (unfold len; lia).
    replace (Z.to_nat (0 + len xs) - length xs)%nat with O by (unfold len; lia). by cbn.
Qed.

Definition running (s : state) : Prop := ended s = None /\ context s = true.

Lemma says_at_index P {A} (xs : list A) j body report :
  0 <= j < len xs -> (forall x, x ∈ xs -> says P (body x) (report x)) ->
  says P (at_index xs j body) (match xs !! Z.to_nat j with Some x => report x | None => [] end).
Proof.
  intros Hj Hx. unfold at_index. destruct (xs !! Z.to_nat j) as [x|] eqn:E.
  - apply Hx. by eapply list_elem_of_lookup_2.
  - apply lookup_ge_None in E. unfold len in Hj. lia.
Qed.

(** A configuration that libusb has handed out. *)
Definition holds (p : Z) (c : config_descriptor) (s : state) : Prop :=
  ended s = None /\ find_config p (configs s) = Some c.

Lemma says_deref p c (k : config_descriptor -> program unit) os :
  says (holds p c) (k c) os -> says (holds p c) (let% c := act (Deref p) in k c) os.
Proof.
  intros Hk s [He Hc]. rewrite run_bind. unfold run at 1. cbn. unfold perform. rewrite He. cbn.
  rewrite Hc. by apply Hk.
Qed.

Lemma print_alternate_says P a :
  silent P -> (forall s, P s -> ended s = None) -> alternate_ok a ->
  says P (print_alternate a) (alternate_report a).
Proof.
  intros HP Hr [Hn Hl]. unfold print_alternate, alternate_report.
  change (Out ?t :: ?l) with ([Out t] ++ l). apply says_bind; [done|by apply says_print|].
  rewrite Hn in *. eapply eq_ind; [apply says_for_u8; [done|done|]|].
  - intros j Hj. apply says_at_index; [done|]. intros e _. by apply says_print.
  - rewrite flat_map_index. clear. induction (endpoints a) as [|e l IH]; [done|].
    cbn [flat_map map]. by rewrite IH.
Qed.

Lemma print_config_says p c index :
  config_ok c ->
  says (holds p c) (print_config p index)
    (Out (config_line index c ++ [10])
     :: flat_map (fun n => flat_map alternate_report (altsetting n)) (interfaces c)).
Proof.
  intros (Hn & Hl & Hc). unfold print_config. rewrite Forall_forall in Hc.
  assert (HP : silent (holds p c)) by by intros s os [].
  assert (Hr : forall s, holds p c s -> ended s = None) by by intros ? [].
  apply says_deref. change (Out ?t :: ?l) with ([Out t] ++ l).
  apply says_bind; [done|by apply says_print|]. rewrite Hn in *. rewrite <- flat_map_index.
  apply says_for_u8; [done|done|]. intros i Hi. apply says_deref. apply says_at_index; [done|].
  intros n Hin. destruct (Hc n Hin) as [Hm Ha]. rewrite Forall_forall in Ha. rewrite Hm, <- flat_map_index.
  apply says_for_int; [done|]. intros j Hj. apply says_deref. apply says_at_index; [done|].
  intros a Hin'. apply print_alternate_says; [done..|]. by apply Ha.
Qed.

Context (Hw : world_ok).

(** One turn of the loop over the configurations; the descriptor is freed. *)
Lemma config_turn_says device index :
  says running
    (let% (result, config) := act (GetConfig device index) in
     if negb (result =? LIBUSB_SUCCESS) then
       let% name := act (ErrorName result) in
       complain (lit "configuration " ++ dec index ++ lit " read failed: " ++ name)
     else
       let% _ := print_config config index in
       act (FreeConfig config))
    (config_report device index).
Proof using Hw.
  intros s [He Hc]. rewrite run_act by done. cbn [effect]. unfold config_report, in_context. rewrite Hc.
  pose proof (wo_config Hw device index) as Hok. destruct (w_config w device index) as [result c].
  cbn [fst snd] in Hok. destruct (result =? LIBUSB_SUCCESS) eqn:Hr; cbn [fst snd]; rewrite Hr; cbn [negb].
  - rewrite run_bind, (print_config_says (fresh s) c index) by
      (first [by apply Hok, Z.eqb_eq|split; [done|]; cbn; by rewrite Z.eqb_refl]).
    rewrite run_last by done. cbn. rewrite Z.eqb_refl. by destruct s.
  - rewrite run_act by done. cbn [effect fst snd]. unfold complain. by rewrite run_last.
Qed.

Lemma running_silent : silent running.
Proof. by intros s os []. Qed.

Lemma running_ended s : running s -> ended s = None.
Proof. by intros []. Qed.

(** The probe prints of a device exactly its report and leaves libusb as it found
    it: the error of a descriptor that cannot be read; nothing of a foreign device; of
    an adapter one line, then for every configuration its error or its line with the
    lines of all its interfaces, alternate settings and endpoints in order.  No 8-bit
    counter wraps, no index is out of range, and every configuration descriptor is
    freed once, after its last use. *)
Lemma print_device_correct device event s :
  running s -> run w (print_device device event) s = (said (device_report device event) s, Some tt).
Proof using Hw.
  intros [He Hc]. unfold print_device. rewrite run_act by done. cbn [effect]. unfold device_report, in_context.
  rewrite Hc. cbn [fst snd]. pose proof (wo_configs Hw device) as Hn.
  destruct (w_descriptor w device) as [result d]. cbn [snd] in Hn.
  case_test as Hr; [rewrite run_act by done; cbn [effect fst snd]; unfold complain; by rewrite run_last|].
  case_test; [unfold run; cbn; by rewrite said_nil|].
  rewrite run_act by done. cbn [effect fst snd]. unfold in_context. rewrite Hc.
  destruct (w_location w device) as [bus address]. cbn beta iota.
  change (Out ?t :: ?l) with ([Out t] ++ l).
  apply (says_bind running running_silent); [by apply (says_print running running_ended)| |by split].
  apply (says_bind running running_silent).
  - apply (says_for_u8 running running_silent); [done|]. intros j _. apply config_turn_says.
  - intros s' [He' _]. by rewrite run_last.
Qed.

(** The lines of the devices that are present, and the status of the enumeration. *)
Definition list_report : list observation * Z :=
  let '(count, devices) := w_list w in
  if count <? 0 then
    ([Err ((lit "USB enumeration failed: " ++ w_error_name w (to_int count)) ++ [10])], 1)
  else (flat_map (fun d => device_report d (lit "present")) devices, 0).

Lemma enumerate_correct s :
  running s -> device_list s = false ->
  run w enumerate s = (said list_report.1 s, Some list_report.2).
Proof using Hw.
  intros [He Hc] Hl. unfold enumerate. rewrite run_act by done. cbn [effect]. unfold in_context. rewrite Hc.
  cbn [fst snd]. unfold list_report. pose proof (wo_list Hw) as Hn.
  destruct (w_list w) as [count devices]. cbn [fst snd] in *.
  destruct (Z.ltb_spec count 0) as [Hneg|Hpos].
  - rewrite (proj2 (Z.leb_gt 0 count)) by done. rewrite run_act by done. cbn [effect fst snd].
    rewrite run_bind. unfold complain. rewrite run_last by done. cbn [effect fst snd]. unfold run. cbn.
    f_equal. rewrite <- Hc, <- Hl at 1. by destruct s.
  - rewrite (proj2 (Z.leb_le 0 count)) by done. rewrite run_bind, (Hn Hpos).
    rewrite (says_for_int running running_silent (len devices) _
      (fun j => match devices !! Z.to_nat j with Some d => device_report d (lit "present") | None => [] end)).
    + rewrite flat_map_index, run_act by done. cbn [effect fst snd said device_list set_libusb].
      unfold run. cbn. f_equal. rewrite <- Hc, <- Hl at 1. by destruct s.
    + intros j Hj. apply says_at_index; [done|]. intros d _ s' Hs'. by apply print_device_correct.
    + by split.
Qed.

(** Everything that libusb handed out is back. *)
Definition released (s : state) : Prop :=
  context s = false /\ device_list s = false /\ registered s = false /\ configs s = [].

(** In the loop, between two turns. *)
Definition in_loop (s : state) : Prop :=
  running s /\ device_list s = false /\ registered s = true /\ configs s = [].

Definition event_name (event : Z) : list Z :=
  if event =? LIBUSB_HOTPLUG_EVENT_DEVICE_ARRIVED then lit "arrived" else lit "left".

Definition events_report (events : list (Z * Z)) : list observation :=
  flat_map (fun '(device, event) => device_report device (event_name event)) events.

Lemma callbacks_correct events s :
  running s ->
  run w (prog_each events (fun '(device, event) => hotplug_callback device event)) s =
    (said (events_report events) s, Some tt).
Proof using Hw.
  revert s. induction events as [|[device event] events IH]; intros s Hs.
  - unfold run. cbn. by rewrite said_nil.
  - cbn [prog_each]. rewrite run_bind. unfold hotplug_callback.
    rewrite print_device_correct by done. rewrite IH by by apply running_silent.
    by rewrite said_said.
Qed.

(** The status of a program that watched. *)
Definition status (result : Z) : Z :=
  if (result =? LIBUSB_SUCCESS) || (result =? LIBUSB_ERROR_INTERRUPTED) then 0 else 1.

(** What the program prints while it watches until [deadline], from question [k] to
    the world on, and its status.  A turn asks for a stop, for the time and for the
    events: each event is reported, as an arrival or a departure, in order.
    [last] is the result of the turn before. *)
Inductive watched (deadline : Z) : nat -> Z -> list observation -> Z -> Prop :=
| watched_stopped k last :
    w_stop w k = true -> watched deadline k last [] (status last)
| watched_over k last :
    w_stop w k = false -> deadline <= w_time w (k + 1) ->
    watched deadline k last [] (status last)
| watched_failed k last result events :
    w_stop w k = false -> w_time w (k + 1) < deadline -> w_events w (k + 2) = (result, events) ->
    status result = 1 ->
    watched deadline k last
      (events_report events
       ++ [Err ((lit "event loop failed: " ++ w_error_name w result) ++ [10])]) 1
| watched_turn k last result events os code :
    w_stop w k = false -> w_time w (k + 1) < deadline -> w_events w (k + 2) = (result, events) ->
    status result = 0 -> watched deadline (k + 3) result os code ->
    watched deadline k last (events_report events ++ os) code.

(** The program has ended with [code] and has printed [os]; nothing is kept. *)
Definition ends_with (s s' : state) (os : list observation) (code : Z) : Prop :=
  released s' /\ trace s' = trace s ++ os /\ ended s' = Some (Exited code).

Lemma finish_correct code s :
  ended s = None -> run w (finish code) s = (end_with (Exited code) s, Some None).
Proof. intros He. unfold finish. by rewrite run_act. Qed.

Lemma main_end_correct result s os :
  in_loop s ->
  exists s', run w (main_end result) (said os s) = (s', Some None) /\
    ends_with s s' os (status result).
Proof.
  intros ([He Hc] & Hl & Hr & Hcs). unfold main_end. rewrite run_act by done.
  cbn [effect fst snd]. unfold in_context. cbn [said context]. rewrite Hc.
  rewrite run_act by done. cbn [effect fst snd]. unfold in_context. cbn [set_libusb context].
  rewrite finish_correct by done. eexists. split; [done|]. by split_and!.
Qed.

Lemma status_cases result : status result = 0 \/ status result = 1.
Proof. unfold status. case_match; auto. Qed.

(** The turn that ends the loop before it handles events. *)
Lemma loop_over next s s1 :
  in_loop s1 -> trace s1 = trace s ->
  exists s', run w (main_end (last_result next)) s1 = (s', Some None) /\
    ends_with s s' [] (status (last_result next)).
Proof.
  intros H1 Ht. destruct (main_end_correct (last_result next) s1 [] H1) as (s' & E & H').
  rewrite said_nil in E. exists s'. split; [done|]. destruct H' as (? & ? & ?).
  split_and!; [done| |done]. congruence.
Qed.

(** One turn of the loop: it ends, or it goes on behind its three questions. *)
Lemma main_turn_correct next s :
  in_loop s ->
  exists s',
    (exists result events, run w (main_turn next) s =
       (s', Some (Some {| deadline := deadline next; last_result := result |})) /\
     in_loop s' /\ clock s' = (clock s + 3)%nat /\ trace s' = trace s ++ events_report events /\
     w_time w (S (clock s)) < deadline next /\
     forall os code, watched (deadline next) (clock s') result os code ->
       watched (deadline next) (clock s) (last_result next) (events_report events ++ os) code) \/
    (exists os code, run w (main_turn next) s = (s', Some None) /\ ends_with s s' os code /\
     watched (deadline next) (clock s) (last_result next) os code).
Proof using Hw.
  intros Hs. pose proof Hs as ([He Hc] & Hl & Hr & Hcs). unfold main_turn.
  rewrite run_act by done. cbn [effect fst snd].
  destruct (w_stop w (clock s)) eqn:Hstop.
  { cbn [prog_bind]. rewrite (proj2 (Z.ltb_ge _ _)) by done. cbn [negb].
    destruct (loop_over next s (tick s)) as (s' & ? & ?); [done..|].
    exists s'. right. do 2 eexists. split_and!; [done|done|]. by apply watched_stopped. }
  rewrite run_act by done. cbn [effect fst snd tick clock].
  destruct (Z.ltb_spec (w_time w (S (clock s))) (deadline next)) as [Ht|Ht]; cbn [negb].
  2: { destruct (loop_over next s (tick (tick s))) as (s' & ? & ?); [done..|].
       exists s'. right. do 2 eexists. split_and!; [done|done|].
       apply watched_over; [done|]. by rewrite Nat.add_1_r. }
  rewrite run_act by done. cbn [effect fst snd]. unfold in_context. cbn [tick context clock].
  rewrite Hc. destruct (w_events w _) as [result events] eqn:Hev.
  replace (S (S (clock s))) with (clock s + 2)%nat in Hev by lia.
  rewrite run_bind, callbacks_correct by by split.
  set (s3 := tick _). assert (in_loop s3) as H3 by done.
  destruct (negb (result =? LIBUSB_SUCCESS) && negb (result =? LIBUSB_ERROR_INTERRUPTED)) eqn:Hbad.
  - assert (status result = 1) as Hst
      by (unfold status; by rewrite <- negb_orb in Hbad; apply negb_true_iff in Hbad as ->).
    rewrite run_act by done. cbn [effect fst snd]. rewrite run_bind. unfold complain.
    rewrite run_last by done. cbn [effect fst snd]. rewrite said_said.
    destruct (main_end_correct result s3 (events_report events ++ [Err
      ((lit "event loop failed: " ++ w_error_name w result) ++ [10])]) H3) as (s' & E & H').
    rewrite Hst in H'. exists s'. right. do 2 eexists. split_and!; [exact E|exact H'|].
    apply watched_failed; [done|by rewrite Nat.add_1_r|done|done].
  - assert (status result = 0) as Hst
      by (unfold status; by rewrite <- negb_orb in Hbad; apply negb_false_iff in Hbad as ->).
    exists (said (events_report events) s3). left. exists result, events.
    split_and!; try done; [cbn; lia|]. intros os code Hos.
    eapply watched_turn; [done|by rewrite Nat.add_1_r|exact Hev|done|].
    by replace (clock s + 3)%nat with (clock (said (events_report events) s3)) by (cbn; lia).
Qed.

(** The loop ends once the deadline has passed on the clock. *)
Lemma watch_correct bound fuel next s :
  (forall n, (bound <= n)%nat -> deadline next <= w_time w n) ->
  in_loop s -> (bound <= clock s + fuel)%nat ->
  exists s' os code, watch w (S fuel) next s = (s', true) /\ ends_with s s' os code /\
    watched (deadline next) (clock s) (last_result next) os code.
Proof using Hw.
  revert next s. induction fuel as [|fuel IH]; intros next s Hd Hs Hf.
  all: destruct (main_turn_correct next s Hs) as
    (s' & [(result & events & E & Hs' & Hc & Ht & Hlt & Hos)|(os & code & E & He & Hos)]);
    [|exists s', os, code; by cbn [watch]; rewrite E].
  - specialize (Hd (S (clock s)) ltac:(lia)). lia.
  - destruct (IH {| deadline := deadline next; last_result := result |} s') as
      (s2 & os & code & E' & (Hr & Ht' & Hcode) & Hw'); [done|done|lia|].
    exists s2, (events_report events ++ os), code. split_and!.
    + cbn [watch] in E' |- *. by rewrite E.
    + split_and!; [done| |done]. by rewrite Ht', Ht, app_assoc.
    + by apply Hos.
Qed.

(** What [main] prints behind its arguments and before its loop, and its status if
    there is no loop. *)
Definition probed_report (seconds : Z) : list observation * option Z :=
  if negb (w_init w =? LIBUSB_SUCCESS) then
    ([Err ((lit "libusb_init failed: " ++ w_error_name w (w_init w)) ++ [10])], Some 1)
  else if negb (list_report.2 =? 0) || (seconds =? 0) then (list_report.1, Some list_report.2)
  else if w_register w =? LIBUSB_SUCCESS then (list_report.1, None)
  else
    (list_report.1
     ++ [Err ((lit "hotplug registration failed: " ++ w_error_name w (w_register w)) ++ [10])],
     Some 1).

Definition start_report (argv : list (list Z)) : list observation * option Z :=
  let usage_report :=
    ([Err ((lit "usage: " ++ default [] (head argv) ++ lit " [--watch SECONDS]") ++ [10])],
     Some 2) in
  match argv with
  | [_; flag; seconds] =>
      if bool_decide (flag = lit "--watch") then
        match atoi seconds with
        | Some n =>
            if n <? 1
            then ([Err (lit "--watch requires a positive number of seconds" ++ [10])], Some 2)
            else probed_report n
        | None => ([], None)
        end
      else usage_report
  | [_] => probed_report 0
  | _ => usage_report
  end.

(** The seconds to watch, 0 without a loop; [None] for the arguments that C gives no
    meaning: none at all, not even a name, and a number that [int] does not hold. *)
Definition watch_seconds (argv : list (list Z)) : option Z :=
  match argv with
  | [] => None
  | [_; flag; seconds] => if bool_decide (flag = lit "--watch") then atoi seconds else Some 0
  | _ => Some 0
  end.

(** The whole output and the status: the start, and the watching behind it. *)
Definition probe_output (argv : list (list Z)) (seconds : Z) (os : list observation) (code : Z)
    : Prop :=
  match start_report argv with
  | (start, Some c) => os = start /\ code = c
  | (start, None) =>
      exists rest, os = start ++ rest /\
        watched (w_time w 0 + seconds) 1 LIBUSB_SUCCESS rest code
  end.

Lemma complain_finish text code s :
  ended s = None ->
  run w (let% _ := complain text in finish code) s =
    (end_with (Exited code) (said [Err (text ++ [10])] s), Some None).
Proof. intros He. rewrite run_bind. unfold complain. rewrite run_last by done. by apply finish_correct. Qed.

Lemma probe_start_correct n :
  exists s', trace s' = (probed_report n).1 /\
    match (probed_report n).2 with
    | Some code =>
        run w (probe n) initial_state = (s', Some None) /\ released s' /\
        ended s' = Some (Exited code)
    | None =>
        run w (probe n) initial_state =
          (s', Some (Some {| deadline := w_time w 0 + n; last_result := LIBUSB_SUCCESS |})) /\
        in_loop s' /\ clock s' = 1%nat
    end.
Proof using Hw.
  unfold probe, probed_report. rewrite run_act by done. cbn [effect fst snd].
  destruct (w_init w =? LIBUSB_SUCCESS) eqn:Hi; cbn [negb].
  2: { rewrite run_act by done. cbn [effect fst snd]. rewrite complain_finish by done.
       eexists. split; [|split; [done|]]; done. }
  rewrite run_bind, enumerate_correct by done.
  destruct (negb (list_report.2 =? 0) || (n =? 0)) eqn:Hstop; cbn [orb].
  { rewrite run_act by done. cbn [effect fst snd]. unfold in_context. cbn [said set_libusb context].
    rewrite finish_correct by done. eexists. split; [|split; [done|]]; done. }
  rewrite run_act by done. cbn [effect fst snd]. unfold in_context. cbn [said set_libusb context].
  destruct (Z.eqb_spec (w_register w) LIBUSB_SUCCESS) as [Hr|Hr]; cbn [negb].
  - rewrite run_act by done. cbn [effect fst snd]. rewrite Hr.
    eexists. split; [|split; [done|]]; done.
  - rewrite run_act by done. cbn [effect fst snd]. rewrite run_bind. unfold complain.
    rewrite run_last by done. cbn [effect fst snd]. rewrite run_act by done. cbn [effect fst snd].
    unfold in_context. cbn [said set_libusb context]. rewrite finish_correct by done.
    eexists. split; [|split; [done|]]; done.
Qed.

(** A run that watches for [n] seconds, or not at all. *)
Lemma probe_main_correct argv n bound fuel :
  run w (main_start argv) initial_state = run w (probe n) initial_state ->
  start_report argv = probed_report n ->
  (forall k, (bound <= k)%nat -> w_time w 0 + n <= w_time w k) -> (bound < fuel)%nat ->
  exists s os code, probe_main w fuel argv = (s, true) /\
    ends_with initial_state s os code /\ probe_output argv n os code.
Proof using Hw.
  intros E Hrep Htime Hfuel. unfold probe_main, probe_output. rewrite E, Hrep.
  destruct (probe_start_correct n) as (s & Ht & Hs).
  destruct (probed_report n) as [start [code|]]; cbn [fst snd] in Ht, Hs.
  - destruct Hs as (-> & Hr & He). exists s, start, code. by split_and!.
  - destruct Hs as (-> & Hs & Hc). destruct fuel as [|fuel]; [lia|].
    destruct (watch_correct bound fuel
      {| deadline := w_time w 0 + n; last_result := LIBUSB_SUCCESS |} s)
      as (s' & os & code & Ew & (Hr & Ht' & He) & Hos); [done|done|lia|].
    exists s', (start ++ os), code. rewrite Hc in Hos. split; [done|]. split; [|by exists os].
    split; [done|]. split; [|done]. by rewrite Ht', Ht.
Qed.

(** A run that ends with a message about its arguments. *)
Lemma probe_refused argv seconds fuel text :
  run w (main_start argv) initial_state =
    (end_with (Exited 2) (said [Err (text ++ [10])] initial_state), Some None) ->
  start_report argv = ([Err (text ++ [10])], Some 2) ->
  exists s os code, probe_main w fuel argv = (s, true) /\
    ends_with initial_state s os code /\ probe_output argv seconds os code.
Proof using Type.
  intros E Hrep. unfold probe_main, probe_output. rewrite E, Hrep.
  do 3 eexists. split; [done|]. split; [|by split]. by split_and!.
Qed.

(** C21 The probe, whole, for arguments that C gives a meaning and descriptors as
    libusb documents them: it ends, within [bound] readings of the clock if it
    watches, with everything that libusb handed out given back, and its output and
    status are exactly these.  A usage error or an error of libusb is reported with
    its status; otherwise the report of every device present, with its
    configurations, interfaces and endpoints; then, while it watches, turn by turn
    the report of every device that libusb announces, as "arrived" or "left" as the
    event says, until a stop is requested, the time is over or the event loop fails,
    which is reported last.  Its 8-bit loop counters never wrap, no index is out of
    range and no descriptor is used after it is freed. *)
Theorem probe_correct argv seconds bound fuel :
  watch_seconds argv = Some seconds ->
  (forall n, (bound <= n)%nat -> w_time w 0 + seconds <= w_time w n) -> (bound < fuel)%nat ->
  exists s os code, probe_main w fuel argv = (s, true) /\
    ends_with initial_state s os code /\ probe_output argv seconds os code.
Proof using Hw.
  intros Hsec Htime Hfuel. destruct argv as [|p [|flag [|secs [|? ?]]]].
  - done.
  - injection Hsec as <-. by apply (probe_main_correct _ 0 bound).
  - eapply probe_refused; [by apply complain_finish|done].
  - cbn [watch_seconds] in Hsec.
    destruct (bool_decide (flag = lit "--watch")) eqn:Hflag.
    + destruct (Z.ltb_spec seconds 1) as [Hlt|Hge].
      * eapply probe_refused; cbn [main_start start_report]; rewrite Hflag, Hsec;
          rewrite (proj2 (Z.ltb_lt _ _)) by done; [by apply complain_finish|done].
      * apply (probe_main_correct _ seconds bound); cbn [main_start start_report];
          rewrite ?Hflag, ?Hsec, ?(proj2 (Z.ltb_ge _ _) Hge); done.
    + eapply probe_refused; cbn [main_start start_report]; rewrite Hflag;
        [by apply complain_finish|done].
  - eapply probe_refused; [by apply complain_finish|done].
Qed.
End report.

(** ** Witness *)

Definition sample_config : config_descriptor :=
  {| bConfigurationValue := 1; bNumInterfaces := 1; cfg_bmAttributes := 0x80; MaxPower := 250;
     interfaces := [{| num_altsetting := 1; altsetting := [
       {| bInterfaceNumber := 0; bAlternateSetting := 0; bInterfaceClass := 255; bInterfaceSubClass := 0;
          bInterfaceProtocol := 0; bNumEndpoints := 2; endpoints := [
            {| bEndpointAddress := 0x02; bmAttributes := 2; wMaxPacketSize := 512; bInterval := 0 |};
            {| bEndpointAddress := 0x81; bmAttributes := 3; wMaxPacketSize := 64; bInterval := 4 |}] |}] |}] |}.

(** A foreign device and an adapter of two configurations, of which one cannot be read;
    the adapter leaves while the probe watches. *)
Definition sample_world : world :=
  {| w_init := 0; w_list := (2, [1; 7]);
     w_descriptor := fun d => (0, {| idVendor := if d =? 7 then 0x090c else 0x1d6b; idProduct := 0x0768;
       bcdUSB := 0x0300; bcdDevice := 0x0112; bNumConfigurations := 2 |});
     w_location := fun _ => (2, 5);
     w_config := fun _ i => (if i =? 0 then 0 else -4, sample_config); w_register := 0;
     w_error_name := fun _ => lit "LIBUSB_ERROR_NO_DEVICE"; w_stop := fun _ => false;
     w_time := fun n => 100 + Z.of_nat n;
     w_events := fun n => (0, [(7, LIBUSB_HOTPLUG_EVENT_DEVICE_LEFT)]) |}.

Lemma sample_world_ok : world_ok sample_world.
Proof.
  constructor; cbn; try done. intros d i _. split_and!; [done..|].
  constructor; [|constructor]. split; [done|]. by repeat constructor.
Qed.

Definition sample_argv : list (list Z) := [lit "smiusb-probe"; lit "--watch"; lit "3"].

(** The lines of the adapter, in order. *)
Example sample_report :
  device_report sample_world 7 (lit "present") =
    [Out (lit "present bus=2 address=5 vid:pid=090c:0768 usb=3.00 device=1.12 configurations=2" ++ [10]);
     Out (lit "  config=0 value=1 interfaces=1 attributes=0x80 power=500mA" ++ [10]);
     Out (lit "    interface=0 alt=0 class=ff/00/00 endpoints=2" ++ [10]);
     Out (lit "      endpoint=0x02 direction=OUT type=bulk max_packet=512 interval=0" ++ [10]);
     Out (lit "      endpoint=0x81 direction=IN type=interrupt max_packet=64 interval=4" ++ [10]);
     Err (lit "configuration 1 read failed: LIBUSB_ERROR_NO_DEVICE" ++ [10]);
     Flush].
Proof. vm_compute. reflexivity. Qed.

Lemma probe_correct_witness :
  exists s os code, probe_main sample_world 10 sample_argv = (s, true) /\
    ends_with initial_state s os code /\ probe_output sample_world sample_argv 3 os code.
Proof.
  apply (probe_correct sample_world sample_world_ok sample_argv 3 3 10);
    [vm_compute; reflexivity|intros n Hn; cbn; lia|lia].
Defined.

(** A count of seconds that [int] does not hold has no defined meaning. *)
Example atoi_overflow : atoi (lit "3000000000") = None /\ atoi (lit " 60s") = Some 60.
Proof. vm_compute. split; reflexivity. Qed.
